(* ===== verification/_CoqProject ===== *)
-Q . S2P
Prelude.v
Ordering.v
Enums.v
Sha256.v
Identity.v
Canonical.v
Evidence.v
Capacity.v
Claims.v
Codec.v
Canonicalize.v
Authority.v
Forest.v
Site.v
SiteCodec.v
Snapshot.v
StoreFormat.v
Store.v
Protocol.v
Samples.v
Admit.v
Attribute.v
Domains.v
Maintenance.v
Ledger.v
Verdicts.v
Compose.v
Encodable.v
Decoded.v
Synthetic.v
Controller.v
Transport.v
Execution.v
Publisher.v
Terms.v
Threads.v
Recompositions.v
Sessions.v
Recovery.v
Invalidate.v
Intake.v
CommandLine.v
MemberTool.v
Display.v
ControllerTool.v
InspectTool.v
Sockets.v
Files.v
