(* ===== verification/Prelude.v ===== *)
(** Site Fabric: a verification library.

    Site Fabric composes the declarations of member domains - racks, pods, clusters, gateways -
    into one description of a site. A member's publisher seals its declaration and offers it
    to the site's controller over a framed TCP protocol; the controller fences the offer with
    its authority registry, records it, composes everything it holds into a site, and publishes
    that as the next snapshot of a chain; a persistent store keeps publications, retirements
    and snapshots across restarts. This library models that program file by file and proves
    what makes it correct. Source paths are under src/.

    Parts, from the bottom up (each file names the functions it models):

    - Prelude: results, machine integers, lists; Ordering: the interface [Ord] of sort keys,
      canonical sorting and ordered maps (std::sort, std::unique, std::map).
    - Enums, Identity, Evidence, Capacity, Claims: the model (include/site_fabric/*.hpp,
      src/core/model.cpp, evidence.cpp, capacity.cpp, digest.cpp); Sha256: the digest
      (src/internal/crypto.cpp).
    - Canonical, Codec, SiteCodec: the canonical encoding (src/core/canonical.cpp, codec.cpp).
      [decodes r w a] is the contract of every codec; [OnWire] resets the fields a format omits.
    - Canonicalize, Forest, Site: canonical forms of declarations, the failure-domain forest and
      the lookups over a site (src/compose/validate.cpp).
    - Admit, Attribute, Domains, Maintenance, Ledger, Verdicts, Compose, Invalidate: the stages
      of the composer in the order [Composer::run] calls them, and invalidation
      (src/compose/compose.cpp). Each stage is a function of what the earlier ones produced.
      Encodable: every stage keeps what it produces within the bounds of the snapshot format;
      Decoded: every reader returns only values within the bounds of its format.
    - Synthetic: the generator of synthetic sites (src/synthetic/synthetic.cpp), a state monad
      over its stream of random numbers, with the inputs it builds for the composer.
    - Authority: the registry of leases, epochs, incarnations and fences
      (src/authority/authority.cpp). Snapshot: the chain (src/core/snapshot.cpp).
    - StoreFormat, Store: the store's file and its operations (src/persistence/persistence.cpp).
    - Protocol: frames and messages (src/protocol/protocol.cpp); [Message] is the interface the
      sixteen message types implement, and its laws serve the controller and the publisher.
      Transport: frames off a socket; Sockets: frames onto it, connections, listeners and the
      descriptors they own (src/transport/tcp.cpp).
    - Controller: the site controller (src/controller/controller.cpp), which owns a registry, a
      chain, a store and the sessions of its connections; Publisher: its client
      (src/publisher/publisher.cpp).
    - Threads: the controller's entry points as the critical sections they consist of, which
      threads run in any order; Recompositions: what that does to recompose. Execution, Terms,
      Sessions, Recovery, Intake: theorems on the running controller, which apply the theorems
      of its parts. Samples: concrete sites for the witnesses.
    - Files: the disk behind the store's environment, and the log (src/internal/files.cpp,
      log.cpp). Display: the text of every composite record, the site summary and the version
      lines.
    - CommandLine, MemberTool, ControllerTool, InspectTool: the three processes of src/tools/,
      from their arguments to their exit codes. What a process meets outside - clocks, the
      network, the threads of the controller between two turns of its watch - is a record, its
      world; what it leaves is its output, its frames and how it ended.

    How state and operations correspond. A class is a record of its members; an entry point is
    a function from its arguments and the record to its result and the record it leaves. Each
    entry point of the registry, the chain and the store holds one mutex from start to end and
    is one step. The controller holds its mutexes in turns, and there are two models of its
    executions. In [Execution] an event is a single frame of any session, the end of a session
    or a call of the host, each taken as a whole, in any order. In [Threads] an entry point is a
    thread, its [section]s are what the source does under one lock - the registry lock, the
    authority's, the chain's or the store's - and a system runs the sections of its threads in
    any order, with arguments that are arbitrary where a session would choose them; a thread
    that runs alone does what the entry point does ([alone_publishes], [alone_retires],
    [alone_recomposes], [alone_ends], [alone_hello]). What depends on how the sections of
    different threads fall is stated of systems ([publication_accepted_once],
    [recomposition_publishes]) or of the sections themselves
    ([interleaved_publications_regress]). Readings of the clock, outcomes of file and
    socket calls and random numbers are arguments of the definitions, so that a theorem holds
    for all of them. A std::optional is an option, a reference to an output is part of the
    result, a null dereference is [None].

    What the theorems show.

    - Composition: independence of the order of arrival, the exact meaning of CURRENT, of
      admission, of attribution and of the capacity ledger and when it closes, soundness of
      obligation verdicts, exactness of invalidation, totality ([composition_order_independent],
      [site_current_iff], [admission_exact], [attribution_exact], [ledger_exact],
      [ledger_closes_iff], [obligation_verdict_sound], [invalidation_exact],
      [composition_total], [resolve_ancestry_exact]). A composed site fits the format it is
      stored and sent in ([composed_site_carried], under the sizes named by [sizes_fit]).
    - Type soundness: what is decoded from any bytes is within the format
      ([decoded_publish_request]), and a running controller never holds what it could not store,
      send or read back, whatever it is sent and whatever its file holds
      ([controller_holds_encodable]).
    - Synthetic sites: what the generator declares is canonical, sealed, published once and expected
      ([generated_input_sound]) and, being simulated, never makes a site current
      ([synthetic_never_current]).
    - Authority: over any sequence of calls, fenced epochs and incarnations stay fenced, and so
      does a recorded publication as long as what is recorded after it asked the fence after it
      ([acquire_grants_authority], [superseded_epoch_never_valid], [no_publication_replay]). Of
      the controller: a publication is accepted once ([publication_accepted_once]), unless two of
      one domain are between fence and record at once ([interleaved_publications_regress]), and
      an ended session has no authority ([ended_session_has_no_authority]).
    - Recomposition: it publishes what it composed, or another thread's recomposition overtook
      it ([recomposition_publishes]).
    - Persistence: the chain and the store refine logs ([chain_refines_log],
      [store_refines_log], [publication_fenced]), a cut file loses only its tail
      ([crash_recovers_prefix]), and a restarted controller knows exactly what the surviving log
      says ([restart_recovers]). A kill during
      an atomic write leaves the old file or the new ([atomic_write_survives_kill]), and the
      calls of files.cpp are what the store takes them for ([files_refine_store]).
    - Formats: round trips and refusal of every prefix ([declaration_codec], [snapshot_codec],
      [message_delivered]), exact framing ([frames_exact]), canonical forms and digests
      ([canonicalize_order_independent], [seal_correct], [streaming_digest_spec]).
    - Client and controller together: whatever the cutting of the stream, frames arrive in order
      ([frames_delivered_in_order]), a hello makes both ends agree ([hello_end_to_end]), a
      publication returns the controller's verdict ([publication_end_to_end]), and a publisher
      never speaks without a session ([publisher_speaks_for_itself]). However [send] behaves, a
      frame crosses a socket whole or not at all ([frame_whole_or_not_at_all]), and no call
      leaks a descriptor ([descriptors_owned]).
    - Tools: numbers of the command line fit their fields ([member_options_fit]); the member
      tool seals what it should and its exit codes mean what they say
      ([member_declaration_seals], [member_exit_codes], [member_hold_ends]); the controller tool
      expects the domains it is told and stops when it is told ([controller_expects_arguments],
      [controller_watch_ends]); inspection publishes nothing ([inspect_reads_only]).
    - Limits of the program, as theorems: [interleaved_publications_regress],
      [slow_header_loses_frame], [late_reply_answers_next], [append_after_damage_lost].

    Bounds and fuel. Integers are Z with their wrap-around written out where the source can
    leave the width; generations and epochs saturate as in the source. The climb to the root of
    the forest is the source's own loop with its budget of 32 levels. The recovery scan takes
    the length of the image as fuel, which is enough since each record it reads takes at least
    the 80 bytes of its header. Every other recursion is structural. std::sort on keys that can
    be equal is modelled as a stable sort, where the standard leaves the order open; the
    theorems on order state the absence of such ties. Statements that rest on digests being
    distinct name the absence of a SHA-256 collision as a hypothesis on the values at hand.

    Not modelled. Interleaving within a critical section, and reads of a field that another
    thread writes without a lock, which are part of a section; what the operating system and
    the C library do inside a call, which occurs as the outcome of that call; the random boot
    nonce, an argument; the branches for Windows and the socket options; and the examples,
    benchmarks and tests, which add no behaviour of their own. Destructors appear only where
    they decide something, as the [close] of what they destroy. *)

From Stdlib Require Export ZArith Lia Strings.Byte Strings.String.
From stdpp Require Export base tactics option list strings numbers pretty.

Global Set Default Proof Using "Type".
#[export] Set Warnings "-clear-no-such-hyp".
Global Open Scope Z_scope.

Create HintDb fabric.
Create Rewrite HintDb fabric.

(** * Results: a value, or the error that replaced it *)

Inductive result (E A : Type) : Type :=
| Ok (a : A)
| Err (e : E).
Global Arguments Ok {E A} a.
Global Arguments Err {E A} e.

#[export] Instance result_ret E : MRet (result E) := λ A a, Ok a.
#[export] Instance result_bind E : MBind (result E) := λ A B f r,
  match r with Ok a => f a | Err e => Err e end.

Definition is_Ok {E A} (r : result E A) : Prop := ∃ a, r = Ok a.

Lemma result_bind_Ok {E A B} (f : A → result E B) (r : result E A) b :
  r ≫= f = Ok b ↔ ∃ a, r = Ok a ∧ f a = Ok b.
Proof. destruct r; simpl; split; [eauto | by intros (?&[= <-]&?) | done | by intros (?&?&?)]. Qed.

Lemma result_bind_Err {E A B} (f : A → result E B) (r : result E A) e :
  r ≫= f = Err e ↔ r = Err e ∨ ∃ a, r = Ok a ∧ f a = Err e.
Proof.
  destruct r; simpl; split; [eauto | by intros [?|(?&[= <-]&?)] | naive_solver | ].
  by intros [[= ->]|(?&?&?)].
Qed.

(** * Machine integers

    Integers are [Z]; an unsigned width-[w] value is one in [0, 2^w), and every
    operation of the source that can leave the range is followed by [wrap w]. *)

Definition wrap (w z : Z) : Z := z mod 2 ^ w.
Definition in_u (w z : Z) : Prop := 0 ≤ z < 2 ^ w.
Definition in_i64 (z : Z) : Prop := - 2 ^ 63 ≤ z < 2 ^ 63.

(** [static_cast<std::uint64_t>] of a signed value, and back. *)
Definition u64_of_i64 (z : Z) : Z := wrap 64 z.
Definition i64_of_u64 (z : Z) : Z := if z <? 2 ^ 63 then z else z - 2 ^ 64.

Lemma wrap_small w z : in_u w z → wrap w z = z.
Proof. unfold in_u, wrap. apply Z.mod_small. Qed.

Lemma wrap_range w z : 0 ≤ w → in_u w (wrap w z).
Proof. intros. unfold in_u, wrap. apply Z.mod_pos_bound, Z.pow_pos_nonneg; lia. Qed.

Lemma u64_of_i64_range z : in_u 64 (u64_of_i64 z).
Proof. by apply wrap_range. Qed.

Lemma i64_of_u64_of_i64 z : in_i64 z → i64_of_u64 (u64_of_i64 z) = z.
Proof.
  unfold in_i64, i64_of_u64, u64_of_i64, wrap. intros [Hlo Hhi].
  destruct (decide (0 ≤ z)).
  - rewrite Z.mod_small by lia. by rewrite (proj2 (Z.ltb_lt _ _)) by lia.
  - rewrite <- (Z.mod_add z 1 (2 ^ 64)) by lia. rewrite Z.mod_small by lia.
    rewrite (proj2 (Z.ltb_ge _ _)) by lia. lia.
Qed.

(** Disjoint bit fields add. *)
Lemma lor_shiftl_add a b n : 0 ≤ n → 0 ≤ a < 2 ^ n → Z.lor a (Z.shiftl b n) = a + b * 2 ^ n.
Proof.
  intros Hn Ha. rewrite <- Z.shiftl_mul_pow2 by lia. rewrite <- Z.add_lor_land.
  replace (Z.land a (Z.shiftl b n)) with 0; [lia|].
  symmetry. apply Z.bits_inj'. intros i Hi. rewrite Z.land_spec, Z.bits_0.
  destruct (decide (i < n)).
  - rewrite Z.shiftl_spec_low by lia. apply andb_false_r.
  - rewrite <- (Z.mod_small a (2 ^ n)) by lia. by rewrite Z.mod_pow2_bits_high by lia.
Qed.

(** * Bytes *)

Definition byte_val (b : byte) : Z := Z.of_N (Byte.to_N b).
(** [static_cast<std::uint8_t>]. *)
Definition to_byte (z : Z) : byte :=
  match Byte.of_N (Z.to_N (wrap 8 z)) with Some b => b | None => x00 end.

#[export] Instance byte_eq_dec : EqDecision byte := Byte.byte_eq_dec.

Lemma byte_val_range b : 0 ≤ byte_val b < 256.
Proof. unfold byte_val. pose proof (Byte.to_N_bounded b). lia. Qed.

Lemma to_byte_val b : to_byte (byte_val b) = b.
Proof.
  unfold to_byte. rewrite wrap_small by (apply byte_val_range).
  unfold byte_val. by rewrite N2Z.id, Byte.of_to_N.
Qed.

Lemma byte_val_to_byte z : byte_val (to_byte z) = wrap 8 z.
Proof.
  unfold to_byte. pose proof (wrap_range 8 z ltac:(lia)) as Hr. unfold in_u in Hr.
  destruct (Byte.of_N (Z.to_N (wrap 8 z))) eqn:E.
  - unfold byte_val. apply Byte.to_of_N in E. rewrite E. lia.
  - apply Byte.of_N_None_iff in E. lia.
Qed.

#[export] Instance byte_val_inj : Inj (=) (=) byte_val.
Proof. intros a b H. by rewrite <- (to_byte_val a), <- (to_byte_val b), H. Qed.

Abbreviation bytes := (list byte).
Abbreviation string_bytes := String.list_byte_of_string.
Abbreviation bytes_string := String.string_of_list_byte.

Lemma string_bytes_inj s1 s2 : string_bytes s1 = string_bytes s2 → s1 = s2.
Proof.
  intros H. apply (f_equal bytes_string) in H.
  by rewrite !String.string_of_list_byte_of_string in H.
Qed.

Lemma length_string_bytes s : length (string_bytes s) = String.length s.
Proof. induction s; simpl; [done|]. unfold string_bytes in *. simpl. by f_equal. Qed.

(** The size of a container, as the [std::size_t] the source compares. *)
Definition zlen {A} (l : list A) : Z := Z.of_nat (length l).

Lemma zlen_nonneg {A} (l : list A) : 0 ≤ zlen l.
Proof. unfold zlen. lia. Qed.
Lemma zlen_app {A} (l k : list A) : zlen (l ++ k) = zlen l + zlen k.
Proof. unfold zlen. rewrite length_app. lia. Qed.
Lemma zlen_cons {A} (x : A) l : zlen (x :: l) = 1 + zlen l.
Proof. unfold zlen. simpl. lia. Qed.
#[export] Hint Rewrite @zlen_app @zlen_cons : fabric.

(** [std::to_string] of an unsigned integer. *)
Definition dec (z : Z) : string := pretty (Z.to_N z).

Lemma dec_inj a b : 0 ≤ a → 0 ≤ b → dec a = dec b → a = b.
Proof. unfold dec. intros ?? H%(inj pretty). lia. Qed.
