(* ===== verification/Ordering.v ===== *)
(** Total orders, canonical sorting and ordered maps.

    The source canonicalises every collection: [std::sort] (or [std::stable_sort]) by a
    key, then [std::unique], and it iterates over [std::map], whose order is the key order.
    This file gives the order interface [Ord] (the defaulted [operator<=>] of the source),
    its instances for the types the program compares, the stable sort [sort_by], the
    canonical form [sort_unique], and the ordered map [omap] with the lemmas that make
    canonical forms independent of arrival order. *)

From stdpp Require Import sorting.
From S2P Require Import Prelude.

(** * The order interface *)

Class Ord (A : Type) := {
  cmp : A → A → comparison;
  cmp_eq_iff : ∀ a b, cmp a b = Eq ↔ a = b;
  cmp_opp : ∀ a b, cmp b a = CompOpp (cmp a b);
  cmp_trans : ∀ a b c, cmp a b = Lt → cmp b c = Lt → cmp a c = Lt;
}.

Definition lt_key `{Ord A} (a b : A) : Prop := cmp a b = Lt.
Definition ltb `{Ord A} (a b : A) : bool := match cmp a b with Lt => true | _ => false end.
Definition le_key `{Ord A} (a b : A) : Prop := cmp a b ≠ Gt.

Section laws.
  Context `{Ord A}.
  Implicit Types a b c : A.

Lemma cmp_refl a : cmp a a = Eq.
Proof. by apply cmp_eq_iff. Qed.

Lemma ltb_lt a b : ltb a b = true ↔ lt_key a b.
Proof. unfold ltb, lt_key. by destruct (cmp a b). Qed.

Lemma ltb_ge a b : ltb a b = false ↔ le_key b a.
Proof. unfold ltb, le_key. rewrite (cmp_opp a b). by destruct (cmp a b). Qed.

Lemma ltb_irrefl a : ltb a a = false.
Proof. unfold ltb. by rewrite cmp_refl. Qed.

Lemma lt_irrefl a : ¬ lt_key a a.
Proof. unfold lt_key. by rewrite cmp_refl. Qed.

Lemma lt_le a b : lt_key a b → le_key a b.
Proof. unfold lt_key, le_key. by intros ->. Qed.

Lemma le_cases a b : le_key a b ↔ lt_key a b ∨ a = b.
Proof.
    unfold lt_key, le_key. rewrite <- (cmp_eq_iff a b).
    destruct (cmp a b); naive_solver.
Qed.

Lemma lt_total a b : lt_key a b ∨ a = b ∨ lt_key b a.
Proof.
    unfold lt_key. rewrite <- (cmp_eq_iff a b), (cmp_opp a b).
    destruct (cmp a b); auto.
Qed.

Lemma lt_asym a b : lt_key a b → ¬ lt_key b a.
Proof. unfold lt_key. rewrite (cmp_opp a b). by intros ->. Qed.

#[export] Instance lt_key_trans : Transitive (lt_key (A:=A)).
Proof. intros a b c. apply cmp_trans. Qed.

#[export] Instance le_key_preorder : PreOrder (le_key (A:=A)).
Proof.
    split.
    - intros a. apply le_cases. auto.
    - intros a b c. rewrite !le_cases. intros [?|<-] [?|<-]; auto. left. by trans b.
Qed.

Lemma le_antisym a b : le_key a b → le_key b a → a = b.
Proof. rewrite !le_cases. intros [Hl|] [Hr|]; auto. by destruct (lt_asym _ _ Hl). Qed.

Lemma le_lt_trans a b c : le_key a b → lt_key b c → lt_key a c.
Proof. rewrite le_cases. intros [?| ->]; [intros; by trans b | done]. Qed.

Lemma lt_le_trans a b c : lt_key a b → le_key b c → lt_key a c.
Proof. rewrite (le_cases b c). intros ? [?| <-]; [by trans b | done]. Qed.

Lemma le_total a b : le_key a b ∨ le_key b a.
Proof. rewrite !le_cases. destruct (lt_total a b) as [?|[?|?]]; auto. Qed.
End laws.

#[export] Hint Resolve lt_le : fabric.

(** * Instances *)

#[export] Instance Z_ord : Ord Z.
Proof.
  refine {| cmp := Z.compare |}.
  - apply Z.compare_eq_iff.
  - intros. apply Z.compare_antisym.
  - intros a b c. rewrite !Z.compare_lt_iff. lia.
Defined.

Definition bool_val (b : bool) : Z := if b then 1 else 0.
#[export] Instance bool_val_inj : Inj (=) (=) bool_val.
Proof. by intros [] []. Qed.

(** The order of a type read through an injection: field-wise records, enumerations. *)
Definition ord_inj {A B} `{Ord B} (f : A → B) {Hf : Inj (=) (=) f} : Ord A.
Proof.
  refine {| cmp a b := cmp (f a) (f b) |}.
  - intros a b. rewrite cmp_eq_iff. split; [apply Hf | by intros ->].
  - intros. apply cmp_opp.
  - intros a b c. apply cmp_trans.
Defined.

#[export] Instance bool_ord : Ord bool := ord_inj bool_val.
#[export] Instance byte_ord : Ord byte := ord_inj byte_val.

Definition then_cmp (c d : comparison) : comparison := match c with Eq => d | _ => c end.

#[export] Instance pair_ord `{Ord A, Ord B} : Ord (A * B).
Proof.
  refine {| cmp p q := then_cmp (cmp p.1 q.1) (cmp p.2 q.2) |}.
  - intros [a b] [c d]; simpl. rewrite pair_equal_spec, <- !cmp_eq_iff.
    destruct (cmp a c); naive_solver.
  - intros [a b] [c d]; simpl. rewrite (cmp_opp a c), (cmp_opp b d).
    by destruct (cmp a c), (cmp b d).
  - intros [a b] [c d] [e f]; simpl.
    destruct (cmp a c) eqn:E1; try done.
    + apply cmp_eq_iff in E1 as ->. destruct (cmp c e); try done. apply cmp_trans.
    + intros _. destruct (cmp c e) eqn:E2; try done.
      * apply cmp_eq_iff in E2 as ->. by rewrite E1.
      * by rewrite (cmp_trans _ _ _ E1 E2).
Defined.

(** Lexicographic comparison, a proper prefix being smaller: [std::string], [std::array]
    and [std::vector]. *)
Fixpoint list_cmp `{Ord A} (l k : list A) : comparison :=
  match l, k with
  | [], [] => Eq
  | [], _ => Lt
  | _, [] => Gt
  | x :: l', y :: k' => then_cmp (cmp x y) (list_cmp l' k')
  end.

#[export] Instance list_ord `{Ord A} : Ord (list A).
Proof.
  refine {| cmp := list_cmp |}.
  - induction a as [|x a IH]; intros [|y b]; simpl; try naive_solver.
    specialize (IH b). pose proof (cmp_eq_iff x y).
    destruct (cmp x y); simpl; naive_solver.
  - induction a as [|x a IH]; intros [|y b]; simpl; try done.
    rewrite (cmp_opp x y), IH. by destruct (cmp x y).
  - induction a as [|x a IH]; intros [|y b] [|z c]; simpl; try done.
    destruct (cmp x y) eqn:E1; try done; simpl.
    + apply cmp_eq_iff in E1 as ->. destruct (cmp y z); try done. apply IH.
    + intros _. destruct (cmp y z) eqn:E2; try done; simpl.
      * apply cmp_eq_iff in E2 as ->. by rewrite E1.
      * by rewrite (cmp_trans _ _ _ E1 E2).
Defined.

#[export] Instance string_bytes_Inj : Inj (=) (=) string_bytes.
Proof. intros s t. apply string_bytes_inj. Qed.
#[export] Instance string_ord : Ord string := ord_inj string_bytes.

(** [std::optional]: absent before present. *)
Definition option_list {A} (o : option A) : list A := match o with None => [] | Some a => [a] end.
#[export] Instance option_list_inj A : Inj (=) (=) (@option_list A).
Proof. intros [] []; naive_solver. Qed.
#[export] Instance option_ord `{Ord A} : Ord (option A) := ord_inj option_list.

(** * Sorting *)

Section sorting.
  Context {A K : Type} `{Ord K} (key : A → K).

  (** One insertion: before the first element whose key is not smaller. *)
Fixpoint insert_by (x : A) (l : list A) : list A :=
    match l with
    | [] => [x]
    | y :: l' => if ltb (key y) (key x) then y :: insert_by x l' else x :: l
    end.

  (** [std::stable_sort] by [key]; also [std::sort] where keys are distinct. *)
Definition sort_by (l : list A) : list A := foldr insert_by [] l.

Definition key_le (a b : A) : Prop := le_key (key a) (key b).
Definition key_lt (a b : A) : Prop := lt_key (key a) (key b).

#[export] Instance key_le_trans : Transitive key_le.
Proof. intros a b c. unfold key_le. apply transitivity. Qed.

Lemma insert_by_perm x l : insert_by x l ≡ₚ x :: l.
Proof.
    induction l as [|y l IH]; simpl; [done|]. case_match; [|done].
    rewrite IH. apply Permutation_swap.
Qed.

Lemma sort_by_perm l : sort_by l ≡ₚ l.
Proof. induction l as [|x l IH]; simpl; [done|]. by rewrite insert_by_perm, IH. Qed.

Lemma insert_by_sorted x l :
    StronglySorted key_le l → StronglySorted key_le (insert_by x l).
Proof.
    induction 1 as [|y l Hs IH Hf]; simpl; [by repeat constructor|].
    case_match eqn:E.
    - constructor; [done|]. rewrite insert_by_perm. constructor; [|done].
      apply lt_le. by apply ltb_lt.
    - apply ltb_ge in E. constructor; [by constructor|]. constructor; [done|].
      eapply Forall_impl; [done|]. intros z Hz. unfold key_le in *. by trans (key y).
Qed.

Lemma sort_by_sorted l : StronglySorted key_le (sort_by l).
Proof. induction l; simpl; [constructor | by apply insert_by_sorted]. Qed.

Lemma insert_by_head x l : Forall (key_le x) l → insert_by x l = x :: l.
Proof.
    destruct 1 as [|y l Hy]; simpl; [done|].
    by rewrite (proj2 (ltb_ge _ _) Hy).
Qed.

Lemma sort_by_id l : StronglySorted key_le l → sort_by l = l.
Proof.
    induction 1 as [|x l Hs IH Hf]; simpl; [done|]. rewrite IH. by apply insert_by_head.
Qed.

Lemma sort_by_idemp l : sort_by (sort_by l) = sort_by l.
Proof. apply sort_by_id, sort_by_sorted. Qed.

Lemma sort_by_elem l x : x ∈ sort_by l ↔ x ∈ l.
Proof. by rewrite sort_by_perm. Qed.

Lemma sort_by_length l : length (sort_by l) = length l.
Proof. by rewrite sort_by_perm. Qed.

  (** Two sorted lists with the same elements are equal when keys are distinct. *)
Lemma sorted_perm_unique l k :
    StronglySorted key_le l → StronglySorted key_le k → l ≡ₚ k → NoDup (key <$> l) → l = k.
Proof.
    intros Hl. revert k. induction Hl as [|x l Hs IH Hf]; intros k Hk Hp Hn.
    { by apply Permutation_nil_l in Hp as ->. }
    destruct Hk as [|y k Hsk Hfk].
    { by apply Permutation_nil_r in Hp. }
    assert (x = y) as <-.
    { assert (x ∈ y :: k) as Hx by (rewrite <- Hp; left).
      assert (y ∈ x :: l) as Hy by (rewrite Hp; left).
      apply elem_of_cons in Hx as [->|Hx]; [done|].
      apply elem_of_cons in Hy as [->|Hy]; [done|].
      rewrite Forall_forall in Hf, Hfk.
      assert (key x = key y) as Heq by (apply le_antisym; [by apply Hf | by apply Hfk]).
      simpl in Hn. apply NoDup_cons in Hn as [Hn _]. destruct Hn.
      rewrite Heq. by apply list_elem_of_fmap_2. }
    f_equal. apply IH; [done| by eapply Permutation_cons_inv |].
    simpl in Hn. by apply NoDup_cons in Hn as [_ ?].
Qed.

  (** Arrival order does not matter when keys are distinct. *)
Lemma sort_by_perm_eq l k : l ≡ₚ k → NoDup (key <$> l) → sort_by l = sort_by k.
Proof.
    intros Hp Hn. apply sorted_perm_unique; [apply sort_by_sorted..| |].
    - by rewrite !sort_by_perm.
    - by rewrite sort_by_perm.
Qed.
End sorting.

(** * Canonical form: [std::sort] followed by [erase(std::unique(...))] *)

Section canonical.
  Context {A : Type} `{Ord A, EqDecision A}.

  (** [std::unique]: drops an element equal to the last one kept. *)
Fixpoint unique_from (last : A) (l : list A) : list A :=
    match l with
    | [] => []
    | x :: l' => if decide (x = last) then unique_from last l' else x :: unique_from x l'
    end.
Definition unique (l : list A) : list A :=
    match l with [] => [] | x :: l' => x :: unique_from x l' end.

Definition sort_unique (l : list A) : list A := unique (sort_by id l).

Lemma unique_from_elem last l x : x ∈ last :: unique_from last l ↔ x ∈ last :: l.
Proof.
    revert last. induction l as [|y l IH]; intros last; simpl; [done|].
    case_decide as E.
    - subst. rewrite IH. rewrite !elem_of_cons. naive_solver.
    - rewrite elem_of_cons, IH, !elem_of_cons. naive_solver.
Qed.

Lemma unique_from_sorted last l :
    StronglySorted (key_le id) (last :: l) →
    StronglySorted lt_key (last :: unique_from last l).
Proof.
    revert last. induction l as [|y l IH]; intros last Hs; simpl; [by repeat constructor|].
    apply StronglySorted_inv in Hs as [Hs Hf].
    apply Forall_cons in Hf as [Hy Hf]. apply StronglySorted_inv in Hs as [Hs Hfy].
    case_decide as E.
    - apply IH. by constructor.
    - assert (lt_key last y) as Hlt
        by (unfold key_le in Hy; simpl in Hy; apply le_cases in Hy as [?|?]; [done|congruence]).
      assert (StronglySorted lt_key (y :: unique_from y l)) as Hu by (apply IH; by constructor).
      constructor; [done|]. apply StronglySorted_inv in Hu as [_ Hu].
      constructor; [done|]. eapply Forall_impl; [done|]. intros z Hz. simpl in Hz. by trans y.
Qed.

Lemma sort_unique_elem l x : x ∈ sort_unique l ↔ x ∈ l.
Proof.
    unfold sort_unique. rewrite <- (sort_by_elem id l).
    destruct (sort_by id l); simpl; [done|]. apply unique_from_elem.
Qed.

Lemma sort_unique_sorted l : StronglySorted lt_key (sort_unique l).
Proof.
    unfold sort_unique. pose proof (sort_by_sorted id l) as Hs.
    destruct (sort_by id l); simpl; [constructor | by apply unique_from_sorted].
Qed.

Lemma lt_sorted_NoDup l : StronglySorted lt_key l → NoDup l.
Proof.
    induction 1 as [|x l Hs IH Hf]; constructor; [|done].
    intros Hx. rewrite Forall_forall in Hf. by apply (lt_irrefl x), Hf.
Qed.

Lemma lt_sorted_le l : StronglySorted lt_key l → StronglySorted (key_le id) l.
Proof.
    induction 1 as [|x l Hs IH Hf]; constructor; [done|].
    eapply Forall_impl; [done|]. intros y. apply lt_le.
Qed.

Lemma le_sorted_NoDup_lt l : StronglySorted (key_le id) l → NoDup l → StronglySorted lt_key l.
Proof.
    induction 1 as [|x l Hs IH Hf]; [constructor|]. intros [Hx Hn]%NoDup_cons.
    constructor; [by apply IH|]. rewrite Forall_forall in Hf |- *. intros y Hy.
    destruct (proj1 (le_cases x y) (Hf y Hy)) as [?|<-]; done.
Qed.

Lemma lt_sorted_ext l k :
    StronglySorted lt_key l → StronglySorted lt_key k → (∀ x, x ∈ l ↔ x ∈ k) → l = k.
Proof.
    intros Hl Hk Hx. apply (sorted_perm_unique id).
    - by apply lt_sorted_le.
    - by apply lt_sorted_le.
    - apply NoDup_Permutation; [by apply lt_sorted_NoDup..|done].
    - rewrite list_fmap_id. by apply lt_sorted_NoDup.
Qed.

  (** The canonical form depends only on which elements the list holds. *)
Lemma sort_unique_ext l k : (∀ x, x ∈ l ↔ x ∈ k) → sort_unique l = sort_unique k.
Proof.
    intros Hx. apply lt_sorted_ext; [apply sort_unique_sorted..|].
    intros x. by rewrite !sort_unique_elem.
Qed.

Lemma sort_unique_idemp l : sort_unique (sort_unique l) = sort_unique l.
Proof. apply sort_unique_ext. intros x. apply sort_unique_elem. Qed.

Lemma sort_unique_length l : (length (sort_unique l) ≤ length l)%nat.
Proof.
    apply submseteq_length, NoDup_submseteq; [apply lt_sorted_NoDup, sort_unique_sorted|].
    intros x. apply sort_unique_elem.
Qed.
End canonical.

(** * Ordered maps: [std::map], as the strictly sorted list of its entries *)

Definition omap_t (K V : Type) := list (K * V).

Section ordered_map.
  Context {K V : Type} `{Ord K}.
  Implicit Types m : omap_t K V.

  (** [find]. *)
Fixpoint om_find (k : K) m : option V :=
    match m with
    | [] => None
    | (k', v) :: m' => match cmp k k' with Eq => Some v | _ => om_find k m' end
    end.

  (** [operator[]] assignment. *)
Fixpoint om_set (k : K) (v : V) m : omap_t K V :=
    match m with
    | [] => [(k, v)]
    | (k', v') :: m' =>
        match cmp k k' with
        | Lt => (k, v) :: m
        | Eq => (k, v) :: m'
        | Gt => (k', v') :: om_set k v m'
        end
    end.

Definition om_sorted m : Prop := StronglySorted lt_key (fst <$> m).

Lemma om_find_set_eq k v m : om_find k (om_set k v m) = Some v.
Proof.
    induction m as [|[k' v'] m IH]; simpl; [by rewrite cmp_refl|].
    destruct (cmp k k') eqn:E; simpl; rewrite ?cmp_refl, ?E; done.
Qed.

Lemma om_find_set_ne k k' v m : k ≠ k' → om_find k (om_set k' v m) = om_find k m.
Proof.
    intros Hne. assert (cmp k k' ≠ Eq) as Hc by (by rewrite cmp_eq_iff).
    induction m as [|[k'' v''] m IH]; simpl; [by destruct (cmp k k')|].
    destruct (cmp k' k'') eqn:E; simpl.
    - apply cmp_eq_iff in E as ->. by destruct (cmp k k'').
    - by destruct (cmp k k').
    - by rewrite IH.
Qed.

Lemma om_set_keys k v m x : x ∈ (om_set k v m).*1 ↔ x = k ∨ x ∈ m.*1.
Proof.
    induction m as [|[k' v'] m IH]; simpl;
      [by rewrite list_elem_of_singleton, elem_of_nil; naive_solver|].
    destruct (cmp k k') eqn:E; simpl; rewrite !elem_of_cons; [|naive_solver..].
    apply cmp_eq_iff in E as ->. naive_solver.
Qed.

Lemma om_set_sorted k v m : om_sorted m → om_sorted (om_set k v m).
Proof.
    unfold om_sorted. induction m as [|[k' v'] m IH]; simpl; [intros; by repeat constructor|].
    intros [Hs Hf]%StronglySorted_inv. destruct (cmp k k') eqn:E; simpl.
    - apply cmp_eq_iff in E as ->. by constructor.
    - constructor; [by constructor|]. constructor; [done|].
      eapply Forall_impl; [done|]. intros z Hz. by trans k'.
    - constructor; [by apply IH|]. rewrite Forall_forall. intros x.
      rewrite om_set_keys. intros [-> | Hx]; [|by rewrite Forall_forall in Hf; apply Hf].
      unfold lt_key. by rewrite (cmp_opp k k'), E.
Qed.

Lemma om_find_elem k v m : om_sorted m → om_find k m = Some v ↔ (k, v) ∈ m.
Proof.
    unfold om_sorted. induction m as [|[k' v'] m IH]; simpl; [by rewrite elem_of_nil|].
    intros [Hs Hf]%StronglySorted_inv. rewrite elem_of_cons.
    destruct (cmp k k') eqn:E.
    - apply cmp_eq_iff in E as ->. split; [intros [= ->]; auto|].
      intros [[= ->]|Hin]; [done|]. rewrite Forall_forall in Hf.
      destruct (lt_irrefl k'). apply Hf. apply (list_elem_of_fmap_2 fst) in Hin. done.
    - rewrite IH by done. split; [auto|]. intros [[= -> ->]|]; [|done].
      by rewrite cmp_refl in E.
    - rewrite IH by done. split; [auto|]. intros [[= -> ->]|]; [|done].
      by rewrite cmp_refl in E.
Qed.

Lemma om_keys_find k m : k ∈ m.*1 ↔ is_Some (om_find k m).
Proof.
    induction m as [|[k' v'] m IH]; simpl.
    - rewrite elem_of_nil. split; [done|]. by intros [? ?].
    - rewrite elem_of_cons, IH. destruct (cmp k k') eqn:E.
      + apply cmp_eq_iff in E. naive_solver.
      + split; [intros [->|]; [by rewrite cmp_refl in E|done]|auto].
      + split; [intros [->|]; [by rewrite cmp_refl in E|done]|auto].
Qed.
(** Ordered maps with the same lookups are the same. *)
Lemma om_ext m m' : om_sorted m → om_sorted m' → (∀ k, om_find k m = om_find k m') → m = m'.
Proof.
    intros Hm Hm' Heq. assert (∀ x, x ∈ m ↔ x ∈ m') as Hin.
    { intros [k v]. by rewrite <- !om_find_elem, Heq. }
    assert (∀ l : omap_t K V, om_sorted l → StronglySorted (key_le fst) l) as Hs.
    { unfold om_sorted. clear. induction l as [|x l IH]; [constructor|]. simpl.
      intros [Hl Hf]%StronglySorted_inv. constructor; [by apply IH|].
      apply Forall_forall. intros y Hy. apply lt_le. rewrite Forall_forall in Hf. apply Hf.
      by apply list_elem_of_fmap_2. }
    apply (sorted_perm_unique fst); [by apply Hs..| |by apply lt_sorted_NoDup].
    apply NoDup_Permutation; [| |done].
    - apply (NoDup_fmap_1 fst). by apply lt_sorted_NoDup.
    - apply (NoDup_fmap_1 fst). by apply lt_sorted_NoDup.
Qed.

End ordered_map.

(** [for (auto& [key, value] : map)]: every value replaced, keys kept. *)
Definition om_map {K V W} (f : K → V → W) (m : omap_t K V) : omap_t K W := (λ p, (p.1, f p.1 p.2)) <$> m.

Lemma om_map_keys {K V W} (f : K → V → W) (m : omap_t K V) : (om_map f m).*1 = m.*1.
Proof. unfold om_map. rewrite <- list_fmap_compose. by apply list_fmap_ext. Qed.

Lemma om_find_map `{Ord K} {V W} (f : K → V → W) k (m : omap_t K V) :
  om_find k (om_map f m) = f k <$> om_find k m.
Proof.
  induction m as [|[k' v] m IH]; simpl; [done|].
  destruct (cmp k k') eqn:E; [by apply cmp_eq_iff in E as ->|done|done].
Qed.
