(* ===== verification/Enums.v ===== *)
(** Enumerations, their numeric codes and their stable tokens.

    One Module per [enum class] of the public headers, with the source's enumerators in
    their numeric order; the token tables and the predicates of [src/core/model.cpp]. The
    numeric code is what the codecs write ([static_cast<std::uint8_t>]) and what the order
    of map keys compares. *)

From S2P Require Import Prelude Ordering.

(** * The interface of a C++ enumeration *)

Class Enum (E : Type) := {
  enum_values : list E;
  enum_code : E → Z;
  enum_values_code : ∀ e, enum_values !! Z.to_nat (enum_code e) = Some e;
  enum_codes : enum_code <$> enum_values = Z.of_nat <$> seq 0 (length enum_values);
}.

(** [static_cast<E>] of a validated code; [None] for a value no enumerator has. *)
Definition enum_of_code `{Enum E} (z : Z) : option E :=
  if 0 <=? z then enum_values !! Z.to_nat z else None.

Section enum.
  Context `{Enum E}.

Lemma enum_code_lookup i e : enum_values !! i = Some e → enum_code e = Z.of_nat i.
Proof.
    intros Hi. pose proof enum_codes as Hc.
    assert ((enum_code <$> enum_values) !! i = Some (enum_code e)) as Hl
      by (by rewrite list_lookup_fmap, Hi).
    rewrite Hc, list_lookup_fmap in Hl. apply lookup_lt_Some in Hi.
    rewrite lookup_seq_lt in Hl by done. simpl in Hl. congruence.
Qed.

Lemma enum_code_nonneg e : 0 ≤ enum_code e.
Proof. rewrite (enum_code_lookup _ e (enum_values_code e)). lia. Qed.

Lemma enum_code_max e : enum_code e < zlen enum_values.
Proof.
    pose proof (enum_values_code e) as Hl. pose proof (enum_code_nonneg e).
    apply lookup_lt_Some in Hl. unfold zlen. lia.
Qed.

Lemma enum_of_code_code e : enum_of_code (enum_code e) = Some e.
Proof.
    unfold enum_of_code. rewrite (proj2 (Z.leb_le _ _) (enum_code_nonneg e)).
    apply enum_values_code.
Qed.

Lemma enum_code_of_code z e : enum_of_code z = Some e → enum_code e = z.
Proof.
    unfold enum_of_code. destruct (Z.leb_spec 0 z); [|done].
    intros ->%enum_code_lookup. lia.
Qed.

#[export] Instance enum_code_inj : Inj (=) (=) enum_code.
Proof.
    intros a b Hab. apply (f_equal enum_of_code) in Hab.
    rewrite !enum_of_code_code in Hab. congruence.
Qed.

Definition enum_eq_dec : EqDecision E := λ a b,
    match decide (enum_code a = enum_code b) with
    | left Heq => left (enum_code_inj a b Heq)
    | right Hne => right (λ Heq, Hne (f_equal enum_code Heq))
    end.

Lemma enum_values_all e : e ∈ enum_values.
Proof. eapply list_elem_of_lookup_2, enum_values_code. Qed.
End enum.

(** [enum class Status], its enumerators in numeric order. *)
Module Status.

Inductive status : Type :=
| UNKNOWN | OK | ACCEPTED | COMPOSED | CURRENT | PUBLISHED | RENEWED | GRANTED
| UNSUPPORTED | STALE | CONFLICTING | INCOMPLETE | INDETERMINATE | PARTIAL | DEGRADED
| PARTITIONED | REFUSED | CANCELLED | INVALID | MALFORMED | TRUNCATED | CORRUPT | REPLAYED
| NOT_FOUND | ALREADY_EXISTS | ALREADY_RETIRED | LIMIT_EXCEEDED | CAPACITY_OVERFLOW
| CAPACITY_UNDERFLOW | UNSUPPORTED_FORMAT | SCHEMA_INCOMPATIBLE | DIGEST_MISMATCH
| INTEGRITY_FAILURE | BUSY | STOPPED | NOT_STARTED | UNAUTHORIZED | FENCED_EPOCH
| FENCED_INCARNATION | FENCED_GENERATION | FENCED_ATTEMPT | LEASE_EXPIRED
| LEASE_NOT_YET_VALID | LEASE_REVOKED | AUTHORITY_HELD_ELSEWHERE | MEMBERSHIP_MISSING
| MEMBERSHIP_UNEXPECTED | GENERATION_MISMATCH | DIGEST_MISMATCH_DECLARATION | SITE_MISMATCH
| EPOCH_MISMATCH | OWNERSHIP_OVERLAP | ACCOUNTING_CONFLICT | CAPACITY_UNKNOWN
| FAILURE_DOMAIN_CYCLE | FAILURE_DOMAIN_CONFLICT | FAILURE_DOMAIN_DANGLING_PARENT
| MAINTENANCE_CONFLICT | MAINTENANCE_UNKNOWN | OBLIGATION_VIOLATED
| OBLIGATION_INDETERMINATE | EVIDENCE_STALE | EVIDENCE_MISSING | EVIDENCE_SYNTHETIC_ONLY
| EVIDENCE_FUTURE | CONNECTIVITY_UNKNOWN | CONNECTIVITY_DOWN | CONNECTIVITY_DEGRADED
| EXPECTATION_MISMATCH | DEPENDENCY_INVALIDATED | NO_AUTHORITATIVE_SOURCE.

Definition status_code (e : status) : Z :=
  match e with
  | UNKNOWN => 0 | OK => 1 | ACCEPTED => 2 | COMPOSED => 3 | CURRENT => 4 | PUBLISHED => 5
  | RENEWED => 6 | GRANTED => 7 | UNSUPPORTED => 8 | STALE => 9 | CONFLICTING => 10
  | INCOMPLETE => 11 | INDETERMINATE => 12 | PARTIAL => 13 | DEGRADED => 14
  | PARTITIONED => 15 | REFUSED => 16 | CANCELLED => 17 | INVALID => 18 | MALFORMED => 19
  | TRUNCATED => 20 | CORRUPT => 21 | REPLAYED => 22 | NOT_FOUND => 23
  | ALREADY_EXISTS => 24 | ALREADY_RETIRED => 25 | LIMIT_EXCEEDED => 26
  | CAPACITY_OVERFLOW => 27 | CAPACITY_UNDERFLOW => 28 | UNSUPPORTED_FORMAT => 29
  | SCHEMA_INCOMPATIBLE => 30 | DIGEST_MISMATCH => 31 | INTEGRITY_FAILURE => 32
  | BUSY => 33 | STOPPED => 34 | NOT_STARTED => 35 | UNAUTHORIZED => 36
  | FENCED_EPOCH => 37 | FENCED_INCARNATION => 38 | FENCED_GENERATION => 39
  | FENCED_ATTEMPT => 40 | LEASE_EXPIRED => 41 | LEASE_NOT_YET_VALID => 42
  | LEASE_REVOKED => 43 | AUTHORITY_HELD_ELSEWHERE => 44 | MEMBERSHIP_MISSING => 45
  | MEMBERSHIP_UNEXPECTED => 46 | GENERATION_MISMATCH => 47
  | DIGEST_MISMATCH_DECLARATION => 48 | SITE_MISMATCH => 49 | EPOCH_MISMATCH => 50
  | OWNERSHIP_OVERLAP => 51 | ACCOUNTING_CONFLICT => 52 | CAPACITY_UNKNOWN => 53
  | FAILURE_DOMAIN_CYCLE => 54 | FAILURE_DOMAIN_CONFLICT => 55
  | FAILURE_DOMAIN_DANGLING_PARENT => 56 | MAINTENANCE_CONFLICT => 57
  | MAINTENANCE_UNKNOWN => 58 | OBLIGATION_VIOLATED => 59 | OBLIGATION_INDETERMINATE => 60
  | EVIDENCE_STALE => 61 | EVIDENCE_MISSING => 62 | EVIDENCE_SYNTHETIC_ONLY => 63
  | EVIDENCE_FUTURE => 64 | CONNECTIVITY_UNKNOWN => 65 | CONNECTIVITY_DOWN => 66
  | CONNECTIVITY_DEGRADED => 67 | EXPECTATION_MISMATCH => 68 | DEPENDENCY_INVALIDATED => 69
  | NO_AUTHORITATIVE_SOURCE => 70
  end.

#[export] Instance status_enum : Enum status.
Proof.
  refine {| enum_values := [UNKNOWN; OK; ACCEPTED; COMPOSED; CURRENT; PUBLISHED; RENEWED; GRANTED; UNSUPPORTED;
     STALE; CONFLICTING; INCOMPLETE; INDETERMINATE; PARTIAL; DEGRADED; PARTITIONED;
     REFUSED; CANCELLED; INVALID; MALFORMED; TRUNCATED; CORRUPT; REPLAYED; NOT_FOUND;
     ALREADY_EXISTS; ALREADY_RETIRED; LIMIT_EXCEEDED; CAPACITY_OVERFLOW;
     CAPACITY_UNDERFLOW; UNSUPPORTED_FORMAT; SCHEMA_INCOMPATIBLE; DIGEST_MISMATCH;
     INTEGRITY_FAILURE; BUSY; STOPPED; NOT_STARTED; UNAUTHORIZED; FENCED_EPOCH;
     FENCED_INCARNATION; FENCED_GENERATION; FENCED_ATTEMPT; LEASE_EXPIRED;
     LEASE_NOT_YET_VALID; LEASE_REVOKED; AUTHORITY_HELD_ELSEWHERE; MEMBERSHIP_MISSING;
     MEMBERSHIP_UNEXPECTED; GENERATION_MISMATCH; DIGEST_MISMATCH_DECLARATION;
     SITE_MISMATCH; EPOCH_MISMATCH; OWNERSHIP_OVERLAP; ACCOUNTING_CONFLICT;
     CAPACITY_UNKNOWN; FAILURE_DOMAIN_CYCLE; FAILURE_DOMAIN_CONFLICT;
     FAILURE_DOMAIN_DANGLING_PARENT; MAINTENANCE_CONFLICT; MAINTENANCE_UNKNOWN;
     OBLIGATION_VIOLATED; OBLIGATION_INDETERMINATE; EVIDENCE_STALE; EVIDENCE_MISSING;
     EVIDENCE_SYNTHETIC_ONLY; EVIDENCE_FUTURE; CONNECTIVITY_UNKNOWN; CONNECTIVITY_DOWN;
     CONNECTIVITY_DEGRADED; EXPECTATION_MISMATCH; DEPENDENCY_INVALIDATED;
     NO_AUTHORITATIVE_SOURCE];
            enum_code := status_code |}; [by intros [] | done].
Defined.

#[export] Instance status_eq_dec : EqDecision status := enum_eq_dec.
#[export] Instance status_ord : Ord status := ord_inj enum_code.

End Status.
Export (hints) Status.
Abbreviation status := Status.status.

(** [enum class MemberDomainKind], its enumerators in numeric order. *)
Module MemberDomainKind.

Inductive member_domain_kind : Type :=
| UNKNOWN | CLUSTER | POD | RACK | SHARED_RESOURCE.

Definition member_domain_kind_code (e : member_domain_kind) : Z :=
  match e with
  | UNKNOWN => 0 | CLUSTER => 1 | POD => 2 | RACK => 3 | SHARED_RESOURCE => 4
  end.

#[export] Instance member_domain_kind_enum : Enum member_domain_kind.
Proof.
  refine {| enum_values := [UNKNOWN; CLUSTER; POD; RACK; SHARED_RESOURCE];
            enum_code := member_domain_kind_code |}; [by intros [] | done].
Defined.

#[export] Instance member_domain_kind_eq_dec : EqDecision member_domain_kind := enum_eq_dec.
#[export] Instance member_domain_kind_ord : Ord member_domain_kind := ord_inj enum_code.

End MemberDomainKind.
Export (hints) MemberDomainKind.
Abbreviation member_domain_kind := MemberDomainKind.member_domain_kind.

(** [enum class ResourceKind], its enumerators in numeric order. *)
Module ResourceKind.

Inductive resource_kind : Type :=
| UNKNOWN | CLUSTER | POD | RACK | SHARED_LINK | GATEWAY | CAPACITY_POOL | FAILURE_DOMAIN
| MAINTENANCE_ZONE | OBLIGATION.

Definition resource_kind_code (e : resource_kind) : Z :=
  match e with
  | UNKNOWN => 0 | CLUSTER => 1 | POD => 2 | RACK => 3 | SHARED_LINK => 4 | GATEWAY => 5
  | CAPACITY_POOL => 6 | FAILURE_DOMAIN => 7 | MAINTENANCE_ZONE => 8 | OBLIGATION => 9
  end.

#[export] Instance resource_kind_enum : Enum resource_kind.
Proof.
  refine {| enum_values := [UNKNOWN; CLUSTER; POD; RACK; SHARED_LINK; GATEWAY; CAPACITY_POOL; FAILURE_DOMAIN;
     MAINTENANCE_ZONE; OBLIGATION];
            enum_code := resource_kind_code |}; [by intros [] | done].
Defined.

#[export] Instance resource_kind_eq_dec : EqDecision resource_kind := enum_eq_dec.
#[export] Instance resource_kind_ord : Ord resource_kind := ord_inj enum_code.

End ResourceKind.
Export (hints) ResourceKind.
Abbreviation resource_kind := ResourceKind.resource_kind.

(** [enum class Provenance], its enumerators in numeric order. *)
Module Provenance.

Inductive provenance : Type :=
| UNKNOWN | MEASURED | REPORTED | DERIVED | ESTIMATED | SYNTHETIC | RECONSTRUCTED.

Definition provenance_code (e : provenance) : Z :=
  match e with
  | UNKNOWN => 0 | MEASURED => 1 | REPORTED => 2 | DERIVED => 3 | ESTIMATED => 4
  | SYNTHETIC => 5 | RECONSTRUCTED => 6
  end.

#[export] Instance provenance_enum : Enum provenance.
Proof.
  refine {| enum_values := [UNKNOWN; MEASURED; REPORTED; DERIVED; ESTIMATED; SYNTHETIC; RECONSTRUCTED];
            enum_code := provenance_code |}; [by intros [] | done].
Defined.

#[export] Instance provenance_eq_dec : EqDecision provenance := enum_eq_dec.
#[export] Instance provenance_ord : Ord provenance := ord_inj enum_code.

End Provenance.
Export (hints) Provenance.
Abbreviation provenance := Provenance.provenance.

(** [enum class EvidenceState], its enumerators in numeric order. *)
Module EvidenceState.

Inductive evidence_state : Type :=
| UNKNOWN | FRESH | STALE | FUTURE | INVALID | SYNTHETIC_ONLY
| RECONSTRUCTED_NEEDS_REVALIDATION.

Definition evidence_state_code (e : evidence_state) : Z :=
  match e with
  | UNKNOWN => 0 | FRESH => 1 | STALE => 2 | FUTURE => 3 | INVALID => 4
  | SYNTHETIC_ONLY => 5 | RECONSTRUCTED_NEEDS_REVALIDATION => 6
  end.

#[export] Instance evidence_state_enum : Enum evidence_state.
Proof.
  refine {| enum_values := [UNKNOWN; FRESH; STALE; FUTURE; INVALID; SYNTHETIC_ONLY;
     RECONSTRUCTED_NEEDS_REVALIDATION];
            enum_code := evidence_state_code |}; [by intros [] | done].
Defined.

#[export] Instance evidence_state_eq_dec : EqDecision evidence_state := enum_eq_dec.
#[export] Instance evidence_state_ord : Ord evidence_state := ord_inj enum_code.

End EvidenceState.
Export (hints) EvidenceState.
Abbreviation evidence_state := EvidenceState.evidence_state.

(** [enum class CompletenessClass], its enumerators in numeric order. *)
Module CompletenessClass.

Inductive completeness_class : Type :=
| UNKNOWN | COMPLETE | PARTIAL | MISSING.

Definition completeness_class_code (e : completeness_class) : Z :=
  match e with
  | UNKNOWN => 0 | COMPLETE => 1 | PARTIAL => 2 | MISSING => 3
  end.

#[export] Instance completeness_class_enum : Enum completeness_class.
Proof.
  refine {| enum_values := [UNKNOWN; COMPLETE; PARTIAL; MISSING];
            enum_code := completeness_class_code |}; [by intros [] | done].
Defined.

#[export] Instance completeness_class_eq_dec : EqDecision completeness_class := enum_eq_dec.
#[export] Instance completeness_class_ord : Ord completeness_class := ord_inj enum_code.

End CompletenessClass.
Export (hints) CompletenessClass.
Abbreviation completeness_class := CompletenessClass.completeness_class.

(** [enum class CapacityChannel], its enumerators in numeric order. *)
Module CapacityChannel.

Inductive capacity_channel : Type :=
| UNKNOWN | INGRESS | EGRESS | INTERNAL.

Definition capacity_channel_code (e : capacity_channel) : Z :=
  match e with
  | UNKNOWN => 0 | INGRESS => 1 | EGRESS => 2 | INTERNAL => 3
  end.

#[export] Instance capacity_channel_enum : Enum capacity_channel.
Proof.
  refine {| enum_values := [UNKNOWN; INGRESS; EGRESS; INTERNAL];
            enum_code := capacity_channel_code |}; [by intros [] | done].
Defined.

#[export] Instance capacity_channel_eq_dec : EqDecision capacity_channel := enum_eq_dec.
#[export] Instance capacity_channel_ord : Ord capacity_channel := ord_inj enum_code.

End CapacityChannel.
Export (hints) CapacityChannel.
Abbreviation capacity_channel := CapacityChannel.capacity_channel.

(** [enum class CapacityScope], its enumerators in numeric order. *)
Module CapacityScope.

Inductive capacity_scope : Type :=
| UNKNOWN | SITE_INGRESS | SITE_EGRESS | SITE_INTERNAL | RACK_LOCAL | POD_LOCAL
| CLUSTER_LOCAL | SHARED_LINK | GATEWAY.

Definition capacity_scope_code (e : capacity_scope) : Z :=
  match e with
  | UNKNOWN => 0 | SITE_INGRESS => 1 | SITE_EGRESS => 2 | SITE_INTERNAL => 3
  | RACK_LOCAL => 4 | POD_LOCAL => 5 | CLUSTER_LOCAL => 6 | SHARED_LINK => 7 | GATEWAY => 8
  end.

#[export] Instance capacity_scope_enum : Enum capacity_scope.
Proof.
  refine {| enum_values := [UNKNOWN; SITE_INGRESS; SITE_EGRESS; SITE_INTERNAL; RACK_LOCAL; POD_LOCAL;
     CLUSTER_LOCAL; SHARED_LINK; GATEWAY];
            enum_code := capacity_scope_code |}; [by intros [] | done].
Defined.

#[export] Instance capacity_scope_eq_dec : EqDecision capacity_scope := enum_eq_dec.
#[export] Instance capacity_scope_ord : Ord capacity_scope := ord_inj enum_code.

End CapacityScope.
Export (hints) CapacityScope.
Abbreviation capacity_scope := CapacityScope.capacity_scope.

(** [enum class ConnectivityState], its enumerators in numeric order. *)
Module ConnectivityState.

Inductive connectivity_state : Type :=
| UNKNOWN | UP | DOWN | DEGRADED.

Definition connectivity_state_code (e : connectivity_state) : Z :=
  match e with
  | UNKNOWN => 0 | UP => 1 | DOWN => 2 | DEGRADED => 3
  end.

#[export] Instance connectivity_state_enum : Enum connectivity_state.
Proof.
  refine {| enum_values := [UNKNOWN; UP; DOWN; DEGRADED];
            enum_code := connectivity_state_code |}; [by intros [] | done].
Defined.

#[export] Instance connectivity_state_eq_dec : EqDecision connectivity_state := enum_eq_dec.
#[export] Instance connectivity_state_ord : Ord connectivity_state := ord_inj enum_code.

End ConnectivityState.
Export (hints) ConnectivityState.
Abbreviation connectivity_state := ConnectivityState.connectivity_state.

(** [enum class FailureDomainClass], its enumerators in numeric order. *)
Module FailureDomainClass.

Inductive failure_domain_class : Type :=
| UNKNOWN | PHYSICAL | ADMINISTRATIVE.

Definition failure_domain_class_code (e : failure_domain_class) : Z :=
  match e with
  | UNKNOWN => 0 | PHYSICAL => 1 | ADMINISTRATIVE => 2
  end.

#[export] Instance failure_domain_class_enum : Enum failure_domain_class.
Proof.
  refine {| enum_values := [UNKNOWN; PHYSICAL; ADMINISTRATIVE];
            enum_code := failure_domain_class_code |}; [by intros [] | done].
Defined.

#[export] Instance failure_domain_class_eq_dec : EqDecision failure_domain_class := enum_eq_dec.
#[export] Instance failure_domain_class_ord : Ord failure_domain_class := ord_inj enum_code.

End FailureDomainClass.
Export (hints) FailureDomainClass.
Abbreviation failure_domain_class := FailureDomainClass.failure_domain_class.

(** [enum class MaintenanceState], its enumerators in numeric order. *)
Module MaintenanceState.

Inductive maintenance_state : Type :=
| UNKNOWN | SCHEDULED | ACTIVE | COMPLETE | CANCELLED.

Definition maintenance_state_code (e : maintenance_state) : Z :=
  match e with
  | UNKNOWN => 0 | SCHEDULED => 1 | ACTIVE => 2 | COMPLETE => 3 | CANCELLED => 4
  end.

#[export] Instance maintenance_state_enum : Enum maintenance_state.
Proof.
  refine {| enum_values := [UNKNOWN; SCHEDULED; ACTIVE; COMPLETE; CANCELLED];
            enum_code := maintenance_state_code |}; [by intros [] | done].
Defined.

#[export] Instance maintenance_state_eq_dec : EqDecision maintenance_state := enum_eq_dec.
#[export] Instance maintenance_state_ord : Ord maintenance_state := ord_inj enum_code.

End MaintenanceState.
Export (hints) MaintenanceState.
Abbreviation maintenance_state := MaintenanceState.maintenance_state.

(** [enum class ObligationKind], its enumerators in numeric order. *)
Module ObligationKind.

Inductive obligation_kind : Type :=
| UNKNOWN | MIN_INGRESS_CAPACITY | MIN_EGRESS_CAPACITY | MIN_INTERNAL_CAPACITY
| MIN_DISTINCT_FAILURE_DOMAINS | MIN_UP_SHARED_LINKS | MIN_UP_GATEWAYS
| DOMAIN_SURVIVABILITY.

Definition obligation_kind_code (e : obligation_kind) : Z :=
  match e with
  | UNKNOWN => 0 | MIN_INGRESS_CAPACITY => 1 | MIN_EGRESS_CAPACITY => 2
  | MIN_INTERNAL_CAPACITY => 3 | MIN_DISTINCT_FAILURE_DOMAINS => 4
  | MIN_UP_SHARED_LINKS => 5 | MIN_UP_GATEWAYS => 6 | DOMAIN_SURVIVABILITY => 7
  end.

#[export] Instance obligation_kind_enum : Enum obligation_kind.
Proof.
  refine {| enum_values := [UNKNOWN; MIN_INGRESS_CAPACITY; MIN_EGRESS_CAPACITY; MIN_INTERNAL_CAPACITY;
     MIN_DISTINCT_FAILURE_DOMAINS; MIN_UP_SHARED_LINKS; MIN_UP_GATEWAYS;
     DOMAIN_SURVIVABILITY];
            enum_code := obligation_kind_code |}; [by intros [] | done].
Defined.

#[export] Instance obligation_kind_eq_dec : EqDecision obligation_kind := enum_eq_dec.
#[export] Instance obligation_kind_ord : Ord obligation_kind := ord_inj enum_code.

End ObligationKind.
Export (hints) ObligationKind.
Abbreviation obligation_kind := ObligationKind.obligation_kind.

(** [enum class MemberLifecycle], its enumerators in numeric order. *)
Module MemberLifecycle.

Inductive member_lifecycle : Type :=
| UNKNOWN | ABSENT | REPORTED | CURRENT | STALE | SUPERSEDED | CONFLICTING | INCOMPATIBLE
| RETIRED | REVOKED.

Definition member_lifecycle_code (e : member_lifecycle) : Z :=
  match e with
  | UNKNOWN => 0 | ABSENT => 1 | REPORTED => 2 | CURRENT => 3 | STALE => 4
  | SUPERSEDED => 5 | CONFLICTING => 6 | INCOMPATIBLE => 7 | RETIRED => 8 | REVOKED => 9
  end.

#[export] Instance member_lifecycle_enum : Enum member_lifecycle.
Proof.
  refine {| enum_values := [UNKNOWN; ABSENT; REPORTED; CURRENT; STALE; SUPERSEDED; CONFLICTING; INCOMPATIBLE;
     RETIRED; REVOKED];
            enum_code := member_lifecycle_code |}; [by intros [] | done].
Defined.

#[export] Instance member_lifecycle_eq_dec : EqDecision member_lifecycle := enum_eq_dec.
#[export] Instance member_lifecycle_ord : Ord member_lifecycle := ord_inj enum_code.

End MemberLifecycle.
Export (hints) MemberLifecycle.
Abbreviation member_lifecycle := MemberLifecycle.member_lifecycle.

(** [enum class SiteLifecycle], its enumerators in numeric order. *)
Module SiteLifecycle.

Inductive site_lifecycle : Type :=
| UNKNOWN | INITIALIZING | CURRENT | DEGRADED | PARTITIONED | INCOMPLETE | CONFLICTING
| INDETERMINATE | STOPPED.

Definition site_lifecycle_code (e : site_lifecycle) : Z :=
  match e with
  | UNKNOWN => 0 | INITIALIZING => 1 | CURRENT => 2 | DEGRADED => 3 | PARTITIONED => 4
  | INCOMPLETE => 5 | CONFLICTING => 6 | INDETERMINATE => 7 | STOPPED => 8
  end.

#[export] Instance site_lifecycle_enum : Enum site_lifecycle.
Proof.
  refine {| enum_values := [UNKNOWN; INITIALIZING; CURRENT; DEGRADED; PARTITIONED; INCOMPLETE; CONFLICTING;
     INDETERMINATE; STOPPED];
            enum_code := site_lifecycle_code |}; [by intros [] | done].
Defined.

#[export] Instance site_lifecycle_eq_dec : EqDecision site_lifecycle := enum_eq_dec.
#[export] Instance site_lifecycle_ord : Ord site_lifecycle := ord_inj enum_code.

End SiteLifecycle.
Export (hints) SiteLifecycle.
Abbreviation site_lifecycle := SiteLifecycle.site_lifecycle.

(** [enum class DecisionKind], its enumerators in numeric order. *)
Module DecisionKind.

Inductive decision_kind : Type :=
| UNKNOWN | MEMBERSHIP_COMPLETENESS | SITE_EPOCH | OWNERSHIP_MAP | RACK_TOPOLOGY
| FAILURE_DOMAIN_FOREST | CONNECTIVITY_SUMMARY | SHARED_RESOURCE_ACCOUNTING
| CAPACITY_TOTAL | CAPACITY_AVAILABLE | MAINTENANCE_EXCLUSION | OBLIGATION_VERDICT
| SITE_LIFECYCLE.

Definition decision_kind_code (e : decision_kind) : Z :=
  match e with
  | UNKNOWN => 0 | MEMBERSHIP_COMPLETENESS => 1 | SITE_EPOCH => 2 | OWNERSHIP_MAP => 3
  | RACK_TOPOLOGY => 4 | FAILURE_DOMAIN_FOREST => 5 | CONNECTIVITY_SUMMARY => 6
  | SHARED_RESOURCE_ACCOUNTING => 7 | CAPACITY_TOTAL => 8 | CAPACITY_AVAILABLE => 9
  | MAINTENANCE_EXCLUSION => 10 | OBLIGATION_VERDICT => 11 | SITE_LIFECYCLE => 12
  end.

#[export] Instance decision_kind_enum : Enum decision_kind.
Proof.
  refine {| enum_values := [UNKNOWN; MEMBERSHIP_COMPLETENESS; SITE_EPOCH; OWNERSHIP_MAP; RACK_TOPOLOGY;
     FAILURE_DOMAIN_FOREST; CONNECTIVITY_SUMMARY; SHARED_RESOURCE_ACCOUNTING;
     CAPACITY_TOTAL; CAPACITY_AVAILABLE; MAINTENANCE_EXCLUSION; OBLIGATION_VERDICT;
     SITE_LIFECYCLE];
            enum_code := decision_kind_code |}; [by intros [] | done].
Defined.

#[export] Instance decision_kind_eq_dec : EqDecision decision_kind := enum_eq_dec.
#[export] Instance decision_kind_ord : Ord decision_kind := ord_inj enum_code.

End DecisionKind.
Export (hints) DecisionKind.
Abbreviation decision_kind := DecisionKind.decision_kind.

(** [enum class AuthorityKind], its enumerators in numeric order. *)
Module AuthorityKind.

Inductive authority_kind : Type :=
| UNKNOWN | SITE_CONTROLLER | MEMBER_PUBLISHER | MAINTENANCE_OPERATOR | OBSERVER.

Definition authority_kind_code (e : authority_kind) : Z :=
  match e with
  | UNKNOWN => 0 | SITE_CONTROLLER => 1 | MEMBER_PUBLISHER => 2 | MAINTENANCE_OPERATOR => 3
  | OBSERVER => 4
  end.

#[export] Instance authority_kind_enum : Enum authority_kind.
Proof.
  refine {| enum_values := [UNKNOWN; SITE_CONTROLLER; MEMBER_PUBLISHER; MAINTENANCE_OPERATOR; OBSERVER];
            enum_code := authority_kind_code |}; [by intros [] | done].
Defined.

#[export] Instance authority_kind_eq_dec : EqDecision authority_kind := enum_eq_dec.
#[export] Instance authority_kind_ord : Ord authority_kind := ord_inj enum_code.

End AuthorityKind.
Export (hints) AuthorityKind.
Abbreviation authority_kind := AuthorityKind.authority_kind.

(** [enum class LeaseState], its enumerators in numeric order. *)
Module LeaseState.

Inductive lease_state : Type :=
| UNKNOWN | ACTIVE | EXPIRED | REVOKED | SUPERSEDED.

Definition lease_state_code (e : lease_state) : Z :=
  match e with
  | UNKNOWN => 0 | ACTIVE => 1 | EXPIRED => 2 | REVOKED => 3 | SUPERSEDED => 4
  end.

#[export] Instance lease_state_enum : Enum lease_state.
Proof.
  refine {| enum_values := [UNKNOWN; ACTIVE; EXPIRED; REVOKED; SUPERSEDED];
            enum_code := lease_state_code |}; [by intros [] | done].
Defined.

#[export] Instance lease_state_eq_dec : EqDecision lease_state := enum_eq_dec.
#[export] Instance lease_state_ord : Ord lease_state := ord_inj enum_code.

End LeaseState.
Export (hints) LeaseState.
Abbreviation lease_state := LeaseState.lease_state.

(** [enum class RecordType], its enumerators in numeric order. *)
Module RecordType.

Inductive record_type : Type :=
| UNKNOWN | STORE_HEADER | SNAPSHOT | PUBLICATION | RETIREMENT | TOMBSTONE | LEASE
| CHECKPOINT.

Definition record_type_code (e : record_type) : Z :=
  match e with
  | UNKNOWN => 0 | STORE_HEADER => 1 | SNAPSHOT => 2 | PUBLICATION => 3 | RETIREMENT => 4
  | TOMBSTONE => 5 | LEASE => 6 | CHECKPOINT => 7
  end.

#[export] Instance record_type_enum : Enum record_type.
Proof.
  refine {| enum_values := [UNKNOWN; STORE_HEADER; SNAPSHOT; PUBLICATION; RETIREMENT; TOMBSTONE; LEASE; CHECKPOINT];
            enum_code := record_type_code |}; [by intros [] | done].
Defined.

#[export] Instance record_type_eq_dec : EqDecision record_type := enum_eq_dec.
#[export] Instance record_type_ord : Ord record_type := ord_inj enum_code.

End RecordType.
Export (hints) RecordType.
Abbreviation record_type := RecordType.record_type.

(** [enum class MessageType], its enumerators in numeric order. *)
Module MessageType.

Inductive message_type : Type :=
| UNKNOWN | HELLO_REQUEST | HELLO_RESPONSE | PUBLISH_REQUEST | PUBLISH_RESPONSE
| RETIRE_REQUEST | RETIRE_RESPONSE | FETCH_SITE_REQUEST | FETCH_SITE_RESPONSE
| HEARTBEAT_REQUEST | HEARTBEAT_RESPONSE | INVALIDATE_NOTICE | REVOKE_NOTICE
| ERROR_RESPONSE | SHUTDOWN_REQUEST | SHUTDOWN_RESPONSE | PING | PONG.

Definition message_type_code (e : message_type) : Z :=
  match e with
  | UNKNOWN => 0 | HELLO_REQUEST => 1 | HELLO_RESPONSE => 2 | PUBLISH_REQUEST => 3
  | PUBLISH_RESPONSE => 4 | RETIRE_REQUEST => 5 | RETIRE_RESPONSE => 6
  | FETCH_SITE_REQUEST => 7 | FETCH_SITE_RESPONSE => 8 | HEARTBEAT_REQUEST => 9
  | HEARTBEAT_RESPONSE => 10 | INVALIDATE_NOTICE => 11 | REVOKE_NOTICE => 12
  | ERROR_RESPONSE => 13 | SHUTDOWN_REQUEST => 14 | SHUTDOWN_RESPONSE => 15 | PING => 16
  | PONG => 17
  end.

#[export] Instance message_type_enum : Enum message_type.
Proof.
  refine {| enum_values := [UNKNOWN; HELLO_REQUEST; HELLO_RESPONSE; PUBLISH_REQUEST; PUBLISH_RESPONSE;
     RETIRE_REQUEST; RETIRE_RESPONSE; FETCH_SITE_REQUEST; FETCH_SITE_RESPONSE;
     HEARTBEAT_REQUEST; HEARTBEAT_RESPONSE; INVALIDATE_NOTICE; REVOKE_NOTICE;
     ERROR_RESPONSE; SHUTDOWN_REQUEST; SHUTDOWN_RESPONSE; PING; PONG];
            enum_code := message_type_code |}; [by intros [] | done].
Defined.

#[export] Instance message_type_eq_dec : EqDecision message_type := enum_eq_dec.
#[export] Instance message_type_ord : Ord message_type := ord_inj enum_code.

End MessageType.
Export (hints) MessageType.
Abbreviation message_type := MessageType.message_type.

(** * Token tables (src/core/model.cpp) *)

Definition kStatusTokens : list (status * string) :=
  [(Status.UNKNOWN, "UNKNOWN"); (Status.OK, "OK"); (Status.ACCEPTED, "ACCEPTED");
   (Status.COMPOSED, "COMPOSED"); (Status.CURRENT, "CURRENT");
   (Status.PUBLISHED, "PUBLISHED"); (Status.RENEWED, "RENEWED");
   (Status.GRANTED, "GRANTED"); (Status.UNSUPPORTED, "UNSUPPORTED");
   (Status.STALE, "STALE"); (Status.CONFLICTING, "CONFLICTING");
   (Status.INCOMPLETE, "INCOMPLETE"); (Status.INDETERMINATE, "INDETERMINATE");
   (Status.PARTIAL, "PARTIAL"); (Status.DEGRADED, "DEGRADED");
   (Status.PARTITIONED, "PARTITIONED"); (Status.REFUSED, "REFUSED");
   (Status.CANCELLED, "CANCELLED"); (Status.INVALID, "INVALID");
   (Status.MALFORMED, "MALFORMED"); (Status.TRUNCATED, "TRUNCATED");
   (Status.CORRUPT, "CORRUPT"); (Status.REPLAYED, "REPLAYED");
   (Status.NOT_FOUND, "NOT_FOUND"); (Status.ALREADY_EXISTS, "ALREADY_EXISTS");
   (Status.ALREADY_RETIRED, "ALREADY_RETIRED"); (Status.LIMIT_EXCEEDED, "LIMIT_EXCEEDED");
   (Status.CAPACITY_OVERFLOW, "CAPACITY_OVERFLOW");
   (Status.CAPACITY_UNDERFLOW, "CAPACITY_UNDERFLOW");
   (Status.UNSUPPORTED_FORMAT, "UNSUPPORTED_FORMAT");
   (Status.SCHEMA_INCOMPATIBLE, "SCHEMA_INCOMPATIBLE");
   (Status.DIGEST_MISMATCH, "DIGEST_MISMATCH");
   (Status.INTEGRITY_FAILURE, "INTEGRITY_FAILURE"); (Status.BUSY, "BUSY");
   (Status.STOPPED, "STOPPED"); (Status.NOT_STARTED, "NOT_STARTED");
   (Status.UNAUTHORIZED, "UNAUTHORIZED"); (Status.FENCED_EPOCH, "FENCED_EPOCH");
   (Status.FENCED_INCARNATION, "FENCED_INCARNATION");
   (Status.FENCED_GENERATION, "FENCED_GENERATION");
   (Status.FENCED_ATTEMPT, "FENCED_ATTEMPT"); (Status.LEASE_EXPIRED, "LEASE_EXPIRED");
   (Status.LEASE_NOT_YET_VALID, "LEASE_NOT_YET_VALID");
   (Status.LEASE_REVOKED, "LEASE_REVOKED");
   (Status.AUTHORITY_HELD_ELSEWHERE, "AUTHORITY_HELD_ELSEWHERE");
   (Status.MEMBERSHIP_MISSING, "MEMBERSHIP_MISSING");
   (Status.MEMBERSHIP_UNEXPECTED, "MEMBERSHIP_UNEXPECTED");
   (Status.GENERATION_MISMATCH, "GENERATION_MISMATCH");
   (Status.DIGEST_MISMATCH_DECLARATION, "DIGEST_MISMATCH_DECLARATION");
   (Status.SITE_MISMATCH, "SITE_MISMATCH"); (Status.EPOCH_MISMATCH, "EPOCH_MISMATCH");
   (Status.OWNERSHIP_OVERLAP, "OWNERSHIP_OVERLAP");
   (Status.ACCOUNTING_CONFLICT, "ACCOUNTING_CONFLICT");
   (Status.CAPACITY_UNKNOWN, "CAPACITY_UNKNOWN");
   (Status.FAILURE_DOMAIN_CYCLE, "FAILURE_DOMAIN_CYCLE");
   (Status.FAILURE_DOMAIN_CONFLICT, "FAILURE_DOMAIN_CONFLICT");
   (Status.FAILURE_DOMAIN_DANGLING_PARENT, "FAILURE_DOMAIN_DANGLING_PARENT");
   (Status.MAINTENANCE_CONFLICT, "MAINTENANCE_CONFLICT");
   (Status.MAINTENANCE_UNKNOWN, "MAINTENANCE_UNKNOWN");
   (Status.OBLIGATION_VIOLATED, "OBLIGATION_VIOLATED");
   (Status.OBLIGATION_INDETERMINATE, "OBLIGATION_INDETERMINATE");
   (Status.EVIDENCE_STALE, "EVIDENCE_STALE");
   (Status.EVIDENCE_MISSING, "EVIDENCE_MISSING");
   (Status.EVIDENCE_SYNTHETIC_ONLY, "EVIDENCE_SYNTHETIC_ONLY");
   (Status.EVIDENCE_FUTURE, "EVIDENCE_FUTURE");
   (Status.CONNECTIVITY_UNKNOWN, "CONNECTIVITY_UNKNOWN");
   (Status.CONNECTIVITY_DOWN, "CONNECTIVITY_DOWN");
   (Status.CONNECTIVITY_DEGRADED, "CONNECTIVITY_DEGRADED");
   (Status.EXPECTATION_MISMATCH, "EXPECTATION_MISMATCH");
   (Status.DEPENDENCY_INVALIDATED, "DEPENDENCY_INVALIDATED");
   (Status.NO_AUTHORITATIVE_SOURCE, "NO_AUTHORITATIVE_SOURCE")]%string.

Definition kMemberDomainKindTokens : list (member_domain_kind * string) :=
  [(MemberDomainKind.UNKNOWN, "UNKNOWN"); (MemberDomainKind.CLUSTER, "CLUSTER");
   (MemberDomainKind.POD, "POD"); (MemberDomainKind.RACK, "RACK");
   (MemberDomainKind.SHARED_RESOURCE, "SHARED_RESOURCE")]%string.

Definition kResourceKindTokens : list (resource_kind * string) :=
  [(ResourceKind.UNKNOWN, "UNKNOWN"); (ResourceKind.OBLIGATION, "OBLIGATION");
   (ResourceKind.CLUSTER, "CLUSTER"); (ResourceKind.POD, "POD");
   (ResourceKind.RACK, "RACK"); (ResourceKind.SHARED_LINK, "SHARED_LINK");
   (ResourceKind.GATEWAY, "GATEWAY"); (ResourceKind.CAPACITY_POOL, "CAPACITY_POOL");
   (ResourceKind.FAILURE_DOMAIN, "FAILURE_DOMAIN");
   (ResourceKind.MAINTENANCE_ZONE, "MAINTENANCE_ZONE")]%string.

Definition kProvenanceTokens : list (provenance * string) :=
  [(Provenance.UNKNOWN, "UNKNOWN"); (Provenance.MEASURED, "MEASURED");
   (Provenance.REPORTED, "REPORTED"); (Provenance.DERIVED, "DERIVED");
   (Provenance.ESTIMATED, "ESTIMATED"); (Provenance.SYNTHETIC, "SYNTHETIC");
   (Provenance.RECONSTRUCTED, "RECONSTRUCTED")]%string.

Definition kEvidenceStateTokens : list (evidence_state * string) :=
  [(EvidenceState.UNKNOWN, "UNKNOWN"); (EvidenceState.FRESH, "FRESH");
   (EvidenceState.STALE, "STALE"); (EvidenceState.FUTURE, "FUTURE");
   (EvidenceState.INVALID, "INVALID"); (EvidenceState.SYNTHETIC_ONLY, "SYNTHETIC_ONLY");
   (EvidenceState.RECONSTRUCTED_NEEDS_REVALIDATION, "RECONSTRUCTED_NEEDS_REVALIDATION")]%string.

Definition kCompletenessTokens : list (completeness_class * string) :=
  [(CompletenessClass.UNKNOWN, "UNKNOWN"); (CompletenessClass.COMPLETE, "COMPLETE");
   (CompletenessClass.PARTIAL, "PARTIAL"); (CompletenessClass.MISSING, "MISSING")]%string.

Definition kChannelTokens : list (capacity_channel * string) :=
  [(CapacityChannel.UNKNOWN, "UNKNOWN"); (CapacityChannel.INGRESS, "INGRESS");
   (CapacityChannel.EGRESS, "EGRESS"); (CapacityChannel.INTERNAL, "INTERNAL")]%string.

Definition kScopeTokens : list (capacity_scope * string) :=
  [(CapacityScope.UNKNOWN, "UNKNOWN"); (CapacityScope.SITE_INGRESS, "SITE_INGRESS");
   (CapacityScope.SITE_EGRESS, "SITE_EGRESS");
   (CapacityScope.SITE_INTERNAL, "SITE_INTERNAL");
   (CapacityScope.RACK_LOCAL, "RACK_LOCAL"); (CapacityScope.POD_LOCAL, "POD_LOCAL");
   (CapacityScope.CLUSTER_LOCAL, "CLUSTER_LOCAL");
   (CapacityScope.SHARED_LINK, "SHARED_LINK"); (CapacityScope.GATEWAY, "GATEWAY")]%string.

Definition kConnectivityTokens : list (connectivity_state * string) :=
  [(ConnectivityState.UNKNOWN, "UNKNOWN"); (ConnectivityState.UP, "UP");
   (ConnectivityState.DOWN, "DOWN"); (ConnectivityState.DEGRADED, "DEGRADED")]%string.

Definition kDomainClassTokens : list (failure_domain_class * string) :=
  [(FailureDomainClass.UNKNOWN, "UNKNOWN"); (FailureDomainClass.PHYSICAL, "PHYSICAL");
   (FailureDomainClass.ADMINISTRATIVE, "ADMINISTRATIVE")]%string.

Definition kMaintenanceStateTokens : list (maintenance_state * string) :=
  [(MaintenanceState.UNKNOWN, "UNKNOWN"); (MaintenanceState.SCHEDULED, "SCHEDULED");
   (MaintenanceState.ACTIVE, "ACTIVE"); (MaintenanceState.COMPLETE, "COMPLETE");
   (MaintenanceState.CANCELLED, "CANCELLED")]%string.

Definition kObligationKindTokens : list (obligation_kind * string) :=
  [(ObligationKind.UNKNOWN, "UNKNOWN");
   (ObligationKind.MIN_INGRESS_CAPACITY, "MIN_INGRESS_CAPACITY");
   (ObligationKind.MIN_EGRESS_CAPACITY, "MIN_EGRESS_CAPACITY");
   (ObligationKind.MIN_INTERNAL_CAPACITY, "MIN_INTERNAL_CAPACITY");
   (ObligationKind.MIN_DISTINCT_FAILURE_DOMAINS, "MIN_DISTINCT_FAILURE_DOMAINS");
   (ObligationKind.MIN_UP_SHARED_LINKS, "MIN_UP_SHARED_LINKS");
   (ObligationKind.MIN_UP_GATEWAYS, "MIN_UP_GATEWAYS");
   (ObligationKind.DOMAIN_SURVIVABILITY, "DOMAIN_SURVIVABILITY")]%string.

Definition kMemberLifecycleTokens : list (member_lifecycle * string) :=
  [(MemberLifecycle.UNKNOWN, "UNKNOWN"); (MemberLifecycle.ABSENT, "ABSENT");
   (MemberLifecycle.REPORTED, "REPORTED"); (MemberLifecycle.CURRENT, "CURRENT");
   (MemberLifecycle.STALE, "STALE"); (MemberLifecycle.SUPERSEDED, "SUPERSEDED");
   (MemberLifecycle.CONFLICTING, "CONFLICTING");
   (MemberLifecycle.INCOMPATIBLE, "INCOMPATIBLE"); (MemberLifecycle.RETIRED, "RETIRED");
   (MemberLifecycle.REVOKED, "REVOKED")]%string.

Definition kSiteLifecycleTokens : list (site_lifecycle * string) :=
  [(SiteLifecycle.UNKNOWN, "UNKNOWN"); (SiteLifecycle.INITIALIZING, "INITIALIZING");
   (SiteLifecycle.CURRENT, "CURRENT"); (SiteLifecycle.DEGRADED, "DEGRADED");
   (SiteLifecycle.PARTITIONED, "PARTITIONED"); (SiteLifecycle.INCOMPLETE, "INCOMPLETE");
   (SiteLifecycle.CONFLICTING, "CONFLICTING");
   (SiteLifecycle.INDETERMINATE, "INDETERMINATE"); (SiteLifecycle.STOPPED, "STOPPED")]%string.

Definition kDecisionKindTokens : list (decision_kind * string) :=
  [(DecisionKind.UNKNOWN, "UNKNOWN");
   (DecisionKind.MEMBERSHIP_COMPLETENESS, "MEMBERSHIP_COMPLETENESS");
   (DecisionKind.SITE_EPOCH, "SITE_EPOCH"); (DecisionKind.OWNERSHIP_MAP, "OWNERSHIP_MAP");
   (DecisionKind.RACK_TOPOLOGY, "RACK_TOPOLOGY");
   (DecisionKind.FAILURE_DOMAIN_FOREST, "FAILURE_DOMAIN_FOREST");
   (DecisionKind.CONNECTIVITY_SUMMARY, "CONNECTIVITY_SUMMARY");
   (DecisionKind.SHARED_RESOURCE_ACCOUNTING, "SHARED_RESOURCE_ACCOUNTING");
   (DecisionKind.CAPACITY_TOTAL, "CAPACITY_TOTAL");
   (DecisionKind.CAPACITY_AVAILABLE, "CAPACITY_AVAILABLE");
   (DecisionKind.MAINTENANCE_EXCLUSION, "MAINTENANCE_EXCLUSION");
   (DecisionKind.OBLIGATION_VERDICT, "OBLIGATION_VERDICT");
   (DecisionKind.SITE_LIFECYCLE, "SITE_LIFECYCLE")]%string.

Definition kAuthorityKindTokens : list (authority_kind * string) :=
  [(AuthorityKind.UNKNOWN, "UNKNOWN"); (AuthorityKind.SITE_CONTROLLER, "SITE_CONTROLLER");
   (AuthorityKind.MEMBER_PUBLISHER, "MEMBER_PUBLISHER");
   (AuthorityKind.MAINTENANCE_OPERATOR, "MAINTENANCE_OPERATOR");
   (AuthorityKind.OBSERVER, "OBSERVER")]%string.

Definition kLeaseStateTokens : list (lease_state * string) :=
  [(LeaseState.UNKNOWN, "UNKNOWN"); (LeaseState.ACTIVE, "ACTIVE");
   (LeaseState.EXPIRED, "EXPIRED"); (LeaseState.REVOKED, "REVOKED");
   (LeaseState.SUPERSEDED, "SUPERSEDED")]%string.

Definition kRecordTypeTokens : list (record_type * string) :=
  [(RecordType.UNKNOWN, "UNKNOWN"); (RecordType.STORE_HEADER, "STORE_HEADER");
   (RecordType.SNAPSHOT, "SNAPSHOT"); (RecordType.PUBLICATION, "PUBLICATION");
   (RecordType.RETIREMENT, "RETIREMENT"); (RecordType.TOMBSTONE, "TOMBSTONE");
   (RecordType.LEASE, "LEASE"); (RecordType.CHECKPOINT, "CHECKPOINT")]%string.

Definition kMessageTypeTokens : list (message_type * string) :=
  [(MessageType.UNKNOWN, "UNKNOWN"); (MessageType.HELLO_REQUEST, "HELLO_REQUEST");
   (MessageType.HELLO_RESPONSE, "HELLO_RESPONSE");
   (MessageType.PUBLISH_REQUEST, "PUBLISH_REQUEST");
   (MessageType.PUBLISH_RESPONSE, "PUBLISH_RESPONSE");
   (MessageType.RETIRE_REQUEST, "RETIRE_REQUEST");
   (MessageType.RETIRE_RESPONSE, "RETIRE_RESPONSE");
   (MessageType.FETCH_SITE_REQUEST, "FETCH_SITE_REQUEST");
   (MessageType.FETCH_SITE_RESPONSE, "FETCH_SITE_RESPONSE");
   (MessageType.HEARTBEAT_REQUEST, "HEARTBEAT_REQUEST");
   (MessageType.HEARTBEAT_RESPONSE, "HEARTBEAT_RESPONSE");
   (MessageType.INVALIDATE_NOTICE, "INVALIDATE_NOTICE");
   (MessageType.REVOKE_NOTICE, "REVOKE_NOTICE");
   (MessageType.ERROR_RESPONSE, "ERROR_RESPONSE");
   (MessageType.SHUTDOWN_REQUEST, "SHUTDOWN_REQUEST");
   (MessageType.SHUTDOWN_RESPONSE, "SHUTDOWN_RESPONSE"); (MessageType.PING, "PING");
   (MessageType.PONG, "PONG")]%string.

(** [lookup]: the token of the first entry for [value]. *)
Definition lookup_token {E} `{EqDecision E} (table : list (E * string)) (value : E) : string :=
  match find (λ entry, bool_decide (entry.1 = value)) table with
  | Some entry => entry.2
  | None => "UNKNOWN"
  end.

(** [reverse_lookup]: the value of the first entry with exactly this token. *)
Definition reverse_lookup {E} (table : list (E * string)) (token : string) : option E :=
  fst <$> find (λ entry, bool_decide (entry.2 = token)) table.

(** An enumeration with its token table: complete, one token per enumerator, no token
    shared. *)
Class Tokens (E : Type) `{EqDecision E} := {
  token_table : list (E * string);
  token_complete : ∀ e, e ∈ token_table.*1;
  token_functional : NoDup token_table.*1;
  token_distinct : NoDup token_table.*2;
}.

Definition to_string `{Tokens E} (e : E) : string := lookup_token token_table e.
Definition parse `{Tokens E} (token : string) : option E := reverse_lookup token_table token.

Section tokens.
  Context `{Tokens E}.

Lemma find_fst (l : list (E * string)) e t :
    NoDup l.*1 → (e, t) ∈ l → find (λ entry, bool_decide (entry.1 = e)) l = Some (e, t).
Proof.
    induction l as [|[e' t'] l IH]; simpl; [by rewrite elem_of_nil|].
    intros [Hn ?]%NoDup_cons [[= <- <-]|Hin]%elem_of_cons; [by rewrite bool_decide_true|].
    rewrite bool_decide_false; [by apply IH|]. intros ->. destruct Hn.
    by apply (list_elem_of_fmap_2 fst) in Hin.
Qed.

Lemma find_snd (l : list (E * string)) e t :
    NoDup l.*2 → (e, t) ∈ l → find (λ entry, bool_decide (entry.2 = t)) l = Some (e, t).
Proof.
    induction l as [|[e' t'] l IH]; simpl; [by rewrite elem_of_nil|].
    intros [Hn ?]%NoDup_cons [[= <- <-]|Hin]%elem_of_cons; [by rewrite bool_decide_true|].
    rewrite bool_decide_false; [by apply IH|]. intros ->. destruct Hn.
    by apply (list_elem_of_fmap_2 snd) in Hin.
Qed.

Lemma to_string_elem e : (e, to_string e) ∈ token_table.
Proof.
    destruct (list_elem_of_fmap_1 _ _ _ (token_complete e)) as ([e' t] & -> & Hin); simpl.
    unfold to_string, lookup_token. by rewrite (find_fst _ _ _ token_functional Hin).
Qed.

Lemma parse_to_string e : parse (to_string e) = Some e.
Proof.
    unfold parse, reverse_lookup.
    by rewrite (find_snd _ _ _ token_distinct (to_string_elem e)).
Qed.

Lemma parse_Some t e : parse t = Some e → t = to_string e.
Proof.
    unfold parse, reverse_lookup. intros ([e' t'] & Hf & ->)%fmap_Some.
    apply find_some in Hf as [Hin Ht]. apply bool_decide_eq_true in Ht. simpl in *; subst.
    apply list_elem_of_In in Hin. unfold to_string, lookup_token.
    by rewrite (find_fst _ _ _ token_functional Hin).
Qed.

#[export] Instance to_string_inj : Inj (=) (=) to_string.
Proof. intros a b Hab. apply (f_equal parse) in Hab. rewrite !parse_to_string in Hab. congruence. Qed.
End tokens.

(** Discharges the laws of a concrete table. *)
Ltac solve_tokens t :=
  refine {| token_table := t |};
  [ intros []; apply (bool_decide_unpack _); vm_compute; exact I
  | apply (bool_decide_unpack _); vm_compute; exact I
  | apply (bool_decide_unpack _); vm_compute; exact I ].

#[export] Instance status_tokens : Tokens status.
Proof. solve_tokens kStatusTokens. Defined.
#[export] Instance member_domain_kind_tokens : Tokens member_domain_kind.
Proof. solve_tokens kMemberDomainKindTokens. Defined.
#[export] Instance resource_kind_tokens : Tokens resource_kind.
Proof. solve_tokens kResourceKindTokens. Defined.
#[export] Instance provenance_tokens : Tokens provenance.
Proof. solve_tokens kProvenanceTokens. Defined.
#[export] Instance evidence_state_tokens : Tokens evidence_state.
Proof. solve_tokens kEvidenceStateTokens. Defined.
#[export] Instance completeness_class_tokens : Tokens completeness_class.
Proof. solve_tokens kCompletenessTokens. Defined.
#[export] Instance capacity_channel_tokens : Tokens capacity_channel.
Proof. solve_tokens kChannelTokens. Defined.
#[export] Instance capacity_scope_tokens : Tokens capacity_scope.
Proof. solve_tokens kScopeTokens. Defined.
#[export] Instance connectivity_state_tokens : Tokens connectivity_state.
Proof. solve_tokens kConnectivityTokens. Defined.
#[export] Instance failure_domain_class_tokens : Tokens failure_domain_class.
Proof. solve_tokens kDomainClassTokens. Defined.
#[export] Instance maintenance_state_tokens : Tokens maintenance_state.
Proof. solve_tokens kMaintenanceStateTokens. Defined.
#[export] Instance obligation_kind_tokens : Tokens obligation_kind.
Proof. solve_tokens kObligationKindTokens. Defined.
#[export] Instance member_lifecycle_tokens : Tokens member_lifecycle.
Proof. solve_tokens kMemberLifecycleTokens. Defined.
#[export] Instance site_lifecycle_tokens : Tokens site_lifecycle.
Proof. solve_tokens kSiteLifecycleTokens. Defined.
#[export] Instance decision_kind_tokens : Tokens decision_kind.
Proof. solve_tokens kDecisionKindTokens. Defined.
#[export] Instance authority_kind_tokens : Tokens authority_kind.
Proof. solve_tokens kAuthorityKindTokens. Defined.
#[export] Instance lease_state_tokens : Tokens lease_state.
Proof. solve_tokens kLeaseStateTokens. Defined.
#[export] Instance record_type_tokens : Tokens record_type.
Proof. solve_tokens kRecordTypeTokens. Defined.
#[export] Instance message_type_tokens : Tokens message_type.
Proof. solve_tokens kMessageTypeTokens. Defined.

(** [parse_status]: an unrecognised token collapses to UNKNOWN;
    [parse_status_exact] reports it. *)
Definition parse_status (token : string) : status := default Status.UNKNOWN (parse token).
Definition parse_status_exact (token : string) : option status := parse token.

(** * Predicates (src/core/model.cpp) *)

Definition kOkStatuses : list status :=
  [Status.OK; Status.ACCEPTED; Status.COMPOSED; Status.CURRENT; Status.PUBLISHED;
   Status.RENEWED; Status.GRANTED; Status.ALREADY_EXISTS].

Definition is_ok (s : status) : bool := bool_decide (s ∈ kOkStatuses).

Definition is_knowledge_gap (s : status) : bool :=
  match s with
  | Status.UNKNOWN | Status.STALE | Status.CONFLICTING | Status.INCOMPLETE
  | Status.INDETERMINATE | Status.PARTIAL | Status.DEGRADED | Status.PARTITIONED
  | Status.CAPACITY_UNKNOWN | Status.EVIDENCE_MISSING | Status.EVIDENCE_STALE
  | Status.EVIDENCE_SYNTHETIC_ONLY | Status.EVIDENCE_FUTURE | Status.CONNECTIVITY_UNKNOWN
  | Status.MAINTENANCE_UNKNOWN | Status.MEMBERSHIP_MISSING
  | Status.NO_AUTHORITATIVE_SOURCE => true
  | _ => false
  end.

Definition is_retryable (s : status) : bool :=
  match s with
  | Status.BUSY | Status.NOT_STARTED | Status.REFUSED | Status.INCOMPLETE
  | Status.PARTIAL => true
  | _ => false
  end.

Definition is_fencing (s : status) : bool :=
  match s with
  | Status.FENCED_EPOCH | Status.FENCED_INCARNATION | Status.FENCED_GENERATION
  | Status.FENCED_ATTEMPT | Status.LEASE_EXPIRED | Status.LEASE_NOT_YET_VALID
  | Status.LEASE_REVOKED | Status.AUTHORITY_HELD_ELSEWHERE | Status.UNAUTHORIZED => true
  | _ => false
  end.

Definition valid_member_domain_kind (k : member_domain_kind) : bool :=
  match k with
  | MemberDomainKind.CLUSTER | MemberDomainKind.POD | MemberDomainKind.RACK
  | MemberDomainKind.SHARED_RESOURCE => true
  | _ => false
  end.

Definition valid_resource_kind (k : resource_kind) : bool :=
  match k with
  | ResourceKind.CLUSTER | ResourceKind.POD | ResourceKind.RACK | ResourceKind.SHARED_LINK
  | ResourceKind.GATEWAY | ResourceKind.CAPACITY_POOL | ResourceKind.FAILURE_DOMAIN
  | ResourceKind.MAINTENANCE_ZONE | ResourceKind.OBLIGATION => true
  | _ => false
  end.

Definition is_physical_evidence (p : provenance) : bool :=
  match p with
  | Provenance.MEASURED | Provenance.REPORTED | Provenance.DERIVED | Provenance.ESTIMATED
  | Provenance.RECONSTRUCTED => true
  | _ => false
  end.

Definition is_live_after_restart (p : provenance) : bool :=
  bool_decide (p ≠ Provenance.SYNTHETIC) && bool_decide (p ≠ Provenance.UNKNOWN).

Definition valid_capacity_scope (s : capacity_scope) : bool :=
  match s with
  | CapacityScope.SITE_INGRESS | CapacityScope.SITE_EGRESS | CapacityScope.SITE_INTERNAL
  | CapacityScope.RACK_LOCAL | CapacityScope.POD_LOCAL | CapacityScope.CLUSTER_LOCAL
  | CapacityScope.SHARED_LINK | CapacityScope.GATEWAY => true
  | _ => false
  end.

Definition scope_feeds_site_total (s : capacity_scope) : bool :=
  match s with
  | CapacityScope.SITE_INGRESS | CapacityScope.SITE_EGRESS | CapacityScope.SITE_INTERNAL
  | CapacityScope.RACK_LOCAL | CapacityScope.POD_LOCAL | CapacityScope.CLUSTER_LOCAL
  | CapacityScope.SHARED_LINK | CapacityScope.GATEWAY => true
  | _ => false
  end.

Definition is_operational (s : connectivity_state) : bool :=
  bool_decide (s = ConnectivityState.UP).

Definition valid_failure_domain_class (c : failure_domain_class) : bool :=
  bool_decide (c = FailureDomainClass.PHYSICAL)
  || bool_decide (c = FailureDomainClass.ADMINISTRATIVE).

Definition excludes_capacity (s : maintenance_state) : bool :=
  bool_decide (s = MaintenanceState.ACTIVE).

Definition makes_indeterminate (s : maintenance_state) : bool :=
  bool_decide (s = MaintenanceState.UNKNOWN).

Definition valid_obligation_kind (k : obligation_kind) : bool :=
  match k with
  | ObligationKind.MIN_INGRESS_CAPACITY | ObligationKind.MIN_EGRESS_CAPACITY
  | ObligationKind.MIN_INTERNAL_CAPACITY | ObligationKind.MIN_DISTINCT_FAILURE_DOMAINS
  | ObligationKind.MIN_UP_SHARED_LINKS | ObligationKind.MIN_UP_GATEWAYS
  | ObligationKind.DOMAIN_SURVIVABILITY => true
  | _ => false
  end.

Definition obligation_is_count (k : obligation_kind) : bool :=
  match k with
  | ObligationKind.MIN_DISTINCT_FAILURE_DOMAINS | ObligationKind.MIN_UP_SHARED_LINKS
  | ObligationKind.MIN_UP_GATEWAYS | ObligationKind.DOMAIN_SURVIVABILITY => true
  | _ => false
  end.

Definition obligation_channel (k : obligation_kind) : capacity_channel :=
  match k with
  | ObligationKind.MIN_INGRESS_CAPACITY => CapacityChannel.INGRESS
  | ObligationKind.MIN_EGRESS_CAPACITY => CapacityChannel.EGRESS
  | ObligationKind.MIN_INTERNAL_CAPACITY => CapacityChannel.INTERNAL
  | _ => CapacityChannel.UNKNOWN
  end.

Definition valid_authority_kind (k : authority_kind) : bool :=
  match k with
  | AuthorityKind.SITE_CONTROLLER | AuthorityKind.MEMBER_PUBLISHER
  | AuthorityKind.MAINTENANCE_OPERATOR | AuthorityKind.OBSERVER => true
  | _ => false
  end.

Definition may_mutate_site (k : authority_kind) : bool :=
  bool_decide (k = AuthorityKind.SITE_CONTROLLER)
  || bool_decide (k = AuthorityKind.MAINTENANCE_OPERATOR).

Definition known_record_type (t : record_type) : bool := bool_decide (t ≠ RecordType.UNKNOWN).
Definition known_message_type (t : message_type) : bool :=
  bool_decide (t ≠ MessageType.UNKNOWN).

(** * What the tables and predicates guarantee *)

(** Every status has exactly one stable token: rendering then strict parsing gives
    the status back, a token the strict parser accepts is the one rendered for its result,
    and the lenient parser differs from the strict one only by collapsing an unrecognised
    token to UNKNOWN. *)
Theorem status_token_roundtrip (s : status) (t : string) :
  parse_status_exact (to_string s) = Some s
  ∧ (parse_status_exact t = Some s → t = to_string s)
  ∧ (parse_status t = s ↔
       parse_status_exact t = Some s ∨ (parse_status_exact t = None ∧ s = Status.UNKNOWN)).
Proof.
  split_and!; [apply parse_to_string | apply parse_Some |].
  unfold parse_status, parse_status_exact. destruct (parse t); simpl; naive_solver.
Qed.

(** No fencing code and no knowledge gap is a positive outcome, and no fencing code may
    be retried unchanged. *)
Theorem status_classes_disjoint (s : status) :
  ¬ (is_ok s ∧ is_knowledge_gap s) ∧ ¬ (is_ok s ∧ is_fencing s)
  ∧ ¬ (is_ok s ∧ is_retryable s) ∧ ¬ (is_fencing s ∧ is_retryable s)
  ∧ ¬ (is_fencing s ∧ is_knowledge_gap s).
Proof. destruct s; vm_compute; naive_solver. Qed.
