(* ===== verification/Sha256.v ===== *)
(** SHA-256 and hex text (src/internal/crypto.cpp).

    The streaming hasher of [class Sha256], its compression function on 32-bit words
    written with the source's shifts, masks and wrap-around, and the one-shot
    [digest_bytes]. The theorems: splitting the input over several [update] calls never
    changes the result, the padding loop of [finish] terminates, and the streaming hasher
    computes the reference definition [sha256_spec] (pad, cut into blocks, fold). *)

From S2P Require Import Prelude.

(** * Words *)

Definition rotr (value bits : Z) : Z :=
  Z.lor (Z.shiftr value bits) (wrap 32 (Z.shiftl value (32 - bits))).

Definition add32 (a b : Z) : Z := wrap 32 (a + b).
Definition not32 (a : Z) : Z := Z.lxor a 0xffffffff.
Definition word (l : list Z) (i : nat) : Z := nth i l 0.
Definition byte_at (l : bytes) (i : nat) : Z := byte_val (nth i l x00).

(** One list per line of the source's table. *)
Definition kRoundConstants : list Z :=
  List.concat [
    [0x428a2f98; 0x71374491; 0xb5c0fbcf; 0xe9b5dba5; 0x3956c25b; 0x59f111f1];
    [0x923f82a4; 0xab1c5ed5; 0xd807aa98; 0x12835b01; 0x243185be; 0x550c7dc3];
    [0x72be5d74; 0x80deb1fe; 0x9bdc06a7; 0xc19bf174; 0xe49b69c1; 0xefbe4786];
    [0x0fc19dc6; 0x240ca1cc; 0x2de92c6f; 0x4a7484aa; 0x5cb0a9dc; 0x76f988da];
    [0x983e5152; 0xa831c66d; 0xb00327c8; 0xbf597fc7; 0xc6e00bf3; 0xd5a79147];
    [0x06ca6351; 0x14292967; 0x27b70a85; 0x2e1b2138; 0x4d2c6dfc; 0x53380d13];
    [0x650a7354; 0x766a0abb; 0x81c2c92e; 0x92722c85; 0xa2bfe8a1; 0xa81a664b];
    [0xc24b8b70; 0xc76c51a3; 0xd192e819; 0xd6990624; 0xf40e3585; 0x106aa070];
    [0x19a4c116; 0x1e376c08; 0x2748774c; 0x34b0bcb5; 0x391c0cb3; 0x4ed8aa4a];
    [0x5b9cca4f; 0x682e6ff3; 0x748f82ee; 0x78a5636f; 0x84c87814; 0x8cc70208];
    [0x90befffa; 0xa4506ceb; 0xbef9a3f7; 0xc67178f2]].

(** * The hasher state *)

Record sha_words := Words
  { wa : Z; wb : Z; wc : Z; wd : Z; we : Z; wf : Z; wg : Z; wh : Z }.

Definition initial_words : sha_words :=
  Words 0x6a09e667 0xbb67ae85 0x3c6ef372 0xa54ff53a 0x510e527f 0x9b05688c 0x1f83d9ab 0x5be0cd19.

(** [buffer_] holds the [buffered_] bytes not yet compressed. *)
Record sha256 := Sha256 {
  sha_state : sha_words;
  sha_buffer : bytes;
  sha_total_bytes : Z;
  sha_finished : bool;
}.

Definition sha_init : sha256 := Sha256 initial_words [] 0 false.

(** * Compression of one 64-byte block *)

Definition load_word (block : bytes) (index : nat) : Z :=
  Z.lor (Z.lor (Z.shiftl (byte_at block (index * 4)) 24)
               (Z.shiftl (byte_at block (index * 4 + 1)) 16))
        (Z.lor (Z.shiftl (byte_at block (index * 4 + 2)) 8)
               (byte_at block (index * 4 + 3))).

(** The next schedule word; its index is the current length of the schedule. *)
Definition next_word (schedule : list Z) : Z :=
  let index := length schedule in
  let w15 := word schedule (index - 15) in
  let w2 := word schedule (index - 2) in
  let s0 := Z.lxor (Z.lxor (rotr w15 7) (rotr w15 18)) (Z.shiftr w15 3) in
  let s1 := Z.lxor (Z.lxor (rotr w2 17) (rotr w2 19)) (Z.shiftr w2 10) in
  add32 (add32 (add32 (word schedule (index - 16)) s0) (word schedule (index - 7))) s1.

Fixpoint extend_schedule (n : nat) (schedule : list Z) : list Z :=
  match n with
  | O => schedule
  | S n' => extend_schedule n' (schedule ++ [next_word schedule])
  end.

Definition message_schedule (block : bytes) : list Z :=
  extend_schedule 48 (load_word block <$> seq 0 16).

Definition sha_round (v : sha_words) (kw : Z * Z) : sha_words :=
  let '(Words a b c d e f g h) := v in
  let s1 := Z.lxor (Z.lxor (rotr e 6) (rotr e 11)) (rotr e 25) in
  let choose := Z.lxor (Z.land e f) (Z.land (not32 e) g) in
  let temp1 := add32 (add32 (add32 (add32 h s1) choose) kw.1) kw.2 in
  let s0 := Z.lxor (Z.lxor (rotr a 2) (rotr a 13)) (rotr a 22) in
  let majority := Z.lxor (Z.lxor (Z.land a b) (Z.land a c)) (Z.land b c) in
  let temp2 := add32 s0 majority in
  Words (add32 temp1 temp2) a b c (add32 d temp1) e f g.

Definition compress (state : sha_words) (block : bytes) : sha_words :=
  let v := foldl sha_round state (zip kRoundConstants (message_schedule block)) in
  Words (add32 (wa state) (wa v)) (add32 (wb state) (wb v))
        (add32 (wc state) (wc v)) (add32 (wd state) (wd v))
        (add32 (we state) (we v)) (add32 (wf state) (wf v))
        (add32 (wg state) (wg v)) (add32 (wh state) (wh v)).

(** * [update] and [finish] *)

(** [while (offset + 64 <= data.size()) compress(...)]: the remaining state and bytes. *)
Fixpoint compress_blocks (fuel : nat) (state : sha_words) (data : bytes) : sha_words * bytes :=
  match fuel with
  | O => (state, data)
  | S fuel' =>
      if decide (64 ≤ length data)%nat
      then compress_blocks fuel' (compress state (take 64 data)) (drop 64 data)
      else (state, data)
  end.

Definition sha_update (h : sha256) (data : bytes) : sha256 :=
  if sha_finished h then h else
  let total := wrap 64 (sha_total_bytes h + zlen data) in
  let buffered := length (sha_buffer h) in
  let taken := if decide (buffered = 0)%nat then 0%nat else Nat.min (length data) (64 - buffered) in
  let filled := sha_buffer h ++ take taken data in
  let '(state, buffer) :=
    if decide (length filled = 64)%nat then (compress (sha_state h) filled, [])
    else (sha_state h, filled) in
  let '(state', rest) := compress_blocks (length data) state (drop taken data) in
  Sha256 state' (if decide (rest = []) then buffer else rest) total false.

(** [while (buffered_ != 56) update(zero)]; 64 iterations always reach it. *)
Fixpoint pad_to_56 (fuel : nat) (h : sha256) : sha256 :=
  if decide (length (sha_buffer h) = 56)%nat then h else
  match fuel with
  | O => h
  | S fuel' => pad_to_56 fuel' (sha_update h [x00])
  end.

Definition length_bytes (bit_length : Z) : bytes :=
  (λ index, to_byte (Z.land (Z.shiftr bit_length (56 - 8 * Z.of_nat index)) 0xff)) <$> seq 0 8.

(** [big_endian] and the [memcpy] of the swapped word on a little-endian machine. *)
Definition big_endian (value : Z) : Z :=
  Z.lor (Z.lor (wrap 32 (Z.shiftl (Z.land value 0x000000ff) 24))
               (wrap 32 (Z.shiftl (Z.land value 0x0000ff00) 8)))
        (Z.lor (Z.shiftr (Z.land value 0x00ff0000) 8)
               (Z.shiftr (Z.land value 0xff000000) 24)).

Definition word_bytes (value : Z) : bytes :=
  (λ shift, to_byte (Z.shiftr value shift)) <$> [0; 8; 16; 24].

Definition words_list (s : sha_words) : list Z :=
  [wa s; wb s; wc s; wd s; we s; wf s; wg s; wh s].

Abbreviation digest := bytes.
Definition zero_digest : digest := replicate 32 x00.

Definition output_words (s : sha_words) : digest :=
  words_list s ≫= (λ w, word_bytes (big_endian w)).

(** The returned pair: the digest, and the hasher after the call. *)
Definition sha_finish (h : sha256) : digest * sha256 :=
  if sha_finished h then (zero_digest, h) else
  let bit_length := wrap 64 (sha_total_bytes h * 8) in
  let padded := pad_to_56 64 (sha_update h [x80]) in
  let h' := sha_update padded (length_bytes bit_length) in
  (output_words (sha_state h'),
   Sha256 (sha_state h') (sha_buffer h') (sha_total_bytes h') true).

Definition digest_bytes (data : bytes) : digest := (sha_finish (sha_update sha_init data)).1.
Definition digest_text (text : string) : digest := digest_bytes (string_bytes text).

(** * The reference definition *)

(** The message followed by 0x80, the zeros that bring it to 56 modulo 64, and its bit
    length on eight big-endian bytes. *)
Definition sha256_pad (msg : bytes) : bytes :=
  msg ++ [x80] ++ replicate ((119 - length msg mod 64) mod 64) x00
      ++ length_bytes (wrap 64 (zlen msg * 8)).

(** Cut into 64-byte blocks and fold the compression function. *)
Definition sha256_spec (msg : bytes) : digest :=
  output_words (compress_blocks (length (sha256_pad msg)) initial_words (sha256_pad msg)).1.

(** * Streaming *)

Definition absorb (state : sha_words) (data : bytes) : sha_words * bytes :=
  compress_blocks (length data) state data.

Lemma compress_blocks_fuel fuel state data :
  (length data ≤ fuel)%nat → compress_blocks fuel state data = absorb state data.
Proof.
  unfold absorb. revert state data. induction fuel as [fuel IH] using lt_wf_ind.
  intros state data Hf. destruct fuel as [|fuel]; [by destruct data; simpl in *; try lia|].
  destruct data as [|b data]; [by destruct fuel|].
  simpl. case_decide; [|done]. simpl in *.
  rewrite (IH fuel) by (simpl in *; rewrite ?length_drop; lia).
  destruct (decide (fuel = length data)) as [->|]; [|].
  - by rewrite (IH (length data)) by (simpl in *; rewrite ?length_drop; lia).
  - by rewrite (IH (length data)) by (simpl in *; rewrite ?length_drop; lia).
Qed.

Lemma absorb_small state data : (length data < 64)%nat → absorb state data = (state, data).
Proof.
  unfold absorb. destruct data as [|b data]; [done|]. intros.
  cbn [compress_blocks length]. by rewrite decide_False by (simpl in *; lia).
Qed.

Lemma absorb_block state block data :
  length block = 64%nat → absorb state (block ++ data) = absorb (compress state block) data.
Proof.
  intros Hb. unfold absorb at 1. destruct block as [|b block]; [done|].
  cbn [compress_blocks length app].
  rewrite decide_True by (simpl in *; rewrite length_app; lia).
  change (b :: block ++ data) with ((b :: block) ++ data).
  rewrite take_app_length' by done. rewrite drop_app_length' by done.
  apply compress_blocks_fuel. rewrite length_app. lia.
Qed.

Lemma absorb_tail state data : (length (absorb state data).2 < 64)%nat.
Proof.
  revert state. induction data as [data IH] using (induction_ltof1 _ (@length byte)). intros state.
  destruct (decide (length data < 64)%nat).
  - by rewrite absorb_small.
  - rewrite <- (take_drop 64 data), absorb_block by (rewrite length_take; lia).
    apply IH. unfold ltof. rewrite length_drop. lia.
Qed.

Lemma absorb_app state data more :
  absorb state (data ++ more) = absorb (absorb state data).1 ((absorb state data).2 ++ more).
Proof.
  revert state. induction data as [data IH] using (induction_ltof1 _ (@length byte)). intros state.
  destruct (decide (length data < 64)%nat).
  - by rewrite (absorb_small _ data).
  - rewrite <- (take_drop 64 data) at 1. rewrite <- app_assoc.
    rewrite absorb_block by (rewrite length_take; lia).
    rewrite IH by (unfold ltof; rewrite length_drop; lia).
    rewrite <- (absorb_block state (take 64 data)) by (rewrite length_take; lia).
    by rewrite take_drop.
Qed.

(** [h] has absorbed [msg]. *)
Definition absorbed (h : sha256) (msg : bytes) : Prop :=
  (sha_state h, sha_buffer h) = absorb initial_words msg
  ∧ sha_total_bytes h = wrap 64 (zlen msg) ∧ sha_finished h = false.

Lemma absorbed_init : absorbed sha_init [].
Proof. done. Qed.

(** One [update] on a hasher whose buffer is short absorbs exactly its argument. *)
Lemma sha_update_absorb h data :
  sha_finished h = false → (length (sha_buffer h) < 64)%nat →
  (sha_state (sha_update h data), sha_buffer (sha_update h data))
    = absorb (sha_state h) (sha_buffer h ++ data).
Proof.
  intros Hfin Hbuf. unfold sha_update. rewrite Hfin.
  set (buf := sha_buffer h) in *. set (st := sha_state h).
  destruct (decide (length buf = 0)%nat) as [H0|H0].
  - apply nil_length_inv in H0. rewrite H0. cbn [app take drop length].
    rewrite take_0, drop_0, decide_False, compress_blocks_fuel by done.
    destruct (absorb st data) as [st' rest]. by destruct rest.
  - destruct (decide (length (buf ++ take (length data `min` (64 - length buf)) data) = 64)%nat)
      as [Hfull|Hpart].
    + rewrite compress_blocks_fuel by (rewrite length_drop; lia).
      set (n := (length data `min` (64 - length buf))%nat) in *.
      replace (buf ++ data) with ((buf ++ take n data) ++ drop n data)
        by (by rewrite <- app_assoc, take_drop).
      rewrite absorb_block by done.
      destruct (absorb _ _) as [st' rest]. by destruct rest.
    + rewrite length_app, length_take in Hpart.
      replace (length data `min` (64 - length buf))%nat with (length data) by lia.
      rewrite take_ge, drop_ge by lia. rewrite (absorb_small _ (buf ++ data))
        by (rewrite length_app; lia).
      rewrite compress_blocks_fuel, absorb_small by (simpl; lia). done.
Qed.

Lemma sha_update_absorbed h msg data :
  absorbed h msg → absorbed (sha_update h data) (msg ++ data).
Proof.
  intros (Hs & Ht & Hf). pose proof (absorb_tail initial_words msg) as Hl.
  pose proof (absorb_app initial_words msg data) as Happ.
  rewrite <- Hs in Hl, Happ. simpl in Hl, Happ. split_and!.
  - by rewrite sha_update_absorb, Happ.
  - unfold sha_update. rewrite Hf. repeat (case_match; simpl); rewrite Ht, zlen_app;
      unfold wrap; by rewrite Zplus_mod_idemp_l.
  - unfold sha_update. rewrite Hf. by repeat case_match.
Qed.

(** ** The padding loop *)

(** Zero bytes needed to bring a buffer of [n] bytes to 56. *)
Definition zeros_for (n : nat) : nat := ((56 + 64 - n) mod 64)%nat.

Lemma zeros_for_0 n : (n < 64)%nat → zeros_for n = 0%nat → n = 56%nat.
Proof.
  intros Hn. assert (Forall (λ n, zeros_for n = 0 → n = 56)%nat (seq 0 64)) as Hall
    by (repeat (constructor; [by vm_compute|]); constructor).
  rewrite Forall_forall in Hall. apply Hall, elem_of_seq. lia.
Qed.

Lemma zeros_for_step n :
  (n < 64)%nat → n ≠ 56%nat → zeros_for n = S (zeros_for ((n + 1) mod 64)).
Proof.
  intros Hn. assert (Forall (λ n, n ≠ 56 → zeros_for n = S (zeros_for ((n + 1) mod 64)))%nat
    (seq 0 64)) as Hall by (repeat (constructor; [by vm_compute|]); constructor).
  rewrite Forall_forall in Hall. apply Hall, elem_of_seq. lia.
Qed.

Lemma absorbed_length h msg : absorbed h msg → length (sha_buffer h) = (length msg mod 64)%nat.
Proof.
  intros (Hs & _). change (sha_buffer h) with ((sha_state h, sha_buffer h).2).
  rewrite Hs. generalize initial_words. clear.
  induction msg as [msg IH] using (induction_ltof1 _ (@length byte)). intros state.
  destruct (decide (length msg < 64)%nat).
  - by rewrite absorb_small, Nat.mod_small.
  - rewrite <- (take_drop 64 msg) at 1. rewrite absorb_block by (rewrite length_take; lia).
    rewrite IH by (unfold ltof; rewrite length_drop; lia). rewrite length_drop.
    replace (length msg) with (length msg - 64 + 1 * 64)%nat at 2 by lia.
    by rewrite Nat.Div0.mod_add.
Qed.

Lemma absorbed_short h msg : absorbed h msg → (length (sha_buffer h) < 64)%nat.
Proof. intros ->%absorbed_length. by apply Nat.mod_upper_bound. Qed.

(** The loop ends with 56 bytes buffered, having absorbed exactly the needed zeros. *)
Lemma pad_to_56_absorbed fuel h msg :
  absorbed h msg → (zeros_for (length msg mod 64) ≤ fuel)%nat →
  absorbed (pad_to_56 fuel h) (msg ++ replicate (zeros_for (length msg mod 64)) x00)
  ∧ length (sha_buffer (pad_to_56 fuel h)) = 56%nat.
Proof.
  revert h msg. induction fuel as [|fuel IH]; intros h msg Ha Hz;
    pose proof (absorbed_length _ _ Ha) as Hl; pose proof (absorbed_short _ _ Ha) as Hb;
    cbn [pad_to_56]; rewrite <- Hl in *.
  - apply Nat.le_0_r in Hz. rewrite Hz. apply zeros_for_0 in Hz; [|done].
    rewrite decide_True by done. simpl. by rewrite app_nil_r.
  - case_decide as H56.
    { rewrite H56. change (zeros_for 56) with 0%nat. simpl. by rewrite app_nil_r. }
    rewrite zeros_for_step in * by done.
    assert (length (msg ++ [x00]) mod 64 = (length (sha_buffer h) + 1) mod 64)%nat as Hm
      by (rewrite length_app, <- Nat.Div0.add_mod_idemp_l, <- Hl; done).
    destruct (IH (sha_update h [x00]) (msg ++ [x00])) as [IHa IHb].
    { by apply sha_update_absorbed. }
    { rewrite Hm. lia. }
    rewrite Hm, <- app_assoc in IHa. done.
Qed.

(** ** The hasher computes the reference definition *)

Lemma length_length_bytes z : length (length_bytes z) = 8%nat.
Proof. done. Qed.

Lemma zeros_for_pad n : zeros_for ((n + 1) mod 64) = ((119 - n mod 64) mod 64)%nat.
Proof.
  assert (n mod 64 < 64)%nat as Hn by (by apply Nat.mod_upper_bound).
  rewrite <- Nat.Div0.add_mod_idemp_l. revert Hn. generalize (n mod 64)%nat. clear n. intros n Hn.
  assert (Forall (λ n, zeros_for ((n + 1) mod 64) = (119 - n) mod 64)%nat (seq 0 64)) as Hall
    by (repeat (constructor; [by vm_compute|]); constructor).
  rewrite Forall_forall in Hall. apply Hall, elem_of_seq. lia.
Qed.

Lemma sha_finish_spec h msg : absorbed h msg → (sha_finish h).1 = sha256_spec msg.
Proof.
  intros Ha. pose proof (sha_update_absorbed _ _ [x80] Ha) as Ha1.
  destruct (pad_to_56_absorbed 64 _ _ Ha1) as [Ha2 _].
  { unfold zeros_for. apply Nat.lt_le_incl. by apply Nat.mod_upper_bound. }
  pose proof (sha_update_absorbed _ _ (length_bytes (wrap 64 (sha_total_bytes h * 8))) Ha2) as Ha3.
  destruct Ha as (_ & Ht & Hf). unfold sha_finish. rewrite Hf. cbn [fst].
  destruct Ha3 as (Hs & _ & _). unfold sha256_spec. f_equal. fold (absorb initial_words (sha256_pad msg)).
  change (sha_state ?x) with ((sha_state x, sha_buffer x).1) at 1. rewrite Hs. f_equal. f_equal.
  unfold sha256_pad. rewrite Ht. rewrite length_app, zeros_for_pad, <- !app_assoc.
  replace (wrap 64 (wrap 64 (zlen msg) * 8)) with (wrap 64 (zlen msg * 8)); [done|].
  unfold wrap. by rewrite Zmult_mod_idemp_l.
Qed.

Lemma absorbed_update a : absorbed (sha_update sha_init a) a.
Proof. exact (sha_update_absorbed _ [] a absorbed_init). Qed.

Lemma digest_bytes_spec data : digest_bytes data = sha256_spec data.
Proof. apply sha_finish_spec, absorbed_update. Qed.

Lemma digest_bytes_length data : length (digest_bytes data) = 32%nat.
Proof. by rewrite digest_bytes_spec. Qed.

Lemma absorbed_updates pieces : ∀ h msg, absorbed h msg → absorbed (foldl sha_update h pieces) (msg ++ concat pieces).
Proof.
  induction pieces as [|piece pieces IH]; intros h msg Hh; cbn [foldl concat]; [by rewrite app_nil_r|].
  rewrite app_assoc. by apply IH, sha_update_absorbed.
Qed.

(** C40: the digest does not depend on how a message is cut: a hasher fed any pieces, one
    [update] each, finishes - padding loop included - with the reference digest of the message
    they add up to: pad, cut into 64-byte blocks, fold the compression function; and so does
    the hash of the message in one piece. *)
Theorem streaming_digest_spec (pieces : list bytes) :
  (sha_finish (foldl sha_update sha_init pieces)).1 = sha256_spec (concat pieces)
  ∧ digest_bytes (concat pieces) = sha256_spec (concat pieces).
Proof. split; [|apply digest_bytes_spec]. exact (sha_finish_spec _ _ (absorbed_updates pieces _ _ absorbed_init)). Qed.

(** * Hex text *)

Definition kDigits : bytes := string_bytes "0123456789abcdef".

Definition to_hex (data : bytes) : string :=
  bytes_string (data ≫= λ b,
    [nth (Z.to_nat (Z.land (Z.shiftr (byte_val b) 4) 0x0f)) kDigits x00;
     nth (Z.to_nat (Z.land (byte_val b) 0x0f)) kDigits x00]).

(** [value_of] inside [from_hex]; [None] is its -1. *)
Definition hex_value (character : byte) : option Z :=
  let c := byte_val character in
  if (48 <=? c) && (c <=? 57) then Some (c - 48)
  else if (97 <=? c) && (c <=? 102) then Some (c - 97 + 10)
  else if (65 <=? c) && (c <=? 70) then Some (c - 65 + 10)
  else None.

Fixpoint from_hex_bytes (text : bytes) : option bytes :=
  match text with
  | [] => Some []
  | high :: low :: rest =>
      h ← hex_value high;
      l ← hex_value low;
      out ← from_hex_bytes rest;
      Some (to_byte (Z.lor (Z.shiftl h 4) l) :: out)
  | [_] => None
  end.

(** [from_hex]; [None] is its [false], after which no caller reads [out]. *)
Definition from_hex (text : string) : option bytes := from_hex_bytes (string_bytes text).

(** Hex text round-trips: [from_hex] reads back exactly the bytes [to_hex] rendered,
    two digits per byte. *)
Theorem hex_roundtrip (data : bytes) :
  from_hex (to_hex data) = Some data ∧ String.length (to_hex data) = (2 * length data)%nat.
Proof.
  unfold from_hex, to_hex. rewrite <- length_string_bytes.
  rewrite String.list_byte_of_string_of_list_byte. split.
  - induction data as [|b data IH]; [done|]. rewrite bind_cons. cbn [app from_hex_bytes].
    rewrite IH. by destruct b.
  - induction data as [|b data IH]; [done|]. rewrite bind_cons, length_app, IH. simpl. lia.
Qed.
