(* ===== verification/Identity.v ===== *)
(** Identities, generations and provenance edges (identity.hpp, generation.hpp, limits.hpp,
    status.hpp and their half of src/core/model.cpp).

    Identifier grammar, the two key types with their canonical text, generations and epochs
    that saturate, incarnations, digests as text, the source reference that records why a
    value is believed, the bounded canonical set of such references, and the bounded list of
    factors an outcome carries. *)

From Stdlib Require Import Strings.Ascii.
From stdpp Require Import sorting.
From S2P Require Import Prelude Ordering Enums Sha256.

(** * Limits *)

Definition kMaxIdentifierBytes : Z := 192.
Definition kMaxTextBytes : Z := 4096.
Definition kMaxFactors : Z := 64.
Definition kMaxResourceMembers : Z := 4096.
Definition kMaxCapacityContributions : Z := 16384.
Definition kMaxFailureDomainsPerDeclaration : Z := 4096.
Definition kMaxMaintenanceZonesPerDeclaration : Z := 1024.
Definition kMaxObligationsPerDeclaration : Z := 1024.
Definition kMaxMemberDomains : Z := 4096.
Definition kMaxDecisionSources : Z := 4096.
Definition kMaxConflicts : Z := 8192.
Definition kMaxDeficits : Z := 8192.
Definition kMaxDecisions : Z := 131072.
Definition kMaxAttestorsPerResource : Z := 4096.
Definition kMaxDistinctResources : Z := 65536.
Definition kMaxDistinctFailureDomains : Z := 8192.
Definition kMaxDistinctMaintenanceZones : Z := 4096.
Definition kMaxDistinctObligations : Z := 4096.
Definition kMaxFailureDomainDepth : Z := 32.
Definition kMaxCapacityBps : Z := 1000000000000000.
Definition kMaxCountValue : Z := 1000000000.
Definition kMaxEvidenceTtlMs : Z := 7 * 24 * 60 * 60 * 1000.
Definition kMaxFrameBytes : Z := 4 * 1024 * 1024.
Definition kMaxSnapshotHistory : Z := 4096.
Definition kMaxRecordPayloadBytes : Z := 8 * 1024 * 1024.
Definition kMaxMemberSequenceGap : Z := 1000000.

(** * Identifiers *)

Definition is_lead (character : byte) : bool :=
  let c := byte_val character in
  ((65 <=? c) && (c <=? 90)) || ((97 <=? c) && (c <=? 122)) || ((48 <=? c) && (c <=? 57)).

Definition is_separator (character : byte) : bool :=
  match character with
  | x2e (* . *) | x5f (* _ *) | x2d (* - *) | x3a (* : *) => true
  | _ => false
  end.

Definition is_tail (character : byte) : bool := is_lead character || is_separator character.

Definition is_valid_identifier_bytes (text : bytes) : bool :=
  match text with
  | [] => false
  | front :: _ =>
      if kMaxIdentifierBytes <? zlen text then false
      else if negb (is_lead front) then false
      else if negb (forallb is_tail text) then false
      else negb (is_separator (List.last text x00))
  end.

Definition is_valid_identifier (text : string) : bool :=
  is_valid_identifier_bytes (string_bytes text).

(** What an identifier may be assumed to be: its bytes are letters, digits and separators,
    it starts and ends with a letter or a digit, and its length is bounded. *)
Lemma is_valid_identifier_inv text :
  is_valid_identifier text = true →
  ∃ b rest, string_bytes text = b :: rest ∧ is_lead b = true
    ∧ Forall (λ c, is_tail c = true) (b :: rest) ∧ zlen (b :: rest) ≤ kMaxIdentifierBytes
    ∧ is_lead (List.last (b :: rest) x00) = true.
Proof.
  unfold is_valid_identifier. destruct (string_bytes text) as [|b rest]; [done|].
  unfold is_valid_identifier_bytes. intros H.
  destruct (Z.ltb_spec kMaxIdentifierBytes (zlen (b :: rest))); [done|].
  destruct (is_lead b) eqn:Hb; [|done]. cbn [negb] in H.
  destruct (forallb is_tail (b :: rest)) eqn:Ht; [|done]. cbn [negb] in H.
  assert (Forall (λ c, is_tail c = true) (b :: rest)) as Hall
    by (apply List.Forall_forall; intros c Hc; exact (proj1 (forallb_forall _ _) Ht c Hc)).
  exists b, rest. split_and!; try done.
  assert (is_tail (List.last (b :: rest) x00) = true) as Hl.
  { rewrite List.Forall_forall in Hall. apply Hall.
    destruct (exists_last (l:=b :: rest)) as (l & x & ->); [done|].
    rewrite last_last. apply in_or_app. right. by left. }
  apply negb_true_iff in H. unfold is_tail in Hl. by rewrite H, orb_false_r in Hl.
Qed.

(** * Keys: a kind and an identifier *)

Record member_domain_key := MemberDomainKey { mdk_kind : member_domain_kind; mdk_id : string }.
Record resource_key := ResourceKey { rk_kind : resource_kind; rk_id : string }.

#[export] Instance member_domain_key_eq_dec : EqDecision member_domain_key.
Proof. solve_decision. Defined.
#[export] Instance resource_key_eq_dec : EqDecision resource_key.
Proof. solve_decision. Defined.

Definition mdk_fields (k : member_domain_key) := (mdk_kind k, mdk_id k).
Definition rk_fields (k : resource_key) := (rk_kind k, rk_id k).
#[export] Instance mdk_fields_inj : Inj (=) (=) mdk_fields.
Proof. by intros [] [] [= -> ->]. Qed.
#[export] Instance rk_fields_inj : Inj (=) (=) rk_fields.
Proof. by intros [] [] [= -> ->]. Qed.
#[export] Instance member_domain_key_ord : Ord member_domain_key := ord_inj mdk_fields.
#[export] Instance resource_key_ord : Ord resource_key := ord_inj rk_fields.

Definition mdk_valid (k : member_domain_key) : bool :=
  valid_member_domain_kind (mdk_kind k) && is_valid_identifier (mdk_id k).
(** The default-constructed key: no resource. *)
Definition no_resource : resource_key := ResourceKey ResourceKind.UNKNOWN "".

Definition rk_valid (k : resource_key) : bool :=
  valid_resource_kind (rk_kind k) && is_valid_identifier (rk_id k).

Definition mdk_to_string (k : member_domain_key) : string :=
  (to_string (mdk_kind k) +:+ ":" +:+ mdk_id k)%string.
Definition rk_to_string (k : resource_key) : string :=
  (to_string (rk_kind k) +:+ ":" +:+ rk_id k)%string.

(** [text.find(':')] and the two [substr]s around it. *)
Fixpoint split_colon (text : string) : option (string * string) :=
  match text with
  | EmptyString => None
  | String c rest =>
      if decide (c = ":"%char) then Some (EmptyString, rest)
      else '(before, after) ← split_colon rest; Some (String c before, after)
  end.

(** The common body of [MemberDomainKey::parse] and [ResourceKey::parse]. *)
Definition parse_key {E K} `{Tokens E} (valid_kind : E → bool) (mk : E → string → K)
    (text : string) : option K :=
  '(token, id) ← split_colon text;
  kind ← parse token;
  if negb (valid_kind kind) then None
  else if negb (is_valid_identifier id) then None
  else Some (mk kind id).

Definition mdk_parse : string → option member_domain_key :=
  parse_key valid_member_domain_kind MemberDomainKey.
Definition rk_parse : string → option resource_key :=
  parse_key valid_resource_kind ResourceKey.

Fixpoint no_colon (s : string) : bool :=
  match s with
  | EmptyString => true
  | String c rest => bool_decide (c ≠ ":"%char) && no_colon rest
  end.

Lemma split_colon_app s t : no_colon s = true → split_colon (s +:+ ":" +:+ t) = Some (s, t).
Proof.
  induction s as [|c s IH]; simpl; [done|]. intros [Hc Hs]%andb_true_iff.
  rewrite decide_False by (by apply bool_decide_eq_true in Hc). by rewrite IH.
Qed.

Lemma split_colon_Some text s t : split_colon text = Some (s, t) → text = (s +:+ ":" +:+ t)%string.
Proof.
  revert s. induction text as [|c text IH]; intros s; simpl; [done|]. case_decide as Hc.
  - by intros [= <- <-]; subst.
  - destruct (split_colon text) as [[s' t']|]; [|done]. intros [= <- <-]. simpl. by rewrite (IH s').
Qed.

Section parse_key.
  Context {E K} `{Tokens E} (valid_kind : E → bool) (mk : E → string → K).
  Context (kind : K → E) (id : K → string).
  Hypothesis Hkind : ∀ e s, kind (mk e s) = e.
  Hypothesis Hid : ∀ e s, id (mk e s) = s.
  Hypothesis Hmk : ∀ k, mk (kind k) (id k) = k.
  Hypothesis Htoken : ∀ e, no_colon (to_string e) = true.

Lemma parse_key_spec text k :
    parse_key valid_kind mk text = Some k ↔
      text = (to_string (kind k) +:+ ":" +:+ id k)%string
      ∧ valid_kind (kind k) && is_valid_identifier (id k) = true.
Proof using Hkind Hid Hmk Htoken.
    unfold parse_key. split.
    - destruct (split_colon text) as [[token i]|] eqn:Hs; [|done]. simpl.
      destruct (parse token) as [e|] eqn:Hp; [|done]. simpl.
      destruct (valid_kind e) eqn:Hv; [|done]. simpl.
      destruct (is_valid_identifier i) eqn:Hi; [|done]. simpl.
      intros [= <-]. rewrite Hkind, Hid, Hv, Hi. split; [|done].
      apply split_colon_Some in Hs as ->. by apply parse_Some in Hp as ->.
    - intros (-> & [Hv Hi]%andb_true_iff). rewrite split_colon_app by done. simpl.
      rewrite parse_to_string. simpl. rewrite Hv, Hi. simpl. by rewrite Hmk.
Qed.
End parse_key.

(** The canonical text of a key is exact: parsing accepts a text for a key precisely
    when it is that key's canonical form and the key is valid, for member domains and for
    resources; so no two keys share a text and no text parses to an invalid key. *)
Theorem key_text_exact (text : string) (d : member_domain_key) (r : resource_key) :
  (mdk_parse text = Some d ↔ text = mdk_to_string d ∧ mdk_valid d = true)
  ∧ (rk_parse text = Some r ↔ text = rk_to_string r ∧ rk_valid r = true).
Proof.
  split.
  - apply (parse_key_spec _ _ mdk_kind mdk_id); [done|done|by intros []|by intros []].
  - apply (parse_key_spec _ _ rk_kind rk_id); [done|done|by intros []|by intros []].
Qed.

(** * Generations, epochs, incarnations *)

Abbreviation generation := Z (only parsing).
Abbreviation epoch := Z (only parsing).

Definition max_value : Z := 0xFFFFFFFFFFFFFFFF.
Definition is_set (g : generation) : bool := negb (g =? 0).

(** [Generation::next] and [Epoch::next]: saturating. *)
Definition generation_next (g : generation) : generation := if g =? max_value then g else g + 1.
Definition epoch_next (e : epoch) : epoch := if e =? max_value then e else e + 1.

Record incarnation := Incarnation { inc_sequence : Z; inc_boot : string }.
#[export] Instance incarnation_eq_dec : EqDecision incarnation.
Proof. solve_decision. Defined.

Definition boot_valid (b : string) : bool := is_valid_identifier b.
Definition incarnation_valid (i : incarnation) : bool :=
  negb (inc_sequence i =? 0) && boot_valid (inc_boot i).
Definition incarnation_to_string (i : incarnation) : string :=
  (dec (inc_sequence i) +:+ "/" +:+ inc_boot i)%string.

Record schema_version := SchemaVersion { major : Z; minor : Z }.
#[export] Instance schema_version_eq_dec : EqDecision schema_version.
Proof. solve_decision. Defined.
Definition compatible_with (s supported : schema_version) : bool :=
  (major s =? major supported) && (minor s <=? minor supported).

(** * Digests *)

Definition digest_is_zero (d : digest) : bool := forallb (λ b, byte_val b =? 0) d.
Definition digest_to_string (d : digest) : string := to_hex d.
Definition short_hex (d : digest) : string := String.substring 0 16 (digest_to_string d).
Definition digest_parse (text : string) : option digest :=
  if negb (zlen (string_bytes text) =? 64) then None
  else decoded ← from_hex text;
       if negb (zlen decoded =? 32) then None else Some decoded.

(** * Source references *)

Record source_ref := SourceRef {
  sr_domain : member_domain_key;
  sr_generation : generation;
  sr_digest : digest;
}.
#[export] Instance source_ref_eq_dec : EqDecision source_ref.
Proof. solve_decision. Defined.

Definition sr_fields (r : source_ref) := (sr_domain r, sr_generation r, sr_digest r).
#[export] Instance sr_fields_inj : Inj (=) (=) sr_fields.
Proof. by intros [] [] [= -> -> ->]. Qed.
#[export] Instance source_ref_ord : Ord source_ref := ord_inj sr_fields.

Definition no_domain : member_domain_key := MemberDomainKey MemberDomainKind.UNKNOWN "".
(** [SourceRef{}]. *)
Definition no_source_ref : source_ref := SourceRef no_domain 0 zero_digest.

Definition sr_valid (r : source_ref) : bool :=
  mdk_valid (sr_domain r) && is_set (sr_generation r) && negb (digest_is_zero (sr_digest r)).

Definition sr_to_string (r : source_ref) : string :=
  (mdk_to_string (sr_domain r) +:+ "@" +:+ dec (sr_generation r) +:+ "#"
   +:+ short_hex (sr_digest r))%string.

(** * Source sets: sorted, without duplicates, bounded *)

Record source_set := SourceSet {
  ss_items : list source_ref;
  ss_truncated : bool;
  ss_dropped : Z;
}.
Definition ss_empty : source_set := SourceSet [] false 0.

(** [std::lower_bound]: the elements before the position and those from it. *)
Fixpoint lower_bound {A} `{Ord A} (x : A) (l : list A) : list A * list A :=
  match l with
  | [] => ([], [])
  | y :: l' =>
      if ltb y x then let '(before, after) := lower_bound x l' in (y :: before, after)
      else ([], l)
  end.

Definition at_position {A} `{EqDecision A} (x : A) (after : list A) : bool :=
  match after with y :: _ => bool_decide (y = x) | [] => false end.

Definition ss_insert (ref : source_ref) (s : source_set) : source_set :=
  let '(before, after) := lower_bound ref (ss_items s) in
  if at_position ref after then s
  else if kMaxDecisionSources <=? zlen (ss_items s) then
    SourceSet (ss_items s) true (wrap 64 (ss_dropped s + 1))
  else SourceSet (before ++ ref :: after) (ss_truncated s) (ss_dropped s).

(** [insert(const SourceSet&)]. *)
Definition ss_union (s other : source_set) : source_set :=
  let s' := foldl (λ acc ref, ss_insert ref acc) s (ss_items other) in
  if ss_truncated other then
    SourceSet (ss_items s') true (wrap 64 (ss_dropped s' + ss_dropped other))
  else s'.

(** [std::binary_search]. *)
Definition ss_contains (s : source_set) (ref : source_ref) : bool :=
  match (lower_bound ref (ss_items s)).2 with y :: _ => negb (ltb ref y) | [] => false end.

Definition contains_domain (s : source_set) (key : member_domain_key) : bool :=
  existsb (λ ref, bool_decide (sr_domain ref = key)) (ss_items s).

Definition intersects_difference (s other : source_set) : bool :=
  existsb (λ ref, negb (ss_contains other ref)) (ss_items s).

(** The references of [refs], inserted one by one into [s]. *)
Definition ss_insert_all (s : source_set) (refs : list source_ref) : source_set :=
  foldl (λ acc ref, ss_insert ref acc) s refs.

Lemma lower_bound_split {A} `{Ord A} (x : A) l : ((lower_bound x l).1 ++ (lower_bound x l).2) = l.
Proof.
  induction l as [|y l IH]; simpl; [done|]. destruct (ltb y x); [|done].
  destruct (lower_bound x l). simpl in *. by f_equal.
Qed.

Lemma lower_bound_before {A} `{Ord A} (x : A) l : Forall (λ y, lt_key y x) (lower_bound x l).1.
Proof.
  induction l as [|y l IH]; simpl; [constructor|]. destruct (ltb y x) eqn:E; [|constructor].
  destruct (lower_bound x l). simpl in *. constructor; [by apply ltb_lt | done].
Qed.

Lemma lower_bound_after {A} `{Ord A} (x : A) l :
  StronglySorted lt_key l → Forall (λ y, le_key x y) (lower_bound x l).2.
Proof.
  induction 1 as [|y l Hs IH Hf]; simpl; [constructor|]. destruct (ltb y x) eqn:E.
  - by destruct (lower_bound x l).
  - apply ltb_ge in E. simpl. constructor; [done|]. eapply Forall_impl; [done|].
    intros z Hz. simpl in Hz. apply lt_le in Hz. by trans y.
Qed.

Lemma at_position_elem {A} `{Ord A, EqDecision A} (x : A) l :
  StronglySorted lt_key l → at_position x (lower_bound x l).2 = true ↔ x ∈ l.
Proof.
  intros Hs. pose proof (lower_bound_before x l) as Hb. pose proof (lower_bound_after x l Hs) as Ha.
  pose proof (lower_bound_split x l) as Hsplit.
  destruct (lower_bound x l) as [b a]. simpl in *. subst l.
  assert (x ∉ b) as Hnb
    by (intros Hx; rewrite Forall_forall in Hb; by apply (lt_irrefl x), Hb).
  rewrite elem_of_app. destruct a as [|y a]; simpl.
  { rewrite elem_of_nil. naive_solver. }
  rewrite bool_decide_eq_true, elem_of_cons. split; [naive_solver|].
  intros [?|[->|Hx]]; [done|done|]. apply Forall_cons in Ha as [Hxy _].
  apply StronglySorted_app_1_r in Hs.
  apply StronglySorted_inv in Hs as [_ Hf]. rewrite Forall_forall in Hf.
  apply le_antisym; [apply lt_le; by apply Hf | done].
Qed.

Lemma insert_position_sorted {A} `{Ord A, EqDecision A} (x : A) l :
  StronglySorted lt_key l → x ∉ l →
  StronglySorted lt_key ((lower_bound x l).1 ++ x :: (lower_bound x l).2).
Proof.
  induction 1 as [|y l Hs IH Hf]; simpl; [intros; by repeat constructor|].
  rewrite not_elem_of_cons. intros [Hne Hni]. specialize (IH Hni).
  destruct (ltb y x) eqn:E.
  - apply ltb_lt in E. pose proof (lower_bound_split x l) as Hsp.
    destruct (lower_bound x l) as [b a]. simpl in *. constructor; [done|].
    rewrite <- Hsp in Hf. rewrite Forall_app in Hf |- *. rewrite Forall_cons. naive_solver.
  - apply ltb_ge in E. simpl. apply le_cases in E as [E|E]; [|congruence].
    constructor; [by constructor|]. constructor; [done|].
    eapply Forall_impl; [done|]. intros z Hz. simpl in Hz. by trans y.
Qed.

(** The class invariant. *)
Definition ss_wf (s : source_set) : Prop :=
  StronglySorted lt_key (ss_items s) ∧ zlen (ss_items s) ≤ kMaxDecisionSources
  ∧ (ss_truncated s = false → ss_dropped s = 0).

Lemma ss_insert_wf ref s : ss_wf s → ss_wf (ss_insert ref s).
Proof.
  intros (Hs & Hb & Hd). unfold ss_insert.
  pose proof (at_position_elem ref (ss_items s) Hs) as Hpos.
  pose proof (insert_position_sorted ref (ss_items s) Hs) as Hins.
  pose proof (lower_bound_split ref (ss_items s)) as Hsp.
  destruct (lower_bound ref (ss_items s)) as [b a]. simpl in *.
  destruct (at_position ref a) eqn:E; [done|].
  destruct (Z.leb_spec kMaxDecisionSources (zlen (ss_items s))); [done|].
  split_and!; simpl; [|by rewrite <- Hsp in *; autorewrite with fabric in *; lia|done].
  apply Hins. rewrite <- Hpos. done.
Qed.

Lemma ss_insert_items_elem ref s x :
  ss_wf s → zlen (ss_items s) < kMaxDecisionSources →
  x ∈ ss_items (ss_insert ref s) ↔ x = ref ∨ x ∈ ss_items s.
Proof.
  intros (Hs & _ & _) Hlt. unfold ss_insert.
  pose proof (at_position_elem ref (ss_items s) Hs) as Hpos.
  pose proof (lower_bound_split ref (ss_items s)) as Hsp.
  destruct (lower_bound ref (ss_items s)) as [b a]. simpl in *.
  destruct (at_position ref a); [naive_solver|].
  rewrite (proj2 (Z.leb_gt _ _)) by lia. simpl. rewrite <- Hsp.
  rewrite !elem_of_app, elem_of_cons. naive_solver.
Qed.

Lemma ss_insert_present ref s : ss_wf s → ref ∈ ss_items s → ss_insert ref s = s.
Proof.
  intros (Hs & _) Hin. unfold ss_insert. apply (at_position_elem ref) in Hin; [|done].
  destruct (lower_bound ref (ss_items s)). simpl in Hin. by rewrite Hin.
Qed.

Lemma ss_insert_flags ref s :
  zlen (ss_items s) < kMaxDecisionSources →
  ss_truncated (ss_insert ref s) = ss_truncated s ∧ ss_dropped (ss_insert ref s) = ss_dropped s.
Proof.
  intros. unfold ss_insert. destruct (lower_bound ref (ss_items s)) as [b a].
  destruct (at_position ref a); [done|]. by rewrite (proj2 (Z.leb_gt _ _)) by lia.
Qed.

Lemma ss_wf_empty : ss_wf ss_empty.
Proof. split_and!; [constructor | done | done]. Qed.

Lemma ss_insert_all_wf refs s : ss_wf s → ss_wf (ss_insert_all s refs).
Proof.
  revert s. induction refs as [|r refs IH]; intros s Hs; [done|].
  by apply IH, ss_insert_wf.
Qed.

Lemma sort_unique_snoc_length {A} `{Ord A, EqDecision A} (l : list A) x :
  x ∉ l → length (sort_unique (l ++ [x])) = S (length (sort_unique l)).
Proof.
  intros Hx. change (S _) with (length (x :: sort_unique l)). apply Permutation_length.
  apply NoDup_Permutation.
  - apply lt_sorted_NoDup, sort_unique_sorted.
  - constructor; [by rewrite sort_unique_elem | apply lt_sorted_NoDup, sort_unique_sorted].
  - intros y. rewrite elem_of_cons, !sort_unique_elem, elem_of_app, list_elem_of_singleton. naive_solver.
Qed.

Lemma sort_unique_prefix_length {A} `{Ord A, EqDecision A} (l k : list A) :
  (length (sort_unique l) ≤ length (sort_unique (l ++ k)))%nat.
Proof.
  apply submseteq_length, NoDup_submseteq; [apply lt_sorted_NoDup, sort_unique_sorted|].
  intros y. rewrite !sort_unique_elem, elem_of_app. auto.
Qed.

(** Inserting a collection whose distinct references fit gives its canonical form. *)
Lemma ss_insert_all_canonical (refs : list source_ref) :
  zlen (sort_unique refs) ≤ kMaxDecisionSources →
  ss_insert_all ss_empty refs = SourceSet (sort_unique refs) false 0.
Proof.
  induction refs as [|r refs IH] using rev_ind; [done|]. intros Hfit.
  pose proof (sort_unique_prefix_length refs [r]) as Hpre.
  unfold ss_insert_all in *. rewrite foldl_app. simpl.
  pose proof (ss_insert_all_wf refs ss_empty ss_wf_empty) as Hwf. unfold ss_insert_all in Hwf.
  rewrite IH in * by (unfold zlen in *; lia).
  destruct (decide (r ∈ refs)) as [Hin|Hni].
  - rewrite ss_insert_present; [|done|by apply sort_unique_elem]. f_equal. apply sort_unique_ext.
    intros x. rewrite elem_of_app, list_elem_of_singleton. naive_solver.
  - pose proof (sort_unique_snoc_length refs r Hni) as Hlen.
    assert (zlen (sort_unique refs) < kMaxDecisionSources) as Hlt by (unfold zlen in *; lia).
    destruct (ss_insert_flags r (SourceSet (sort_unique refs) false 0) Hlt) as [Ht Hd].
    pose proof (ss_insert_items_elem r (SourceSet (sort_unique refs) false 0)) as Hel.
    pose proof (ss_insert_wf r _ Hwf) as (Hs & _ & _).
    destruct (ss_insert r _) as [items t d]. simpl in *. subst. f_equal.
    apply lt_sorted_ext; [done|apply sort_unique_sorted|].
    intros x. rewrite Hel, !sort_unique_elem, elem_of_app, list_elem_of_singleton by done. naive_solver.
Qed.

(** Provenance does not depend on arrival order: inserting references one by one keeps
    the set sorted, duplicate-free and within its bound, and as long as the distinct
    references fit the bound the resulting set is the canonical form of the inserted
    collection with nothing truncated and nothing dropped. *)
Theorem source_set_canonical (refs : list source_ref) :
  ss_wf (ss_insert_all ss_empty refs)
  ∧ (zlen (sort_unique refs) ≤ kMaxDecisionSources →
     ss_insert_all ss_empty refs = SourceSet (sort_unique refs) false 0).
Proof. split; [apply ss_insert_all_wf, ss_wf_empty|apply ss_insert_all_canonical]. Qed.

Lemma source_set_canonical_witness :
  ss_insert_all ss_empty [no_source_ref; no_source_ref] = SourceSet [no_source_ref] false 0.
Proof.
  apply (proj2 (source_set_canonical [no_source_ref; no_source_ref])).
  vm_compute. congruence.
Defined.

Lemma ss_contains_elem s ref : ss_wf s → ss_contains s ref = true ↔ ref ∈ ss_items s.
Proof.
  intros (Hs & _). rewrite <- (at_position_elem ref) by done. unfold ss_contains.
  pose proof (lower_bound_after ref (ss_items s) Hs) as Ha.
  destruct (lower_bound ref (ss_items s)) as [b [|y a]]; simpl in *; [done|].
  apply Forall_cons in Ha as [Hle _]. rewrite negb_true_iff, ltb_ge, bool_decide_eq_true.
  split; [intros; by apply le_antisym|by intros ->].
Qed.

(** ** Unions *)

Lemma ss_union_wf s other : ss_wf s → ss_wf (ss_union s other).
Proof.
  intros Hs. pose proof (ss_insert_all_wf (ss_items other) s Hs) as H. unfold ss_union, ss_insert_all in *.
  destruct (ss_truncated other); [|done]. destruct H as (? & ? & _). by split_and!.
Qed.

Lemma ss_insert_keeps ref s :
  ss_wf s → ss_truncated (ss_insert ref s) = false →
  ss_truncated s = false ∧ ∀ x, x ∈ ss_items (ss_insert ref s) ↔ x = ref ∨ x ∈ ss_items s.
Proof.
  intros Hs Ht. destruct (decide (ref ∈ ss_items s)) as [Hin|Hni].
  { rewrite ss_insert_present in * by done. naive_solver. }
  assert (zlen (ss_items s) < kMaxDecisionSources) as Hlt.
  { unfold ss_insert in Ht. destruct Hs as (Hs & _). rewrite <- (at_position_elem ref) in Hni by done.
    destruct (lower_bound ref (ss_items s)) as [b a]. simpl in Hni. apply not_true_is_false in Hni.
    rewrite Hni in Ht. destruct (Z.leb_spec kMaxDecisionSources (zlen (ss_items s))); [done|lia]. }
  destruct (ss_insert_flags ref s Hlt) as [<- _]. split; [done|]. intros x. by apply ss_insert_items_elem.
Qed.

(** A union that dropped nothing holds exactly both sets, and neither had dropped anything. *)
Lemma ss_union_keeps s other :
  ss_wf s → ss_truncated (ss_union s other) = false →
  ss_truncated s = false ∧ ss_truncated other = false
  ∧ ∀ x, x ∈ ss_items (ss_union s other) ↔ x ∈ ss_items s ∨ x ∈ ss_items other.
Proof.
  intros Hs Ht. unfold ss_union in *. destruct (ss_truncated other); [done|].
  assert (∀ l, ss_truncated (foldl (λ acc ref, ss_insert ref acc) s l) = false →
    ss_truncated s = false
    ∧ ∀ x, x ∈ ss_items (foldl (λ acc ref, ss_insert ref acc) s l) ↔ x ∈ ss_items s ∨ x ∈ l) as H.
  { clear Ht. induction l as [|r l IH] using rev_ind; simpl.
    { intros ?. split; [done|]. intros x. rewrite elem_of_nil. naive_solver. }
    rewrite foldl_app. simpl. intros Ht. pose proof (ss_insert_all_wf l s Hs) as Hw.
    destruct (ss_insert_keeps r _ Hw Ht) as [Ht' Hx]. destruct (IH Ht') as [? Hl]. split; [done|].
    intros x. unfold ss_insert_all in Hx. rewrite Hx, Hl, elem_of_app, list_elem_of_singleton. naive_solver. }
  destruct (H _ Ht) as [H1 H2]. done.
Qed.

Lemma ss_contains_in s ref : ss_contains s ref = true → ref ∈ ss_items s.
Proof.
  unfold ss_contains. intros H. rewrite <- (lower_bound_split ref (ss_items s)).
  assert (∀ l, match (lower_bound ref l).2 with y :: _ => ltb y ref = false | [] => True end) as Hge.
  { induction l as [|y l IH]; simpl; [done|]. destruct (ltb y ref) eqn:E; [|done]. by destruct (lower_bound ref l). }
  specialize (Hge (ss_items s)). destruct (lower_bound ref (ss_items s)) as [b [|y a]]; [done|]. simpl in *.
  rewrite negb_true_iff in H. apply ltb_ge in H, Hge. rewrite (le_antisym ref y) by done.
  rewrite elem_of_app, elem_of_cons. auto.
Qed.

(** * Factors and outcomes *)

Record factors := Factors { fac_items : list string; fac_dropped : Z }.
Definition no_factors : factors := Factors [] 0.

Definition factors_add (factor : string) (f : factors) : factors :=
  if kMaxFactors <=? zlen (fac_items f)
  then Factors (fac_items f) (wrap 64 (fac_dropped f + 1))
  else Factors (fac_items f ++ [factor]) (fac_dropped f).

(** [Factors::add(prefix, value)]. *)
Definition factors_add_pair (prefix value : string) (f : factors) : factors :=
  factors_add (prefix +:+ "=" +:+ value)%string f.

Record outcome := Outcome { out_status : status; out_factors : factors; out_detail : string }.

(** [Outcome(status)] and [Outcome::failure(status, detail)]. *)
Definition success (s : status) : outcome := Outcome s no_factors "".
Definition failure (s : status) (detail : string) : outcome := Outcome s no_factors detail.
(** [OutcomeBuilder::factor(prefix, value)]. *)
Definition with_factor (prefix value : string) (o : outcome) : outcome :=
  Outcome (out_status o) (factors_add_pair prefix value (out_factors o)) (out_detail o).
Definition out_ok (o : outcome) : bool := is_ok (out_status o).
