(* ===== verification/Canonical.v ===== *)
(** Canonical encoding primitives (src/core/canonical.{hpp,cpp}).

    The writer is a function from the value to the bytes it appends; the reader is a state
    monad over the bytes that remain, failing with the source's status. Fixed-width
    little-endian integers, length-prefixed text under a bound, digests, and the identity
    types built on them. [decodes r w a] is what every codec of the library promises: [r]
    reads [a] back from [w] wherever it stands in the stream, and answers TRUNCATED on
    every strict prefix of [w]. *)

From S2P Require Import Prelude Ordering Enums Sha256 Identity.

(** * [CanonicalWriter] *)

Definition w_u8 (value : Z) : bytes := [to_byte value].
Definition w_u16 (value : Z) : bytes :=
  [to_byte (Z.land value 0xFF); to_byte (Z.land (Z.shiftr value 8) 0xFF)].
Definition put_u32 (value : Z) : bytes :=
  [to_byte (Z.land value 0xFF); to_byte (Z.land (Z.shiftr value 8) 0xFF);
   to_byte (Z.land (Z.shiftr value 16) 0xFF); to_byte (Z.land (Z.shiftr value 24) 0xFF)].
Definition w_u32 (value : Z) : bytes := put_u32 value.
Definition w_u64 (value : Z) : bytes :=
  put_u32 (Z.land value 0xFFFFFFFF) ++ put_u32 (Z.land (Z.shiftr value 32) 0xFFFFFFFF).
Definition w_i64 (value : Z) : bytes := w_u64 (u64_of_i64 value).
Definition w_flag (value : bool) : bytes := w_u8 (if value then 1 else 0).
Definition w_raw (value : bytes) : bytes := value.
Definition w_bytes (value : bytes) : bytes := w_u32 (wrap 32 (zlen value)) ++ w_raw value.
Definition w_text (value : string) : bytes :=
  w_u32 (wrap 32 (zlen (string_bytes value))) ++ string_bytes value.
Definition w_digest (value : digest) : bytes := w_raw value.
Definition w_generation (value : generation) : bytes := w_u64 value.
Definition w_epoch (value : epoch) : bytes := w_u64 value.
Definition w_schema (value : schema_version) : bytes := w_u32 (major value) ++ w_u32 (minor value).
Definition w_incarnation (value : incarnation) : bytes :=
  w_u64 (inc_sequence value) ++ w_text (inc_boot value).
Definition w_source_ref (value : source_ref) : bytes :=
  w_u8 (enum_code (mdk_kind (sr_domain value))) ++ w_text (mdk_id (sr_domain value))
  ++ w_generation (sr_generation value) ++ w_digest (sr_digest value).
Definition w_count (value : Z) : bytes := w_u32 (wrap 32 value).
Definition w_optional (present : bool) : bytes := w_flag present.
(** [writer.count(items.size())] and the loop that writes each item. *)
Definition w_list {A} (w : A → bytes) (items : list A) : bytes :=
  w_count (zlen items) ++ (items ≫= w).
Definition finish_digest (buffer : bytes) : digest := digest_bytes buffer.

#[global] Arguments w_u8 : simpl never.
#[global] Arguments w_u16 : simpl never.
#[global] Arguments put_u32 : simpl never.
#[global] Arguments w_u32 : simpl never.
#[global] Arguments w_u64 : simpl never.
#[global] Arguments w_i64 : simpl never.
#[global] Arguments w_flag : simpl never.
#[global] Arguments w_text : simpl never.

(** * [CanonicalReader] *)

Definition reader (A : Type) : Type := bytes → result status (A * bytes).

#[export] Instance reader_ret : MRet reader := λ A a data, Ok (a, data).
#[export] Instance reader_bind : MBind reader := λ A B k r data,
  match r data with Ok (a, rest) => k a rest | Err s => Err s end.

Definition fail {A} (s : status) : reader A := λ _, Err s.
(** [if (!condition) return s;] *)
Definition require (condition : bool) (s : status) : reader unit :=
  if condition then mret () else fail s.

Definition need (n : Z) : reader unit := λ data,
  if zlen data <? n then Err Status.TRUNCATED else Ok ((), data).
(** [data_.subspan(offset_, n); offset_ += n]. *)
Definition advance (n : Z) : reader bytes := λ data,
  Ok (take (Z.to_nat n) data, drop (Z.to_nat n) data).

Definition read_u32_at (data : bytes) (offset : nat) : Z :=
  Z.lor (Z.lor (Z.lor (byte_at data offset) (Z.shiftl (byte_at data (offset + 1)) 8))
               (Z.shiftl (byte_at data (offset + 2)) 16))
        (Z.shiftl (byte_at data (offset + 3)) 24).

Definition r_u8 : reader Z :=
  need 1;; data ← advance 1; mret (byte_at data 0).
Definition r_u16 : reader Z :=
  need 2;; data ← advance 2;
  mret (Z.lor (byte_at data 0) (wrap 16 (Z.shiftl (byte_at data 1) 8))).
Definition r_u32 : reader Z :=
  need 4;; data ← advance 4; mret (read_u32_at data 0).
Definition r_u64 : reader Z :=
  need 8;; data ← advance 8;
  mret (Z.lor (read_u32_at data 0) (Z.shiftl (read_u32_at data 4) 32)).
Definition r_i64 : reader Z := raw_value ← r_u64; mret (i64_of_u64 raw_value).
Definition r_flag : reader bool :=
  value ← r_u8; require (value <=? 1) Status.MALFORMED;; mret (value =? 1).
Definition r_bytes : reader bytes := length ← r_u32; need length;; advance length.
Definition r_text (max_bytes : Z) : reader string :=
  length ← r_u32;
  require (length <=? max_bytes) Status.LIMIT_EXCEEDED;;
  need length;; data ← advance length; mret (bytes_string data).
Definition r_digest : reader digest := need 32;; advance 32.
Definition r_generation : reader generation := r_u64.
Definition r_epoch : reader epoch := r_u64.
Definition r_schema : reader schema_version :=
  major ← r_u32; minor ← r_u32; mret (SchemaVersion major minor).
Definition r_incarnation : reader incarnation :=
  sequence ← r_u64; boot ← r_text kMaxIdentifierBytes; mret (Incarnation sequence boot).

Definition r_source_ref : reader source_ref :=
  kind ← r_u8;
  require (kind <=? enum_code MemberDomainKind.SHARED_RESOURCE) Status.MALFORMED;;
  id ← r_text kMaxIdentifierBytes;
  let absent := kind =? 0 in
  require (if absent then bool_decide (id = ""%string) else is_valid_identifier id)
    Status.MALFORMED;;
  generation_value ← r_generation;
  digest_value ← r_digest;
  if absent then mret no_source_ref
  else
    mret (SourceRef (MemberDomainKey (default MemberDomainKind.UNKNOWN (enum_of_code kind)) id)
            generation_value digest_value).

Definition r_count (bound : Z) : reader Z :=
  value ← r_u32; require (value <=? bound) Status.LIMIT_EXCEEDED;; mret value.
Definition r_optional : reader bool := r_flag.
(** [finish]: nothing may follow. *)
Definition r_finish : reader unit := λ data,
  match data with [] => Ok ((), []) | _ => Err Status.MALFORMED end.

(** The loop that reads [n] items. *)
Fixpoint r_items {A} (r : reader A) (n : nat) : reader (list A) :=
  match n with
  | O => mret []
  | S n' => x ← r; rest ← r_items r n'; mret (x :: rest)
  end.
Definition r_list {A} (bound : Z) (r : reader A) : reader (list A) :=
  n ← r_count bound; r_items r (Z.to_nat n).

(** * What a codec promises *)

(** [r] reads [a] back from [w] whatever follows, and never from a strict prefix of [w]. *)
Definition decodes {A} (r : reader A) (w : bytes) (a : A) : Prop :=
  (∀ rest, r (w ++ rest) = Ok (a, rest))
  ∧ (∀ p q, w = p ++ q → q ≠ [] → r p = Err Status.TRUNCATED).

(** The interface between a component and its codec. *)
Class Codec (A : Type) := {
  encode : A → bytes;
  decode : reader A;
  encodable : A → Prop;
  decode_encode : ∀ a, encodable a → decodes decode (encode a) a;
}.

Create HintDb codec.

Lemma decodes_ret {A} (a : A) : decodes (mret a) [] a.
Proof. split; [done|]. intros p q Hp Hq. by destruct p, q. Qed.

Lemma decodes_bind {A B} (r : reader A) (k : A → reader B) w1 w2 a b :
  decodes r w1 a → decodes (k a) w2 b → decodes (r ≫= k) (w1 ++ w2) b.
Proof.
  intros [Hr1 Ht1] [Hr2 Ht2]. split.
  - intros rest. rewrite <- app_assoc. unfold mbind, reader_bind. rewrite Hr1. apply Hr2.
  - intros p q Hw Hq. unfold mbind, reader_bind.
    apply app_eq_app in Hw as (l & [[-> ->]|[-> ->]]).
    + destruct l as [|b' l].
      * specialize (Hr1 []). rewrite !app_nil_r in Hr1. rewrite Hr1. by eapply (Ht2 []).
      * by erewrite Ht1.
    + rewrite Hr1. by eapply Ht2.
Qed.

Lemma decodes_require {A} (c : bool) s (k : reader A) w a :
  c = true → decodes k w a → decodes (require c s;; k) w a.
Proof. intros ->. eapply (decodes_bind (mret ()) (λ _, k) []). apply decodes_ret. Qed.

(** A reader that maps the value it read. *)
Lemma decodes_map {A B} (r : reader A) (f : A → B) w a :
  decodes r w a → decodes (x ← r; mret (f x)) w (f a).
Proof.
  intros Hr. rewrite <- (app_nil_r w). eapply decodes_bind; [done|apply decodes_ret].
Qed.

(** A fixed-size field: [need n], then the [n] bytes. *)
Lemma decodes_block {B} n (w : bytes) (f : bytes → B) :
  zlen w = n → decodes (need n;; data ← advance n; mret (f data)) w (f w).
Proof.
  intros Hn. split.
  - intros rest. unfold mbind, reader_bind, need, advance, mret, reader_ret.
    rewrite (proj2 (Z.ltb_ge _ _)) by (rewrite zlen_app; pose proof (zlen_nonneg rest); lia).
    unfold zlen in Hn. rewrite <- Hn, Nat2Z.id. by rewrite take_app_length, drop_app_length.
  - intros p q Hw Hq. unfold mbind, reader_bind, need.
    rewrite (proj2 (Z.ltb_lt _ _)); [done|]. rewrite <- Hn, Hw, zlen_app.
    destruct q; [done|]. rewrite zlen_cons. pose proof (zlen_nonneg q). lia.
Qed.

Lemma decodes_raw_block n (w : bytes) : zlen w = n → decodes (need n;; advance n) w w.
Proof.
  intros Hn. pose proof (decodes_block n w id Hn) as [Hr Ht]. split.
  - intros rest. specialize (Hr rest). unfold mbind, reader_bind, need, advance in *.
    by destruct (_ <? _).
  - intros p q Hw Hq. specialize (Ht p q Hw Hq). unfold mbind, reader_bind, need, advance in *.
    by destruct (_ <? _).
Qed.

(** ** Integers *)

Lemma byte_at_to_byte z : byte_val (to_byte (Z.land z 0xFF)) = z mod 256.
Proof.
  rewrite byte_val_to_byte. change 0xFF with (Z.ones 8). rewrite Z.land_ones by lia.
  unfold wrap. change (2 ^ 8) with 256. by rewrite Zmod_mod.
Qed.

Lemma read_put_u32 v rest : in_u 32 v → read_u32_at (put_u32 v ++ rest) 0 = v.
Proof.
  unfold in_u. intros Hv. unfold read_u32_at, put_u32, byte_at. cbn [nth app Nat.add].
  rewrite !byte_at_to_byte, !Z.shiftr_div_pow2 by lia.
  rewrite (lor_shiftl_add _ _ 8) by (Z.to_euclidean_division_equations; lia).
  rewrite (lor_shiftl_add _ _ 16) by (Z.to_euclidean_division_equations; lia).
  rewrite (lor_shiftl_add _ _ 24) by (Z.to_euclidean_division_equations; lia).
  Z.to_euclidean_division_equations; lia.
Qed.

Lemma length_put_u32 v : length (put_u32 v) = 4%nat.
Proof. done. Qed.

Lemma read_u32_at_app a b n : length a = n → read_u32_at (a ++ b) n = read_u32_at b 0.
Proof.
  intros <-. unfold read_u32_at, byte_at.
  rewrite !app_nth2 by lia. rewrite Nat.sub_diag.
  by rewrite !(Nat.add_comm (length a)), !Nat.add_sub.
Qed.

Lemma decodes_u8 v : in_u 8 v → decodes r_u8 (w_u8 v) v.
Proof.
  intros Hv. rewrite <- (wrap_small 8 v) at 2 by done. rewrite <- byte_val_to_byte.
  by apply (decodes_block 1 (w_u8 v) (λ data, byte_at data 0)).
Qed.

Lemma decodes_u16 v : in_u 16 v → decodes r_u16 (w_u16 v) v.
Proof.
  unfold in_u. intros Hv.
  replace v with (Z.lor (byte_at (w_u16 v) 0) (wrap 16 (Z.shiftl (byte_at (w_u16 v) 1) 8))) at 2.
  { by apply (decodes_block 2 (w_u16 v)
      (λ data, Z.lor (byte_at data 0) (wrap 16 (Z.shiftl (byte_at data 1) 8)))). }
  unfold byte_at, w_u16. simpl. rewrite !byte_at_to_byte, Z.shiftr_div_pow2 by lia.
  rewrite wrap_small by (unfold in_u; rewrite Z.shiftl_mul_pow2 by lia;
    Z.to_euclidean_division_equations; lia).
  rewrite lor_shiftl_add by (Z.to_euclidean_division_equations; lia).
  Z.to_euclidean_division_equations; lia.
Qed.

Lemma decodes_u32 v : in_u 32 v → decodes r_u32 (w_u32 v) v.
Proof.
  intros Hv. rewrite <- (read_put_u32 v []) at 2 by done. rewrite app_nil_r.
  by apply (decodes_block 4 (w_u32 v) (λ data, read_u32_at data 0)).
Qed.

Lemma decodes_u64 v : in_u 64 v → decodes r_u64 (w_u64 v) v.
Proof.
  unfold in_u. intros Hv.
  replace v with (Z.lor (read_u32_at (w_u64 v) 0) (Z.shiftl (read_u32_at (w_u64 v) 4) 32)) at 2.
  { by apply (decodes_block 8 (w_u64 v)
      (λ data, Z.lor (read_u32_at data 0) (Z.shiftl (read_u32_at data 4) 32))). }
  unfold w_u64. change 0xFFFFFFFF with (Z.ones 32). rewrite !Z.land_ones, Z.shiftr_div_pow2 by lia.
  rewrite read_put_u32, read_u32_at_app by (done || apply (wrap_range 32); lia).
  rewrite <- (app_nil_r (put_u32 ((v / _) mod _))).
  rewrite read_put_u32 by (apply (wrap_range 32); lia).
  rewrite lor_shiftl_add by (Z.to_euclidean_division_equations; lia).
  Z.to_euclidean_division_equations; lia.
Qed.

Lemma decodes_i64 v : in_i64 v → decodes r_i64 (w_i64 v) v.
Proof.
  intros Hv. rewrite <- (i64_of_u64_of_i64 v) at 2 by done.
  apply decodes_map, decodes_u64, u64_of_i64_range.
Qed.

Lemma decodes_flag b : decodes r_flag (w_flag b) b.
Proof.
  unfold r_flag, w_flag. rewrite <- (app_nil_r (w_u8 _)).
  eapply decodes_bind; [apply decodes_u8; by destruct b|].
  apply decodes_require; [by destruct b|]. destruct b; apply decodes_ret.
Qed.

(** ** Text, digests and the identity types *)

Definition text_fits (max_bytes : Z) (s : string) : Prop :=
  zlen (string_bytes s) ≤ max_bytes ∧ max_bytes < 2 ^ 32.

Lemma decodes_text max s : text_fits max s → decodes (r_text max) (w_text s) s.
Proof.
  intros [Hs Hmax]. pose proof (zlen_nonneg (string_bytes s)). unfold r_text, w_text.
  rewrite wrap_small by (unfold in_u; lia).
  eapply decodes_bind; [apply decodes_u32; unfold in_u; lia|].
  apply decodes_require; [by apply Z.leb_le|].
  rewrite <- (String.string_of_list_byte_of_string s) at 3.
  by apply (decodes_block _ (string_bytes s) bytes_string).
Qed.

Lemma decodes_bytes b : in_u 32 (zlen b) → decodes r_bytes (w_bytes b) b.
Proof.
  intros Hb. unfold r_bytes, w_bytes. rewrite wrap_small by done.
  eapply decodes_bind; [by apply decodes_u32|]. by apply decodes_raw_block.
Qed.

Definition digest_wf (d : digest) : Prop := length d = 32%nat.

Lemma decodes_digest d : digest_wf d → decodes r_digest (w_digest d) d.
Proof. intros Hd. apply decodes_raw_block. unfold zlen. by rewrite Hd. Qed.

Lemma identifier_fits s : is_valid_identifier s = true → text_fits kMaxIdentifierBytes s.
Proof. intros (b & rest & Heq & _ & _ & Hlen & _)%is_valid_identifier_inv. split; [by rewrite Heq|done]. Qed.

#[export] Hint Resolve decodes_ret decodes_u8 decodes_u16 decodes_u32 decodes_u64 decodes_i64
  decodes_flag decodes_text decodes_bytes decodes_digest decodes_map identifier_fits : codec.

(** One field of a record: [decode_field] reads it, [decode_last] ends the record. *)
Ltac decode_field := eapply decodes_bind; [by eauto with codec|].
Ltac decode_last := rewrite <- (app_nil_r (_ : bytes)); eapply decodes_bind; [by eauto with codec|].

Definition incarnation_wf (i : incarnation) : Prop :=
  in_u 64 (inc_sequence i) ∧ text_fits kMaxIdentifierBytes (inc_boot i).

Lemma decodes_incarnation i : incarnation_wf i → decodes r_incarnation (w_incarnation i) i.
Proof.
  destruct i as [seq boot]. intros [Hs Hb]. unfold r_incarnation, w_incarnation.
  cbn [inc_sequence inc_boot] in *.
  decode_field. by apply decodes_map, decodes_text.
Qed.

Definition schema_wf (s : schema_version) : Prop := in_u 32 (major s) ∧ in_u 32 (minor s).

Lemma decodes_schema s : schema_wf s → decodes r_schema (w_schema s) s.
Proof.
  destruct s as [ma mi]. intros [Hs Hb]. unfold r_schema, w_schema.
  cbn [major minor] in *.
  decode_field. by apply decodes_map, decodes_u32.
Qed.

(** A reference the codec preserves: a present one with a valid domain, or the absent one. *)
Definition source_ref_wf (r : source_ref) : Prop :=
  r = no_source_ref
  ∨ (mdk_valid (sr_domain r) = true ∧ in_u 64 (sr_generation r) ∧ digest_wf (sr_digest r)).

Lemma decodes_source_ref r : source_ref_wf r → decodes r_source_ref (w_source_ref r) r.
Proof.
  intros Hr. unfold r_source_ref, w_source_ref.
  assert (in_u 64 (sr_generation r) ∧ digest_wf (sr_digest r)) as [Hg Hd]
    by (destruct Hr as [->|(_ & ? & ?)]; done).
  assert (text_fits kMaxIdentifierBytes (mdk_id (sr_domain r))) as Ht.
  { destruct Hr as [->|(Hv & _)]; [done|]. unfold mdk_valid in Hv. apply andb_true_iff in Hv as [_ Hv].
    by apply identifier_fits. }
  eapply decodes_bind; [apply decodes_u8; by destruct (mdk_kind (sr_domain r))|].
  apply decodes_require; [by destruct (mdk_kind (sr_domain r))|].
  eapply decodes_bind; [by apply decodes_text|].
  apply decodes_require.
  { destruct Hr as [->|(Hv & _)]; [done|]. unfold mdk_valid in Hv. apply andb_true_iff in Hv as [Hk Hv].
    by destruct (mdk_kind (sr_domain r)). }
  eapply decodes_bind; [by apply decodes_u64|].
  rewrite <- (app_nil_r (w_digest _)). eapply decodes_bind; [by apply decodes_digest|].
  destruct Hr as [->|(Hv & _)]; [apply decodes_ret|].
  destruct r as [[k id] g d]. unfold mdk_valid in Hv. cbn [sr_domain sr_generation sr_digest mdk_kind mdk_id] in *.
  rewrite enum_of_code_code. destruct k; try done; apply decodes_ret.
Qed.

(** ** Counted lists *)

Lemma decodes_items {A} (r : reader A) (w : A → bytes) l :
  Forall (λ a, decodes r (w a) a) l → decodes (r_items r (length l)) (l ≫= w) l.
Proof.
  induction 1 as [|a l Ha Hl IH]; [apply decodes_ret|]. rewrite bind_cons. cbn [length r_items].
  eapply decodes_bind; [done|]. by apply (decodes_map _ (λ rest, a :: rest)).
Qed.

Lemma decodes_list {A} bound (r : reader A) (w : A → bytes) l :
  bound < 2 ^ 32 → zlen l ≤ bound → Forall (λ a, decodes r (w a) a) l →
  decodes (r_list bound r) (w_list w l) l.
Proof.
  intros Hb Hl Hall. pose proof (zlen_nonneg l). unfold r_list, w_list, w_count, r_count.
  rewrite wrap_small by (unfold in_u; lia).
  eapply decodes_bind.
  - rewrite <- (app_nil_r (w_u32 _)). eapply decodes_bind; [apply decodes_u32; unfold in_u; lia|].
    apply decodes_require; [by apply Z.leb_le|]. apply decodes_ret.
  - unfold zlen. rewrite Nat2Z.id. by apply decodes_items.
Qed.

Lemma decodes_enum {E} `{Enum E} (last : E) (e : E) :
  enum_code e ≤ enum_code last → enum_code last < 256 →
  decodes r_u8 (w_u8 (enum_code e)) (enum_code e).
Proof. intros. pose proof (enum_code_nonneg e). apply decodes_u8. unfold in_u. lia. Qed.

#[export] Hint Resolve decodes_incarnation decodes_schema decodes_source_ref : codec.
