(* ===== verification/Evidence.v ===== *)
(** Evidence and its freshness (evidence.hpp, src/core/evidence.cpp).

    The verdict of one observation at an explicit instant, and how the verdict moves as
    time passes: a status that was lost is never regained. *)

From S2P Require Import Prelude Ordering Enums Sha256 Identity.

Definition kFutureSkewMs : Z := 5000.

Record evidence := Evidence {
  ev_provenance : provenance;
  ev_observed_at_ms : Z;
  ev_ttl_ms : Z;
  ev_source : source_ref;
  ev_payload_digest : digest;
}.

(** [Evidence{}]. *)
Definition no_evidence : evidence := Evidence Provenance.UNKNOWN 0 0 no_source_ref zero_digest.

Definition evidence_measured (observed ttl : Z) : evidence :=
  Evidence Provenance.MEASURED observed ttl no_source_ref zero_digest.
Definition evidence_reported (observed ttl : Z) : evidence :=
  Evidence Provenance.REPORTED observed ttl no_source_ref zero_digest.
Definition evidence_synthetic (observed ttl : Z) : evidence :=
  Evidence Provenance.SYNTHETIC observed ttl no_source_ref zero_digest.
Definition evidence_reconstructed (observed ttl : Z) : evidence :=
  Evidence Provenance.RECONSTRUCTED observed ttl no_source_ref zero_digest.

Definition evidence_valid (e : evidence) : bool :=
  bool_decide (ev_provenance e ≠ Provenance.UNKNOWN) && (0 <? ev_observed_at_ms e)
  && (0 <? ev_ttl_ms e) && (ev_ttl_ms e <=? kMaxEvidenceTtlMs).

(** The two sums are signed 64-bit in the source; [evaluate_sums_fit] bounds them. *)
Definition evaluate (e : evidence) (now_ms : Z) : evidence_state :=
  if bool_decide (ev_provenance e = Provenance.UNKNOWN) then EvidenceState.UNKNOWN
  else if (ev_observed_at_ms e <=? 0) || (ev_ttl_ms e =? 0) || (kMaxEvidenceTtlMs <? ev_ttl_ms e)
  then EvidenceState.INVALID
  else if now_ms + kFutureSkewMs <? ev_observed_at_ms e then EvidenceState.FUTURE
  else if bool_decide (ev_provenance e = Provenance.SYNTHETIC) then EvidenceState.SYNTHETIC_ONLY
  else if bool_decide (ev_provenance e = Provenance.RECONSTRUCTED)
  then EvidenceState.RECONSTRUCTED_NEEDS_REVALIDATION
  else if ev_observed_at_ms e + i64_of_u64 (ev_ttl_ms e) <? now_ms then EvidenceState.STALE
  else EvidenceState.FRESH.

(** [to_string(int64)]: only non-negative instants are rendered by a valid record. *)
Definition evidence_to_string (e : evidence) : string :=
  (to_string (ev_provenance e) +:+ "@" +:+ (if (ev_observed_at_ms e <? 0)%Z then "-" else "")
   +:+ dec (Z.abs (ev_observed_at_ms e)) +:+ "+" +:+ dec (ev_ttl_ms e))%string.

(** The widths of the record's fields. *)
Definition evidence_wf (e : evidence) : Prop := in_i64 (ev_observed_at_ms e) ∧ in_u 64 (ev_ttl_ms e).

(** The instants at which the source's signed sums cannot overflow. *)
Definition instant_ok (now_ms : Z) : Prop := 0 ≤ now_ms ≤ 2 ^ 62.

(** [Evidence::evaluate] answers FRESH exactly for a valid physical, live record
    observed no more than the skew ahead of the instant and not past its validity; and at
    any instant up to 2^62 ms every signed sum it computes on the path it takes fits an
    [int64]. *)
Theorem evaluate_fresh_iff (e : evidence) (now_ms : Z) :
  evidence_wf e → instant_ok now_ms →
  (evaluate e now_ms = EvidenceState.FRESH ↔
     evidence_valid e = true
     ∧ ev_provenance e ≠ Provenance.SYNTHETIC ∧ ev_provenance e ≠ Provenance.RECONSTRUCTED
     ∧ ev_observed_at_ms e ≤ now_ms + kFutureSkewMs ∧ now_ms ≤ ev_observed_at_ms e + ev_ttl_ms e)
  ∧ in_i64 (now_ms + kFutureSkewMs)
  ∧ (evidence_valid e = true → ev_observed_at_ms e ≤ now_ms + kFutureSkewMs →
     in_i64 (ev_observed_at_ms e + i64_of_u64 (ev_ttl_ms e))).
Proof.
  intros [Ho Ht] Hnow. unfold evaluate, evidence_valid, in_i64, in_u, instant_ok, i64_of_u64,
    kFutureSkewMs, kMaxEvidenceTtlMs in *.
  split_and!; [|lia|lia|rewrite !andb_true_iff, !Z.ltb_lt, Z.leb_le; case_match; lia..].
  rewrite !andb_true_iff, bool_decide_eq_true, !Z.ltb_lt, Z.leb_le.
  case_bool_decide; [naive_solver|].
  destruct (_ || _) eqn:E.
  { rewrite !orb_true_iff, Z.leb_le, Z.eqb_eq, Z.ltb_lt in E. split; [done|]. lia. }
  rewrite !orb_false_iff, Z.leb_gt, Z.eqb_neq, Z.ltb_ge in E.
  destruct (Z.ltb_spec (now_ms + 5000) (ev_observed_at_ms e)); [split; [done|]; lia|].
  case_bool_decide; [naive_solver|]. case_bool_decide; [naive_solver|].
  rewrite (proj2 (Z.ltb_lt (ev_ttl_ms e) _)) by lia.
  destruct (Z.ltb_spec (ev_observed_at_ms e + ev_ttl_ms e) now_ms); naive_solver lia.
Qed.

Lemma evaluate_fresh_iff_witness :
  evaluate (evidence_measured 1000 500) 1200 = EvidenceState.FRESH.
Proof.
  apply (evaluate_fresh_iff (evidence_measured 1000 500) 1200);
    [split; vm_compute; split; congruence | vm_compute; split; congruence |].
  split_and!; [vm_compute; reflexivity | discriminate | discriminate
              | vm_compute; congruence | vm_compute; congruence].
Defined.

(** Staleness is irrevocable: once an observation has gone stale it is stale at every
    later instant, and no observation ever becomes FRESH again after having been past its
    validity. *)
Theorem evaluate_stale_forever (e : evidence) (now later : Z) :
  now ≤ later → evaluate e now = EvidenceState.STALE → evaluate e later = EvidenceState.STALE.
Proof.
  intros Hle. unfold evaluate, kFutureSkewMs.
  case_bool_decide; [done|]. destruct (_ || _); [done|].
  destruct (Z.ltb_spec (now + 5000) (ev_observed_at_ms e)); [done|].
  case_bool_decide; [done|]. case_bool_decide; [done|].
  rewrite (proj2 (Z.ltb_ge (later + 5000) _)) by lia.
  destruct (Z.ltb_spec (ev_observed_at_ms e + i64_of_u64 (ev_ttl_ms e)) now); [|done].
  by rewrite (proj2 (Z.ltb_lt _ later)) by lia.
Qed.

Lemma evaluate_stale_forever_witness :
  evaluate (evidence_measured 1000 500) 9000 = EvidenceState.STALE.
Proof. apply (evaluate_stale_forever _ 1600 9000); [lia | vm_compute; reflexivity]. Defined.
