(* ===== verification/Capacity.v ===== *)
(** Capacity values, vectors and aggregates (capacity.hpp, src/core/capacity.cpp).

    A channel is a known value or unknown, and unknown is absorbing. The aggregate
    distinguishes a channel nobody mentioned from one that was reported unknown and from
    one that overflowed; [aggregate_spec] gives its meaning as a sum, from which order
    independence follows. *)

From Stdlib Require Import Btauto.
From S2P Require Import Prelude Ordering Enums Sha256 Identity.

(** * Values and vectors *)

Record capacity_value := CapacityValue { cv_known : bool; cv_bps : Z }.
#[export] Instance capacity_value_eq_dec : EqDecision capacity_value.
Proof. solve_decision. Defined.

Definition cv_unknown : capacity_value := CapacityValue false 0.
Definition known_bps (value : Z) : capacity_value := CapacityValue true value.
Definition cv_to_string (v : capacity_value) : string :=
  if cv_known v then dec (cv_bps v) else "UNKNOWN".

Record capacity_vector := CapacityVector {
  ingress : capacity_value;
  egress : capacity_value;
  internal : capacity_value;
}.
#[export] Instance capacity_vector_eq_dec : EqDecision capacity_vector.
Proof. solve_decision. Defined.

Definition all_unknown : capacity_vector := CapacityVector cv_unknown cv_unknown cv_unknown.
Definition uniform (value : Z) : capacity_vector :=
  CapacityVector (known_bps value) (known_bps value) (known_bps value).
Definition all_known (v : capacity_vector) : bool :=
  cv_known (ingress v) && cv_known (egress v) && cv_known (internal v).
Definition has_no_reported_channel (v : capacity_vector) : bool :=
  negb (cv_known (ingress v)) && negb (cv_known (egress v)) && negb (cv_known (internal v)).
Definition capacity_to_string (v : capacity_vector) : string :=
  ("ingress=" +:+ cv_to_string (ingress v) +:+ " egress=" +:+ cv_to_string (egress v)
   +:+ " internal=" +:+ cv_to_string (internal v))%string.

Definition channel_value (v : capacity_vector) (channel : capacity_channel) : capacity_value :=
  match channel with
  | CapacityChannel.INGRESS => ingress v
  | CapacityChannel.EGRESS => egress v
  | CapacityChannel.INTERNAL => internal v
  | _ => cv_unknown
  end.

(** An unknown value carries no number; a known one is a [uint64]. *)
Definition cv_wf (v : capacity_value) : Prop :=
  in_u 64 (cv_bps v) ∧ (cv_known v = false → cv_bps v = 0).
Definition capacity_wf (v : capacity_vector) : Prop :=
  cv_wf (ingress v) ∧ cv_wf (egress v) ∧ cv_wf (internal v).

(** * Checked addition and subtraction *)

(** [add_known]; the error leaves the accumulator as it was. *)
Definition add_known (accumulator addend : Z) : result status Z :=
  if (kMaxCapacityBps <? addend) || (kMaxCapacityBps <? accumulator)
  then Err Status.CAPACITY_OVERFLOW
  else
    let sum := wrap 64 (accumulator + addend) in
    if (sum <? accumulator) || (kMaxCapacityBps <? sum) then Err Status.CAPACITY_OVERFLOW
    else Ok sum.

Lemma add_known_spec a b :
  0 ≤ a → 0 ≤ b →
  add_known a b = if a + b <=? kMaxCapacityBps then Ok (a + b) else Err Status.CAPACITY_OVERFLOW.
Proof.
  unfold add_known, kMaxCapacityBps. intros Ha Hb.
  destruct (Z.ltb_spec 1000000000000000 b); [by rewrite (proj2 (Z.leb_gt _ _)) by lia|].
  destruct (Z.ltb_spec 1000000000000000 a); [by rewrite (proj2 (Z.leb_gt _ _)) by lia|].
  cbn [orb]. rewrite wrap_small by (unfold in_u; lia).
  rewrite (proj2 (Z.ltb_ge (a + b) a)) by lia. cbn [orb].
  destruct (Z.ltb_spec 1000000000000000 (a + b)), (Z.leb_spec (a + b) 1000000000000000); done || lia.
Qed.

(** One channel of [add_capacity]. *)
Definition add_value (candidate addend : capacity_value) : result status capacity_value :=
  if negb (cv_known addend) || negb (cv_known candidate) then Ok cv_unknown
  else bps ← add_known (cv_bps candidate) (cv_bps addend); Ok (CapacityValue true bps).

Definition add_capacity (accumulator addend : capacity_vector) : result status capacity_vector :=
  i ← add_value (ingress accumulator) (ingress addend);
  e ← add_value (egress accumulator) (egress addend);
  n ← add_value (internal accumulator) (internal addend);
  Ok (CapacityVector i e n).

Definition leq_value (part whole : capacity_value) : bool :=
  negb (cv_known part && cv_known whole && (cv_bps whole <? cv_bps part)).
Definition capacity_leq (part whole : capacity_vector) : bool :=
  if negb (leq_value (ingress part) (ingress whole)) then false
  else if negb (leq_value (egress part) (egress whole)) then false
  else if negb (leq_value (internal part) (internal whole)) then false
  else true.

Definition subtract_channel (left right : capacity_value) : result status capacity_value :=
  if negb (cv_known left) || negb (cv_known right) then Ok cv_unknown
  else if cv_bps left <? cv_bps right then Err Status.CAPACITY_UNDERFLOW
  else Ok (known_bps (wrap 64 (cv_bps left - cv_bps right))).

Definition subtract_capacity (minuend subtrahend : capacity_vector) : result status capacity_vector :=
  i ← subtract_channel (ingress minuend) (ingress subtrahend);
  e ← subtract_channel (egress minuend) (egress subtrahend);
  n ← subtract_channel (internal minuend) (internal subtrahend);
  Ok (CapacityVector i e n).

Definition pick_max (a b : capacity_value) : capacity_value :=
  if negb (cv_known a) then b
  else if negb (cv_known b) then a
  else known_bps (if cv_bps b <? cv_bps a then cv_bps a else cv_bps b).
Definition capacity_max (left right : capacity_vector) : capacity_vector :=
  CapacityVector (pick_max (ingress left) (ingress right)) (pick_max (egress left) (egress right))
    (pick_max (internal left) (internal right)).

(** * Subtraction undoes addition *)

Lemma subtract_channel_spec w p v :
  cv_wf w → cv_wf p → subtract_channel w p = Ok v →
  leq_value p w = true
  ∧ if cv_known w && cv_known p then v = known_bps (cv_bps w - cv_bps p) else v = cv_unknown.
Proof.
  intros [Hw _] [Hp _]. unfold subtract_channel, leq_value, in_u in *.
  destruct (cv_known w), (cv_known p); cbn [negb orb andb]; try by intros [= <-].
  destruct (Z.ltb_spec (cv_bps w) (cv_bps p)); [done|].
  rewrite wrap_small by (unfold in_u; lia). by intros [= <-].
Qed.

Lemma subtract_channel_total w p : leq_value p w = true → ∃ v, subtract_channel w p = Ok v.
Proof.
  unfold subtract_channel, leq_value. destruct (cv_known w), (cv_known p); simpl; eauto.
  destruct (_ <? _); [done | eauto].
Qed.

Lemma subtract_add_channel w p v :
  cv_wf w → cv_wf p → cv_bps w ≤ kMaxCapacityBps → cv_known p = true → subtract_channel w p = Ok v →
  add_value v p = Ok w.
Proof.
  intros Hw Hp Hb Hk Hs. destruct (subtract_channel_spec _ _ _ Hw Hp Hs) as [Hle Hv].
  unfold add_value. rewrite Hk, andb_true_r in *. simpl. destruct w as [[] wb]; simpl in *; subst v.
  - simpl. unfold cv_wf, in_u, leq_value in *. rewrite Hk in Hle. simpl in *.
    apply negb_true_iff, Z.ltb_ge in Hle.
    rewrite add_known_spec by lia. rewrite (proj2 (Z.leb_le _ _)) by lia. simpl.
    f_equal. f_equal. lia.
  - destruct Hw as [_ Hz]. simpl in *. by rewrite Hz.
Qed.

(** The closing arithmetic of a ledger is exact: subtraction succeeds precisely when
    the part fits in the whole, and where the part is known everywhere adding it back
    gives the whole, hole for hole. *)
Theorem subtract_then_add (whole part : capacity_vector) :
  capacity_wf whole → capacity_wf part →
  (capacity_leq part whole = true ↔ is_Ok (subtract_capacity whole part))
  ∧ (∀ rest, subtract_capacity whole part = Ok rest → all_known part = true →
       cv_bps (ingress whole) ≤ kMaxCapacityBps → cv_bps (egress whole) ≤ kMaxCapacityBps →
       cv_bps (internal whole) ≤ kMaxCapacityBps → add_capacity rest part = Ok whole).
Proof.
  intros (Hwi & Hwe & Hwn) (Hpi & Hpe & Hpn). unfold subtract_capacity, add_capacity, capacity_leq.
  split; [split|].
  - destruct (leq_value (ingress part) _) eqn:Hi, (leq_value (egress part) _) eqn:He,
      (leq_value (internal part) _) eqn:Hn; try done. intros _.
    destruct (subtract_channel_total _ _ Hi) as [? ->], (subtract_channel_total _ _ He) as [? ->],
      (subtract_channel_total _ _ Hn) as [? ->]. by eexists.
  - intros [rest Hrest]. apply result_bind_Ok in Hrest as (i & Hi & Hrest).
    apply result_bind_Ok in Hrest as (e & He & Hrest). apply result_bind_Ok in Hrest as (n & Hn & _).
    apply subtract_channel_spec in Hi as [-> _], He as [-> _], Hn as [-> _]; done.
  - intros rest Hrest Hk Hi' He' Hn'. apply result_bind_Ok in Hrest as (i & Hi & Hrest).
    apply result_bind_Ok in Hrest as (e & He & Hrest).
    apply result_bind_Ok in Hrest as (n & Hn & [= <-]).
    unfold all_known in Hk. rewrite !andb_true_iff in Hk. destruct Hk as [[Hki Hke] Hkn]. simpl.
    apply subtract_add_channel in Hi as ->, He as ->, Hn as ->; try done. by destruct whole.
Qed.

Lemma subtract_then_add_witness : add_capacity (uniform 3) (uniform 4) = Ok (uniform 7).
Proof.
  apply (subtract_then_add (uniform 7) (uniform 4)); try (by repeat split); by vm_compute.
Defined.

(** * The aggregate *)

(** One channel's four fields of [CapacityAggregate]: [accumulator], [seen], [unknown],
    [overflowed]. *)
Record channel_state := ChannelState {
  ch_accumulator : Z;
  ch_seen : bool;
  ch_unknown : bool;
  ch_overflowed : bool;
}.

Record capacity_aggregate := CapacityAggregate {
  ca_ingress : channel_state;
  ca_egress : channel_state;
  ca_internal : channel_state;
  ca_contributions : Z;
}.

Definition no_channel : channel_state := ChannelState 0 false false false.
Definition no_aggregate : capacity_aggregate := CapacityAggregate no_channel no_channel no_channel 0.

(** The body of [add_channel] once the channel's fields are selected. *)
Definition channel_add (c : channel_state) (value : capacity_value) : status * channel_state :=
  if negb (cv_known value) then
    (Status.OK, ChannelState (ch_accumulator c) true true (ch_overflowed c))
  else if ch_overflowed c then
    (Status.OK, ChannelState (ch_accumulator c) true (ch_unknown c) true)
  else
    match add_known (ch_accumulator c) (cv_bps value) with
    | Err _ =>
        (Status.CAPACITY_OVERFLOW, ChannelState (ch_accumulator c) true (ch_unknown c) true)
    | Ok sum => (Status.OK, ChannelState sum true (ch_unknown c) (ch_overflowed c))
    end.

Definition add_channel (a : capacity_aggregate) (channel : capacity_channel)
    (value : capacity_value) : status * capacity_aggregate :=
  match channel with
  | CapacityChannel.INGRESS =>
      let '(s, c) := channel_add (ca_ingress a) value in
      (s, CapacityAggregate c (ca_egress a) (ca_internal a) (ca_contributions a))
  | CapacityChannel.EGRESS =>
      let '(s, c) := channel_add (ca_egress a) value in
      (s, CapacityAggregate (ca_ingress a) c (ca_internal a) (ca_contributions a))
  | CapacityChannel.INTERNAL =>
      let '(s, c) := channel_add (ca_internal a) value in
      (s, CapacityAggregate (ca_ingress a) (ca_egress a) c (ca_contributions a))
  | _ => (Status.INVALID, a)
  end.

Definition count_entry (a : capacity_aggregate) : capacity_aggregate :=
  CapacityAggregate (ca_ingress a) (ca_egress a) (ca_internal a) (wrap 64 (ca_contributions a + 1)).

(** [CapacityAggregate::add]. *)
Definition aggregate_add (a : capacity_aggregate) (contribution : capacity_vector)
    : status * capacity_aggregate :=
  let a0 := count_entry a in
  let '(worst, a1) := add_channel a0 CapacityChannel.INGRESS (ingress contribution) in
  let '(egress_status, a2) := add_channel a1 CapacityChannel.EGRESS (egress contribution) in
  let '(internal_status, a3) := add_channel a2 CapacityChannel.INTERNAL (internal contribution) in
  let worst := if negb (is_ok egress_status) && is_ok worst then egress_status else worst in
  let worst := if negb (is_ok internal_status) && is_ok worst then internal_status else worst in
  (worst, a3).

(** [add_all]; [added] and [worst] are its loop variables. *)
Fixpoint add_all_from (added : Z) (worst : status) (a : capacity_aggregate)
    (contributions : list capacity_vector) (bound : Z) : status * capacity_aggregate :=
  match contributions with
  | [] => (worst, a)
  | contribution :: rest =>
      if bound <=? added then (Status.LIMIT_EXCEEDED, a)
      else
        let '(s, a') := aggregate_add a contribution in
        add_all_from (added + 1) (if is_ok s then worst else s) a' rest bound
  end.
Definition add_all := add_all_from 0 Status.OK.

Definition aggregate_overflowed (a : capacity_aggregate) : bool :=
  ch_overflowed (ca_ingress a) || ch_overflowed (ca_egress a) || ch_overflowed (ca_internal a).

Definition channel_is_known (c : channel_state) : bool :=
  ch_seen c && negb (ch_unknown c) && negb (ch_overflowed c).

Definition channel_known (a : capacity_aggregate) (channel : capacity_channel) : bool :=
  match channel with
  | CapacityChannel.INGRESS => channel_is_known (ca_ingress a)
  | CapacityChannel.EGRESS => channel_is_known (ca_egress a)
  | CapacityChannel.INTERNAL => channel_is_known (ca_internal a)
  | _ => false
  end.

Definition channel_seen (a : capacity_aggregate) (channel : capacity_channel) : bool :=
  match channel with
  | CapacityChannel.INGRESS => ch_seen (ca_ingress a)
  | CapacityChannel.EGRESS => ch_seen (ca_egress a)
  | CapacityChannel.INTERNAL => ch_seen (ca_internal a)
  | _ => false
  end.

Definition channel_total (c : channel_state) : capacity_value :=
  if channel_is_known c then known_bps (ch_accumulator c) else cv_unknown.

Definition aggregate_total (a : capacity_aggregate) : capacity_vector :=
  CapacityVector (channel_total (ca_ingress a)) (channel_total (ca_egress a))
    (channel_total (ca_internal a)).

Definition aggregate_status (a : capacity_aggregate) : status :=
  if aggregate_overflowed a then Status.CAPACITY_OVERFLOW
  else if ca_contributions a =? 0 then Status.CAPACITY_UNKNOWN
  else if negb (channel_known a CapacityChannel.INGRESS)
          || negb (channel_known a CapacityChannel.EGRESS)
          || negb (channel_known a CapacityChannel.INTERNAL)
  then Status.CAPACITY_UNKNOWN
  else Status.OK.

(** ** The meaning of a channel: the sum of what was reported *)

Definition value_sum (values : list capacity_value) : Z :=
  foldr (λ v acc, (if cv_known v then cv_bps v else 0) + acc) 0 values.

(** The contributions of [values] to one channel, one after the other. *)
Definition channel_add_all (c : channel_state) (values : list capacity_value) : channel_state :=
  foldl (λ c v, (channel_add c v).2) c values.

Lemma value_sum_nonneg values : Forall cv_wf values → 0 ≤ value_sum values.
Proof.
  unfold cv_wf, in_u. induction 1 as [|v l [Hv _] _ IH]; simpl; [lia|]. destruct (cv_known v); lia.
Qed.

Lemma value_sum_perm l k : l ≡ₚ k → value_sum l = value_sum k.
Proof. induction 1; simpl; lia. Qed.

(** The total of a channel as a function of the collection alone. *)
Definition sum_total (values : list capacity_value) : capacity_value :=
  if forallb cv_known values && negb (bool_decide (values = []))
     && (value_sum values <=? kMaxCapacityBps)
  then known_bps (value_sum values) else cv_unknown.

(** What the fields of a channel say about the values added since it was empty. *)
Definition channel_inv (values : list capacity_value) (c : channel_state) : Prop :=
  ch_seen c = negb (bool_decide (values = []))
  ∧ ch_unknown c = negb (forallb cv_known values)
  ∧ ch_overflowed c = (kMaxCapacityBps <? value_sum values)
  ∧ (ch_overflowed c = false → ch_accumulator c = value_sum values)
  ∧ 0 ≤ ch_accumulator c ≤ kMaxCapacityBps.

Lemma value_sum_snoc l v : value_sum (l ++ [v]) = value_sum l + if cv_known v then cv_bps v else 0.
Proof. induction l as [|x l IH]; simpl; lia. Qed.

Lemma channel_add_inv values c v :
  Forall cv_wf values → cv_wf v → channel_inv values c →
  channel_inv (values ++ [v]) (channel_add c v).2.
Proof.
  intros Hwf [Hv _] (Hs & Hu & Ho & Hacc & Hr). pose proof (value_sum_nonneg _ Hwf) as Hnn.
  unfold channel_inv. rewrite value_sum_snoc, forallb_app. cbn [forallb]. rewrite andb_true_r.
  assert (negb (bool_decide (values ++ [v] = [])) = true) as Hne
    by (apply negb_true_iff, bool_decide_eq_false; by destruct values).
  rewrite Hne. unfold channel_add, in_u in *. destruct (cv_known v) eqn:Hk; cbn [negb snd].
  - rewrite andb_true_r. destruct (ch_overflowed c) eqn:Hof; cbn [snd].
    + symmetry in Ho. apply Z.ltb_lt in Ho. cbn. split_and!; try done; lia.
    + specialize (Hacc eq_refl). symmetry in Ho. apply Z.ltb_ge in Ho. rewrite Hacc, add_known_spec by lia.
      destruct (Z.leb_spec (value_sum values + cv_bps v) kMaxCapacityBps); cbn;
        split_and!; try done; lia.
  - rewrite andb_false_r, Z.add_0_r. cbn. done.
Qed.

Lemma channel_add_all_inv values :
  Forall cv_wf values → channel_inv values (channel_add_all no_channel values).
Proof.
  induction values as [|v l IH] using rev_ind; intros Hwf.
  - split_and!; done.
  - apply Forall_app in Hwf as [Hl Hv]. apply Forall_inv in Hv.
    unfold channel_add_all in *. rewrite foldl_app.
    exact (channel_add_inv l _ v Hl Hv (IH Hl)).
Qed.

Lemma channel_total_spec values :
  Forall cv_wf values → channel_total (channel_add_all no_channel values) = sum_total values.
Proof.
  intros Hwf. destruct (channel_add_all_inv values Hwf) as (Hs & Hu & Ho & Hacc & _).
  unfold channel_total, channel_is_known, sum_total. rewrite Hs, Hu, Ho, negb_involutive.
  rewrite <- Z.leb_antisym, (andb_comm _ (forallb _ _)).
  destruct (_ && _ && _) eqn:E; [|done].
  rewrite !andb_true_iff, Z.leb_le in E. rewrite Hacc; [done|].
  rewrite Ho. apply Z.ltb_ge. lia.
Qed.

Lemma sum_total_perm l k : l ≡ₚ k → sum_total l = sum_total k.
Proof.
  intros Hp. unfold sum_total. rewrite (value_sum_perm _ _ Hp).
  assert (forallb cv_known l = forallb cv_known k) as ->
    by (induction Hp; simpl; [done | congruence | btauto | congruence]).
  assert (bool_decide (l = []) = bool_decide (k = [])) as ->; [|done].
  apply bool_decide_ext. split; intros ->; [by apply Permutation_nil_l in Hp|by apply Permutation_nil_r in Hp].
Qed.

Definition aggregate_of (contributions : list capacity_vector) : capacity_aggregate :=
  foldl (λ a v, (aggregate_add a v).2) no_aggregate contributions.

Lemma aggregate_add_channels a v :
  (aggregate_add a v).2 = CapacityAggregate (channel_add (ca_ingress a) (ingress v)).2
    (channel_add (ca_egress a) (egress v)).2 (channel_add (ca_internal a) (internal v)).2
    (wrap 64 (ca_contributions a + 1)).
Proof.
  unfold aggregate_add. simpl.
  by destruct (channel_add (ca_ingress a)), (channel_add (ca_egress a)), (channel_add (ca_internal a)).
Qed.

Lemma aggregate_of_channels vs :
  ca_ingress (aggregate_of vs) = channel_add_all no_channel (ingress <$> vs)
  ∧ ca_egress (aggregate_of vs) = channel_add_all no_channel (egress <$> vs)
  ∧ ca_internal (aggregate_of vs) = channel_add_all no_channel (internal <$> vs).
Proof.
  unfold aggregate_of, channel_add_all. induction vs as [|v vs IH] using rev_ind; [done|].
  rewrite !foldl_app, !fmap_app, !foldl_app. cbn [foldl fmap list_fmap].
  rewrite aggregate_add_channels. simpl. by destruct IH as (-> & -> & ->).
Qed.

(** The aggregate is a sum: each channel of its total is known exactly when at least
    one contribution arrived, every contribution reported the channel and the sum fits the
    plausibility bound, and is then that sum, so unknown is absorbing, an empty aggregate is
    unknown rather than zero, no total exceeds the bound, and arrival order is irrelevant. *)
Theorem aggregate_spec (contributions reordered : list capacity_vector) :
  Forall capacity_wf contributions →
  aggregate_total (aggregate_of contributions)
    = CapacityVector (sum_total (ingress <$> contributions)) (sum_total (egress <$> contributions))
        (sum_total (internal <$> contributions))
  ∧ (contributions ≡ₚ reordered →
     aggregate_total (aggregate_of reordered) = aggregate_total (aggregate_of contributions)).
Proof.
  assert (∀ vs, Forall capacity_wf vs → aggregate_total (aggregate_of vs)
    = CapacityVector (sum_total (ingress <$> vs)) (sum_total (egress <$> vs))
        (sum_total (internal <$> vs))) as Hspec.
  { intros vs Hwf. unfold aggregate_total. destruct (aggregate_of_channels vs) as (-> & -> & ->).
    rewrite !channel_total_spec; [done|..]; apply Forall_fmap; eapply Forall_impl; try done;
      by intros v (? & ? & ?). }
  intros Hwf. split; [by apply Hspec|]. intros Hp.
  rewrite !Hspec by (done || by rewrite <- Hp).
  by f_equal; apply sum_total_perm; rewrite Hp.
Qed.

Lemma aggregate_spec_witness :
  aggregate_total (aggregate_of [uniform 3; uniform 4]) = uniform 7
  ∧ aggregate_total (aggregate_of []) = all_unknown.
Proof.
  split.
  - rewrite (proj1 (aggregate_spec [uniform 3; uniform 4] [] ltac:(by repeat constructor))).
    vm_compute. reflexivity.
  - rewrite (proj1 (aggregate_spec [] [] ltac:(by constructor))). vm_compute. reflexivity.
Defined.
