(* ===== verification/Claims.v ===== *)
(** Claims and declarations (resource.hpp, failure_domain.hpp, maintenance.hpp, member.hpp)
    and their canonical bytes and digests (src/core/digest.cpp).

    The nine claim records of a member domain declaration, the writer each has, and the
    digests computed from the written bytes. A digest covers exactly what the writer
    emits: neither the record digest a claim carries nor the source of its evidence. *)

From S2P Require Import Prelude Ordering Enums Sha256 Identity Canonical Evidence Capacity.

(** * The records *)

Record rack_claim := RackClaim {
  rack_id : string;
  rack_generation : generation;
  rack_record_digest : digest;
  rack_local_capacity : capacity_vector;
  rack_uplink : connectivity_state;
  rack_evidence : evidence;
}.

Record pod_claim := PodClaim {
  pod_id : string;
  pod_generation : generation;
  pod_record_digest : digest;
  pod_racks : list string;
  pod_evidence : evidence;
}.

Record cluster_claim := ClusterClaim {
  cluster_id : string;
  cluster_generation : generation;
  cluster_record_digest : digest;
  cluster_pods : list string;
  cluster_racks : list string;
  cluster_evidence : evidence;
}.

Record shared_link_claim := SharedLinkClaim {
  link_id : string;
  link_external : bool;
  link_generation : generation;
  link_record_digest : digest;
  link_capacity : capacity_vector;
  link_state : connectivity_state;
  link_evidence : evidence;
}.

Record gateway_claim := GatewayClaim {
  gateway_id : string;
  gateway_generation : generation;
  gateway_record_digest : digest;
  gateway_capacity : capacity_vector;
  gateway_state : connectivity_state;
  gateway_evidence : evidence;
}.

Record capacity_contribution := CapacityContribution {
  contrib_owner : resource_key;
  contrib_scope : capacity_scope;
  contrib_generation : generation;
  contrib_record_digest : digest;
  contrib_capacity : capacity_vector;
  contrib_evidence : evidence;
}.

Record failure_domain_claim := FailureDomainClaim {
  fd_id : string;
  fd_domain_class : failure_domain_class;
  fd_parent : option string;
  fd_members : list resource_key;
  fd_generation : generation;
  fd_record_digest : digest;
  fd_evidence : evidence;
}.

Record maintenance_zone := MaintenanceZone {
  zone_id : string;
  zone_state : maintenance_state;
  zone_window_start_ms : Z;
  zone_window_end_ms : Z;
  zone_domains : list string;
  zone_resources : list resource_key;
  zone_generation : generation;
  zone_record_digest : digest;
  zone_evidence : evidence;
}.

Record protected_obligation := ProtectedObligation {
  ob_id : string;
  ob_kind : obligation_kind;
  ob_scope_domain : option string;
  ob_scope_resource : option resource_key;
  ob_required : Z;
  ob_protected_from_maintenance : bool;
  ob_generation : generation;
  ob_record_digest : digest;
  ob_evidence : evidence;
}.

Record declaration := MemberDomainDeclaration {
  decl_domain : member_domain_key;
  decl_site : string;
  decl_generation : generation;
  decl_schema : schema_version;
  decl_digest : digest;
  decl_observed_epoch : epoch;
  decl_clusters : list cluster_claim;
  decl_pods : list pod_claim;
  decl_racks : list rack_claim;
  decl_shared_links : list shared_link_claim;
  decl_gateways : list gateway_claim;
  decl_capacity : list capacity_contribution;
  decl_failure_domains : list failure_domain_claim;
  decl_maintenance_zones : list maintenance_zone;
  decl_obligations : list protected_obligation;
  decl_evidence : evidence;
}.

Definition kModelSchemaMajor : Z := 1.
Definition kModelSchemaMinor : Z := 0.
Definition supported_schema : schema_version := SchemaVersion kModelSchemaMajor kModelSchemaMinor.

(** [MemberDomainDeclaration{}]. *)
Definition no_declaration : declaration :=
  MemberDomainDeclaration no_domain "" 0 supported_schema zero_digest 0 [] [] [] [] [] [] [] [] []
    no_evidence.

Definition resource_claim_count (d : declaration) : Z :=
  zlen (decl_clusters d) + zlen (decl_pods d) + zlen (decl_racks d) + zlen (decl_shared_links d)
  + zlen (decl_gateways d) + zlen (decl_capacity d) + zlen (decl_failure_domains d)
  + zlen (decl_maintenance_zones d) + zlen (decl_obligations d).

(** * Shared writers *)

Definition write_member_domain_key (key : member_domain_key) : bytes :=
  w_u8 (enum_code (mdk_kind key)) ++ w_text (mdk_id key).
Definition write_resource_key (key : resource_key) : bytes :=
  w_u8 (enum_code (rk_kind key)) ++ w_text (rk_id key).

Definition write_evidence (e : evidence) : bytes :=
  w_u8 (enum_code (ev_provenance e)) ++ w_i64 (ev_observed_at_ms e) ++ w_u64 (ev_ttl_ms e)
  ++ w_digest (ev_payload_digest e).

Definition write_source_set (s : source_set) : bytes := w_list w_source_ref (ss_items s).

Definition write_capacity_value (v : capacity_value) : bytes :=
  w_flag (cv_known v) ++ w_u64 (if cv_known v then cv_bps v else 0).
Definition write_capacity (v : capacity_vector) : bytes :=
  write_capacity_value (ingress v) ++ write_capacity_value (egress v)
  ++ write_capacity_value (internal v).

Definition write_factors (f : factors) : bytes := w_list w_text (fac_items f).

(** [optional(x.has_value())] and the value when there is one. *)
Definition w_opt {A} (w : A → bytes) (o : option A) : bytes :=
  match o with None => w_optional false | Some a => w_optional true ++ w a end.

(** * [write_claim] and [claim_digest], one instance per overload *)

Class Claim (A : Type) := { write_claim : A → bytes }.

#[export] Instance write_rack : Claim rack_claim := {|
  write_claim c :=
    w_text (rack_id c) ++ w_generation (rack_generation c) ++ write_capacity (rack_local_capacity c)
    ++ w_u8 (enum_code (rack_uplink c)) ++ write_evidence (rack_evidence c) |}.

#[export] Instance write_pod : Claim pod_claim := {|
  write_claim c :=
    w_text (pod_id c) ++ w_generation (pod_generation c) ++ w_list w_text (pod_racks c)
    ++ write_evidence (pod_evidence c) |}.

#[export] Instance write_cluster : Claim cluster_claim := {|
  write_claim c :=
    w_text (cluster_id c) ++ w_generation (cluster_generation c)
    ++ w_list w_text (cluster_pods c) ++ w_list w_text (cluster_racks c)
    ++ write_evidence (cluster_evidence c) |}.

#[export] Instance write_shared_link : Claim shared_link_claim := {|
  write_claim c :=
    w_text (link_id c) ++ w_flag (link_external c) ++ w_generation (link_generation c)
    ++ write_capacity (link_capacity c) ++ w_u8 (enum_code (link_state c))
    ++ write_evidence (link_evidence c) |}.

#[export] Instance write_gateway : Claim gateway_claim := {|
  write_claim c :=
    w_text (gateway_id c) ++ w_generation (gateway_generation c)
    ++ write_capacity (gateway_capacity c) ++ w_u8 (enum_code (gateway_state c))
    ++ write_evidence (gateway_evidence c) |}.

#[export] Instance write_contribution : Claim capacity_contribution := {|
  write_claim c :=
    write_resource_key (contrib_owner c) ++ w_u8 (enum_code (contrib_scope c))
    ++ w_generation (contrib_generation c) ++ write_capacity (contrib_capacity c)
    ++ write_evidence (contrib_evidence c) |}.

#[export] Instance write_failure_domain : Claim failure_domain_claim := {|
  write_claim c :=
    w_text (fd_id c) ++ w_u8 (enum_code (fd_domain_class c)) ++ w_opt w_text (fd_parent c)
    ++ w_list write_resource_key (fd_members c) ++ w_generation (fd_generation c)
    ++ write_evidence (fd_evidence c) |}.

#[export] Instance write_zone : Claim maintenance_zone := {|
  write_claim c :=
    w_text (zone_id c) ++ w_u8 (enum_code (zone_state c)) ++ w_i64 (zone_window_start_ms c)
    ++ w_i64 (zone_window_end_ms c) ++ w_list w_text (zone_domains c)
    ++ w_list write_resource_key (zone_resources c) ++ w_generation (zone_generation c)
    ++ write_evidence (zone_evidence c) |}.

#[export] Instance write_obligation : Claim protected_obligation := {|
  write_claim c :=
    w_text (ob_id c) ++ w_u8 (enum_code (ob_kind c)) ++ w_opt w_text (ob_scope_domain c)
    ++ w_opt write_resource_key (ob_scope_resource c) ++ w_u64 (ob_required c)
    ++ w_flag (ob_protected_from_maintenance c) ++ w_generation (ob_generation c)
    ++ write_evidence (ob_evidence c) |}.

Definition claim_digest {A} `{Claim A} (c : A) : digest := finish_digest (write_claim c).

(** * Declarations *)

Definition write_declaration_content (d : declaration) : bytes :=
  write_member_domain_key (decl_domain d) ++ w_text (decl_site d)
  ++ w_generation (decl_generation d) ++ w_schema (decl_schema d) ++ w_epoch (decl_observed_epoch d)
  ++ write_evidence (decl_evidence d)
  ++ w_list write_claim (decl_clusters d) ++ w_list write_claim (decl_pods d)
  ++ w_list write_claim (decl_racks d) ++ w_list write_claim (decl_shared_links d)
  ++ w_list write_claim (decl_gateways d) ++ w_list write_claim (decl_capacity d)
  ++ w_list write_claim (decl_failure_domains d) ++ w_list write_claim (decl_maintenance_zones d)
  ++ w_list write_claim (decl_obligations d).

Definition declaration_content_digest (d : declaration) : digest :=
  finish_digest (write_declaration_content d).
(** [MemberDomainDeclaration::compute_digest]. *)
Definition compute_digest (d : declaration) : digest := declaration_content_digest d.

Definition set_digest (g : digest) (d : declaration) : declaration :=
  MemberDomainDeclaration (decl_domain d) (decl_site d) (decl_generation d) (decl_schema d) g
    (decl_observed_epoch d) (decl_clusters d) (decl_pods d) (decl_racks d) (decl_shared_links d)
    (decl_gateways d) (decl_capacity d) (decl_failure_domains d) (decl_maintenance_zones d)
    (decl_obligations d) (decl_evidence d).

(** * Expectations and records *)

Record expected_member := ExpectedMember {
  em_domain : member_domain_key;
  em_pinned : bool;
  em_generation : generation;
  em_digest : digest;
  em_required : bool;
}.

Record site_expectation := SiteExpectation {
  se_site : string;
  se_schema : schema_version;
  se_minimum_epoch : epoch;
  se_members : list expected_member;
  se_reject_unexpected : bool;
}.

Record publish_attempt := PublishAttempt { pa_sequence : Z; pa_attempt : Z }.

Record publication_record := MemberPublicationRecord {
  pub_domain : member_domain_key;
  pub_generation : generation;
  pub_digest : digest;
  pub_schema : schema_version;
  pub_site : string;
  pub_observed_epoch : epoch;
  pub_incarnation : incarnation;
  pub_publisher : string;
  pub_attempt : publish_attempt;
  pub_received_at_ms : Z;
  pub_acceptance_sequence : Z;
  pub_has_declaration : bool;
  pub_declaration : declaration;
}.

Definition pub_source (r : publication_record) : source_ref :=
  SourceRef (pub_domain r) (pub_generation r) (pub_digest r).

Record retirement_record := MemberRetirementRecord {
  ret_domain : member_domain_key;
  ret_generation : generation;
  ret_incarnation : incarnation;
  ret_received_at_ms : Z;
  ret_acceptance_sequence : Z;
  ret_reason : string;
}.

(** [write_publication] of digest.cpp; [write_publication_record] of codec.cpp is the same
    sequence of writes. *)
Definition write_publication (r : publication_record) : bytes :=
  write_member_domain_key (pub_domain r) ++ w_generation (pub_generation r)
  ++ w_digest (pub_digest r) ++ w_schema (pub_schema r) ++ w_text (pub_site r)
  ++ w_epoch (pub_observed_epoch r) ++ w_incarnation (pub_incarnation r)
  ++ w_text (pub_publisher r) ++ w_u64 (pa_sequence (pub_attempt r))
  ++ w_u32 (pa_attempt (pub_attempt r)) ++ w_i64 (pub_received_at_ms r)
  ++ w_u64 (pub_acceptance_sequence r) ++ w_flag (pub_has_declaration r)
  ++ (if pub_has_declaration r then write_declaration_content (pub_declaration r) else []).
Definition publication_digest (r : publication_record) : digest :=
  finish_digest (write_publication r).

Definition write_retirement_record (r : retirement_record) : bytes :=
  write_member_domain_key (ret_domain r) ++ w_generation (ret_generation r)
  ++ w_incarnation (ret_incarnation r) ++ w_i64 (ret_received_at_ms r)
  ++ w_u64 (ret_acceptance_sequence r) ++ w_text (ret_reason r).

Definition write_expected_member (m : expected_member) : bytes :=
  write_member_domain_key (em_domain m) ++ w_flag (em_pinned m) ++ w_generation (em_generation m)
  ++ w_digest (em_digest m) ++ w_flag (em_required m).

Definition write_expectation (e : site_expectation) : bytes :=
  w_text (se_site e) ++ w_schema (se_schema e) ++ w_epoch (se_minimum_epoch e)
  ++ w_flag (se_reject_unexpected e) ++ w_list write_expected_member (se_members e).
