(* ===== verification/Codec.v ===== *)
(** Declaration and record codecs (src/core/codec.cpp).

    Every reader of the declaration side of the wire: identifiers, keys, capacities,
    evidence, the nine claims, the declaration, expectations, publication and retirement
    records. The theorems: what a writer emits its reader reads back, except for the fields
    the format does not carry ([on_wire] resets them), and every strict prefix of an
    encoding is TRUNCATED. *)

From stdpp Require Import sorting.
From S2P Require Import Prelude Ordering Enums Sha256 Identity Canonical Evidence Capacity Claims.

Definition kMaxClaimLists : Z := 16384.
Definition kMaxExpectedMembers : Z := 4096.

(** * Primitive readers *)

Definition read_identifier : reader string :=
  out ← r_text kMaxIdentifierBytes;
  require (is_valid_identifier out) Status.MALFORMED;; mret out.

Definition read_optional_identifier : reader string :=
  out ← r_text kMaxIdentifierBytes;
  require (bool_decide (out = "") || is_valid_identifier out) Status.MALFORMED;; mret out.

(** [read_strong_id] of digest.hpp: the same check for every identity type. *)
Definition read_strong_id : reader string := read_identifier.

(** [limit] is given by its enumerator, the last one; a value in range always has one. *)
Definition read_enum {E} `{Enum E} (limit : E) : reader E :=
  value ← r_u8;
  require (value <=? enum_code limit) Status.MALFORMED;;
  match enum_of_code value with Some e => mret e | None => fail Status.MALFORMED end.

(** The empty identifier an absent key is written with. *)
Definition read_empty_id : reader unit :=
  id ← r_text kMaxIdentifierBytes; require (bool_decide (id = "")) Status.MALFORMED.

(** The common body of [read_member_domain_key] and [read_resource_key]: code 0 is the
    absent key, a code the kind predicate rejects is malformed. *)
Definition read_key {E K} `{Enum E} (valid_kind : E → bool) (mk : E → string → K) (absent : K)
    : reader K :=
  kind ← r_u8;
  if kind =? 0 then read_empty_id;; mret absent
  else
    match enum_of_code kind with
    | None => fail Status.MALFORMED
    | Some e =>
        require (valid_kind e) Status.MALFORMED;; id ← read_identifier; mret (mk e id)
    end.


Definition read_member_domain_key : reader member_domain_key :=
  read_key valid_member_domain_kind MemberDomainKey no_domain.
Definition read_resource_key : reader resource_key :=
  read_key valid_resource_kind ResourceKey no_resource.

Definition read_capacity_value : reader capacity_value :=
  known ← r_flag; value ← r_u64;
  require (negb (known && (kMaxCapacityBps <? value))) Status.LIMIT_EXCEEDED;;
  require (negb (negb known && negb (value =? 0))) Status.MALFORMED;;
  mret (CapacityValue known value).

Definition read_capacity : reader capacity_vector :=
  i ← read_capacity_value; e ← read_capacity_value; n ← read_capacity_value;
  mret (CapacityVector i e n).

Definition read_evidence : reader evidence :=
  prov ← read_enum Provenance.RECONSTRUCTED;
  observed ← r_i64;
  ttl ← r_u64;
  require (negb (kMaxEvidenceTtlMs <? ttl)) Status.LIMIT_EXCEEDED;;
  payload ← r_digest;
  mret (Evidence prov observed ttl no_source_ref payload).

Definition read_factors : reader factors :=
  items ← r_list (kMaxFactors + 1) (r_text kMaxTextBytes);
  mret (foldl (λ f factor, factors_add factor f) no_factors items).

Definition read_source_set : reader source_set :=
  refs ← r_list (kMaxDecisionSources + 1) r_source_ref; mret (ss_insert_all ss_empty refs).

(** [optional] and, when present, the value. *)
Definition r_opt {A} (r : reader A) : reader (option A) :=
  present ← r_optional;
  if (present : bool) then x ← r; mret (Some x) else mret None.

(** * Claim readers: the record digest and the source of the evidence are left unset *)

Definition read_rack_claim : reader rack_claim :=
  id ← read_strong_id; gen ← r_generation; cap ← read_capacity;
  up ← read_enum ConnectivityState.DEGRADED; ev ← read_evidence;
  mret (RackClaim id gen zero_digest cap up ev).

Definition read_pod_claim : reader pod_claim :=
  id ← read_strong_id; gen ← r_generation;
  rs ← r_list (kMaxResourceMembers + 1) read_strong_id; ev ← read_evidence;
  mret (PodClaim id gen zero_digest rs ev).

Definition read_cluster_claim : reader cluster_claim :=
  id ← read_strong_id; gen ← r_generation;
  ps ← r_list (kMaxResourceMembers + 1) read_strong_id;
  rs ← r_list (kMaxResourceMembers + 1) read_strong_id; ev ← read_evidence;
  mret (ClusterClaim id gen zero_digest ps rs ev).

Definition read_shared_link_claim : reader shared_link_claim :=
  id ← read_strong_id; external ← r_flag; gen ← r_generation; cap ← read_capacity;
  st ← read_enum ConnectivityState.DEGRADED; ev ← read_evidence;
  mret (SharedLinkClaim id external gen zero_digest cap st ev).

Definition read_gateway_claim : reader gateway_claim :=
  id ← read_strong_id; gen ← r_generation; cap ← read_capacity;
  st ← read_enum ConnectivityState.DEGRADED; ev ← read_evidence;
  mret (GatewayClaim id gen zero_digest cap st ev).

Definition read_capacity_contribution : reader capacity_contribution :=
  owner ← read_resource_key; scope ← read_enum CapacityScope.GATEWAY; gen ← r_generation;
  cap ← read_capacity; ev ← read_evidence;
  mret (CapacityContribution owner scope gen zero_digest cap ev).

Definition read_failure_domain_claim : reader failure_domain_claim :=
  id ← read_strong_id; cls ← read_enum FailureDomainClass.ADMINISTRATIVE;
  parent ← r_opt read_strong_id; ms ← r_list (kMaxResourceMembers + 1) read_resource_key;
  gen ← r_generation; ev ← read_evidence;
  mret (FailureDomainClaim id cls parent ms gen zero_digest ev).

Definition read_maintenance_zone : reader maintenance_zone :=
  id ← read_strong_id; st ← read_enum MaintenanceState.CANCELLED;
  from ← r_i64; until ← r_i64;
  ds ← r_list (kMaxFailureDomainsPerDeclaration + 1) read_strong_id;
  rs ← r_list (kMaxResourceMembers + 1) read_resource_key;
  gen ← r_generation; ev ← read_evidence;
  mret (MaintenanceZone id st from until ds rs gen zero_digest ev).

Definition read_protected_obligation : reader protected_obligation :=
  id ← read_strong_id; kind ← read_enum ObligationKind.DOMAIN_SURVIVABILITY;
  dom ← r_opt read_strong_id; res ← r_opt read_resource_key;
  required ← r_u64; prot ← r_flag; gen ← r_generation; ev ← read_evidence;
  mret (ProtectedObligation id kind dom res required prot gen zero_digest ev).

(** * Declarations, expectations, records *)

Definition read_declaration : reader declaration :=
  dom ← read_member_domain_key; site ← read_strong_id; gen ← r_generation; schema ← r_schema;
  ep ← r_epoch; ev ← read_evidence;
  clusters ← r_list (kMaxClaimLists + 1) read_cluster_claim;
  pods ← r_list (kMaxClaimLists + 1) read_pod_claim;
  racks ← r_list (kMaxClaimLists + 1) read_rack_claim;
  links ← r_list (kMaxClaimLists + 1) read_shared_link_claim;
  gateways ← r_list (kMaxClaimLists + 1) read_gateway_claim;
  caps ← r_list (kMaxCapacityContributions + 1) read_capacity_contribution;
  fds ← r_list (kMaxFailureDomainsPerDeclaration + 1) read_failure_domain_claim;
  zones ← r_list (kMaxMaintenanceZonesPerDeclaration + 1) read_maintenance_zone;
  obs ← r_list (kMaxObligationsPerDeclaration + 1) read_protected_obligation;
  let out := MemberDomainDeclaration dom site gen schema zero_digest ep clusters pods racks links
               gateways caps fds zones obs ev in
  mret (set_digest (compute_digest out) out).

Definition read_expected_member : reader expected_member :=
  dom ← read_member_domain_key; pinned ← r_flag; gen ← r_generation; dig ← r_digest;
  req ← r_flag; mret (ExpectedMember dom pinned gen dig req).

Definition read_expectation : reader site_expectation :=
  site ← read_strong_id; schema ← r_schema; ep ← r_epoch; rej ← r_flag;
  ms ← r_list (kMaxExpectedMembers + 1) read_expected_member;
  mret (SiteExpectation site schema ep ms rej).

Definition read_publication_record : reader publication_record :=
  dom ← read_member_domain_key; gen ← r_generation; dig ← r_digest; schema ← r_schema;
  site ← read_strong_id; ep ← r_epoch; inc ← r_incarnation; publisher ← read_strong_id;
  sequence ← r_u64; attempt ← r_u32; received ← r_i64; accepted ← r_u64; has ← r_flag;
  let record := MemberPublicationRecord dom gen dig schema site ep inc publisher
                  (PublishAttempt sequence attempt) received accepted has in
  if (has : bool) then d ← read_declaration; mret (record (set_digest dig d))
  else mret (record no_declaration).

Definition read_retirement_record : reader retirement_record :=
  dom ← read_member_domain_key; gen ← r_generation; inc ← r_incarnation; received ← r_i64;
  accepted ← r_u64; reason ← r_text kMaxTextBytes;
  mret (MemberRetirementRecord dom gen inc received accepted reason).

(** * What an encoded value keeps *)

Definition evidence_on_wire (e : evidence) : evidence :=
  Evidence (ev_provenance e) (ev_observed_at_ms e) (ev_ttl_ms e) no_source_ref (ev_payload_digest e).

(** A claim as its reader rebuilds it. *)
Class OnWire (A : Type) := { on_wire : A → A }.

#[export] Instance rack_on_wire : OnWire rack_claim := {| on_wire c :=
  RackClaim (rack_id c) (rack_generation c) zero_digest (rack_local_capacity c) (rack_uplink c)
    (evidence_on_wire (rack_evidence c)) |}.
#[export] Instance pod_on_wire : OnWire pod_claim := {| on_wire c :=
  PodClaim (pod_id c) (pod_generation c) zero_digest (pod_racks c)
    (evidence_on_wire (pod_evidence c)) |}.
#[export] Instance cluster_on_wire : OnWire cluster_claim := {| on_wire c :=
  ClusterClaim (cluster_id c) (cluster_generation c) zero_digest (cluster_pods c) (cluster_racks c)
    (evidence_on_wire (cluster_evidence c)) |}.
#[export] Instance link_on_wire : OnWire shared_link_claim := {| on_wire c :=
  SharedLinkClaim (link_id c) (link_external c) (link_generation c) zero_digest (link_capacity c)
    (link_state c) (evidence_on_wire (link_evidence c)) |}.
#[export] Instance gateway_on_wire : OnWire gateway_claim := {| on_wire c :=
  GatewayClaim (gateway_id c) (gateway_generation c) zero_digest (gateway_capacity c)
    (gateway_state c) (evidence_on_wire (gateway_evidence c)) |}.
#[export] Instance contribution_on_wire : OnWire capacity_contribution := {| on_wire c :=
  CapacityContribution (contrib_owner c) (contrib_scope c) (contrib_generation c) zero_digest
    (contrib_capacity c) (evidence_on_wire (contrib_evidence c)) |}.
#[export] Instance failure_domain_on_wire : OnWire failure_domain_claim := {| on_wire c :=
  FailureDomainClaim (fd_id c) (fd_domain_class c) (fd_parent c) (fd_members c) (fd_generation c)
    zero_digest (evidence_on_wire (fd_evidence c)) |}.
#[export] Instance zone_on_wire : OnWire maintenance_zone := {| on_wire c :=
  MaintenanceZone (zone_id c) (zone_state c) (zone_window_start_ms c) (zone_window_end_ms c)
    (zone_domains c) (zone_resources c) (zone_generation c) zero_digest
    (evidence_on_wire (zone_evidence c)) |}.
#[export] Instance obligation_on_wire : OnWire protected_obligation := {| on_wire c :=
  ProtectedObligation (ob_id c) (ob_kind c) (ob_scope_domain c) (ob_scope_resource c)
    (ob_required c) (ob_protected_from_maintenance c) (ob_generation c) zero_digest
    (evidence_on_wire (ob_evidence c)) |}.

(** The declaration, without its digest. *)
Definition decl_content_on_wire (d : declaration) : declaration :=
  MemberDomainDeclaration (decl_domain d) (decl_site d) (decl_generation d) (decl_schema d)
    zero_digest (decl_observed_epoch d) (on_wire <$> decl_clusters d) (on_wire <$> decl_pods d)
    (on_wire <$> decl_racks d) (on_wire <$> decl_shared_links d) (on_wire <$> decl_gateways d)
    (on_wire <$> decl_capacity d) (on_wire <$> decl_failure_domains d)
    (on_wire <$> decl_maintenance_zones d) (on_wire <$> decl_obligations d)
    (evidence_on_wire (decl_evidence d)).

(** * What a value must satisfy to be encoded *)

Definition id_ok (s : string) : Prop := is_valid_identifier s = true.
Definition domain_ok (k : member_domain_key) : Prop := k = no_domain ∨ mdk_valid k = true.
Definition resource_ok (k : resource_key) : Prop := k = no_resource ∨ rk_valid k = true.
Definition value_ok (v : capacity_value) : Prop := cv_wf v ∧ cv_bps v ≤ kMaxCapacityBps.
Definition capacity_ok (v : capacity_vector) : Prop :=
  value_ok (ingress v) ∧ value_ok (egress v) ∧ value_ok (internal v).
Definition evidence_ok (e : evidence) : Prop :=
  in_i64 (ev_observed_at_ms e) ∧ 0 ≤ ev_ttl_ms e ≤ kMaxEvidenceTtlMs
  ∧ digest_wf (ev_payload_digest e).
Definition list_ok {A} (bound : Z) (P : A → Prop) (l : list A) : Prop :=
  zlen l ≤ bound + 1 ∧ Forall P l.
Definition opt_ok {A} (P : A → Prop) (o : option A) : Prop :=
  match o with None => True | Some a => P a end.

Definition rack_ok (c : rack_claim) : Prop :=
  id_ok (rack_id c) ∧ in_u 64 (rack_generation c) ∧ capacity_ok (rack_local_capacity c)
  ∧ evidence_ok (rack_evidence c).
Definition pod_ok (c : pod_claim) : Prop :=
  id_ok (pod_id c) ∧ in_u 64 (pod_generation c) ∧ list_ok kMaxResourceMembers id_ok (pod_racks c)
  ∧ evidence_ok (pod_evidence c).
Definition cluster_ok (c : cluster_claim) : Prop :=
  id_ok (cluster_id c) ∧ in_u 64 (cluster_generation c)
  ∧ list_ok kMaxResourceMembers id_ok (cluster_pods c)
  ∧ list_ok kMaxResourceMembers id_ok (cluster_racks c) ∧ evidence_ok (cluster_evidence c).
Definition link_ok (c : shared_link_claim) : Prop :=
  id_ok (link_id c) ∧ in_u 64 (link_generation c) ∧ capacity_ok (link_capacity c)
  ∧ evidence_ok (link_evidence c).
Definition gateway_ok (c : gateway_claim) : Prop :=
  id_ok (gateway_id c) ∧ in_u 64 (gateway_generation c) ∧ capacity_ok (gateway_capacity c)
  ∧ evidence_ok (gateway_evidence c).
Definition contribution_ok (c : capacity_contribution) : Prop :=
  resource_ok (contrib_owner c) ∧ in_u 64 (contrib_generation c)
  ∧ capacity_ok (contrib_capacity c) ∧ evidence_ok (contrib_evidence c).
Definition failure_domain_ok (c : failure_domain_claim) : Prop :=
  id_ok (fd_id c) ∧ opt_ok id_ok (fd_parent c)
  ∧ list_ok kMaxResourceMembers resource_ok (fd_members c) ∧ in_u 64 (fd_generation c)
  ∧ evidence_ok (fd_evidence c).
Definition zone_ok (c : maintenance_zone) : Prop :=
  id_ok (zone_id c) ∧ in_i64 (zone_window_start_ms c) ∧ in_i64 (zone_window_end_ms c)
  ∧ list_ok kMaxFailureDomainsPerDeclaration id_ok (zone_domains c)
  ∧ list_ok kMaxResourceMembers resource_ok (zone_resources c) ∧ in_u 64 (zone_generation c)
  ∧ evidence_ok (zone_evidence c).
Definition obligation_ok (c : protected_obligation) : Prop :=
  id_ok (ob_id c) ∧ opt_ok id_ok (ob_scope_domain c) ∧ opt_ok resource_ok (ob_scope_resource c)
  ∧ in_u 64 (ob_required c) ∧ in_u 64 (ob_generation c) ∧ evidence_ok (ob_evidence c).

Definition decl_ok (d : declaration) : Prop :=
  domain_ok (decl_domain d) ∧ id_ok (decl_site d) ∧ in_u 64 (decl_generation d)
  ∧ schema_wf (decl_schema d) ∧ in_u 64 (decl_observed_epoch d) ∧ evidence_ok (decl_evidence d)
  ∧ list_ok kMaxClaimLists cluster_ok (decl_clusters d) ∧ list_ok kMaxClaimLists pod_ok (decl_pods d)
  ∧ list_ok kMaxClaimLists rack_ok (decl_racks d)
  ∧ list_ok kMaxClaimLists link_ok (decl_shared_links d)
  ∧ list_ok kMaxClaimLists gateway_ok (decl_gateways d)
  ∧ list_ok kMaxCapacityContributions contribution_ok (decl_capacity d)
  ∧ list_ok kMaxFailureDomainsPerDeclaration failure_domain_ok (decl_failure_domains d)
  ∧ list_ok kMaxMaintenanceZonesPerDeclaration zone_ok (decl_maintenance_zones d)
  ∧ list_ok kMaxObligationsPerDeclaration obligation_ok (decl_obligations d).

(** * Round trips *)

Lemma decodes_last {A B} (r : reader A) (f : A → B) w a b :
  decodes r w a → f a = b → decodes (x ← r; mret (f x)) w b.
Proof. intros Hr <-. by apply decodes_map. Qed.

Lemma decodes_identifier s : id_ok s → decodes read_identifier (w_text s) s.
Proof.
  intros Hs. rewrite <- (app_nil_r (w_text s)).
  eapply decodes_bind; [apply decodes_text; by apply identifier_fits|].
  apply decodes_require; [done|apply decodes_ret].
Qed.

Lemma decodes_enum_byte {E} `{Enum E} (limit e : E) :
  enum_code e ≤ enum_code limit → enum_code limit < 256 →
  decodes (read_enum limit) (w_u8 (enum_code e)) e.
Proof.
  intros. rewrite <- (app_nil_r (w_u8 _)).
  eapply decodes_bind; [by eapply (decodes_enum limit)|].
  apply decodes_require; [by apply Z.leb_le|]. rewrite enum_of_code_code. apply decodes_ret.
Qed.

Section read_key.
  Context {E K} `{Enum E} (valid_kind : E → bool) (mk : E → string → K) (absent : K).
  Hypothesis Hsize : zlen (enum_values (E:=E)) ≤ 256.

Lemma decodes_key_absent e :
    enum_code e = 0 → decodes (read_key valid_kind mk absent) (w_u8 (enum_code e) ++ w_text "") absent.
Proof using Type.
    intros He. eapply decodes_bind; [apply decodes_u8; by rewrite He|]. rewrite He. cbn [Z.eqb].
    rewrite <- (app_nil_r (w_text "")). eapply decodes_bind; [|apply decodes_ret].
    rewrite <- (app_nil_r (w_text "")). eapply decodes_bind; [by apply decodes_text|].
    apply decodes_ret.
Qed.

Lemma decodes_key_present e id :
    enum_code e ≠ 0 → valid_kind e = true → id_ok id →
    decodes (read_key valid_kind mk absent) (w_u8 (enum_code e) ++ w_text id) (mk e id).
Proof using Hsize.
    intros Hne Hv Hid. pose proof (enum_code_nonneg e). pose proof (enum_code_max e).
    eapply decodes_bind; [apply decodes_u8; unfold in_u; lia|].
    rewrite (proj2 (Z.eqb_neq _ _)), enum_of_code_code by done.
    apply decodes_require; [done|]. by apply (decodes_map _ (mk e)), decodes_identifier.
Qed.
End read_key.

Lemma decodes_domain_key k :
  domain_ok k → decodes read_member_domain_key (write_member_domain_key k) k.
Proof.
  intros [->|Hv]; [by apply (decodes_key_absent _ _ _ MemberDomainKind.UNKNOWN)|].
  destruct k as [kind id]. unfold mdk_valid in Hv. apply andb_true_iff in Hv as [Hk Hid].
  apply decodes_key_present; [done| by destruct kind | done | done].
Qed.

Lemma decodes_resource_key k : resource_ok k → decodes read_resource_key (write_resource_key k) k.
Proof.
  intros [->|Hv]; [by apply (decodes_key_absent _ _ _ ResourceKind.UNKNOWN)|].
  destruct k as [kind id]. unfold rk_valid in Hv. apply andb_true_iff in Hv as [Hk Hid].
  apply decodes_key_present; [done| by destruct kind | done | done].
Qed.

Lemma decodes_capacity_value v :
  value_ok v → decodes read_capacity_value (write_capacity_value v) v.
Proof.
  destruct v as [k b]. intros [[Hu Hz] Hb]. unfold read_capacity_value, write_capacity_value.
  cbn [cv_known cv_bps] in *. eapply decodes_bind; [apply decodes_flag|].
  rewrite <- (app_nil_r (w_u64 _)).
  eapply decodes_bind; [apply decodes_u64; by destruct k|].
  apply decodes_require.
  { destruct k; [|done]. simpl. apply negb_true_iff, Z.ltb_ge. done. }
  apply decodes_require; [by destruct k|].
  destruct k; [|rewrite (Hz eq_refl)]; apply decodes_ret.
Qed.

Lemma decodes_capacity v : capacity_ok v → decodes read_capacity (write_capacity v) v.
Proof.
  destruct v as [i e n]. intros (Hi & He & Hn). unfold read_capacity, write_capacity.
  cbn [ingress egress internal] in *.
  eapply decodes_bind; [by apply decodes_capacity_value|].
  eapply decodes_bind; [by apply decodes_capacity_value|].
  by eapply decodes_last; [apply decodes_capacity_value|].
Qed.

Lemma decodes_evidence e : evidence_ok e → decodes read_evidence (write_evidence e) (evidence_on_wire e).
Proof.
  destruct e as [p o t s d]. intros (Ho & Ht & Hd). unfold read_evidence, write_evidence.
  cbn [ev_provenance ev_observed_at_ms ev_ttl_ms ev_payload_digest] in *.
  eapply decodes_bind; [apply decodes_enum_byte; by destruct p|].
  eapply decodes_bind; [by apply decodes_i64|].
  eapply decodes_bind; [apply decodes_u64; unfold in_u, kMaxEvidenceTtlMs in *; lia|].
  apply decodes_require; [apply negb_true_iff, Z.ltb_ge; lia|].
  by eapply decodes_last; [apply decodes_digest|].
Qed.

Lemma decodes_opt {A} (r : reader A) (w : A → bytes) o :
  opt_ok (λ a, decodes r (w a) a) o → decodes (r_opt r) (w_opt w o) o.
Proof.
  destruct o as [a|]; intros Ha; unfold r_opt, w_opt, w_optional, r_optional.
  - eapply decodes_bind; [apply decodes_flag|]. by eapply decodes_last.
  - rewrite <- (app_nil_r (w_flag _)). eapply decodes_bind; [apply decodes_flag|apply decodes_ret].
Qed.

Lemma opt_ok_impl {A} (P Q : A → Prop) o : (∀ a, P a → Q a) → opt_ok P o → opt_ok Q o.
Proof. destruct o; simpl; auto. Qed.

(** A counted list whose items are read back as their images. *)
Lemma decodes_items_map {A B} (r : reader B) (w : A → bytes) (f : A → B) l :
  Forall (λ a, decodes r (w a) (f a)) l → decodes (r_items r (length l)) (l ≫= w) (f <$> l).
Proof.
  induction 1 as [|a l Ha Hl IH]; [apply decodes_ret|].
  rewrite bind_cons. cbn [length r_items fmap list_fmap].
  eapply decodes_bind; [done|]. by apply (decodes_map _ (λ rest, f a :: rest)).
Qed.

Lemma decodes_list_map {A B} bound (P : A → Prop) (r : reader B) (w : A → bytes) (f : A → B) l :
  list_ok bound P l → 0 ≤ bound < 2 ^ 31 → (∀ a, P a → decodes r (w a) (f a)) →
  decodes (r_list (bound + 1) r) (w_list w l) (f <$> l).
Proof.
  intros [Hl Hall] Hb Hf. pose proof (zlen_nonneg l). unfold r_list, w_list, w_count, r_count.
  rewrite wrap_small by (unfold in_u; lia).
  eapply decodes_bind.
  - rewrite <- (app_nil_r (w_u32 _)). eapply decodes_bind; [apply decodes_u32; unfold in_u; lia|].
    apply decodes_require; [apply Z.leb_le; lia|]. apply decodes_ret.
  - unfold zlen. rewrite Nat2Z.id. apply decodes_items_map. by eapply Forall_impl.
Qed.

Lemma decodes_list_id {A} bound (P : A → Prop) (r : reader A) (w : A → bytes) l :
  list_ok bound P l → 0 ≤ bound < 2 ^ 31 → (∀ a, P a → decodes r (w a) a) →
  decodes (r_list (bound + 1) r) (w_list w l) l.
Proof.
  intros Hl Hb Hf. rewrite <- (list_fmap_id l) at 2. by eapply decodes_list_map.
Qed.

(** The fields a record reader meets, one after the other. *)
Ltac key_or_id := first [apply decodes_identifier | apply decodes_resource_key].
Ltac field :=
  lazymatch goal with
  | |- decodes (read_enum _) (w_u8 (enum_code ?e)) _ => apply decodes_enum_byte; by destruct e
  | |- decodes read_strong_id _ _ => by apply decodes_identifier
  | |- decodes r_generation _ _ => by apply decodes_u64
  | |- decodes r_epoch _ _ => by apply decodes_u64
  | |- decodes r_u64 _ _ => by apply decodes_u64
  | |- decodes r_u32 _ _ => by apply decodes_u32
  | |- decodes r_i64 _ _ => by apply decodes_i64
  | |- decodes r_flag _ _ => apply decodes_flag
  | |- decodes r_digest _ _ => by apply decodes_digest
  | |- decodes r_schema _ _ => by apply decodes_schema
  | |- decodes r_incarnation _ _ => by apply decodes_incarnation
  | |- decodes read_member_domain_key _ _ => by apply decodes_domain_key
  | |- decodes read_resource_key _ _ => by apply decodes_resource_key
  | |- decodes read_capacity _ _ => by apply decodes_capacity
  | |- decodes read_evidence _ _ => by apply decodes_evidence
  | |- decodes (r_opt _) _ _ => apply decodes_opt; eapply opt_ok_impl; [|done]; key_or_id
  | |- decodes (r_list _ _) _ _ => eapply decodes_list_id; [done|done|]; key_or_id
  end.
Ltac record_codec :=
  repeat (eapply decodes_bind; [solve [field]|]); eapply decodes_last; [solve [field]|done].

Lemma decodes_rack c : rack_ok c → decodes read_rack_claim (write_claim c) (on_wire c).
Proof.
  intros (? & ? & ? & ?). unfold read_rack_claim. cbn [write_claim write_rack]. record_codec.
Qed.

Lemma decodes_pod c : pod_ok c → decodes read_pod_claim (write_claim c) (on_wire c).
Proof.
  intros (? & ? & ? & ?). unfold read_pod_claim. cbn [write_claim write_pod]. record_codec.
Qed.

Lemma decodes_cluster c : cluster_ok c → decodes read_cluster_claim (write_claim c) (on_wire c).
Proof.
  intros (? & ? & ? & ? & ?). unfold read_cluster_claim. cbn [write_claim write_cluster].
  record_codec.
Qed.

Lemma decodes_link c : link_ok c → decodes read_shared_link_claim (write_claim c) (on_wire c).
Proof.
  intros (? & ? & ? & ?). unfold read_shared_link_claim. cbn [write_claim write_shared_link].
  record_codec.
Qed.

Lemma decodes_gateway c : gateway_ok c → decodes read_gateway_claim (write_claim c) (on_wire c).
Proof.
  intros (? & ? & ? & ?). unfold read_gateway_claim. cbn [write_claim write_gateway].
  record_codec.
Qed.

Lemma decodes_contribution c :
  contribution_ok c → decodes read_capacity_contribution (write_claim c) (on_wire c).
Proof.
  intros (? & ? & ? & ?). unfold read_capacity_contribution.
  cbn [write_claim write_contribution]. record_codec.
Qed.

Lemma decodes_failure_domain c :
  failure_domain_ok c → decodes read_failure_domain_claim (write_claim c) (on_wire c).
Proof.
  intros (? & ? & ? & ? & ?). unfold read_failure_domain_claim.
  cbn [write_claim write_failure_domain]. record_codec.
Qed.

Lemma decodes_zone c : zone_ok c → decodes read_maintenance_zone (write_claim c) (on_wire c).
Proof.
  intros (? & ? & ? & ? & ? & ? & ?). unfold read_maintenance_zone. cbn [write_claim write_zone].
  record_codec.
Qed.

Lemma decodes_obligation c :
  obligation_ok c → decodes read_protected_obligation (write_claim c) (on_wire c).
Proof.
  intros (? & ? & ? & ? & ? & ?). unfold read_protected_obligation.
  cbn [write_claim write_obligation]. record_codec.
Qed.

(** ** The bytes a digest covers are those the wire carries *)

Class WireStable (A : Type) `{Claim A, OnWire A} := {
  write_on_wire : ∀ c : A, write_claim (on_wire c) = write_claim c;
}.
#[export] Instance rack_stable : WireStable rack_claim.
Proof. by constructor. Qed.
#[export] Instance pod_stable : WireStable pod_claim.
Proof. by constructor. Qed.
#[export] Instance cluster_stable : WireStable cluster_claim.
Proof. by constructor. Qed.
#[export] Instance link_stable : WireStable shared_link_claim.
Proof. by constructor. Qed.
#[export] Instance gateway_stable : WireStable gateway_claim.
Proof. by constructor. Qed.
#[export] Instance contribution_stable : WireStable capacity_contribution.
Proof. by constructor. Qed.
#[export] Instance failure_domain_stable : WireStable failure_domain_claim.
Proof. by constructor. Qed.
#[export] Instance zone_stable : WireStable maintenance_zone.
Proof. by constructor. Qed.
#[export] Instance obligation_stable : WireStable protected_obligation.
Proof. by constructor. Qed.

Lemma write_list_on_wire {A} `{WireStable A} (l : list A) :
  w_list write_claim (on_wire <$> l) = w_list write_claim l.
Proof.
  unfold w_list, zlen. rewrite length_fmap. f_equal.
  induction l as [|c l IH]; [done|]. rewrite fmap_cons, !bind_cons, IH. by rewrite write_on_wire.
Qed.

Lemma write_content_on_wire d :
  write_declaration_content (decl_content_on_wire d) = write_declaration_content d.
Proof.
  unfold write_declaration_content. cbn [decl_content_on_wire decl_domain decl_site decl_generation
    decl_schema decl_observed_epoch decl_clusters decl_pods decl_racks decl_shared_links
    decl_gateways decl_capacity decl_failure_domains decl_maintenance_zones decl_obligations
    decl_evidence]. by rewrite !write_list_on_wire.
Qed.

(** The declaration [read_declaration] returns: its digest is recomputed. *)
Definition decl_on_wire (d : declaration) : declaration :=
  set_digest (compute_digest d) (decl_content_on_wire d).

Lemma decodes_declaration d :
  decl_ok d → decodes read_declaration (write_declaration_content d) (decl_on_wire d).
Proof.
  intros (? & ? & ? & ? & ? & ? & Hc & Hp & Hr & Hl & Hg & Hk & Hf & Hz & Ho).
  unfold read_declaration, write_declaration_content.
  do 6 (eapply decodes_bind; [solve [field]|]).
  eapply decodes_bind; [by eapply (decodes_list_map _ _ _ _ _ _ Hc); [|apply decodes_cluster]|].
  eapply decodes_bind; [by eapply (decodes_list_map _ _ _ _ _ _ Hp); [|apply decodes_pod]|].
  eapply decodes_bind; [by eapply (decodes_list_map _ _ _ _ _ _ Hr); [|apply decodes_rack]|].
  eapply decodes_bind; [by eapply (decodes_list_map _ _ _ _ _ _ Hl); [|apply decodes_link]|].
  eapply decodes_bind; [by eapply (decodes_list_map _ _ _ _ _ _ Hg); [|apply decodes_gateway]|].
  eapply decodes_bind; [by eapply (decodes_list_map _ _ _ _ _ _ Hk); [|apply decodes_contribution]|].
  eapply decodes_bind; [by eapply (decodes_list_map _ _ _ _ _ _ Hf); [|apply decodes_failure_domain]|].
  eapply decodes_bind; [by eapply (decodes_list_map _ _ _ _ _ _ Hz); [|apply decodes_zone]|].
  eapply decodes_last; [by eapply (decodes_list_map _ _ _ _ _ _ Ho); [|apply decodes_obligation]|].
  cbn zeta. fold (decl_content_on_wire d). unfold decl_on_wire, compute_digest at 1,
    declaration_content_digest. rewrite write_content_on_wire. done.
Qed.

(** C17: a declaration survives the wire: reading back the bytes written for any
    encodable declaration returns it with a freshly computed digest (only the record digests
    of claims and the sources of evidence, which the format does not carry, are reset), the
    digest is that of the original content, and every strict prefix is refused as TRUNCATED. *)
Theorem declaration_codec (d : declaration) :
  decl_ok d →
  (∀ rest, read_declaration (write_declaration_content d ++ rest) = Ok (decl_on_wire d, rest))
  ∧ decl_digest (decl_on_wire d) = compute_digest d
  ∧ compute_digest (decl_on_wire d) = compute_digest d
  ∧ (∀ p q, write_declaration_content d = p ++ q → q ≠ [] →
       read_declaration p = Err Status.TRUNCATED).
Proof.
  intros Hd. destruct (decodes_declaration d Hd) as [Hr Ht]. split_and!; [done|done| |done].
  unfold compute_digest, declaration_content_digest.
  by rewrite <- (write_content_on_wire d).
Qed.

(** ** Records *)

Definition publication_ok (r : publication_record) : Prop :=
  domain_ok (pub_domain r) ∧ in_u 64 (pub_generation r) ∧ digest_wf (pub_digest r)
  ∧ schema_wf (pub_schema r) ∧ id_ok (pub_site r) ∧ in_u 64 (pub_observed_epoch r)
  ∧ incarnation_wf (pub_incarnation r) ∧ id_ok (pub_publisher r)
  ∧ in_u 64 (pa_sequence (pub_attempt r)) ∧ in_u 32 (pa_attempt (pub_attempt r))
  ∧ in_i64 (pub_received_at_ms r) ∧ in_u 64 (pub_acceptance_sequence r)
  ∧ (pub_has_declaration r = true → decl_ok (pub_declaration r)).

Definition publication_on_wire (r : publication_record) : publication_record :=
  MemberPublicationRecord (pub_domain r) (pub_generation r) (pub_digest r) (pub_schema r)
    (pub_site r) (pub_observed_epoch r) (pub_incarnation r) (pub_publisher r) (pub_attempt r)
    (pub_received_at_ms r) (pub_acceptance_sequence r) (pub_has_declaration r)
    (if pub_has_declaration r then set_digest (pub_digest r) (decl_content_on_wire (pub_declaration r))
     else no_declaration).

Lemma decodes_publication r :
  publication_ok r → decodes read_publication_record (write_publication r) (publication_on_wire r).
Proof.
  intros (? & ? & ? & ? & ? & ? & ? & ? & ? & ? & ? & ? & Hd).
  unfold read_publication_record, write_publication.
  do 13 (eapply decodes_bind; [solve [field]|]). cbn zeta. unfold publication_on_wire.
  destruct r as [dom gen dig sch site ep inc pubr [sq at_] rec acc has d].
  cbn [pub_has_declaration pub_declaration] in *. destruct has; [|apply decodes_ret].
  eapply decodes_last; [by apply decodes_declaration, Hd|]. done.
Qed.

Definition retirement_ok (r : retirement_record) : Prop :=
  domain_ok (ret_domain r) ∧ in_u 64 (ret_generation r) ∧ incarnation_wf (ret_incarnation r)
  ∧ in_i64 (ret_received_at_ms r) ∧ in_u 64 (ret_acceptance_sequence r)
  ∧ text_fits kMaxTextBytes (ret_reason r).

Lemma decodes_retirement r :
  retirement_ok r → decodes read_retirement_record (write_retirement_record r) r.
Proof.
  intros (? & ? & ? & ? & ? & ?). unfold read_retirement_record, write_retirement_record.
  do 5 (eapply decodes_bind; [solve [field]|]).
  eapply decodes_last; [by apply decodes_text|]. by destruct r.
Qed.

Definition expected_ok (m : expected_member) : Prop :=
  domain_ok (em_domain m) ∧ in_u 64 (em_generation m) ∧ digest_wf (em_digest m).
Definition expectation_ok (e : site_expectation) : Prop :=
  id_ok (se_site e) ∧ schema_wf (se_schema e) ∧ in_u 64 (se_minimum_epoch e)
  ∧ list_ok kMaxExpectedMembers expected_ok (se_members e).

Lemma decodes_expected m : expected_ok m → decodes read_expected_member (write_expected_member m) m.
Proof.
  destruct m as [dom pin gen dig req]. intros (? & ? & ?).
  unfold read_expected_member, write_expected_member.
  cbn [em_domain em_pinned em_generation em_digest em_required] in *. record_codec.
Qed.

Lemma decodes_expectation e : expectation_ok e → decodes read_expectation (write_expectation e) e.
Proof.
  destruct e as [site sch ep ms rej]. intros (? & ? & ? & Hm).
  unfold read_expectation, write_expectation.
  cbn [se_site se_schema se_minimum_epoch se_members se_reject_unexpected] in *.
  do 4 (eapply decodes_bind; [solve [field]|]).
  eapply decodes_last; [by eapply (decodes_list_id _ _ _ _ _ Hm); [|apply decodes_expected]|done].
Qed.

(** The durable records round-trip: publication and retirement records and
    expectations are read back exactly, wherever they stand in the stream; a publication
    record keeps the digest it was accepted under, also on its declaration. *)
Theorem record_codecs (p : publication_record) (r : retirement_record) (e : site_expectation)
    (rest : bytes) :
  (publication_ok p →
     read_publication_record (write_publication p ++ rest) = Ok (publication_on_wire p, rest))
  ∧ (retirement_ok r → read_retirement_record (write_retirement_record r ++ rest) = Ok (r, rest))
  ∧ (expectation_ok e → read_expectation (write_expectation e ++ rest) = Ok (e, rest)).
Proof.
  split_and!; intros H;
    [by apply (decodes_publication p H) | by apply (decodes_retirement r H)
    | by apply (decodes_expectation e H)].
Qed.

(** * Concrete values *)

Module Sample.

Definition observed : evidence := evidence_measured 1000 60000.
Definition rack (id : string) (bps : Z) : rack_claim :=
  RackClaim id 1 zero_digest (CapacityVector cv_unknown cv_unknown (known_bps bps))
    ConnectivityState.UP observed.
Definition gateway (id : string) (bps : Z) (s : connectivity_state) : gateway_claim :=
  GatewayClaim id 1 zero_digest (uniform bps) s observed.
Definition contribution (kind : resource_kind) (id : string) (scope : capacity_scope) (bps : Z)
    : capacity_contribution :=
  CapacityContribution (ResourceKey kind id) scope 1 zero_digest (uniform bps) observed.
Definition domain (kind : member_domain_kind) (id : string) : member_domain_key :=
  MemberDomainKey kind id.

(** A rack with one pool and one protected obligation. *)
Definition declaration : declaration :=
  MemberDomainDeclaration (domain MemberDomainKind.RACK "rack-1") "site-a" 1 supported_schema
    zero_digest 1 [] [PodClaim "pod-1" 1 zero_digest ["rack-1"] observed] [rack "rack-1" 400] []
    [gateway "gw-1" 100 ConnectivityState.UP]
    [contribution ResourceKind.RACK "rack-1" CapacityScope.RACK_LOCAL 400]
    [FailureDomainClaim "fd-1" FailureDomainClass.PHYSICAL None
       [ResourceKey ResourceKind.RACK "rack-1"] 1 zero_digest observed]
    [MaintenanceZone "zone-1" MaintenanceState.SCHEDULED 0 0 ["fd-1"] [] 1 zero_digest observed]
    [ProtectedObligation "ob-1" ObligationKind.MIN_INTERNAL_CAPACITY None None 100 true 1
       zero_digest observed] observed.

Definition retirement : retirement_record :=
  MemberRetirementRecord (domain MemberDomainKind.RACK "rack-1") 1 (Incarnation 1 "boot-1") 5 1 "done".

End Sample.

(** Closed side conditions of the samples. *)
Ltac sample_ok :=
  repeat match goal with
  | |- _ ∧ _ => split
  | |- Forall _ _ => constructor
  | |- list_ok _ _ _ => split
  | |- opt_ok _ _ => simpl
  | |- domain_ok _ => right
  | |- resource_ok _ => right
  | |- capacity_ok _ => split
  | |- value_ok _ => split
  | |- cv_wf _ => split
  | |- evidence_ok _ => split
  | |- decl_ok _ => split
  | |- rack_ok _ => split
  | |- pod_ok _ => split
  | |- gateway_ok _ => split
  | |- contribution_ok _ => split
  | |- failure_domain_ok _ => split
  | |- zone_ok _ => split
  | |- obligation_ok _ => split
  | |- retirement_ok _ => split
  | |- schema_wf _ => split
  | |- incarnation_wf _ => split
  end; try (vm_compute; repeat split; congruence).

Lemma sample_declaration_ok : decl_ok Sample.declaration.
Proof. sample_ok. Qed.

Lemma declaration_codec_witness :
  read_declaration (write_declaration_content Sample.declaration ++ [x00])
  = Ok (decl_on_wire Sample.declaration, [x00]).
Proof. apply (declaration_codec Sample.declaration sample_declaration_ok). Defined.

Lemma record_codecs_witness :
  read_retirement_record (write_retirement_record Sample.retirement ++ [x00])
  = Ok (Sample.retirement, [x00]).
Proof.
  apply (record_codecs
    (MemberPublicationRecord no_domain 0 zero_digest supported_schema "" 0 (Incarnation 0 "") ""
       (PublishAttempt 0 0) 0 0 false no_declaration)
    Sample.retirement (SiteExpectation "" supported_schema 0 [] false) [x00]).
  sample_ok.
Defined.
