(* ===== verification/Canonicalize.v ===== *)
(** Structural validation and canonicalisation (src/compose/validate.cpp).

    A declaration is brought into one order before it is read: every claim is checked and
    its member lists put in canonical form, every claim list is sorted by identity and its
    exact duplicates collapsed, and two different records under one identity are refused.
    A step returns the status and the value as the call leaves it, also on an error. *)

From stdpp Require Import sorting.
From S2P Require Import Prelude Ordering Enums Sha256 Identity Canonical Evidence Capacity Claims.
From S2P Require Import Codec.

(** * Steps: a status and the state the call leaves behind *)

Definition step (S : Type) : Type := S → status * S.

(** [if (!is_ok(s)) return s;] between two statements. *)
Definition and_then {S} (f g : step S) : step S := λ s,
  let '(st, s') := f s in if is_ok st then g s' else (st, s').
Definition guard {S} (condition : S → bool) (st : status) : step S := λ s,
  if condition s then (Status.OK, s) else (st, s).

Infix ">>>" := and_then (at level 60, right associativity).

(** [for (auto& claim : claims)] with its early return. *)
Fixpoint each {A} (f : step A) (l : list A) : status * list A :=
  match l with
  | [] => (Status.OK, [])
  | x :: l' =>
      let '(st, y) := f x in
      if is_ok st then let '(st', l'') := each f l' in (st', y :: l'') else (st, y :: l')
  end.

(** * Checks shared by the claims *)

Definition require_bound (size bound : Z) : status :=
  if bound <? size then Status.LIMIT_EXCEEDED else Status.OK.

Definition record_digest_agrees (declared computed : digest) : bool :=
  digest_is_zero declared || bool_decide (declared = computed).
Definition check_record_digest (declared computed : digest) : status :=
  if record_digest_agrees declared computed then Status.OK
  else Status.DIGEST_MISMATCH_DECLARATION.

Definition validate_evidence (e : evidence) (require_payload : bool) : status :=
  if bool_decide (ev_provenance e = Provenance.UNKNOWN) then Status.EVIDENCE_MISSING
  else if ev_observed_at_ms e <=? 0 then Status.INVALID
  else if (ev_ttl_ms e =? 0) || (kMaxEvidenceTtlMs <? ev_ttl_ms e) then Status.INVALID
  else if require_payload && digest_is_zero (ev_payload_digest e) then Status.INVALID
  else Status.OK.

Definition value_in_bound (v : capacity_value) : bool :=
  negb (cv_known v && (kMaxCapacityBps <? cv_bps v)).
Definition valid_capacity (v : capacity_vector) : bool :=
  value_in_bound (ingress v) && value_in_bound (egress v) && value_in_bound (internal v).

Definition failure_domain_valid (c : failure_domain_claim) : bool :=
  is_valid_identifier (fd_id c) && valid_failure_domain_class (fd_domain_class c)
  && is_set (fd_generation c)
  && match fd_parent c with
     | Some p => is_valid_identifier p && negb (bool_decide (p = fd_id c))
     | None => true
     end
  && forallb rk_valid (fd_members c).

Definition zone_valid (c : maintenance_zone) : bool :=
  is_valid_identifier (zone_id c) && is_set (zone_generation c)
  && negb (zone_window_end_ms c <? zone_window_start_ms c)
  && forallb is_valid_identifier (zone_domains c) && forallb rk_valid (zone_resources c).

Definition window_contains (c : maintenance_zone) (now_ms : Z) : bool :=
  if (zone_window_start_ms c =? 0) && (zone_window_end_ms c =? 0) then true
  else (zone_window_start_ms c <=? now_ms) && (now_ms <=? zone_window_end_ms c).

Definition obligation_valid (c : protected_obligation) : bool :=
  is_valid_identifier (ob_id c) && valid_obligation_kind (ob_kind c) && is_set (ob_generation c)
  && match ob_scope_domain c with Some d => is_valid_identifier d | None => true end
  && match ob_scope_resource c with Some r => rk_valid r | None => true end
  && (ob_required c <=? (if obligation_is_count (ob_kind c) then kMaxCountValue else kMaxCapacityBps)).

(** * [canonicalize_list] *)

Section canonicalize_list.
Context {A : Type} (key_of : A → string) (digest_of : A → digest).

(** The loop over runs of equal keys: [first] opened the current run, [agreed] says whether
    the run so far has one content. [None] is the refusal. *)
Fixpoint collapse_run (first : A) (agreed : bool) (items : list A) : option (list A) :=
  match items with
  | [] => if agreed then Some [first] else None
  | y :: items' =>
      if bool_decide (key_of y = key_of first) then
        collapse_run first (agreed && bool_decide (digest_of y = digest_of first)) items'
      else if agreed then collapsed ← collapse_run y true items'; Some (first :: collapsed)
      else None
  end.
Definition collapse (items : list A) : option (list A) :=
  match items with [] => Some [] | x :: items' => collapse_run x true items' end.

Definition canonicalize_list (bound : Z) : step (list A) := λ items,
  let bounded := require_bound (zlen items) bound in
  if negb (is_ok bounded) then (bounded, items)
  else
    let sorted := sort_by key_of items in
    match collapse sorted with
    | Some collapsed => (Status.OK, collapsed)
    | None => (Status.CONFLICTING, sorted)
    end.
End canonicalize_list.

(** * The loop body of each claim list *)

Definition with_cluster_members (c : cluster_claim) : cluster_claim :=
  ClusterClaim (cluster_id c) (cluster_generation c) (cluster_record_digest c)
    (sort_unique (cluster_pods c)) (sort_unique (cluster_racks c)) (cluster_evidence c).
Definition cluster_step : step cluster_claim := λ c,
  if negb (is_valid_identifier (cluster_id c)) || negb (is_set (cluster_generation c))
  then (Status.MALFORMED, c)
  else
    let ev := validate_evidence (cluster_evidence c) false in
    if negb (is_ok ev) then (ev, c)
    else
      let c' := with_cluster_members c in
      (check_record_digest (cluster_record_digest c') (claim_digest c'), c').

Definition with_pod_members (c : pod_claim) : pod_claim :=
  PodClaim (pod_id c) (pod_generation c) (pod_record_digest c) (sort_unique (pod_racks c))
    (pod_evidence c).
Definition pod_step : step pod_claim := λ c,
  if negb (is_valid_identifier (pod_id c)) || negb (is_set (pod_generation c))
  then (Status.MALFORMED, c)
  else
    let ev := validate_evidence (pod_evidence c) false in
    if negb (is_ok ev) then (ev, c)
    else
      let c' := with_pod_members c in
      (check_record_digest (pod_record_digest c') (claim_digest c'), c').

(** Racks, links, gateways and contributions are read, never changed. *)
Definition capacity_step {A} `{Claim A} (valid : bool) (ev : evidence) (cap : capacity_vector)
    (declared : digest) (c : A) : status * A :=
  if negb valid then (Status.MALFORMED, c)
  else
    let st := validate_evidence ev false in
    if negb (is_ok st) then (st, c)
    else if negb (valid_capacity cap) then (Status.CAPACITY_OVERFLOW, c)
    else (check_record_digest declared (claim_digest c), c).

Definition rack_step : step rack_claim := λ c,
  capacity_step (is_valid_identifier (rack_id c) && is_set (rack_generation c)) (rack_evidence c)
    (rack_local_capacity c) (rack_record_digest c) c.
Definition link_step : step shared_link_claim := λ c,
  capacity_step (is_valid_identifier (link_id c) && is_set (link_generation c)) (link_evidence c)
    (link_capacity c) (link_record_digest c) c.
Definition gateway_step : step gateway_claim := λ c,
  capacity_step (is_valid_identifier (gateway_id c) && is_set (gateway_generation c))
    (gateway_evidence c) (gateway_capacity c) (gateway_record_digest c) c.
Definition contribution_step : step capacity_contribution := λ c,
  capacity_step (rk_valid (contrib_owner c) && valid_capacity_scope (contrib_scope c)
                 && is_set (contrib_generation c))
    (contrib_evidence c) (contrib_capacity c) (contrib_record_digest c) c.

Definition with_domain_members (c : failure_domain_claim) : failure_domain_claim :=
  FailureDomainClaim (fd_id c) (fd_domain_class c) (fd_parent c) (sort_unique (fd_members c))
    (fd_generation c) (fd_record_digest c) (fd_evidence c).
Definition failure_domain_step : step failure_domain_claim := λ c,
  if negb (failure_domain_valid c) then (Status.MALFORMED, c)
  else
    let ev := validate_evidence (fd_evidence c) false in
    if negb (is_ok ev) then (ev, c)
    else
      let c' := with_domain_members c in
      if kMaxResourceMembers <? zlen (fd_members c') then (Status.LIMIT_EXCEEDED, c')
      else (check_record_digest (fd_record_digest c') (claim_digest c'), c').

Definition with_zone_members (c : maintenance_zone) : maintenance_zone :=
  MaintenanceZone (zone_id c) (zone_state c) (zone_window_start_ms c) (zone_window_end_ms c)
    (sort_unique (zone_domains c)) (sort_unique (zone_resources c)) (zone_generation c)
    (zone_record_digest c) (zone_evidence c).
Definition zone_step : step maintenance_zone := λ c,
  if negb (zone_valid c) then (Status.MALFORMED, c)
  else
    let ev := validate_evidence (zone_evidence c) false in
    if negb (is_ok ev) then (ev, c)
    else
      let c' := with_zone_members c in
      if (zlen (zone_domains c') =? 0) && (zlen (zone_resources c') =? 0) then (Status.INVALID, c')
      else (check_record_digest (zone_record_digest c') (claim_digest c'), c').

Definition obligation_step : step protected_obligation := λ c,
  if negb (obligation_valid c) then (Status.MALFORMED, c)
  else
    let ev := validate_evidence (ob_evidence c) false in
    if negb (is_ok ev) then (ev, c)
    else (check_record_digest (ob_record_digest c) (claim_digest c), c).

Definition contribution_key (c : capacity_contribution) : string :=
  (rk_to_string (contrib_owner c) +:+ "|" +:+ to_string (contrib_scope c))%string.

(** * [MemberDomainDeclaration::canonicalize] *)

(** The loop over the claims, then [canonicalize_list]. *)
Definition claim_list {A} `{Claim A} (f : step A) (key_of : A → string) (bound : Z)
    : step (list A) :=
  each f >>> canonicalize_list key_of claim_digest bound.

Definition set_lists (d : declaration) cs ps rs ls gs ks fs zs os : declaration :=
  MemberDomainDeclaration (decl_domain d) (decl_site d) (decl_generation d) (decl_schema d)
    (decl_digest d) (decl_observed_epoch d) cs ps rs ls gs ks fs zs os (decl_evidence d).

(** One list of the declaration, the others as they are. *)
Definition on_list {A} (get : declaration → list A) (set : declaration → list A → declaration)
    (f : step (list A)) : step declaration := λ d,
  let '(st, l) := f (get d) in (st, set d l).

Definition on_clusters :=
  on_list decl_clusters (λ d l, set_lists d l (decl_pods d) (decl_racks d) (decl_shared_links d)
    (decl_gateways d) (decl_capacity d) (decl_failure_domains d) (decl_maintenance_zones d)
    (decl_obligations d)).
Definition on_pods :=
  on_list decl_pods (λ d l, set_lists d (decl_clusters d) l (decl_racks d) (decl_shared_links d)
    (decl_gateways d) (decl_capacity d) (decl_failure_domains d) (decl_maintenance_zones d)
    (decl_obligations d)).
Definition on_racks :=
  on_list decl_racks (λ d l, set_lists d (decl_clusters d) (decl_pods d) l (decl_shared_links d)
    (decl_gateways d) (decl_capacity d) (decl_failure_domains d) (decl_maintenance_zones d)
    (decl_obligations d)).
Definition on_links :=
  on_list decl_shared_links (λ d l, set_lists d (decl_clusters d) (decl_pods d) (decl_racks d) l
    (decl_gateways d) (decl_capacity d) (decl_failure_domains d) (decl_maintenance_zones d)
    (decl_obligations d)).
Definition on_gateways :=
  on_list decl_gateways (λ d l, set_lists d (decl_clusters d) (decl_pods d) (decl_racks d)
    (decl_shared_links d) l (decl_capacity d) (decl_failure_domains d) (decl_maintenance_zones d)
    (decl_obligations d)).
Definition on_capacity :=
  on_list decl_capacity (λ d l, set_lists d (decl_clusters d) (decl_pods d) (decl_racks d)
    (decl_shared_links d) (decl_gateways d) l (decl_failure_domains d) (decl_maintenance_zones d)
    (decl_obligations d)).
Definition on_failure_domains :=
  on_list decl_failure_domains (λ d l, set_lists d (decl_clusters d) (decl_pods d) (decl_racks
    d) (decl_shared_links d) (decl_gateways d) (decl_capacity d) l (decl_maintenance_zones d)
    (decl_obligations d)).
Definition on_zones :=
  on_list decl_maintenance_zones (λ d l, set_lists d (decl_clusters d) (decl_pods d) (decl_racks
    d) (decl_shared_links d) (decl_gateways d) (decl_capacity d) (decl_failure_domains d) l
    (decl_obligations d)).
Definition on_obligations :=
  on_list decl_obligations (λ d l, set_lists d (decl_clusters d) (decl_pods d) (decl_racks d)
    (decl_shared_links d) (decl_gateways d) (decl_capacity d) (decl_failure_domains d)
    (decl_maintenance_zones d) l).

(** The checks before the first list: the header fields, then the number of claims. *)
Definition check_header (d : declaration) : status :=
  if negb (mdk_valid (decl_domain d)) then Status.INVALID
  else if negb (is_valid_identifier (decl_site d)) then Status.INVALID
  else if negb (is_set (decl_generation d)) then Status.INVALID
  else if negb (compatible_with (decl_schema d) supported_schema) then Status.SCHEMA_INCOMPATIBLE
  else validate_evidence (decl_evidence d) false.
Definition check_envelope (d : declaration) : status :=
  let header := check_header d in
  if negb (is_ok header) then header else require_bound (resource_claim_count d) kMaxClaimLists.

Definition canon_clusters := claim_list cluster_step cluster_id kMaxClaimLists.
Definition canon_pods := claim_list pod_step pod_id kMaxClaimLists.
Definition canon_racks := claim_list rack_step rack_id kMaxClaimLists.
Definition canon_links := claim_list link_step link_id kMaxClaimLists.
Definition canon_gateways := claim_list gateway_step gateway_id kMaxClaimLists.
Definition canon_capacity :=
  claim_list contribution_step contribution_key kMaxCapacityContributions.
Definition canon_failure_domains :=
  claim_list failure_domain_step fd_id kMaxFailureDomainsPerDeclaration.
Definition canon_zones := claim_list zone_step zone_id kMaxMaintenanceZonesPerDeclaration.
Definition canon_obligations := claim_list obligation_step ob_id kMaxObligationsPerDeclaration.

Definition canonicalize : step declaration :=
  (λ d, (check_envelope d, d))
  >>> on_clusters canon_clusters >>> on_pods canon_pods >>> on_racks canon_racks
  >>> on_links canon_links >>> on_gateways canon_gateways >>> on_capacity canon_capacity
  >>> on_failure_domains canon_failure_domains >>> on_zones canon_zones
  >>> on_obligations canon_obligations.

(** [seal] and [validate]. *)
Definition seal : step declaration := λ d,
  let '(st, d') := canonicalize d in
  if is_ok st then (Status.OK, set_digest (compute_digest d') d') else (st, d').
Definition validate (d : declaration) : status := (canonicalize d).1.

(** * [SiteExpectation] *)

Definition expectation_set_members (e : site_expectation) (ms : list expected_member)
    : site_expectation :=
  SiteExpectation (se_site e) (se_schema e) (se_minimum_epoch e) ms (se_reject_unexpected e).

(** Two neighbours of the sorted list with one domain. *)
Fixpoint adjacent_duplicate (members : list expected_member) : bool :=
  match members with
  | m :: (m' :: _) as rest =>
      bool_decide (em_domain m = em_domain m') || adjacent_duplicate rest
  | _ => false
  end.

(** The loop that validates the members, with its early returns. *)
Fixpoint check_members (members : list expected_member) : status :=
  match members with
  | [] => Status.OK
  | m :: rest =>
      if negb (mdk_valid (em_domain m)) then Status.MALFORMED
      else if em_pinned m && (negb (is_set (em_generation m)) || digest_is_zero (em_digest m))
      then Status.INVALID
      else check_members rest
  end.

Definition expectation_canonicalize : step site_expectation := λ e,
  if negb (is_valid_identifier (se_site e)) then (Status.INVALID, e)
  else if negb (compatible_with (se_schema e) supported_schema)
  then (Status.SCHEMA_INCOMPATIBLE, e)
  else if kMaxExpectedMembers <? zlen (se_members e) then (Status.LIMIT_EXCEEDED, e)
  else
    let sorted := sort_by em_domain (se_members e) in
    let e' := expectation_set_members e sorted in
    if adjacent_duplicate sorted then (Status.CONFLICTING, e')
    else (check_members sorted, e').

Definition expectation_find (e : site_expectation) (k : member_domain_key) : option expected_member :=
  List.find (λ m, bool_decide (em_domain m = k)) (se_members e).
Definition required_count (e : site_expectation) : Z := zlen (List.filter em_required (se_members e)).
Definition pinned_count (e : site_expectation) : Z := zlen (List.filter em_pinned (se_members e)).

(** * Reasoning about steps *)

(** [f] accepts [x] and leaves [y]. *)
Definition accepts {S} (f : step S) (x y : S) : Prop := ∃ st, f x = (st, y) ∧ is_ok st = true.

Lemma accepts_and_then {S} (f g : step S) x z :
  accepts (f >>> g) x z ↔ ∃ y, accepts f x y ∧ accepts g y z.
Proof.
  unfold accepts, and_then. destruct (f x) as [st y] eqn:Hf. split.
  - intros (st' & Heq & Hok). destruct (is_ok st) eqn:Hst; [by eauto 10|].
    injection Heq as -> ->. congruence.
  - intros (y' & (s & [= <- <-] & Hs) & Hg). by rewrite Hs.
Qed.

Lemma accepts_each {A} (f : step A) l l' : accepts (each f) l l' ↔ Forall2 (accepts f) l l'.
Proof.
  split.
  - intros (st & Heq & Hok). revert st l' Heq Hok. induction l as [|x l IH]; simpl; intros st l' Heq Hok.
    { injection Heq as <- <-. constructor. }
    destruct (f x) as [s y] eqn:Hf. destruct (is_ok s) eqn:Hs.
    + destruct (each f l) as [s' l''] eqn:He. injection Heq as <- <-.
      constructor; [by exists s | by eapply IH].
    + injection Heq as <- <-. congruence.
  - induction 1 as [|x y l l' (s & Hf & Hs) _ (st & He & Hok)]; [by exists Status.OK|].
    exists st. simpl. by rewrite Hf, Hs, He.
Qed.

(** [and_then] is associative, so a pipeline of checks can be cut anywhere. *)
Lemma and_then_assoc {S} (f g h : step S) x : ((f >>> g) >>> h) x = (f >>> g >>> h) x.
Proof.
  unfold and_then. destruct (f x) as [st y]. destruct (is_ok st) eqn:E; [done|]. by rewrite E.
Qed.

(** * [canonicalize_list] on sorted claims *)

Section collapse.
Context {A : Type} (key_of : A → string) (digest_of : A → digest).
Local Abbreviation run := (collapse_run key_of digest_of).

(** What a successful collapse returns. *)
Definition collapsed_of (l c : list A) : Prop :=
  StronglySorted (key_lt key_of) c ∧ (∀ y, y ∈ c → y ∈ l)
  ∧ (∀ x, x ∈ l → ∃ y, y ∈ c ∧ key_of y = key_of x ∧ digest_of y = digest_of x).

Lemma collapse_run_spec items first agreed c :
  StronglySorted (key_le key_of) (first :: items) → run first agreed items = Some c →
  agreed = true ∧ (∃ c', c = first :: c') ∧ collapsed_of (first :: items) c.
Proof.
  revert first agreed c. induction items as [|y items IH]; intros first agreed c Hs; simpl.
  - destruct agreed; [|done]. intros [= <-]. split_and!; [done|by eexists|].
    split_and!; [by repeat constructor | done | by eauto].
  - apply StronglySorted_inv in Hs as [Hs Hf]. apply Forall_cons in Hf as [Hy Hf].
    apply StronglySorted_inv in Hs as [Hs Hfy]. case_bool_decide as Hk.
    + intros Hc. apply IH in Hc as (Hag & (c' & ->) & Hso & Hin & Hrep); [|by constructor].
      apply andb_true_iff in Hag as [-> Hd]. apply bool_decide_eq_true in Hd.
      split_and!; [done|by eexists|]. split_and!; [done| |].
      * intros z Hz. apply Hin in Hz. rewrite !elem_of_cons in *. naive_solver.
      * intros z. rewrite !elem_of_cons. intros [->|[->|Hz]].
        -- apply Hrep. left.
        -- exists first. split_and!; [left|done|done].
        -- apply Hrep. by right.
    + destruct agreed; [|done]. destruct (run y true items) as [c'|] eqn:Hc; [|done]. intros [= <-].
      apply IH in Hc as (_ & (c'' & ->) & Hso & Hin & Hrep); [|by constructor].
      assert (lt_key (key_of first) (key_of y)) as Hlt
        by (unfold key_le in Hy; apply le_cases in Hy as [?|?]; [done|congruence]).
      split_and!; [done|by eexists|]. split_and!.
      * constructor; [done|]. apply StronglySorted_inv in Hso as [_ Hso].
        constructor; [done|]. eapply Forall_impl; [done|]. intros z Hz. exact (cmp_trans _ _ _ Hlt Hz).
      * intros z. rewrite !(elem_of_cons _ z first). intros [->|Hz]; [by left|]. right. by apply Hin.
      * intros z. rewrite elem_of_cons. intros [->|Hz].
        -- exists first. split_and!; [left|done|done].
        -- destruct (Hrep z Hz) as (w & ? & ? & ?). exists w. split_and!; [by right|done|done].
Qed.

Lemma collapse_spec l c :
  StronglySorted (key_le key_of) l → collapse key_of digest_of l = Some c → collapsed_of l c.
Proof.
  destruct l as [|x l]; simpl; [|by intros ? (_ & _ & ?)%collapse_run_spec].
  intros _ [= <-]. split_and!; [constructor|done|]. intros x. by rewrite elem_of_nil.
Qed.

(** One content per identity. *)
Definition agreeing (l : list A) : Prop :=
  ∀ a b, a ∈ l → b ∈ l → key_of a = key_of b → digest_of a = digest_of b.

Lemma collapse_run_total items first :
  agreeing (first :: items) → is_Some (run first true items).
Proof.
  revert first. induction items as [|y items IH]; intros first Hag; simpl; [done|].
  case_bool_decide as Hk.
  - rewrite (bool_decide_eq_true_2 (digest_of y = digest_of first))
      by (apply Hag; [right; left|left|done]). simpl. apply IH.
    intros a b Ha Hb. apply Hag; rewrite !elem_of_cons in *; naive_solver.
  - destruct (IH y) as [c ->]; [|by eexists].
    intros a b Ha Hb. apply Hag; by right.
Qed.

Lemma collapse_total l : agreeing l → is_Some (collapse key_of digest_of l).
Proof. destruct l; [by eexists|]. apply collapse_run_total. Qed.

Lemma collapsed_agreeing l c : collapsed_of l c → agreeing l.
Proof.
  intros (Hs & Hin & Hrep) a b Ha Hb Hk.
  destruct (Hrep a Ha) as (y & Hy & Hka & Hda), (Hrep b Hb) as (z & Hz & Hkb & Hdb).
  rewrite <- Hda, <- Hdb. f_equal. assert (key_of y = key_of z) as Heq by congruence.
  clear -Hs Hy Hz Heq. induction Hs as [|w c Hs IH Hf]; [by apply elem_of_nil in Hy|].
  rewrite Forall_forall in Hf. rewrite elem_of_cons in Hy, Hz.
  destruct Hy as [->|Hy], Hz as [->|Hz]; [done| | |auto].
  - destruct (lt_irrefl (key_of w)). rewrite Heq at 2. by apply Hf.
  - destruct (lt_irrefl (key_of w)). rewrite <- Heq at 2. by apply Hf.
Qed.

(** A list already collapsed is returned as it is. *)
Lemma collapse_strict l : StronglySorted (key_lt key_of) l → collapse key_of digest_of l = Some l.
Proof.
  destruct 1 as [|x l Hs Hf]; simpl; [done|]. revert x Hf.
  induction Hs as [|y l Hs IH Hfy]; intros x Hf; simpl; [done|].
  apply Forall_cons in Hf as [Hxy Hf]. rewrite bool_decide_eq_false_2.
  - by rewrite IH.
  - intros Heq. apply (lt_irrefl (key_of x)). unfold key_lt in Hxy. by rewrite Heq in Hxy.
Qed.

Lemma key_lt_sorted_le l : StronglySorted (key_lt key_of) l → StronglySorted (key_le key_of) l.
Proof.
  induction 1 as [|x l Hs IH Hf]; constructor; [done|].
  eapply Forall_impl; [done|]. intros y. apply lt_le.
Qed.

Lemma canonicalize_list_accepts bound l c :
  accepts (canonicalize_list key_of digest_of bound) l c ↔
    zlen l ≤ bound ∧ collapse key_of digest_of (sort_by key_of l) = Some c.
Proof.
  unfold accepts, canonicalize_list, require_bound.
  destruct (Z.ltb_spec bound (zlen l)); simpl.
  - split; [|lia]. intros (st & Heq & Hok). by injection Heq as <- <-.
  - destruct (collapse _ _ _) as [c'|]; split.
    + intros (st & Heq & _). by injection Heq as <- <-.
    + intros [_ Heq]. injection Heq as ->. by exists Status.OK.
    + intros (st & Heq & Hok). by injection Heq as <- <-.
    + by intros [_ ?].
Qed.
End collapse.

(** * One claim list *)

Section claim_list.
Context {A : Type} `{Claim A} (f : step A) (key_of : A → string) (bound : Z).

(** A claim the loop body accepts is left in a form it accepts unchanged. *)
Definition stable : Prop := ∀ x y, accepts f x y → accepts f y y ∧ key_of y = key_of x.

Definition canonical_list (l : list A) : Prop :=
  Forall (λ c, accepts f c c) l ∧ StronglySorted (key_lt key_of) l ∧ zlen l ≤ bound.

Context (Hstable : stable).

Lemma claim_list_accepts l l' :
  accepts (claim_list f key_of bound) l l' ↔
    ∃ l1, Forall2 (accepts f) l l1 ∧ zlen l1 ≤ bound
          ∧ collapse key_of claim_digest (sort_by key_of l1) = Some l'.
Proof using Type.
  unfold claim_list. rewrite accepts_and_then.
  split; intros (l1 & Hl1 & Hc); exists l1; rewrite accepts_each, canonicalize_list_accepts in *; naive_solver.
Qed.

Lemma claim_list_canonical l l' :
  accepts (claim_list f key_of bound) l l' → canonical_list l' ∧ zlen l' ≤ zlen l.
Proof using Hstable.
  rewrite claim_list_accepts. intros (l1 & Hall & Hb & Hc).
  apply collapse_spec in Hc as (Hs & Hin & _); [|apply sort_by_sorted].
  assert (Forall (λ c, accepts f c c) l1) as Hfix.
  { clear -Hall Hstable. induction Hall; constructor; [by eapply Hstable|done]. }
  assert (zlen l' ≤ zlen l1) as Hlen.
  { unfold zlen. apply inj_le. apply submseteq_length, NoDup_submseteq.
    - clear -Hs. induction Hs as [|x c Hs IH Hf]; constructor; [|done].
      intros Hx. rewrite Forall_forall in Hf. by apply (lt_irrefl (key_of x)), Hf.
    - intros y Hy. rewrite <- (sort_by_elem key_of). by apply Hin. }
  unfold canonical_list. apply Forall2_length in Hall.
  split_and!; [|done|lia|unfold zlen in *; lia].
  apply Forall_forall. intros y Hy. rewrite Forall_forall in Hfix.
  apply Hfix. rewrite <- (sort_by_elem key_of). by apply Hin.
Qed.

Lemma claim_list_fixed l : canonical_list l → accepts (claim_list f key_of bound) l l.
Proof using Type.
  intros (Hall & Hs & Hb). apply claim_list_accepts. exists l. split_and!; [|done|].
  - induction Hall; constructor; [done|]. apply IHHall; [|unfold zlen in *; simpl in *; lia].
    by apply StronglySorted_inv in Hs as [? _].
  - rewrite sort_by_id by (by apply key_lt_sorted_le). by apply collapse_strict.
Qed.

(** ** Arrival order *)

(** The claims a digest covers do not collide: equal digests, equal bytes. *)
Definition no_collision (l : list A) : Prop :=
  ∀ a b, a ∈ l → b ∈ l → claim_digest a = claim_digest b → write_claim a = write_claim b.

Lemma strict_same_bytes l1 c1 c2 :
  no_collision l1 → (∀ a, a ∈ c1 → a ∈ l1) → (∀ a, a ∈ c2 → a ∈ l1) →
  agreeing key_of claim_digest l1 →
  StronglySorted (key_lt key_of) c1 → StronglySorted (key_lt key_of) c2 →
  (∀ k, k ∈ key_of <$> c1 ↔ k ∈ key_of <$> c2) → write_claim <$> c1 = write_claim <$> c2.
Proof using Type.
  intros Hnc H1 H2 Hag Hs1 Hs2 Hk.
  assert (key_of <$> c1 = key_of <$> c2) as Heq.
  { apply lt_sorted_ext; [..|done]; [clear -Hs1|clear -Hs2];
      [induction Hs1 as [|x c Hs IH Hf]|induction Hs2 as [|x c Hs IH Hf]]; simpl; constructor;
      [done|by apply Forall_fmap|done|by apply Forall_fmap]. }
  clear Hk Hs1 Hs2. revert c2 H2 Heq. induction c1 as [|a c1 IH]; intros [|b c2] H2 Heq; try done.
  simpl in *. injection Heq as Hab Heq. f_equal.
  - apply Hnc; [apply H1; left|apply H2; left|].
    apply Hag; [apply H1; left|apply H2; left|done].
  - apply IH; [intros; apply H1; by right|intros; apply H2; by right|done].
Qed.

(** The claims as the loop leaves them. *)
Definition processed (l : list A) : list A := (λ c, (f c).2) <$> l.

Lemma processed_accepts l l1 : Forall2 (accepts f) l l1 → l1 = processed l.
Proof using Type.
  induction 1 as [|x y l l1 (st & Hf & _) _ IH]; [done|]. simpl. by rewrite Hf, <- IH.
Qed.

Lemma accepts_processed l l' :
  Forall2 (accepts f) l (processed l) → l ≡ₚ l' → Forall2 (accepts f) l' (processed l').
Proof using Type.
  intros Hall Hp. unfold processed in *. rewrite Forall2_fmap_r, Forall2_same_length_lookup in *.
  destruct Hall as [_ Hall]. split; [done|]. intros i x y Hx Hy.
  assert (x = y) as -> by congruence. apply list_elem_of_lookup_2 in Hy. rewrite <- Hp in Hy.
  apply list_elem_of_lookup in Hy as [j Hj]. by eapply Hall.
Qed.

Lemma claim_list_reordered l1 l2 c1 :
  l1 ≡ₚ l2 → no_collision (processed l1) → accepts (claim_list f key_of bound) l1 c1 →
  ∃ c2, accepts (claim_list f key_of bound) l2 c2 ∧ write_claim <$> c1 = write_claim <$> c2.
Proof using Type.
  intros Hp Hnc. rewrite claim_list_accepts. intros (m1 & Hm1 & Hb & Hc).
  pose proof (processed_accepts _ _ Hm1) as ->.
  assert (processed l1 ≡ₚ processed l2) as Hpp by (by apply fmap_Permutation).
  apply collapse_spec in Hc as Hspec1; [|apply sort_by_sorted].
  assert (agreeing key_of claim_digest (processed l1)) as Hag.
  { apply collapsed_agreeing in Hspec1. intros a b Ha Hb'.
    apply Hspec1; by apply sort_by_elem. }
  destruct (collapse_total key_of claim_digest (sort_by key_of (processed l2))) as [c2 Hc2].
  { intros a b Ha Hb'. rewrite sort_by_elem in Ha, Hb'. by apply Hag; rewrite Hpp. }
  exists c2. split.
  - apply claim_list_accepts. exists (processed l2). split_and!; [by eapply accepts_processed| |done].
    unfold zlen in *. by rewrite <- Hpp.
  - apply collapse_spec in Hc2 as (Hs2 & Hin2 & Hrep2); [|apply sort_by_sorted].
    destruct Hspec1 as (Hs1 & Hin1 & Hrep1).
    apply (strict_same_bytes (processed l1)); try done.
    + intros a Ha. rewrite <- (sort_by_elem key_of). by apply Hin1.
    + intros a Ha. rewrite Hpp, <- (sort_by_elem key_of). by apply Hin2.
    + intros k. rewrite !list_elem_of_fmap. split; intros (a & -> & Ha).
      * destruct (Hrep2 a) as (y & ? & ? & _); [|by exists y].
        apply sort_by_elem. rewrite <- Hpp, <- (sort_by_elem key_of). by apply Hin1.
      * destruct (Hrep1 a) as (y & ? & ? & _); [|by exists y].
        apply sort_by_elem. rewrite Hpp, <- (sort_by_elem key_of). by apply Hin2.
Qed.
End claim_list.

(** * The nine loop bodies are stable *)

Lemma sort_unique_fixed {A} `{Ord A, EqDecision A} (l : list A) :
  sort_unique (sort_unique l) = sort_unique l.
Proof. apply sort_unique_idemp. Qed.

(** Opens an accepted loop body: every check on the way passed. *)
Ltac open_step :=
  intros x y (st & Heq & Hok); unfold accepts; cbv beta zeta in Heq |- *;
  repeat (match type of Heq with (if ?b then _ else _) = _ => destruct b eqn:? end;
          [injection Heq as <- <-; first [done | by rewrite Hok in *]|]);
  injection Heq as <- <-.

Lemma cluster_stable_step : stable cluster_step cluster_id.
Proof.
  unfold cluster_step. open_step. split; [|done]. exists (check_record_digest (cluster_record_digest x)
    (claim_digest (with_cluster_members x))). split; [|done].
  cbn [with_cluster_members cluster_id cluster_generation cluster_evidence].
  rewrite Heqb, Heqb0. f_equal; unfold with_cluster_members; simpl; by rewrite !sort_unique_fixed.
Qed.

Lemma pod_stable_step : stable pod_step pod_id.
Proof.
  unfold pod_step. open_step. split; [|done]. exists (check_record_digest (pod_record_digest x)
    (claim_digest (with_pod_members x))). split; [|done].
  cbn [with_pod_members pod_id pod_generation pod_evidence].
  rewrite Heqb, Heqb0. f_equal; unfold with_pod_members; simpl; by rewrite !sort_unique_fixed.
Qed.

Lemma capacity_stable_step {A} `{Claim A} (valid : A → bool) (ev : A → evidence)
    (cap : A → capacity_vector) (declared : A → digest) (key : A → string) :
  stable (λ c, capacity_step (valid c) (ev c) (cap c) (declared c) c) key.
Proof.
  intros x y (st & Heq & Hok). assert (x = y) as <-; [|split; [by exists st|done]].
  unfold capacity_step in Heq. cbv beta zeta in Heq.
  repeat (match type of Heq with (if ?b then _ else _) = _ => destruct b end;
          [by injection Heq|]). by injection Heq.
Qed.

Lemma forallb_sort_unique {A} `{Ord A, EqDecision A} (P : A → bool) l :
  forallb P (sort_unique l) = forallb P l.
Proof.
  apply eq_true_iff_eq. rewrite !forallb_forall.
  split; intros Hall x Hx; apply Hall; apply list_elem_of_In; apply list_elem_of_In in Hx;
    by apply sort_unique_elem.
Qed.

Lemma failure_domain_stable_step : stable failure_domain_step fd_id.
Proof.
  unfold failure_domain_step. open_step. split; [|done].
  exists (check_record_digest (fd_record_digest x) (claim_digest (with_domain_members x))).
  split; [|done].
  assert (failure_domain_valid (with_domain_members x) = failure_domain_valid x) as ->
    by (unfold failure_domain_valid; simpl; by rewrite forallb_sort_unique).
  assert (with_domain_members (with_domain_members x) = with_domain_members x) as ->
    by (unfold with_domain_members; simpl; by rewrite sort_unique_fixed).
  change (fd_evidence (with_domain_members x)) with (fd_evidence x).
  by rewrite Heqb, Heqb0, Heqb1.
Qed.

Lemma zone_stable_step : stable zone_step zone_id.
Proof.
  unfold zone_step. open_step. split; [|done].
  exists (check_record_digest (zone_record_digest x) (claim_digest (with_zone_members x))).
  split; [|done].
  assert (zone_valid (with_zone_members x) = zone_valid x) as ->
    by (unfold zone_valid; simpl; by rewrite !forallb_sort_unique).
  assert (with_zone_members (with_zone_members x) = with_zone_members x) as ->
    by (unfold with_zone_members; simpl; by rewrite !sort_unique_fixed).
  change (zone_evidence (with_zone_members x)) with (zone_evidence x).
  by rewrite Heqb, Heqb0, Heqb1.
Qed.

Lemma obligation_stable_step : stable obligation_step ob_id.
Proof.
  unfold obligation_step. open_step. split; [|done].
  eexists. split; [|done]. by rewrite Heqb, Heqb0.
Qed.

(** * The declaration *)

Lemma accepts_on_list {A} (get : declaration → list A) set (f : step (list A)) d d' :
  accepts (on_list get set f) d d' ↔ ∃ l, accepts f (get d) l ∧ d' = set d l.
Proof.
  unfold accepts, on_list. destruct (f (get d)) as [st l]. split.
  - intros (? & Heq & Hok). injection Heq as <- <-. by eauto.
  - intros (l' & (? & Heq & Hok) & ->). injection Heq as -> ->. by eauto.
Qed.

Ltac declaration_fields :=
  cbv beta iota delta [set_lists decl_domain decl_site decl_generation decl_schema decl_digest decl_observed_epoch
    decl_clusters decl_pods decl_racks decl_shared_links decl_gateways decl_capacity
    decl_failure_domains decl_maintenance_zones decl_obligations decl_evidence] in *.
Ltac take_list :=
  match goal with
  | H : ∃ y, (∃ l, accepts _ _ l ∧ y = _) ∧ _ |- _ =>
      destruct H as (? & (? & ? & ->) & H); declaration_fields
  end.

#[local] Opaque claim_list.

(** [canonicalize] accepts exactly when the envelope and each of the nine lists do. *)
Lemma canonicalize_accepts d d' :
  accepts canonicalize d d' ↔
    is_ok (check_envelope d) = true
    ∧ ∃ cs ps rs ls gs ks fs zs os,
        (accepts canon_clusters (decl_clusters d) cs ∧ accepts canon_pods (decl_pods d) ps
         ∧ accepts canon_racks (decl_racks d) rs ∧ accepts canon_links (decl_shared_links d) ls
         ∧ accepts canon_gateways (decl_gateways d) gs ∧ accepts canon_capacity (decl_capacity d) ks
         ∧ accepts canon_failure_domains (decl_failure_domains d) fs
         ∧ accepts canon_zones (decl_maintenance_zones d) zs
         ∧ accepts canon_obligations (decl_obligations d) os)
        ∧ d' = set_lists d cs ps rs ls gs ks fs zs os.
Proof.
  unfold canonicalize, on_clusters, on_pods, on_racks, on_links, on_gateways, on_capacity,
    on_failure_domains, on_zones, on_obligations.
  repeat setoid_rewrite accepts_and_then. repeat setoid_rewrite accepts_on_list. split.
  - intros (d0 & (st & Heq & Hok) & Hall). injection Heq as <- <-. split; [done|].
    destruct d. do 8 take_list. destruct Hall as (? & ? & ->). declaration_fields.
    do 9 eexists. split; [|reflexivity]. by split_and!.
  - intros (Hok & cs & ps & rs & ls & gs & ks & fs & zs & os & Hall & ->).
    exists d. split; [by eexists|]. destruct d. declaration_fields.
    destruct Hall as (? & ? & ? & ? & ? & ? & ? & ? & ?).
    do 8 (eexists; split; [eexists; split; [eassumption|reflexivity]|]; declaration_fields).
    eexists. split; [eassumption|reflexivity].
Qed.
#[local] Transparent claim_list.

(** A declaration in canonical form: valid envelope, and every list strictly ordered by
    identity, within its bound, of claims that are themselves valid and canonical. *)
Definition canonical_declaration (d : declaration) : Prop :=
  is_ok (check_envelope d) = true
  ∧ canonical_list cluster_step cluster_id kMaxClaimLists (decl_clusters d)
  ∧ canonical_list pod_step pod_id kMaxClaimLists (decl_pods d)
  ∧ canonical_list rack_step rack_id kMaxClaimLists (decl_racks d)
  ∧ canonical_list link_step link_id kMaxClaimLists (decl_shared_links d)
  ∧ canonical_list gateway_step gateway_id kMaxClaimLists (decl_gateways d)
  ∧ canonical_list contribution_step contribution_key kMaxCapacityContributions (decl_capacity d)
  ∧ canonical_list failure_domain_step fd_id kMaxFailureDomainsPerDeclaration
      (decl_failure_domains d)
  ∧ canonical_list zone_step zone_id kMaxMaintenanceZonesPerDeclaration (decl_maintenance_zones d)
  ∧ canonical_list obligation_step ob_id kMaxObligationsPerDeclaration (decl_obligations d).

Lemma check_envelope_lists d cs ps rs ls gs ks fs zs os :
  is_ok (check_envelope d) = true →
  resource_claim_count (set_lists d cs ps rs ls gs ks fs zs os) ≤ resource_claim_count d →
  is_ok (check_envelope (set_lists d cs ps rs ls gs ks fs zs os)) = true.
Proof.
  unfold check_envelope, require_bound. cbv zeta.
  change (check_header (set_lists _ _ _ _ _ _ _ _ _ _)) with (check_header d).
  destruct (negb (is_ok (check_header d))); [done|].
  destruct (Z.ltb_spec kMaxClaimLists (resource_claim_count d)); [done|].
  intros _ ?. by rewrite (proj2 (Z.ltb_ge _ _)) by lia.
Qed.

Lemma rack_stable_step : stable rack_step rack_id.
Proof. apply capacity_stable_step. Qed.
Lemma link_stable_step : stable link_step link_id.
Proof. apply capacity_stable_step. Qed.
Lemma gateway_stable_step : stable gateway_step gateway_id.
Proof. apply capacity_stable_step. Qed.
Lemma contribution_stable_step : stable contribution_step contribution_key.
Proof. apply capacity_stable_step. Qed.

Lemma canonicalize_canonical_form d d' : accepts canonicalize d d' → canonical_declaration d'.
Proof.
  rewrite canonicalize_accepts. intros (Hok & cs & ps & rs & ls & gs & ks & fs & zs & os &
    (Hc & Hp & Hr & Hl & Hg & Hk & Hf & Hz & Ho) & ->).
  apply claim_list_canonical in Hc as [? ?]; [|apply cluster_stable_step].
  apply claim_list_canonical in Hp as [? ?]; [|apply pod_stable_step].
  apply claim_list_canonical in Hr as [? ?]; [|apply rack_stable_step].
  apply claim_list_canonical in Hl as [? ?]; [|apply link_stable_step].
  apply claim_list_canonical in Hg as [? ?]; [|apply gateway_stable_step].
  apply claim_list_canonical in Hk as [? ?]; [|apply contribution_stable_step].
  apply claim_list_canonical in Hf as [? ?]; [|apply failure_domain_stable_step].
  apply claim_list_canonical in Hz as [? ?]; [|apply zone_stable_step].
  apply claim_list_canonical in Ho as [? ?]; [|apply obligation_stable_step].
  split_and!; try done. apply check_envelope_lists; [done|].
  unfold resource_claim_count. simpl. lia.
Qed.

Lemma canonical_fixed d : canonical_declaration d → accepts canonicalize d d.
Proof.
  intros (Hok & Hc & Hp & Hr & Hl & Hg & Hk & Hf & Hz & Ho). apply canonicalize_accepts.
  split; [done|].
  exists (decl_clusters d), (decl_pods d), (decl_racks d), (decl_shared_links d), (decl_gateways d),
    (decl_capacity d), (decl_failure_domains d), (decl_maintenance_zones d), (decl_obligations d).
  split; [|by destruct d]. split_and!; by apply claim_list_fixed.
Qed.

(** Canonicalisation produces a canonical form and is idempotent: whatever
    declaration it accepts is left with every list strictly ordered by identity - so no
    identity appears twice - within its bound and made of valid claims with sorted member
    lists, and a declaration is canonical exactly when canonicalising it changes nothing. *)
Theorem canonicalize_canonical (d d' : declaration) :
  (accepts canonicalize d d' → canonical_declaration d')
  ∧ (canonical_declaration d ↔ accepts canonicalize d d).
Proof.
  split; [apply canonicalize_canonical_form|].
  split; [apply canonical_fixed|apply canonicalize_canonical_form].
Qed.

(** ** Arrival order and sealing *)

(** The same declaration, its claims stated in another order. *)
Definition reordered (d e : declaration) : Prop :=
  decl_clusters d ≡ₚ decl_clusters e ∧ decl_pods d ≡ₚ decl_pods e ∧ decl_racks d ≡ₚ decl_racks e
  ∧ decl_shared_links d ≡ₚ decl_shared_links e ∧ decl_gateways d ≡ₚ decl_gateways e
  ∧ decl_capacity d ≡ₚ decl_capacity e ∧ decl_failure_domains d ≡ₚ decl_failure_domains e
  ∧ decl_maintenance_zones d ≡ₚ decl_maintenance_zones e ∧ decl_obligations d ≡ₚ decl_obligations e
  ∧ e = set_lists d (decl_clusters e) (decl_pods e) (decl_racks e) (decl_shared_links e)
          (decl_gateways e) (decl_capacity e) (decl_failure_domains e) (decl_maintenance_zones e)
          (decl_obligations e).

(** No two of the declaration's claims of one kind collide under SHA-256. *)
Definition collision_free (d : declaration) : Prop :=
  no_collision (processed cluster_step (decl_clusters d))
  ∧ no_collision (processed pod_step (decl_pods d))
  ∧ no_collision (processed rack_step (decl_racks d))
  ∧ no_collision (processed link_step (decl_shared_links d))
  ∧ no_collision (processed gateway_step (decl_gateways d))
  ∧ no_collision (processed contribution_step (decl_capacity d))
  ∧ no_collision (processed failure_domain_step (decl_failure_domains d))
  ∧ no_collision (processed zone_step (decl_maintenance_zones d))
  ∧ no_collision (processed obligation_step (decl_obligations d)).

Lemma w_list_claims {A} `{Claim A} (l k : list A) :
  write_claim <$> l = write_claim <$> k → w_list write_claim l = w_list write_claim k.
Proof.
  intros Heq. unfold w_list. f_equal.
  - unfold zlen. by rewrite <- (length_fmap write_claim l), Heq, length_fmap.
  - revert k Heq. induction l as [|x l IH]; intros [|y k] Heq; try done.
    rewrite !fmap_cons in Heq. injection Heq as Hx Hl. rewrite !bind_cons, Hx. f_equal. by apply IH.
Qed.

(** C22: the sealed digest does not depend on the order in which claims were stated:
    if a declaration is accepted, every reordering of its claim lists is accepted too, and
    both canonical forms have the same bytes and therefore the same digest. The hypothesis
    is that no two of the declaration's own claims are a SHA-256 collision. *)
Theorem canonicalize_order_independent (d e d' : declaration) :
  reordered d e → collision_free d → accepts canonicalize d d' →
  ∃ e', accepts canonicalize e e'
        ∧ write_declaration_content e' = write_declaration_content d'
        ∧ compute_digest e' = compute_digest d'.
Proof.
  intros (Pc & Pp & Pr & Pl & Pg & Pk & Pf & Pz & Po & He) (Nc & Np & Nr & Nl & Ng & Nk & Nf & Nz & No).
  rewrite canonicalize_accepts. intros (Hok & cs & ps & rs & ls & gs & ks & fs & zs & os &
    (Hc & Hp & Hr & Hl & Hg & Hk & Hf & Hz & Ho) & ->).
  destruct (claim_list_reordered _ _ _ _ _ _ Pc Nc Hc) as (cs' & ? & Ec).
  destruct (claim_list_reordered _ _ _ _ _ _ Pp Np Hp) as (ps' & ? & Ep).
  destruct (claim_list_reordered _ _ _ _ _ _ Pr Nr Hr) as (rs' & ? & Er).
  destruct (claim_list_reordered _ _ _ _ _ _ Pl Nl Hl) as (ls' & ? & El).
  destruct (claim_list_reordered _ _ _ _ _ _ Pg Ng Hg) as (gs' & ? & Eg).
  destruct (claim_list_reordered _ _ _ _ _ _ Pk Nk Hk) as (ks' & ? & Ek).
  destruct (claim_list_reordered _ _ _ _ _ _ Pf Nf Hf) as (fs' & ? & Ef).
  destruct (claim_list_reordered _ _ _ _ _ _ Pz Nz Hz) as (zs' & ? & Ez).
  destruct (claim_list_reordered _ _ _ _ _ _ Po No Ho) as (os' & ? & Eo).
  assert (write_declaration_content (set_lists e cs' ps' rs' ls' gs' ks' fs' zs' os')
          = write_declaration_content (set_lists d cs ps rs ls gs ks fs zs os)) as Hw.
  { unfold write_declaration_content. rewrite He. declaration_fields.
    by rewrite (w_list_claims _ _ Ec), (w_list_claims _ _ Ep), (w_list_claims _ _ Er),
      (w_list_claims _ _ El), (w_list_claims _ _ Eg), (w_list_claims _ _ Ek), (w_list_claims _ _ Ef),
      (w_list_claims _ _ Ez), (w_list_claims _ _ Eo). }
  eexists. split; [|split; [exact Hw|]].
  - apply canonicalize_accepts. split.
    + rewrite He. apply check_envelope_lists; [done|]. unfold resource_claim_count, zlen.
      rewrite Pc, Pp, Pr, Pl, Pg, Pk, Pf, Pz, Po. simpl. lia.
    + exists cs', ps', rs', ls', gs', ks', fs', zs', os'. by split.
  - unfold compute_digest, declaration_content_digest. by rewrite Hw.
Qed.

(** Canonicalising changes the lists of a declaration only. *)
Definition keeps {A} (get : declaration → A) (f : step declaration) : Prop := ∀ d, get (f d).2 = get d.

Lemma keeps_then {A} (get : declaration → A) f g : keeps get f → keeps get g → keeps get (f >>> g).
Proof.
  intros Hf Hg d. unfold and_then. specialize (Hf d). destruct (f d) as [st d'].
  destruct (is_ok st); [by rewrite Hg|done].
Qed.

Lemma canonicalize_keeps {A} (get : declaration → A) :
  (∀ d cs ps rs ls gs ks fs zs os, get (set_lists d cs ps rs ls gs ks fs zs os) = get d) → keeps get canonicalize.
Proof.
  intros Hget.
  assert (∀ B (list_of : declaration → list B) set f, (∀ d l, get (set d l) = get d) → keeps get (on_list list_of set f)) as Hlist.
  { intros B list_of set f Hset d. unfold on_list. destruct (f (list_of d)). apply Hset. }
  unfold canonicalize. repeat (apply keeps_then; [first [done | apply Hlist; intros; apply Hget]|]).
  apply Hlist. intros. apply Hget.
Qed.

Lemma canonicalize_keeps_digest : keeps decl_digest canonicalize.
Proof. by apply canonicalize_keeps. Qed.

Lemma canonical_set_digest g d : canonical_declaration d → canonical_declaration (set_digest g d).
Proof. done. Qed.

(** C23: [seal] is the only way a declaration gets its digest: it succeeds exactly when
    validation does, the sealed declaration is canonical, carries the digest of its content,
    and sealing again changes nothing; a refused seal leaves the digest as it was. *)
Theorem seal_correct (d : declaration) :
  (is_ok (validate d) = true ↔ (seal d).1 = Status.OK)
  ∧ ((seal d).1 = Status.OK →
       canonical_declaration (seal d).2 ∧ decl_digest (seal d).2 = compute_digest (seal d).2
       ∧ seal (seal d).2 = seal d)
  ∧ ((seal d).1 ≠ Status.OK → decl_digest (seal d).2 = decl_digest d).
Proof.
  unfold validate, seal. pose proof (canonicalize_keeps_digest d) as Hk.
  destruct (canonicalize d) as [st d'] eqn:Hc. destruct (is_ok st) eqn:Hst; simpl in *.
  - split_and!; [done| |done]. intros _.
    assert (canonical_declaration d') as Hd by (apply (canonicalize_canonical_form d); by exists st).
    split_and!; [by apply canonical_set_digest|done|].
    destruct (canonical_fixed _ (canonical_set_digest (compute_digest d') d' Hd)) as (st' & -> & ->).
    done.
  - assert (st ≠ Status.OK) as Hne by (intros ->; vm_compute in Hst; done).
    split_and!; [split; intros ?; [congruence|contradiction] | intros ?; contradiction | done].
Qed.

Definition sample_reordered : declaration :=
  set_lists Sample.declaration [] (decl_pods Sample.declaration)
    [Sample.rack "rack-2" 100; Sample.rack "rack-1" 400] [] [] [] [] [] [].
Definition sample_ordered : declaration :=
  set_lists Sample.declaration [] (decl_pods Sample.declaration)
    [Sample.rack "rack-1" 400; Sample.rack "rack-2" 100] [] [] [] [] [] [].

Lemma sample_accepted : accepts canonicalize sample_ordered sample_ordered.
Proof. exists Status.OK. by split; vm_compute. Qed.

Lemma no_collision_nil {A} `{Claim A} : no_collision (A:=A) [].
Proof. intros a b Ha. by apply elem_of_nil in Ha. Qed.
Lemma no_collision_one {A} `{Claim A} (x : A) : no_collision [x].
Proof. by intros a b ->%list_elem_of_singleton ->%list_elem_of_singleton. Qed.
Lemma no_collision_two {A} `{Claim A} (x y : A) :
  claim_digest x ≠ claim_digest y → no_collision [x; y].
Proof.
  intros Hne a b. rewrite !elem_of_cons, !elem_of_nil.
  intros [->|[->|[]]] [->|[->|[]]] Heq; congruence.
Qed.

Lemma sample_digests :
  claim_digest (Sample.rack "rack-1" 400) ≠ claim_digest (Sample.rack "rack-2" 100).
Proof. intros Heq. apply (f_equal (hd x00)) in Heq. vm_compute in Heq. discriminate. Qed.

Lemma canonicalize_canonical_witness : canonical_declaration sample_ordered.
Proof. apply (canonicalize_canonical sample_ordered sample_ordered), sample_accepted. Defined.

Lemma canonicalize_order_independent_witness :
  ∃ e', accepts canonicalize sample_reordered e'
        ∧ write_declaration_content e' = write_declaration_content sample_ordered
        ∧ compute_digest e' = compute_digest sample_ordered.
Proof.
  apply (canonicalize_order_independent sample_ordered); [| |apply sample_accepted].
  - split_and!; try reflexivity. apply Permutation_swap.
  - split_and!;
      first [apply no_collision_nil | apply no_collision_one | apply no_collision_two; exact sample_digests].
Defined.

Lemma seal_correct_witness : decl_digest (seal sample_ordered).2 = compute_digest (seal sample_ordered).2.
Proof.
  apply (proj1 (proj2 (seal_correct sample_ordered))).
  apply seal_correct. by vm_compute.
Defined.

(** ** Expectations *)

Lemma adjacent_duplicate_strict l :
  StronglySorted (key_le em_domain) l → adjacent_duplicate l = false → StronglySorted (key_lt em_domain) l.
Proof.
  induction 1 as [|m l Hs IH Hf]; [constructor|]. destruct l as [|m' l]; [by repeat constructor|].
  cbn [adjacent_duplicate]. intros [Hne Hd]%orb_false_iff. apply bool_decide_eq_false in Hne.
  specialize (IH Hd). apply Forall_cons in Hf as [Hm _].
  assert (key_lt em_domain m m') as Hlt
    by (unfold key_le, key_lt in *; apply le_cases in Hm as [?|?]; done).
  apply StronglySorted_inv in IH as Hi. destruct Hi as [_ Hi].
  constructor; [done|]. constructor; [done|]. eapply Forall_impl; [done|].
  intros z Hz. exact (cmp_trans _ _ _ Hlt Hz).
Qed.

(** An accepted expectation names each member domain once, in key order, keeps exactly
    the members it was given, and a member whose generation and digest are pinned has both
    set, so a pin can never be satisfied by an unset value. *)
Theorem expectation_canonical (e e' : site_expectation) :
  accepts expectation_canonicalize e e' →
  StronglySorted (key_lt em_domain) (se_members e') ∧ se_members e' ≡ₚ se_members e
  ∧ zlen (se_members e') ≤ kMaxExpectedMembers
  ∧ Forall (λ m, mdk_valid (em_domain m) = true
      ∧ (em_pinned m = true → is_set (em_generation m) = true ∧ digest_is_zero (em_digest m) = false))
      (se_members e').
Proof.
  intros (st & Heq & Hok). unfold expectation_canonicalize in Heq.
  repeat (match type of Heq with (if ?b then _ else _) = _ => destruct b eqn:? end;
          [by injection Heq as <- <-|]). cbv zeta in Heq.
  destruct (adjacent_duplicate _) eqn:Hd; [by injection Heq as <- <-|]. injection Heq as <- <-.
  cbn [expectation_set_members se_members].
  split_and!.
  - apply adjacent_duplicate_strict; [apply sort_by_sorted|done].
  - apply sort_by_perm.
  - unfold zlen. rewrite sort_by_length. by apply Z.ltb_ge.
  - clear -Hok. induction (sort_by em_domain (se_members e)) as [|m l IH]; [constructor|].
    cbn [check_members] in Hok. destruct (mdk_valid (em_domain m)) eqn:Hv; [|done].
    destruct (em_pinned m) eqn:Hp, (is_set (em_generation m)) eqn:Hg, (digest_is_zero (em_digest m)) eqn:Hz;
      try done; cbn in Hok; constructor; auto; split; auto; congruence.
Qed.

Definition sample_expected (id : string) : expected_member :=
  ExpectedMember (Sample.domain MemberDomainKind.RACK id) false 0 zero_digest true.
Definition sample_expectation (ms : list expected_member) : site_expectation :=
  SiteExpectation "site-a" supported_schema 0 ms false.

Lemma expectation_canonical_witness :
  StronglySorted (key_lt em_domain) [sample_expected "rack-1"; sample_expected "rack-2"].
Proof.
  apply (expectation_canonical
    (sample_expectation [sample_expected "rack-2"; sample_expected "rack-1"])
    (sample_expectation [sample_expected "rack-1"; sample_expected "rack-2"])).
  exists Status.OK. split; vm_compute; reflexivity.
Defined.
