(* ===== verification/Authority.v ===== *)
(** The authority registry (authority.hpp, src/authority/authority.cpp).

    One mutex guards the registry and every entry point takes it once, so each entry point
    is one atomic function from registry to result and registry, and an execution is a
    sequence of calls. Leases are keyed by the text of site, kind and holder, members by
    their domain. Instants and validities are the caller's signed integers; their sums are
    mathematical here, as no caller passes instants near the end of the range. *)

From Stdlib Require Import Strings.Ascii.
From stdpp Require Import gmap sorting.
From S2P Require Import Prelude Ordering Enums Sha256 Identity Canonical Evidence Capacity Claims.

#[export] Instance member_domain_kind_countable : Countable member_domain_kind.
Proof.
  refine (inj_countable (λ e, Z.to_nat (enum_code e)) (λ n, enum_of_code (Z.of_nat n)) _).
  intros e. rewrite Z2Nat.id by apply enum_code_nonneg. apply enum_of_code_code.
Defined.
#[export] Instance member_domain_key_countable : Countable member_domain_key.
Proof.
  refine (inj_countable mdk_fields (λ p, Some (MemberDomainKey p.1 p.2)) _). by intros [].
Defined.

(** * Tokens *)

Record token := AuthorityToken {
  tok_kind : authority_kind;
  tok_holder : string;
  tok_site : string;
  tok_epoch : epoch;
  tok_incarnation : incarnation;
  tok_generation : generation;
  tok_lease_id : Z;
  tok_issued_at_ms : Z;
  tok_expires_at_ms : Z;
}.

Definition structurally_valid (t : token) : bool :=
  if negb (valid_authority_kind (tok_kind t)) || bool_decide (tok_holder t = "")
     || negb (is_valid_identifier (tok_site t)) then false
  else if negb (is_set (tok_epoch t)) || negb (incarnation_valid (tok_incarnation t)) then false
  else if (tok_lease_id t =? 0) || (tok_issued_at_ms t <=? 0)
          || (tok_expires_at_ms t <? tok_issued_at_ms t) then false
  else true.

Definition evaluate_at (t : token) (now_ms : Z) : status :=
  if negb (structurally_valid t) then Status.INVALID
  else if now_ms <? tok_issued_at_ms t then Status.LEASE_NOT_YET_VALID
  else if tok_expires_at_ms t <? now_ms then Status.LEASE_EXPIRED
  else Status.OK.

(** * The registry *)

Record lease_record := LeaseRecord {
  lr_token : token;
  lr_state : lease_state;
  lr_updated_at_ms : Z;
  lr_renewals : Z;
  lr_note : string;
}.

Record domain_state := DomainState {
  ds_live : incarnation;
  ds_has_live : bool;
  ds_next_sequence : Z;
  ds_observed_epoch : epoch;
  ds_generation : generation;
  ds_digest : digest;
  ds_attempt : publish_attempt;
  ds_published : bool;
  ds_updated_at_ms : Z;
}.

Definition no_attempt : publish_attempt := PublishAttempt 0 0.
(** [DomainState{}]. *)
Definition new_domain : domain_state :=
  DomainState (Incarnation 0 "") false 1 0 0 zero_digest no_attempt false 0.

Record registry := Registry {
  leases : gmap string lease_record;
  site_epochs : gmap string epoch;
  site_controllers : gmap string string;
  domains : gmap member_domain_key domain_state;
  tombstones : gmap member_domain_key (gset string);
  next_lease_id : Z;
}.

Definition empty_registry : registry := Registry ∅ ∅ ∅ ∅ ∅ 1.

Definition set_lease (key : string) (l : lease_record) (r : registry) : registry :=
  Registry (<[key := l]> (leases r)) (site_epochs r) (site_controllers r) (domains r)
    (tombstones r) (next_lease_id r).
Definition set_epoch (site : string) (e : epoch) (r : registry) : registry :=
  Registry (leases r) (<[site := e]> (site_epochs r)) (site_controllers r) (domains r)
    (tombstones r) (next_lease_id r).
Definition set_controller (site key : string) (r : registry) : registry :=
  Registry (leases r) (site_epochs r) (<[site := key]> (site_controllers r)) (domains r)
    (tombstones r) (next_lease_id r).
Definition set_domain (d : member_domain_key) (s : domain_state) (r : registry) : registry :=
  Registry (leases r) (site_epochs r) (site_controllers r) (<[d := s]> (domains r))
    (tombstones r) (next_lease_id r).
Definition bury (d : member_domain_key) (i : incarnation) (r : registry) : registry :=
  Registry (leases r) (site_epochs r) (site_controllers r) (domains r)
    (<[d := {[ incarnation_to_string i ]} ∪ default ∅ (tombstones r !! d)]> (tombstones r))
    (next_lease_id r).
Definition take_lease_id (r : registry) : registry :=
  Registry (leases r) (site_epochs r) (site_controllers r) (domains r) (tombstones r)
    (wrap 64 (next_lease_id r + 1)).

Definition lease_key (site : string) (kind : authority_kind) (holder : string) : string :=
  (site +:+ "/" +:+ to_string kind +:+ "/" +:+ holder)%string.
Definition token_key (t : token) : string := lease_key (tok_site t) (tok_kind t) (tok_holder t).

Definition with_state (s : lease_state) (now_ms : Z) (l : lease_record) : lease_record :=
  LeaseRecord (lr_token l) s now_ms (lr_renewals l) (lr_note l).
Definition with_note (note : string) (l : lease_record) : lease_record :=
  LeaseRecord (lr_token l) (lr_state l) (lr_updated_at_ms l) (lr_renewals l) note.

(** [state == ACTIVE && expires_at_ms >= now_ms]. *)
Definition unexpired (l : lease_record) (now_ms : Z) : bool :=
  bool_decide (lr_state l = LeaseState.ACTIVE) && (now_ms <=? tok_expires_at_ms (lr_token l)).

(** * Site leases *)

(** The new lease of a holder without one. *)
Definition grant_new (holder site : string) (ep : epoch) (inc : incarnation) (gen : generation)
    (now_ms ttl_ms : Z) (r : registry) : status * option token * registry :=
  let key := lease_key site AuthorityKind.SITE_CONTROLLER holder in
  let t := AuthorityToken AuthorityKind.SITE_CONTROLLER holder site ep inc gen (next_lease_id r)
             now_ms (now_ms + ttl_ms) in
  let record := LeaseRecord t LeaseState.ACTIVE now_ms 0 "" in
  (Status.GRANTED, Some t, set_controller site key (set_lease key record (take_lease_id r))).

(** The branch taken when [holder] has no lease record: another holder may be in the way. *)
Definition acquire_first (holder site : string) (ep : epoch) (inc : incarnation)
    (gen : generation) (now_ms ttl_ms : Z) (r : registry) : status * option token * registry :=
  let key := lease_key site AuthorityKind.SITE_CONTROLLER holder in
  match site_controllers r !! site with
  | None => grant_new holder site ep inc gen now_ms ttl_ms r
  | Some controller =>
      if bool_decide (controller = key) then grant_new holder site ep inc gen now_ms ttl_ms r
      else
        match leases r !! controller with
        | None => grant_new holder site ep inc gen now_ms ttl_ms r
        | Some other =>
            if unexpired other now_ms then (Status.AUTHORITY_HELD_ELSEWHERE, None, r)
            else if bool_decide (lr_state other = LeaseState.REVOKED)
            then (Status.LEASE_REVOKED, None, r)
            else if inc_sequence inc <=? inc_sequence (tok_incarnation (lr_token other))
            then (Status.FENCED_INCARNATION, None, r)
            else
              let superseded :=
                with_note ("superseded by " +:+ holder) (with_state LeaseState.SUPERSEDED now_ms other) in
              grant_new holder site ep inc gen now_ms ttl_ms (set_lease controller superseded r)
        end
  end.

(** The branch taken when [holder] already has [record]. *)
Definition acquire_again (holder site : string) (ep : epoch) (inc : incarnation)
    (gen : generation) (now_ms ttl_ms : Z) (record : lease_record) (r : registry)
    : status * option token * registry :=
  let key := lease_key site AuthorityKind.SITE_CONTROLLER holder in
  let same := bool_decide (tok_incarnation (lr_token record) = inc) in
  if bool_decide (lr_state record = LeaseState.REVOKED) then (Status.LEASE_REVOKED, None, r)
  else if negb same && unexpired record now_ms then (Status.AUTHORITY_HELD_ELSEWHERE, None, r)
  else if negb same && (inc_sequence inc <=? inc_sequence (tok_incarnation (lr_token record)))
  then (Status.FENCED_INCARNATION, None, r)
  else
    let record :=
      if same then record
      else with_note "superseded in place" (with_state LeaseState.SUPERSEDED now_ms record) in
    if gen <? tok_generation (lr_token record)
    then (Status.FENCED_GENERATION, None, set_lease key record r)
    else
      let old := lr_token record in
      let t := AuthorityToken (tok_kind old) (tok_holder old) (tok_site old) ep inc gen
                 (tok_lease_id old) now_ms (now_ms + ttl_ms) in
      let record := LeaseRecord t LeaseState.ACTIVE now_ms (lr_renewals record) (lr_note record) in
      (Status.GRANTED, Some t, set_controller site key (set_lease key record r)).

(** [out] is written only when the status is GRANTED. *)
Definition acquire_site_authority (holder site : string) (ep : epoch) (inc : incarnation)
    (gen : generation) (now_ms ttl_ms : Z) (r : registry) : status * option token * registry :=
  if bool_decide (holder = "") || negb (is_valid_identifier site) || negb (is_set ep)
     || negb (incarnation_valid inc) || (ttl_ms <=? 0) || (now_ms <=? 0)
  then (Status.INVALID, None, r)
  else
    let known := default 0 (site_epochs r !! site) in
    if is_set known && (ep <? known) then (Status.FENCED_EPOCH, None, set_epoch site known r)
    else
      let r := set_epoch site (if known <? ep then ep else known) r in
      match leases r !! lease_key site AuthorityKind.SITE_CONTROLLER holder with
      | None => acquire_first holder site ep inc gen now_ms ttl_ms r
      | Some record => acquire_again holder site ep inc gen now_ms ttl_ms record r
      end.

Definition renew (t : token) (now_ms ttl_ms : Z) (r : registry)
    : status * option token * registry :=
  if negb (structurally_valid t) || (ttl_ms <=? 0) || (now_ms <=? 0) then (Status.INVALID, None, r)
  else if match site_epochs r !! tok_site t with Some e => tok_epoch t <? e | None => false end
  then (Status.FENCED_EPOCH, None, r)
  else
    let key := token_key t in
    match leases r !! key with
    | None => (Status.UNAUTHORIZED, None, r)
    | Some record =>
        let old := lr_token record in
        if negb (tok_lease_id old =? tok_lease_id t) then (Status.UNAUTHORIZED, None, r)
        else if negb (bool_decide (tok_incarnation old = tok_incarnation t))
        then (Status.FENCED_INCARNATION, None, r)
        else if negb (tok_generation old =? tok_generation t) then (Status.FENCED_GENERATION, None, r)
        else if bool_decide (lr_state record = LeaseState.REVOKED) then (Status.LEASE_REVOKED, None, r)
        else
          let evaluated := evaluate_at old now_ms in
          if bool_decide (evaluated = Status.LEASE_EXPIRED)
          then (Status.LEASE_EXPIRED, None, set_lease key (with_state LeaseState.EXPIRED now_ms record) r)
          else if negb (is_ok evaluated) then (evaluated, None, r)
          else
            let t' := AuthorityToken (tok_kind old) (tok_holder old) (tok_site old) (tok_epoch old)
                        (tok_incarnation old) (tok_generation old) (tok_lease_id old) now_ms
                        (now_ms + ttl_ms) in
            let record' := LeaseRecord t' LeaseState.ACTIVE now_ms
                             (wrap 64 (lr_renewals record + 1)) (lr_note record) in
            (Status.RENEWED, Some t', set_lease key record' r)
    end.

Definition revoke (t : token) (now_ms : Z) (note : string) (r : registry) : status * registry :=
  if negb (structurally_valid t) then (Status.INVALID, r)
  else
    match leases r !! token_key t with
    | None => (Status.NOT_FOUND, r)
    | Some record =>
        if negb (tok_lease_id (lr_token record) =? tok_lease_id t) then (Status.UNAUTHORIZED, r)
        else
          (Status.OK,
           set_lease (token_key t) (with_note note (with_state LeaseState.REVOKED now_ms record)) r)
    end.

(** [AuthorityRegistry::validate]. *)
Definition validate_token (t : token) (now_ms : Z) (r : registry) : status :=
  if negb (structurally_valid t) then Status.INVALID
  else
    match site_epochs r !! tok_site t with
    | None => Status.UNAUTHORIZED
    | Some e =>
        if tok_epoch t <? e then Status.FENCED_EPOCH
        else if e <? tok_epoch t then Status.UNAUTHORIZED
        else
          match leases r !! token_key t with
          | None => Status.UNAUTHORIZED
          | Some record =>
              let held := lr_token record in
              if negb (tok_lease_id held =? tok_lease_id t) then Status.UNAUTHORIZED
              else if negb (bool_decide (tok_incarnation held = tok_incarnation t))
              then Status.FENCED_INCARNATION
              else if tok_generation t <? tok_generation held then Status.FENCED_GENERATION
              else if bool_decide (lr_state record = LeaseState.REVOKED) then Status.LEASE_REVOKED
              else if bool_decide (lr_state record = LeaseState.SUPERSEDED)
              then Status.AUTHORITY_HELD_ELSEWHERE
              else evaluate_at held now_ms
          end
    end.

Definition current_epoch (site : string) (r : registry) : epoch := default 0 (site_epochs r !! site).

Definition current_controller (site : string) (r : registry) : option token :=
  controller ← site_controllers r !! site; lr_token <$> leases r !! controller.

(** * Member incarnations *)

Definition is_dead (d : member_domain_key) (i : incarnation) (r : registry) : bool :=
  bool_decide (incarnation_to_string i ∈ default ∅ (tombstones r !! d)).

(** A domain whose live incarnation becomes [i], nothing published yet. *)
Definition enliven (i : incarnation) (now_ms : Z) (s : domain_state) : domain_state :=
  DomainState i true (wrap 64 (inc_sequence i + 1)) (ds_observed_epoch s) 0 zero_digest no_attempt
    false now_ms.

(** The second component is [*out_sequence], written when the call accepts. *)
Definition admit_member_incarnation (d : member_domain_key) (inc : incarnation) (now_ms : Z)
    (r : registry) : status * option Z * registry :=
  if negb (mdk_valid d) || negb (boot_valid (inc_boot inc)) || (now_ms <=? 0)
  then (Status.INVALID, None, r)
  else
    let state := default new_domain (domains r !! d) in
    let r := set_domain d state r in
    let candidate :=
      if inc_sequence inc =? 0 then Incarnation (ds_next_sequence state) (inc_boot inc) else inc in
    if is_dead d candidate r then (Status.FENCED_INCARNATION, None, r)
    else if negb (ds_has_live state) then
      if inc_sequence candidate <? ds_next_sequence state then (Status.FENCED_INCARNATION, None, r)
      else (Status.OK, Some (inc_sequence candidate), set_domain d (enliven candidate now_ms state) r)
    else if bool_decide (ds_live state = candidate)
    then (Status.ALREADY_EXISTS, Some (inc_sequence candidate), r)
    else if inc_sequence candidate <? inc_sequence (ds_live state)
    then (Status.FENCED_INCARNATION, None, r)
    else if inc_sequence candidate =? inc_sequence (ds_live state)
    then (Status.FENCED_INCARNATION, None, r)
    else
      (Status.OK, Some (inc_sequence candidate),
       set_domain d (enliven candidate now_ms state) (bury d (ds_live state) r)).

Definition retire_member_incarnation (d : member_domain_key) (i : incarnation) (now_ms : Z)
    (r : registry) : status * registry :=
  if negb (mdk_valid d) || negb (incarnation_valid i) then (Status.INVALID, r)
  else
    let r := bury d i r in
    match domains r !! d with
    | Some s =>
        if ds_has_live s && bool_decide (ds_live s = i) then
          (Status.OK,
           set_domain d (DomainState (ds_live s) false (ds_next_sequence s) (ds_observed_epoch s)
                           (ds_generation s) (ds_digest s) (ds_attempt s) (ds_published s) now_ms) r)
        else (Status.OK, r)
    | None => (Status.OK, r)
    end.

Definition member_incarnation_live (d : member_domain_key) (i : incarnation) (r : registry) : bool :=
  if is_dead d i r then false
  else match domains r !! d with
       | Some s => ds_has_live s && bool_decide (ds_live s = i)
       | None => false
       end.

Definition next_member_sequence (d : member_domain_key) (r : registry) : Z :=
  match domains r !! d with Some s => ds_next_sequence s | None => 1 end.

(** * Publication fencing *)

(** One offered publication. *)
Record offer := Offer {
  of_epoch : epoch;
  of_incarnation : incarnation;
  of_generation : generation;
  of_digest : digest;
  of_attempt : publish_attempt;
}.

(** The high-water marks, once something was published. *)
Definition fence_marks (s : domain_state) (o : offer) : status :=
  let a := of_attempt o in
  if of_generation o <? ds_generation s then Status.FENCED_GENERATION
  else if (of_generation o =? ds_generation s) && negb (bool_decide (of_digest o = ds_digest s))
  then Status.FENCED_GENERATION
  else if (of_generation o =? ds_generation s) && (pa_sequence a <? pa_sequence (ds_attempt s))
  then Status.REPLAYED
  else if (of_generation o =? ds_generation s) && (pa_sequence a =? pa_sequence (ds_attempt s))
          && (pa_attempt a <=? pa_attempt (ds_attempt s))
  then Status.FENCED_ATTEMPT
  else if negb (pa_sequence a =? 0) && (pa_sequence a <? pa_sequence (ds_attempt s))
  then Status.REPLAYED
  else Status.OK.

Definition fence_publication (d : member_domain_key) (o : offer) (r : registry) : status :=
  if negb (mdk_valid d) || negb (is_set (of_generation o)) || digest_is_zero (of_digest o)
     || (pa_sequence (of_attempt o) =? 0)
  then Status.INVALID
  else if is_dead d (of_incarnation o) r then Status.FENCED_INCARNATION
  else
    match domains r !! d with
    | None => Status.UNAUTHORIZED
    | Some s =>
        if negb (ds_has_live s) then Status.UNAUTHORIZED
        else if negb (bool_decide (ds_live s = of_incarnation o)) then Status.FENCED_INCARNATION
        else if is_set (ds_observed_epoch s) && (of_epoch o <? ds_observed_epoch s)
        then Status.FENCED_EPOCH
        else if ds_published s then fence_marks s o
        else Status.OK
    end.

Definition record_publication (d : member_domain_key) (o : offer) (now_ms : Z) (r : registry)
    : status * registry :=
  if negb (mdk_valid d) || negb (is_set (of_generation o)) || digest_is_zero (of_digest o)
  then (Status.INVALID, r)
  else
    let s := default new_domain (domains r !! d) in
    (Status.OK,
     set_domain d (DomainState (ds_live s) (ds_has_live s) (ds_next_sequence s) (of_epoch o)
                     (of_generation o) (of_digest o) (of_attempt o) true now_ms) r).

Definition clear_domain (d : member_domain_key) (r : registry) : registry :=
  Registry (leases r) (site_epochs r) (site_controllers r) (delete d (domains r)) (tombstones r)
    (next_lease_id r).

(** * Executions *)

(** The calls that change the registry, one per entry point, each under the registry's mutex
    from start to end. The fence changes nothing: what a caller does with its answer, and when,
    is the caller's affair. *)
Inductive op : Type :=
| Acquire (holder site : string) (ep : epoch) (inc : incarnation) (gen : generation) (now_ms ttl_ms : Z)
| Renew (t : token) (now_ms ttl_ms : Z)
| Revoke (t : token) (now_ms : Z) (note : string)
| Admit (d : member_domain_key) (i : incarnation) (now_ms : Z)
| Retire (d : member_domain_key) (i : incarnation) (now_ms : Z)
| Record (d : member_domain_key) (o : offer) (now_ms : Z)
| Clear (d : member_domain_key).

Definition apply_op (r : registry) (o : op) : registry :=
  match o with
  | Acquire holder site ep inc gen now_ms ttl_ms =>
      (acquire_site_authority holder site ep inc gen now_ms ttl_ms r).2
  | Renew t now_ms ttl_ms => (renew t now_ms ttl_ms r).2
  | Revoke t now_ms note => (revoke t now_ms note r).2
  | Admit d i now_ms => (admit_member_incarnation d i now_ms r).2
  | Retire d i now_ms => (retire_member_incarnation d i now_ms r).2
  | Record d o now_ms => (record_publication d o now_ms r).2
  | Clear d => clear_domain d r
  end.

Definition run (r : registry) (ops : list op) : registry := foldl apply_op r ops.

(** A property every call preserves holds after any sequence of calls. *)
Lemma run_invariant (P : registry → Prop) (ok : op → Prop) r ops :
  (∀ r o, ok o → P r → P (apply_op r o)) → Forall ok ops → P r → P (run r ops).
Proof. intros Hstep Hall. revert r. induction Hall; intros r Hr; simpl; auto. Qed.

Lemma run_app r ops more : run r (ops ++ more) = run (run r ops) more.
Proof. apply foldl_app. Qed.

(** Unfolds one call into its branches. *)
Ltac open_call :=
  unfold apply_op, acquire_site_authority, acquire_first, acquire_again, grant_new, renew, revoke,
    admit_member_incarnation, retire_member_incarnation, record_publication, clear_domain;
  cbv zeta; repeat (case_match; simpl); simpl.

(** ** Which calls touch what *)

Lemma lease_ops_domains r o :
  match o with Acquire _ _ _ _ _ _ _ | Renew _ _ _ | Revoke _ _ _ => True | _ => False end →
  domains (apply_op r o) = domains r ∧ tombstones (apply_op r o) = tombstones r.
Proof. destruct o; intros Ho; try done; open_call; done. Qed.

Lemma member_ops_leases r o :
  match o with Acquire _ _ _ _ _ _ _ | Renew _ _ _ | Revoke _ _ _ => False | _ => True end →
  leases (apply_op r o) = leases r ∧ site_epochs (apply_op r o) = site_epochs r
  ∧ site_controllers (apply_op r o) = site_controllers r.
Proof. destruct o; intros Ho; try done; open_call; done. Qed.

(** ** Epochs only rise *)

Lemma acquire_first_epochs holder site ep inc gen now ttl r :
  site_epochs (acquire_first holder site ep inc gen now ttl r).2 = site_epochs r.
Proof. open_call; done. Qed.

Lemma acquire_again_epochs holder site ep inc gen now ttl l r :
  site_epochs (acquire_again holder site ep inc gen now ttl l r).2 = site_epochs r.
Proof. open_call; done. Qed.

(** The part of [acquire_site_authority] after the epoch fence. *)
Definition acquire_lease (holder site : string) (ep : epoch) (inc : incarnation)
    (gen : generation) (now_ms ttl_ms : Z) (r : registry) : status * option token * registry :=
  match leases r !! lease_key site AuthorityKind.SITE_CONTROLLER holder with
  | None => acquire_first holder site ep inc gen now_ms ttl_ms r
  | Some record => acquire_again holder site ep inc gen now_ms ttl_ms record r
  end.

(** The three ways [acquire_site_authority] can go. *)
Lemma acquire_cases holder site ep inc gen now ttl r :
  let known := current_epoch site r in
  acquire_site_authority holder site ep inc gen now ttl r = (Status.INVALID, None, r)
  ∨ (0 ≠ known ∧ ep < known
     ∧ acquire_site_authority holder site ep inc gen now ttl r
         = (Status.FENCED_EPOCH, None, set_epoch site known r))
  ∨ (holder ≠ ""%string ∧ is_valid_identifier site = true ∧ ep ≠ 0 ∧ incarnation_valid inc = true
     ∧ 0 < ttl ∧ 0 < now ∧ (known ≤ ep ∨ known = 0)
     ∧ acquire_site_authority holder site ep inc gen now ttl r
         = acquire_lease holder site ep inc gen now ttl (set_epoch site (Z.max known ep) r)).
Proof.
  cbv zeta. unfold acquire_site_authority, acquire_lease, current_epoch.
  destruct (_ || (now <=? 0)) eqn:Hinv; [by left|]. right.
  rewrite !orb_false_iff, !negb_false_iff, bool_decide_eq_false, !Z.leb_gt in Hinv.
  destruct Hinv as [[[[[Hh Hs] He] Hi] Ht] Hn]. unfold is_set in *.
  rewrite negb_true_iff, Z.eqb_neq in He.
  destruct (negb (_ =? 0) && _) eqn:Hf.
  - left. rewrite andb_true_iff, negb_true_iff, Z.eqb_neq, Z.ltb_lt in Hf. naive_solver.
  - right. rewrite andb_false_iff, negb_false_iff, Z.eqb_eq, Z.ltb_ge in Hf.
    split_and!; try done; [lia|]. f_equal.
    replace (Z.max _ ep) with (if default 0 (site_epochs r !! site) <? ep then ep
      else default 0 (site_epochs r !! site)); [done|].
    destruct (Z.ltb_spec (default 0 (site_epochs r !! site)) ep); lia.
Qed.

Lemma acquire_lease_epochs holder site ep inc gen now ttl r :
  site_epochs (acquire_lease holder site ep inc gen now ttl r).2 = site_epochs r.
Proof.
  unfold acquire_lease. case_match; [apply acquire_again_epochs | apply acquire_first_epochs].
Qed.

Lemma current_epoch_set site site' e r :
  current_epoch site (set_epoch site' e r) = if decide (site' = site) then e else current_epoch site r.
Proof. unfold current_epoch. simpl. rewrite lookup_insert. by case_decide. Qed.

Lemma current_epoch_same site r r' :
  site_epochs r' = site_epochs r → current_epoch site r' = current_epoch site r.
Proof. unfold current_epoch. by intros ->. Qed.

Lemma epoch_step site r o : current_epoch site r ≤ current_epoch site (apply_op r o).
Proof.
  destruct o as [holder site' ep inc gen now ttl|t now ttl|t now note| | | |];
    try (apply Z.eq_le_incl; symmetry; apply current_epoch_same; by apply member_ops_leases).
  - simpl. destruct (acquire_cases holder site' ep inc gen now ttl r)
      as [->|[(_ & _ & ->)|(_ & _ & _ & _ & _ & _ & _ & ->)]]; simpl; [done|..].
    + rewrite current_epoch_set. by case_decide; subst.
    + pose proof (current_epoch_same site _ _ (acquire_lease_epochs holder site' ep inc gen now ttl
        (set_epoch site' (Z.max (current_epoch site' r) ep) r))) as ->.
      rewrite current_epoch_set. case_decide; subst; lia.
  - apply Z.eq_le_incl. symmetry. apply current_epoch_same. open_call; done.
  - apply Z.eq_le_incl. symmetry. apply current_epoch_same. open_call; done.
Qed.

Lemma epoch_run site r ops : current_epoch site r ≤ current_epoch site (run r ops).
Proof.
  revert r. induction ops as [|o ops IH]; intros r; simpl; [done|].
  pose proof (epoch_step site r o). specialize (IH (apply_op r o)). lia.
Qed.

(** ** What [validate] answers *)

Lemma evaluate_at_ok t now :
  evaluate_at t now = Status.OK ↔
    structurally_valid t = true ∧ tok_issued_at_ms t ≤ now ≤ tok_expires_at_ms t.
Proof.
  unfold evaluate_at. destruct (structurally_valid t); simpl; [|naive_solver].
  destruct (Z.ltb_spec now (tok_issued_at_ms t)); [split; [done|lia]|].
  destruct (Z.ltb_spec (tok_expires_at_ms t) now); [split; [done|lia]|]. naive_solver lia.
Qed.

(** A token is good: the epoch is the current one and the lease it names is held, by this
    incarnation, neither revoked nor superseded, at an instant inside the lease's window. *)
Definition holds (t : token) (now_ms : Z) (r : registry) : Prop :=
  structurally_valid t = true ∧ current_epoch (tok_site t) r = tok_epoch t
  ∧ ∃ l, leases r !! token_key t = Some l
      ∧ tok_lease_id (lr_token l) = tok_lease_id t ∧ tok_incarnation (lr_token l) = tok_incarnation t
      ∧ tok_generation (lr_token l) ≤ tok_generation t
      ∧ lr_state l ≠ LeaseState.REVOKED ∧ lr_state l ≠ LeaseState.SUPERSEDED
      ∧ evaluate_at (lr_token l) now_ms = Status.OK.

Lemma structurally_valid_iff t :
  structurally_valid t = true ↔
    valid_authority_kind (tok_kind t) = true ∧ tok_holder t ≠ ""%string
    ∧ is_valid_identifier (tok_site t) = true ∧ tok_epoch t ≠ 0
    ∧ incarnation_valid (tok_incarnation t) = true ∧ tok_lease_id t ≠ 0
    ∧ 0 < tok_issued_at_ms t ∧ tok_issued_at_ms t ≤ tok_expires_at_ms t.
Proof.
  unfold structurally_valid, is_set.
  destruct (valid_authority_kind (tok_kind t)); simpl; [|split; [done|naive_solver]].
  case_bool_decide; simpl; [split; [done|naive_solver]|].
  destruct (is_valid_identifier (tok_site t)); simpl; [|split; [done|naive_solver]].
  destruct (Z.eqb_spec (tok_epoch t) 0); simpl; [split; [done|naive_solver]|].
  destruct (incarnation_valid (tok_incarnation t)); simpl; [|split; [done|naive_solver]].
  destruct (Z.eqb_spec (tok_lease_id t) 0); simpl; [split; [done|naive_solver]|].
  destruct (Z.leb_spec (tok_issued_at_ms t) 0); simpl; [split; [done|lia]|].
  destruct (Z.ltb_spec (tok_expires_at_ms t) (tok_issued_at_ms t)); simpl; [split; [done|lia]|].
  naive_solver.
Qed.

Lemma structurally_valid_epoch t : structurally_valid t = true → tok_epoch t ≠ 0.
Proof. rewrite structurally_valid_iff. naive_solver. Qed.
Lemma structurally_valid_site t : structurally_valid t = true → is_valid_identifier (tok_site t) = true.
Proof. rewrite structurally_valid_iff. naive_solver. Qed.
Lemma structurally_valid_lease_id t : structurally_valid t = true → tok_lease_id t ≠ 0.
Proof. rewrite structurally_valid_iff. naive_solver. Qed.

Lemma validate_token_holds t now r :
  is_ok (validate_token t now r) = true ↔ holds t now r.
Proof.
  unfold validate_token, holds, current_epoch.
  destruct (structurally_valid t) eqn:Hv; cbn [negb]; [|naive_solver].
  pose proof (structurally_valid_epoch t Hv) as Hne.
  destruct (site_epochs r !! tok_site t) as [e|]; simpl; [|split; [done|naive_solver]].
  destruct (Z.ltb_spec (tok_epoch t) e); [split; [done|naive_solver lia]|].
  destruct (Z.ltb_spec e (tok_epoch t)); [split; [done|naive_solver lia]|].
  destruct (leases r !! token_key t) as [l|]; [|naive_solver].
  destruct (Z.eqb_spec (tok_lease_id (lr_token l)) (tok_lease_id t)); simpl; [|naive_solver].
  case_bool_decide; simpl; [|naive_solver].
  destruct (Z.ltb_spec (tok_generation t) (tok_generation (lr_token l))); [split; [done|naive_solver lia]|].
  case_bool_decide; [naive_solver|]. case_bool_decide; [naive_solver|].
  split.
  - intros Hok. split_and!; [done|lia|]. exists l. split_and!; try done.
    revert Hok. unfold evaluate_at. by repeat case_match.
  - intros (_ & _ & l' & [= <-] & _ & _ & _ & _ & _ & ->). done.
Qed.

(** ** Lease keys are exact *)

Fixpoint no_slash (s : string) : bool :=
  match s with
  | EmptyString => true
  | String c rest => bool_decide (c ≠ "/"%char) && no_slash rest
  end.

Lemma app_slash_inj a b x y :
  no_slash a = true → no_slash b = true →
  (a +:+ "/" +:+ x = b +:+ "/" +:+ y)%string → a = b ∧ x = y.
Proof.
  revert b. induction a as [|c a IH]; intros [|c' b]; simpl; intros Ha Hb [=].
  - done.
  - subst. by apply andb_true_iff in Hb as [Hb%bool_decide_eq_true _].
  - subst. by apply andb_true_iff in Ha as [Ha%bool_decide_eq_true _].
  - apply andb_true_iff in Ha as [_ Ha], Hb as [_ Hb]. subst.
    destruct (IH b) as [-> ->]; done.
Qed.

Lemma tail_no_slash s : Forall (λ c, is_tail c = true) (string_bytes s) → no_slash s = true.
Proof.
  induction s as [|c s IH]; [done|]. intros H. apply Forall_cons in H as [Hc Hs]. simpl.
  rewrite IH by done. rewrite andb_true_r. apply bool_decide_eq_true. by intros ->.
Qed.

Lemma identifier_no_slash s : is_valid_identifier s = true → no_slash s = true.
Proof.
  intros (b & rest & Heq & _ & Hall & _)%is_valid_identifier_inv. apply tail_no_slash. by rewrite Heq.
Qed.

Lemma lease_key_inj s1 s2 k1 k2 h1 h2 :
  is_valid_identifier s1 = true → is_valid_identifier s2 = true →
  lease_key s1 k1 h1 = lease_key s2 k2 h2 → s1 = s2 ∧ k1 = k2 ∧ h1 = h2.
Proof.
  intros H1%identifier_no_slash H2%identifier_no_slash Heq. unfold lease_key in Heq.
  apply app_slash_inj in Heq as [-> Heq]; [|done..].
  apply app_slash_inj in Heq as [Hk ->]; [|by destruct k1|by destruct k2].
  by apply (inj to_string) in Hk as ->.
Qed.

(** ** Well-formed registries *)

Definition lease_wf (key : string) (l : lease_record) : Prop :=
  key = token_key (lr_token l) ∧ structurally_valid (lr_token l) = true
  ∧ tok_kind (lr_token l) = AuthorityKind.SITE_CONTROLLER.

Definition registry_wf (n : Z) (r : registry) : Prop :=
  (∀ key l, leases r !! key = Some l → lease_wf key l) ∧ 1 ≤ next_lease_id r ≤ 1 + n.

Lemma new_token_valid holder site ep inc gen id now ttl :
  holder ≠ ""%string → is_valid_identifier site = true → ep ≠ 0 → incarnation_valid inc = true →
  id ≠ 0 → 0 < now → 0 < ttl →
  structurally_valid (AuthorityToken AuthorityKind.SITE_CONTROLLER holder site ep inc gen id now (now + ttl))
    = true.
Proof.
  intros. apply structurally_valid_iff. simpl. split_and!; done || lia.
Qed.

(** The lease a grant installs, given the record it replaces if any. *)
Lemma granted_lease_wf holder site ep inc gen now ttl id state at_ renewals note :
  holder ≠ ""%string → is_valid_identifier site = true → ep ≠ 0 → incarnation_valid inc = true →
  id ≠ 0 → 0 < now → 0 < ttl →
  lease_wf (lease_key site AuthorityKind.SITE_CONTROLLER holder)
    (LeaseRecord (AuthorityToken AuthorityKind.SITE_CONTROLLER holder site ep inc gen id now (now + ttl))
       state at_ renewals note).
Proof. intros. split_and!; [done| by apply new_token_valid | done]. Qed.

(** What [acquire_lease] can do to the leases of a well-formed registry. *)
Definition leases_wf (r : registry) : Prop := ∀ key l, leases r !! key = Some l → lease_wf key l.

Lemma leases_wf_insert r key l : leases_wf r → lease_wf key l → leases_wf (set_lease key l r).
Proof.
  intros Hr Hl k l'. simpl. rewrite lookup_insert. case_decide; [|apply Hr]. by intros [= <-]; subst.
Qed.

Lemma lease_wf_token key l l' : lr_token l' = lr_token l → lease_wf key l → lease_wf key l'.
Proof. unfold lease_wf. by intros ->. Qed.

Section acquire.
Context (holder site : string) (ep : epoch) (inc : incarnation) (gen : generation) (now ttl : Z).
Hypothesis Hholder : holder ≠ ""%string.
Hypothesis Hsite : is_valid_identifier site = true.
Hypothesis Hep : ep ≠ 0.
Hypothesis Hinc : incarnation_valid inc = true.
Hypothesis Hnow : 0 < now.
Hypothesis Httl : 0 < ttl.
Local Abbreviation key := (lease_key site AuthorityKind.SITE_CONTROLLER holder).

(** A grant's token and the registry it leaves. *)
Definition granted (t : token) (r r' : registry) : Prop :=
  t = AuthorityToken AuthorityKind.SITE_CONTROLLER holder site ep inc gen (tok_lease_id t) now (now + ttl)
  ∧ structurally_valid t = true ∧ site_epochs r' = site_epochs r
  ∧ site_controllers r' !! site = Some key
  ∧ ∃ l, leases r' !! key = Some l ∧ lr_token l = t ∧ lr_state l = LeaseState.ACTIVE.

Lemma grant_new_spec r :
  leases_wf r → 1 ≤ next_lease_id r →
  let '(s, t, r') := grant_new holder site ep inc gen now ttl r in
  leases_wf r' ∧ next_lease_id r' = wrap 64 (next_lease_id r + 1)
  ∧ s = Status.GRANTED ∧ ∃ t', t = Some t' ∧ granted t' r r'.
Proof using All.
  intros Hwf Hid. unfold grant_new. split_and!; try done.
  - apply leases_wf_insert; [done|]. apply granted_lease_wf; done || lia.
  - eexists. split; [done|]. split_and!; [done| apply new_token_valid; done || lia |done| |].
    + simpl. by rewrite lookup_insert_eq.
    + eexists. simpl. by rewrite lookup_insert_eq.
Qed.

Definition acquire_post (r : registry) (res : status * option token * registry) : Prop :=
  leases_wf res.2
  ∧ (next_lease_id res.2 = next_lease_id r ∨ next_lease_id res.2 = wrap 64 (next_lease_id r + 1))
  ∧ (res.1.1 = Status.GRANTED → ∃ t, res.1.2 = Some t ∧ granted t r res.2)
  ∧ (res.1.1 ≠ Status.GRANTED → res.1.2 = None ∧ site_controllers res.2 = site_controllers r).

Lemma refused_post s r : s ≠ Status.GRANTED → leases_wf r → acquire_post r (s, None, r).
Proof using Type. intros Hs Hwf. split; [done|split; [by left|split; [done|done]]]. Qed.

Lemma acquire_first_post r :
  leases_wf r → 1 ≤ next_lease_id r →
  acquire_post r (acquire_first holder site ep inc gen now ttl r).
Proof using All.
  intros Hwf Hid. unfold acquire_first.
  assert (∀ r0, leases_wf r0 → next_lease_id r0 = next_lease_id r → site_epochs r0 = site_epochs r →
    acquire_post r (grant_new holder site ep inc gen now ttl r0)) as Hnew.
  { intros r0 Hr0 Hn He. pose proof (grant_new_spec r0 Hr0 ltac:(lia)) as Hg.
    destruct (grant_new _ _ _ _ _ _ _ r0) as [[s t] r']. destruct Hg as (? & ? & -> & t' & -> & Hg).
    split_and!; simpl; [done|right; congruence| |done]. intros _. exists t'. split; [done|].
    destruct Hg as (? & ? & ? & ? & ?). split_and!; [done|done|congruence|done|done]. }
  destruct (site_controllers r !! site) as [controller|]; [|by apply Hnew].
  destruct (bool_decide (controller = key)); [by apply Hnew|].
  destruct (leases r !! controller) as [other|] eqn:Ho; [|by apply Hnew].
  destruct (unexpired other now); [by apply refused_post|].
  destruct (bool_decide (lr_state other = LeaseState.REVOKED)); [by apply refused_post|].
  destruct (_ <=? _); [by apply refused_post|]. cbv zeta. apply Hnew; [|done|done].
  apply leases_wf_insert; [done|]. apply (lease_wf_token _ other); [done|by apply Hwf].
Qed.

Lemma acquire_again_post r record :
  leases_wf r → leases r !! key = Some record →
  acquire_post r (acquire_again holder site ep inc gen now ttl record r).
Proof using All.
  intros Hwf Hl. pose proof (Hwf _ _ Hl) as (Hkey & Hv & Hk).
  assert (site = tok_site (lr_token record) ∧ AuthorityKind.SITE_CONTROLLER = tok_kind (lr_token record)
          ∧ holder = tok_holder (lr_token record)) as (Es & _ & Eh).
  { apply lease_key_inj; [done| by apply structurally_valid_site |done]. }
  unfold acquire_again. cbv zeta.
  destruct (bool_decide (lr_state record = LeaseState.REVOKED)); [by apply refused_post|].
  destruct (negb _ && unexpired record now); [by apply refused_post|].
  destruct (negb _ && (_ <=? _)); [by apply refused_post|].
  set (record' := if bool_decide _ then record else _).
  assert (lr_token record' = lr_token record) as -> by (unfold record'; by case_match).
  destruct (gen <? _).
  { split; [|split; [by left|split; [done|done]]]. apply leases_wf_insert; [done|].
    apply (lease_wf_token _ record); [|by apply Hwf]. unfold record'. by case_match. }
  rewrite Hk, <- Es, <- Eh.
  pose proof (structurally_valid_lease_id _ Hv) as Hid.
  split; [|split; [by left|split; [|done]]].
  - apply leases_wf_insert; [done|]. by apply granted_lease_wf.
  - intros _. eexists. split; [done|]. split_and!; [done|by apply new_token_valid|done| |].
    + simpl. by rewrite lookup_insert_eq.
    + eexists. simpl. by rewrite lookup_insert_eq.
Qed.

Lemma acquire_lease_post r :
  leases_wf r → 1 ≤ next_lease_id r →
  acquire_post r (acquire_lease holder site ep inc gen now ttl r).
Proof using All.
  intros Hwf Hid. unfold acquire_lease. destruct (leases r !! key) as [record|] eqn:Hl.
  - by apply acquire_again_post.
  - by apply acquire_first_post.
Qed.
End acquire.

(** ** Well-formedness along an execution *)

Lemma registry_wf_empty : registry_wf 0 empty_registry.
Proof. split; [|done]. intros key l. simpl. by rewrite lookup_empty. Qed.

Lemma registry_wf_same n r r' :
  leases r' = leases r → next_lease_id r' = next_lease_id r → registry_wf n r → registry_wf (n + 1) r'.
Proof. unfold registry_wf. intros -> -> [? ?]. split; [done|lia]. Qed.

Lemma renew_leases_wf t now ttl r :
  leases_wf r → leases_wf (renew t now ttl r).2 ∧ next_lease_id (renew t now ttl r).2 = next_lease_id r.
Proof.
  intros Hwf. unfold renew.
  destruct (negb (structurally_valid t) || (ttl <=? 0) || (now <=? 0)) eqn:Hin; [done|].
  rewrite !orb_false_iff, !Z.leb_gt in Hin. destruct Hin as [[_ Httl] Hnow].
  case_match; [done|]. destruct (leases r !! token_key t) as [record|] eqn:Hl; [|done].
  pose proof (Hwf _ _ Hl) as (Hkey & Hv & Hk). cbv zeta.
  destruct (negb (_ =? tok_lease_id t)); [done|]. destruct (negb (bool_decide _)); [done|].
  destruct (negb (_ =? tok_generation t)); [done|]. destruct (bool_decide (lr_state record = _)); [done|].
  destruct (bool_decide (evaluate_at _ _ = _)).
  { split; [|done]. apply leases_wf_insert; [done|].
    apply (lease_wf_token _ record); [done|by apply Hwf]. }
  destruct (negb (is_ok _)); [done|]. split; [|done]. apply leases_wf_insert; [done|].
  rewrite Hkey. destruct (lr_token record) as [k h s e i g id iss exp].
  split_and!; [done| |done]. revert Hv. rewrite !structurally_valid_iff. simpl. naive_solver lia.
Qed.

Lemma revoke_leases_wf t now note r :
  leases_wf r → leases_wf (revoke t now note r).2 ∧ next_lease_id (revoke t now note r).2 = next_lease_id r.
Proof.
  intros Hwf. unfold revoke. destruct (negb _); [done|].
  destruct (leases r !! token_key t) as [record|] eqn:Hl; [|done]. destruct (negb _); [done|].
  split; [|done]. apply leases_wf_insert; [done|]. apply (lease_wf_token _ record); [done|by apply Hwf].
Qed.

Lemma registry_wf_step n r o :
  1 + n < 2 ^ 64 - 1 → registry_wf n r → registry_wf (n + 1) (apply_op r o).
Proof.
  intros Hn [Hwf Hid].
  assert (match o with Acquire _ _ _ _ _ _ _ | Renew _ _ _ | Revoke _ _ _ => True | _ => False end
          ∨ (leases (apply_op r o) = leases r ∧ next_lease_id (apply_op r o) = next_lease_id r)) as [Hlease|[? ?]].
  { destruct o; auto; right; open_call; done. }
  - destruct o as [holder site ep inc gen now ttl|t now ttl|t now note| | | |]; try done; simpl.
    + destruct (acquire_cases holder site ep inc gen now ttl r)
        as [->|[(_ & _ & ->)|(Hh & Hs & He & Hi & Ht & Hnow & _ & ->)]].
      * split; [done|simpl; lia].
      * split; [done|simpl; lia].
      * destruct (acquire_lease_post holder site ep inc gen now ttl Hh Hs He Hi Hnow Ht
          (set_epoch site (Z.max (current_epoch site r) ep) r)) as (Hl & Hnext & _); [done|simpl; lia|].
        split; [done|]. simpl in Hnext. destruct Hnext as [->| ->]; [lia|].
        rewrite wrap_small by (unfold in_u; lia). lia.
    + destruct (renew_leases_wf t now ttl r Hwf) as [? Hx]. split; [done|rewrite Hx; lia].
    + destruct (revoke_leases_wf t now note r Hwf) as [? Hx]. split; [done|rewrite Hx; lia].
  - by apply (registry_wf_same n r).
Qed.

(** Lease identifiers are issued once as long as fewer than 2^64 - 2 calls were made. *)
Lemma registry_wf_run ops :
  zlen ops < 2 ^ 64 - 2 → registry_wf (zlen ops) (run empty_registry ops).
Proof.
  induction ops as [|o ops IH] using rev_ind; intros Hn; [apply registry_wf_empty|].
  rewrite run_app. autorewrite with fabric in *. change (zlen []) with 0 in *.
  replace (zlen ops + (1 + 0)) with (zlen ops + 1) by lia. simpl.
  apply registry_wf_step; [lia|]. apply IH. lia.
Qed.

Lemma run_epoch_nonneg site ops : 0 ≤ current_epoch site (run empty_registry ops).
Proof. apply (epoch_run site empty_registry ops). Qed.

(** C8: a grant is authority: in any reachable registry, a granted acquisition returns the
    token for exactly the request, makes its epoch the site's current epoch and its lease
    the site's controller, and the token validates at every instant of its window; a
    refused acquisition returns no token and leaves the controller as it was. *)
Theorem acquire_grants_authority (ops : list op) (holder site : string) (ep : epoch)
    (inc : incarnation) (gen : generation) (now_ms ttl_ms : Z) :
  zlen ops < 2 ^ 64 - 2 → 0 ≤ ep →
  let r := run empty_registry ops in
  let '(s, t, r') := acquire_site_authority holder site ep inc gen now_ms ttl_ms r in
  (s = Status.GRANTED → ∃ t', t = Some t'
     ∧ t' = AuthorityToken AuthorityKind.SITE_CONTROLLER holder site ep inc gen (tok_lease_id t')
              now_ms (now_ms + ttl_ms)
     ∧ current_epoch site r' = ep ∧ current_controller site r' = Some t'
     ∧ ∀ instant, now_ms ≤ instant ≤ now_ms + ttl_ms → is_ok (validate_token t' instant r') = true)
  ∧ (s ≠ Status.GRANTED → t = None ∧ site_controllers r' = site_controllers r).
Proof.
  intros Hn Hpos. cbv zeta. destruct (registry_wf_run ops Hn) as [Hwf Hid].
  pose proof (run_epoch_nonneg site ops) as Hcur. set (r := run empty_registry ops) in *.
  destruct (acquire_cases holder site ep inc gen now_ms ttl_ms r)
    as [->|[(_ & _ & ->)|(Hh & Hs & He & Hi & Ht & Hnow & Hep & ->)]]; [done..|].
  destruct (acquire_lease_post holder site ep inc gen now_ms ttl_ms Hh Hs He Hi Hnow Ht
    (set_epoch site (Z.max (current_epoch site r) ep) r)) as (_ & _ & Hg & Hr); [done|simpl; lia|].
  destruct (acquire_lease _ _ _ _ _ _ _ _) as [[s t] r']. simpl in *. split; [|done].
  intros ->. destruct Hg as (t' & -> & Heq & Hv & Hepochs & Hctl & l & Hl & Htok & Hst); [done|].
  assert (current_epoch site r' = ep) as Hnew.
  { rewrite (current_epoch_same site (set_epoch site (Z.max (current_epoch site r) ep) r) r') by done.
    rewrite current_epoch_set, decide_True by done. lia. }
  assert (token_key t' = lease_key site AuthorityKind.SITE_CONTROLLER holder
          ∧ tok_site t' = site ∧ tok_epoch t' = ep ∧ tok_issued_at_ms t' = now_ms
          ∧ tok_expires_at_ms t' = now_ms + ttl_ms) as (Hkey & Es & Ee & Ei & Ex) by (by rewrite Heq).
  exists t'. split_and!; [done|done|done| |].
  - unfold current_controller. rewrite Hctl. simpl. rewrite Hl. simpl. by rewrite Htok.
  - intros instant Hin. apply validate_token_holds. split_and!; [done|by rewrite Es, Ee|].
    exists l. rewrite Hkey, Htok, Hst. split_and!; try done. apply evaluate_at_ok. split; [done|lia].
Qed.

Definition sample_holder : incarnation := Incarnation 1 "boot-1".
Definition sample_rival : incarnation := Incarnation 2 "boot-2".
Definition sample_token : token :=
  AuthorityToken AuthorityKind.SITE_CONTROLLER "holder-a" "site-a" 1 sample_holder 1 1 1 11.

Lemma acquire_grants_authority_witness :
  current_epoch "site-a"
    (acquire_site_authority "holder-a" "site-a" 1 sample_holder 1 1 10 (run empty_registry [])).2 = 1.
Proof.
  pose proof (acquire_grants_authority [] "holder-a" "site-a" 1 sample_holder 1 1 10
    ltac:(done) ltac:(done)) as H. cbv zeta in H.
  destruct (acquire_site_authority _ _ _ _ _ _ _ _) as [[s t] r'] eqn:E.
  destruct H as [H _]. destruct H as (t' & _ & _ & Hep & _); [|exact Hep].
  vm_compute in E. injection E as <- _ _. reflexivity.
Defined.

(** C9: a fenced epoch never returns: whatever calls follow, in any order, the epoch
    the registry knows for a site never falls, and a token of an epoch already superseded is
    refused at every instant. *)
Theorem superseded_epoch_never_valid (t : token) (r : registry) (ops : list op) (instant : Z) :
  current_epoch (tok_site t) r ≤ current_epoch (tok_site t) (run r ops)
  ∧ (tok_epoch t < current_epoch (tok_site t) r →
     is_ok (validate_token t instant (run r ops)) = false).
Proof.
  pose proof (epoch_run (tok_site t) r ops) as Hrun. split; [done|]. intros Hlt.
  apply not_true_is_false. rewrite validate_token_holds. intros (_ & Heq & _). lia.
Qed.

Lemma superseded_epoch_never_valid_witness :
  is_ok (validate_token sample_token 5
    (run (set_epoch "site-a" 2 empty_registry) [Renew sample_token 2 10])) = false.
Proof. apply superseded_epoch_never_valid. vm_compute. reflexivity. Defined.

(** ** Revocation *)

Definition lease_revoked (key : string) (r : registry) : Prop :=
  ∃ l, leases r !! key = Some l ∧ lr_state l = LeaseState.REVOKED.

Lemma revoked_insert_ne key key' l r :
  key' ≠ key → lease_revoked key r → lease_revoked key (set_lease key' l r).
Proof. intros Hne (l' & Hl & Hs). exists l'. simpl. by rewrite lookup_insert_ne. Qed.

Lemma revoked_same key r r' : leases r' = leases r → lease_revoked key r → lease_revoked key r'.
Proof. unfold lease_revoked. by intros ->. Qed.

(** A lease found in a state other than REVOKED is not the revoked one. *)
Lemma revoked_other key key' l r :
  lease_revoked key r → leases r !! key' = Some l → lr_state l ≠ LeaseState.REVOKED → key' ≠ key.
Proof. intros (l' & Hl & Hs) Hl' Hne ->. congruence. Qed.

Lemma revoked_acquire_lease key holder site ep inc gen now ttl r :
  lease_revoked key r → lease_revoked key (acquire_lease holder site ep inc gen now ttl r).2.
Proof.
  intros Hr. unfold acquire_lease.
  destruct (leases r !! lease_key _ _ _) as [record|] eqn:Hl.
  - unfold acquire_again. cbv zeta. case_bool_decide as Hrev; [done|].
    pose proof (revoked_other _ _ _ _ Hr Hl Hrev) as Hne.
    destruct (negb _ && _); [done|]. destruct (negb _ && _); [done|].
    destruct (gen <? _); simpl; by apply revoked_insert_ne.
  - assert (∀ r0, lease_revoked key r0 → leases r0 !! lease_key site AuthorityKind.SITE_CONTROLLER holder = None →
      lease_revoked key (grant_new holder site ep inc gen now ttl r0).2) as Hnew.
    { intros r0 Hr0 Hn. unfold grant_new. simpl.
      apply (revoked_insert_ne _ _ _ (take_lease_id r0)); [|by apply (revoked_same _ r0)].
      intros <-. destruct Hr0 as (? & ? & _). congruence. }
    unfold acquire_first. destruct (site_controllers r !! site) as [controller|]; [|by apply Hnew].
    case_bool_decide as Hck; [by apply Hnew|].
    destruct (leases r !! controller) as [other|] eqn:Ho; [|by apply Hnew].
    destruct (unexpired other now); [done|]. case_bool_decide as Hrev; [done|].
    destruct (_ <=? _); [done|]. apply Hnew.
    + apply revoked_insert_ne; [|done]. by eapply revoked_other.
    + simpl. by rewrite lookup_insert_ne.
Qed.

Lemma revoked_step key r o : lease_revoked key r → lease_revoked key (apply_op r o).
Proof.
  intros Hr. destruct o as [holder site ep inc gen now ttl|t now ttl|t now note| | | |];
    try (apply (revoked_same _ r); [by apply member_ops_leases|done]); simpl.
  - destruct (acquire_cases holder site ep inc gen now ttl r)
      as [->|[(_ & _ & ->)|(_ & _ & _ & _ & _ & _ & _ & ->)]]; [done|by apply (revoked_same _ r)|].
    apply revoked_acquire_lease. by apply (revoked_same _ r).
  - unfold renew. destruct (negb _ || _ || _); [done|]. destruct (match _ with Some _ => _ | None => _ end); [done|].
    destruct (leases r !! token_key t) as [record|] eqn:Hl; [|done]. cbv zeta.
    destruct (negb _); [done|]. destruct (negb _); [done|]. destruct (negb _); [done|].
    case_bool_decide as Hrev; [done|]. pose proof (revoked_other _ _ _ _ Hr Hl Hrev) as Hne.
    destruct (bool_decide _); simpl; [by apply revoked_insert_ne|].
    destruct (negb _); [done|]. by apply revoked_insert_ne.
  - unfold revoke. destruct (negb _); [done|].
    destruct (leases r !! token_key t) as [record|] eqn:Hl; [|done]. destruct (negb _); [done|].
    destruct (decide (token_key t = key)) as [<-|]; [|by apply revoked_insert_ne].
    eexists. simpl. by rewrite lookup_insert_eq.
Qed.

Lemma revoked_run key r ops : lease_revoked key r → lease_revoked key (run r ops).
Proof.
  apply (run_invariant (lease_revoked key) (λ _, True)); [by intros; apply revoked_step|].
  by apply Forall_true.
Qed.

(** Revocation is permanent: after a lease is revoked, no token naming that holder's
    lease on that site validates or renews again, whatever calls follow and whatever the
    instant - expiry, re-acquisition and higher epochs included. *)
Theorem revocation_permanent (t u : token) (now_ms instant : Z) (note : string) (r : registry)
    (ops : list op) :
  (revoke t now_ms note r).1 = Status.OK → token_key u = token_key t →
  let later := run (revoke t now_ms note r).2 ops in
  is_ok (validate_token u instant later) = false
  ∧ ∀ ttl, (renew u instant ttl later).1.1 ≠ Status.RENEWED.
Proof.
  intros Hok Hkey. cbv zeta. assert (lease_revoked (token_key t) (revoke t now_ms note r).2) as Hr.
  { revert Hok. unfold revoke. destruct (negb _); [done|].
    destruct (leases r !! token_key t); [|done]. destruct (negb _); [done|]. intros _.
    eexists. simpl. by rewrite lookup_insert_eq. }
  apply (revoked_run _ _ ops) in Hr as (l & Hl & Hs). split.
  - apply not_true_is_false. rewrite validate_token_holds.
    intros (_ & _ & l' & Hl' & _ & _ & _ & Hne & _). rewrite Hkey in Hl'. congruence.
  - intros ttl. unfold renew. destruct (negb _ || _ || _); [done|].
    destruct (match _ with Some _ => _ | None => _ end); [done|]. rewrite Hkey, Hl. cbv zeta.
    destruct (negb _); [done|]. destruct (negb _); [done|]. destruct (negb _); [done|].
    by rewrite bool_decide_eq_true_2.
Qed.

Definition sample_registry : registry :=
  run empty_registry [Acquire "holder-a" "site-a" 1 sample_holder 1 1 10].

Lemma revocation_permanent_witness :
  is_ok (validate_token sample_token 5
    (run (revoke sample_token 2 "lost" sample_registry).2
       [Acquire "holder-a" "site-a" 2 sample_rival 2 3 10])) = false.
Proof. apply revocation_permanent; vm_compute; reflexivity. Defined.

(** ** Takeover without a check

    [acquire_again] never looks at the current controller: a holder that was superseded can
    take the site back with its old incarnation while the new controller's lease runs. *)

(** Two controllers at once: after a rival took over an expired lease, the superseded
    holder's second acquisition is granted inside the rival's unexpired window, and then both
    tokens, of different holders and incarnations, validate at the same instant. *)
Theorem superseded_holder_can_retake :
  let a now r := acquire_site_authority "holder-a" "site-a" 1 sample_holder 1 now 10 r in
  let '(s1, t1, r1) := a 1 empty_registry in
  let '(s2, t2, r2) := acquire_site_authority "holder-b" "site-a" 1 sample_rival 1 20 10 r1 in
  let '(s3, t3, r3) := a 21 r2 in
  s1 = Status.GRANTED ∧ s2 = Status.GRANTED ∧ s3 = Status.GRANTED
  ∧ match t2, t3 with
    | Some tb, Some ta =>
        tok_holder ta ≠ tok_holder tb ∧ tok_incarnation ta ≠ tok_incarnation tb
        ∧ is_ok (validate_token tb 25 r3) = true ∧ is_ok (validate_token ta 25 r3) = true
    | _, _ => False
    end.
Proof. vm_compute. split_and!; [done..| | |done|done]; by intros [=]. Qed.

(** A controller whose lease was revoked blocks the site for every holder without a
    lease record: the acquisition is refused whatever the epoch, incarnation, instant and
    validity offered. *)
Theorem revoked_controller_blocks_newcomers (controller : string) (l : lease_record)
    (holder site : string) (ep : epoch) (inc : incarnation) (gen : generation)
    (now_ms ttl_ms : Z) (r : registry) :
  site_controllers r !! site = Some controller → leases r !! controller = Some l →
  lr_state l = LeaseState.REVOKED →
  leases r !! lease_key site AuthorityKind.SITE_CONTROLLER holder = None →
  (acquire_site_authority holder site ep inc gen now_ms ttl_ms r).1.1
    ∈ [Status.INVALID; Status.FENCED_EPOCH; Status.LEASE_REVOKED].
Proof.
  intros Hc Hl Hrev Hnone.
  destruct (acquire_cases holder site ep inc gen now_ms ttl_ms r)
    as [->|[(_ & _ & ->)|(_ & _ & _ & _ & _ & _ & _ & ->)]]; [set_solver..|].
  unfold acquire_lease, acquire_first. simpl. rewrite Hnone, Hc.
  rewrite bool_decide_eq_false_2 by (intros ->; congruence). rewrite Hl.
  unfold unexpired. rewrite Hrev. simpl. set_solver.
Qed.

Lemma revoked_controller_blocks_newcomers_witness :
  (acquire_site_authority "holder-b" "site-a" 7 sample_rival 9 1000 10
     (revoke sample_token 2 "lost" sample_registry).2).1.1
    ∈ [Status.INVALID; Status.FENCED_EPOCH; Status.LEASE_REVOKED].
Proof.
  eapply revoked_controller_blocks_newcomers; vm_compute; reflexivity.
Defined.

(** ** Dead incarnations *)

Lemma is_dead_mono d i r r' :
  (default ∅ (tombstones r !! d) ⊆ default ∅ (tombstones r' !! d)) →
  is_dead d i r = true → is_dead d i r' = true.
Proof. unfold is_dead. rewrite !bool_decide_eq_true. set_solver. Qed.

Lemma is_dead_same d i r r' : tombstones r' = tombstones r → is_dead d i r' = is_dead d i r.
Proof. unfold is_dead. by intros ->. Qed.

Lemma is_dead_bury d d' i j r : is_dead d i r = true → is_dead d i (bury d' j r) = true.
Proof.
  apply is_dead_mono. simpl. rewrite lookup_insert. case_decide; subst; simpl; set_solver.
Qed.

Lemma bury_dead d i r : is_dead d i (bury d i r) = true.
Proof. unfold is_dead. apply bool_decide_eq_true. simpl. rewrite lookup_insert_eq. simpl. set_solver. Qed.

(** The incarnation an admission is about: an absent sequence is issued. *)
Definition candidate (d : member_domain_key) (inc : incarnation) (r : registry) : incarnation :=
  if inc_sequence inc =? 0
  then Incarnation (ds_next_sequence (default new_domain (domains r !! d))) (inc_boot inc)
  else inc.

(** What an admission can do: refuse and leave everything but the domain's entry as it was,
    or make the candidate live, burying the incarnation it replaces. *)
Lemma admit_cases d inc now r :
  let s := default new_domain (domains r !! d) in
  let r0 := set_domain d s r in
  let cand := candidate d inc r in
  let res := admit_member_incarnation d inc now r in
  (res.1.1 ≠ Status.OK ∧ res.1.1 ≠ Status.ALREADY_EXISTS ∧ (res.2 = r ∨ res.2 = r0))
  ∨ (is_dead d cand r = false ∧ ds_has_live s = true ∧ ds_live s = cand
     ∧ res = (Status.ALREADY_EXISTS, Some (inc_sequence cand), r0))
  ∨ (is_dead d cand r = false ∧ ds_has_live s = false ∧ ds_next_sequence s ≤ inc_sequence cand
     ∧ res = (Status.OK, Some (inc_sequence cand), set_domain d (enliven cand now s) r0))
  ∨ (is_dead d cand r = false ∧ ds_has_live s = true ∧ ds_live s ≠ cand
     ∧ inc_sequence (ds_live s) < inc_sequence cand
     ∧ res = (Status.OK, Some (inc_sequence cand),
              set_domain d (enliven cand now s) (bury d (ds_live s) r0))).
Proof.
  cbv zeta. unfold admit_member_incarnation. cbv zeta.
  destruct (_ || (now <=? 0)); [left; naive_solver|].
  fold (candidate d inc r).
  set (s := default new_domain _). set (cand := candidate d inc r).
  rewrite (is_dead_same d cand r (set_domain d s r)) by done.
  destruct (is_dead d cand r); [left; naive_solver|].
  destruct (ds_has_live s); simpl.
  - case_bool_decide; [right; left; done|].
    destruct (Z.ltb_spec (inc_sequence cand) (inc_sequence (ds_live s))); [left; naive_solver|].
    destruct (Z.eqb_spec (inc_sequence cand) (inc_sequence (ds_live s))); [left; naive_solver|].
    do 3 right. split_and!; done || lia.
  - destruct (Z.ltb_spec (inc_sequence cand) (ds_next_sequence s)); [left; naive_solver|].
    right. right. left. done.
Qed.

Lemma dead_step d i r o : is_dead d i r = true → is_dead d i (apply_op r o) = true.
Proof.
  intros Hd. destruct o as [| | |d' inc now|d' inc now|d' of' now|d'];
    try (rewrite (is_dead_same d i r); [done|by apply lease_ops_domains]); simpl.
  - destruct (admit_cases d' inc now r)
      as [(_ & _ & [->| ->])|[(_ & _ & _ & ->)|[(_ & _ & _ & ->)|(_ & _ & _ & _ & ->)]]]; try done.
    by apply (is_dead_bury _ _ _ _ (set_domain _ _ r)).
  - unfold retire_member_incarnation. destruct (_ || _); [done|].
    pose proof (is_dead_bury d d' i inc r Hd). cbv zeta. repeat case_match; done.
  - unfold record_publication. by destruct (_ || _).
  - done.
Qed.

Lemma dead_run d i r ops : is_dead d i r = true → is_dead d i (run r ops) = true.
Proof.
  apply (run_invariant (λ r, is_dead d i r = true) (λ _, True)); [by intros; apply dead_step|].
  by apply Forall_true.
Qed.

Lemma fence_dead d o r : is_dead d (of_incarnation o) r = true → is_ok (fence_publication d o r) = false.
Proof. intros Hd. unfold fence_publication. destruct (_ || _); [done|]. by rewrite Hd. Qed.

Lemma admit_dead d i now r :
  inc_sequence i ≠ 0 → is_dead d i r = true →
  (admit_member_incarnation d i now r).1.1 ∈ [Status.INVALID; Status.FENCED_INCARNATION].
Proof.
  intros Hne Hd. unfold admit_member_incarnation. destruct (_ || (now <=? 0)); [set_solver|]. cbv zeta.
  rewrite (proj2 (Z.eqb_neq _ _) Hne), (is_dead_same d i r) by done. rewrite Hd. set_solver.
Qed.

Lemma dead_not_live d i r : is_dead d i r = true → member_incarnation_live d i r = false.
Proof. unfold member_incarnation_live. by intros ->. Qed.

Lemma live_inv d i r :
  member_incarnation_live d i r = true →
  is_dead d i r = false ∧ ∃ s, domains r !! d = Some s ∧ ds_has_live s = true ∧ ds_live s = i.
Proof.
  unfold member_incarnation_live. destruct (is_dead d i r); [done|].
  destruct (domains r !! d) as [s|]; [|done]. rewrite andb_true_iff, bool_decide_eq_true. naive_solver.
Qed.

(** One call displaces [i]: it is retired, or it was live and another is admitted. *)
Definition displaces (d : member_domain_key) (i : incarnation) (r r' : registry) : Prop :=
  (∃ now_ms, retire_member_incarnation d i now_ms r = (Status.OK, r'))
  ∨ (member_incarnation_live d i r = true
     ∧ ∃ j now_ms q, admit_member_incarnation d j now_ms r = (Status.OK, q, r')).

Lemma displaces_dead d i r r' : displaces d i r r' → is_dead d i r' = true.
Proof.
  intros [[now Hret]|[(_ & s & Hs & Hl & Hi)%live_inv (j & now & q & Had)]].
  - unfold retire_member_incarnation in Hret. destruct (_ || _); [done|]. cbv zeta in Hret.
    pose proof (bury_dead d i r) as Hb.
    destruct (domains _ !! d); [destruct (_ && _)|]; by injection Hret as <-.
  - pose proof (admit_cases d j now r) as Hc. cbv zeta in Hc. rewrite Had in Hc.
    rewrite Hs in Hc. simpl in Hc. subst i.
    destruct Hc as [(? & _)|[(_ & _ & _ & [=])|[(_ & ? & _)|(_ & _ & _ & _ & [= _ ->])]]];
      [done|congruence|]. rewrite (is_dead_same d _ (bury d (ds_live s) r)) by done. apply bury_dead.
Qed.

(** A displaced member never returns: once an incarnation was retired, or another was
    admitted over it, then whatever calls follow (an operator's reset included) it is not
    live, none of its publications passes the fence, and it is never admitted again. *)
Theorem displaced_incarnation_never_returns (d : member_domain_key) (i : incarnation)
    (r r' : registry) (ops : list op) (now_ms : Z) (o : offer) :
  inc_sequence i ≠ 0 → of_incarnation o = i → displaces d i r r' →
  let later := run r' ops in
  member_incarnation_live d i later = false
  ∧ is_ok (fence_publication d o later) = false
  ∧ (admit_member_incarnation d i now_ms later).1.1 ∈ [Status.INVALID; Status.FENCED_INCARNATION].
Proof.
  intros Hne Ho Hd%displaces_dead. cbv zeta. apply (dead_run _ _ _ ops) in Hd. split_and!.
  - by apply dead_not_live.
  - apply fence_dead. by rewrite Ho.
  - by apply admit_dead.
Qed.

Definition sample_domain : member_domain_key := MemberDomainKey MemberDomainKind.RACK "rack-1".
Definition sample_offer : offer :=
  Offer 1 sample_holder 3 (repeat x01 32) (PublishAttempt 4 1).
(** A member admitted and published once. *)
Definition sample_domains : registry :=
  run empty_registry [Admit sample_domain sample_holder 1; Record sample_domain sample_offer 2].

Lemma displaced_incarnation_never_returns_witness :
  member_incarnation_live sample_domain sample_holder sample_domains = true
  ∧ is_ok (fence_publication sample_domain (Offer 1 sample_holder 9 (repeat x02 32) (PublishAttempt 9 1))
      (run (admit_member_incarnation sample_domain sample_rival 5 sample_domains).2
         [Clear sample_domain; Admit sample_domain sample_rival 7])) = false.
Proof.
  split; [vm_compute; reflexivity|].
  refine (proj1 (proj2 (displaced_incarnation_never_returns sample_domain sample_holder sample_domains
    _ _ 9 _ _ _ _))); [done|done|].
  right. split; [vm_compute; reflexivity|]. exists sample_rival, 5, (Some 2).
  vm_compute. reflexivity.
Defined.

(** ** Replays *)

Definition beyond (s : domain_state) (o : offer) : Prop :=
  of_generation o < ds_generation s
  ∨ of_generation o = ds_generation s
    ∧ (of_digest o = ds_digest s →
       pa_sequence (of_attempt o) < pa_sequence (ds_attempt s)
       ∨ pa_sequence (of_attempt o) = pa_sequence (ds_attempt s)
         ∧ pa_attempt (of_attempt o) ≤ pa_attempt (ds_attempt s)).

(** [i] is dead for good, or it is the live incarnation and its domain's marks are [P]. *)
Definition held (d : member_domain_key) (i : incarnation) (P : domain_state → Prop) (r : registry) : Prop :=
  is_dead d i r = true ∨ ∃ s, domains r !! d = Some s ∧ ds_has_live s = true ∧ ds_live s = i ∧ P s.

(** What stands in the way of [o]: its incarnation is dead, or it is live and has published
    at or past the offer's marks. *)
Definition barred (d : member_domain_key) (o : offer) : registry → Prop :=
  held d (of_incarnation o) (λ s, ds_published s = true ∧ beyond s o).

Lemma fence_marks_beyond s o : beyond s o → is_ok (fence_marks s o) = false.
Proof.
  unfold beyond, fence_marks. intros Hb.
  destruct (Z.ltb_spec (of_generation o) (ds_generation s)); [done|].
  destruct Hb as [?|[Heq Hb]]; [lia|]. rewrite Heq, Z.eqb_refl. simpl.
  case_bool_decide as Hd; simpl; [|done]. specialize (Hb Hd).
  destruct (Z.ltb_spec (pa_sequence (of_attempt o)) (pa_sequence (ds_attempt s))); [done|].
  destruct Hb as [?|[-> Hle]]; [lia|]. rewrite Z.eqb_refl. by rewrite (proj2 (Z.leb_le _ _) Hle).
Qed.

Lemma fence_barred d o r : barred d o r → is_ok (fence_publication d o r) = false.
Proof.
  intros [Hd|(s & Hs & Hl & Hi & Hp & Hb)]; [by apply fence_dead|].
  unfold fence_publication. destruct (_ || _); [done|].
  destruct (is_dead _ _ _); [done|]. rewrite Hs, Hl, Hi. simpl.
  rewrite bool_decide_eq_true_2 by done. simpl. destruct (is_set _ && _); [done|]. rewrite Hp.
  by apply fence_marks_beyond.
Qed.

(** An offer the marks let pass is at or past them in every component. *)
Lemma fence_marks_ok s o :
  is_ok (fence_marks s o) = true →
  ds_generation s < of_generation o
  ∨ ds_generation s = of_generation o ∧ ds_digest s = of_digest o
    ∧ (pa_sequence (ds_attempt s) < pa_sequence (of_attempt o)
       ∨ pa_sequence (ds_attempt s) = pa_sequence (of_attempt o)
         ∧ pa_attempt (ds_attempt s) < pa_attempt (of_attempt o)).
Proof.
  unfold fence_marks. destruct (Z.ltb_spec (of_generation o) (ds_generation s)); [done|].
  destruct (Z.eqb_spec (of_generation o) (ds_generation s)); [|left; lia]. simpl.
  case_bool_decide; simpl; [|done].
  destruct (Z.ltb_spec (pa_sequence (of_attempt o)) (pa_sequence (ds_attempt s))); [done|].
  destruct (Z.eqb_spec (pa_sequence (of_attempt o)) (pa_sequence (ds_attempt s))); simpl.
  - destruct (Z.leb_spec (pa_attempt (of_attempt o)) (pa_attempt (ds_attempt s))); simpl; [done|].
    intros _. right. naive_solver lia.
  - intros _. right. naive_solver lia.
Qed.

(** A publication that passes the fence: its incarnation is the live one. *)
Lemma fence_ok d o r :
  is_ok (fence_publication d o r) = true →
  is_dead d (of_incarnation o) r = false
  ∧ ∃ s, domains r !! d = Some s ∧ ds_has_live s = true ∧ ds_live s = of_incarnation o
      ∧ (ds_published s = true → is_ok (fence_marks s o) = true).
Proof.
  unfold fence_publication. destruct (_ || _); [done|]. destruct (is_dead _ _ _); [done|].
  destruct (domains r !! d) as [s|]; [|done]. destruct (ds_has_live s) eqn:Hl; simpl; [|done].
  case_bool_decide; simpl; [|done]. destruct (_ && _); [done|]. intros Hm. split; [done|].
  exists s. split_and!; try done. intros Hp. by rewrite Hp in Hm.
Qed.

Lemma held_same d i P r r' :
  tombstones r' = tombstones r → domains r' !! d = domains r !! d → held d i P r → held d i P r'.
Proof. unfold held. intros Ht ->. by rewrite (is_dead_same _ _ _ _ Ht). Qed.

Lemma held_other d i P d' s r : d' ≠ d → held d i P r → held d i P (set_domain d' s r).
Proof. intros. apply (held_same _ _ _ r); [done| |done]. simpl. by rewrite lookup_insert_ne. Qed.

Lemma held_default d i P d' r :
  held d i P r → held d i P (set_domain d' (default new_domain (domains r !! d')) r).
Proof.
  destruct (decide (d' = d)) as [->|]; [|by apply held_other].
  intros [Hd|(s & Hs & H)]; [by left|]. right. exists s. rewrite Hs. simpl. by rewrite lookup_insert_eq.
Qed.

Lemma held_admit d i P d' inc now r :
  held d i P r → held d i P (admit_member_incarnation d' inc now r).2.
Proof.
  intros Hb.
  destruct (admit_cases d' inc now r)
    as [(_ & _ & [->| ->])|[(_ & _ & _ & ->)|[(_ & Hnl & _ & ->)|(_ & _ & _ & _ & ->)]]];
    [done|by apply held_default..| |]; cbn [snd].
  - destruct (decide (d' = d)) as [->|]; [|by apply held_other, held_default].
    destruct Hb as [Hd|(s & Hs & Hl & _)]; [by left|]. rewrite Hs in Hnl. simpl in Hnl. congruence.
  - destruct Hb as [Hd|Hb].
    { left. rewrite (is_dead_same _ _ (bury d' (ds_live (default new_domain (domains r !! d'))) r)) by done.
      by apply is_dead_bury. }
    destruct (decide (d' = d)) as [->|].
    + destruct Hb as (s & Hs & _ & Hi & _). left. rewrite Hs. simpl. rewrite <- Hi.
      rewrite (is_dead_same _ _ (bury d (ds_live s) r)) by done. apply bury_dead.
    + apply held_other; [done|]. right. simpl. by rewrite lookup_insert_ne.
Qed.

Lemma held_retire d i P d' j now r :
  held d i P r → held d i P (retire_member_incarnation d' j now r).2.
Proof.
  intros Hb. unfold retire_member_incarnation. destruct (_ || _); [done|]. cbv zeta.
  assert (held d i P (bury d' j r)) as Hb'.
  { destruct Hb as [Hd|Hb]; [left; by apply is_dead_bury|by right]. }
  destruct (domains _ !! d') as [s'|] eqn:Hs'; [|done].
  destruct (ds_has_live s' && _) eqn:Hm; [|done]. cbn [snd].
  rewrite andb_true_iff, bool_decide_eq_true in Hm. destruct Hm as [_ Hi].
  destruct (decide (d' = d)) as [->|]; [|by apply held_other]. left.
  destruct Hb' as [Hd|(s & Hs & _ & Hi' & _)]; [done|]. simpl in Hs, Hs'.
  replace i with j by congruence. apply (bury_dead d j r).
Qed.

(** A record sets the marks of its domain, whatever they were. *)
Lemma held_record d i (P Q : domain_state → Prop) d' o now r :
  (∀ s, P s → Q s) →
  (d' = d → ∀ s, ds_generation s = of_generation o → ds_digest s = of_digest o → ds_attempt s = of_attempt o →
     ds_published s = true → Q s) →
  held d i P r → held d i Q (record_publication d' o now r).2.
Proof.
  intros HPQ HQ Hb. assert (held d i Q r) as Hb'.
  { destruct Hb as [?|(s & ? & ? & ? & ?)]; [by left|right; exists s; eauto]. }
  unfold record_publication. destruct (_ || _); [done|]. cbn [snd].
  destruct (decide (d' = d)) as [->|]; [|by apply held_other].
  destruct Hb as [Hd|(s & Hs & Hl & Hi & _)]; [by left|]. right. eexists. simpl. rewrite lookup_insert_eq, Hs.
  split; [done|]. split; [done|]. split; [done|]. by apply HQ.
Qed.

(** No call but a record and an operator's reset touches what is held. *)
Lemma held_step d i P r c :
  match c with Clear d' => d' ≠ d | Record _ _ _ => False | _ => True end → held d i P r → held d i P (apply_op r c).
Proof.
  intros Hc Hb. pose proof (lease_ops_domains r c) as Hlease.
  destruct c as [| | |d' inc now|d' inc now|d' o' now|d'];
    try (destruct (Hlease I) as [Hd Ht]; apply (held_same _ _ _ r); [done|by rewrite Hd|done]);
    clear Hlease; cbn [apply_op].
  - by apply held_admit.
  - by apply held_retire.
  - done.
  - apply (held_same _ _ _ r); [done| |done]. simpl. by apply lookup_delete_ne.
Qed.

(** [o'] is a later publication than [o]. *)
Definition past (o o' : offer) : Prop :=
  of_generation o < of_generation o'
  ∨ of_generation o = of_generation o'
    ∧ (of_digest o = of_digest o' →
       pa_sequence (of_attempt o) < pa_sequence (of_attempt o')
       ∨ pa_sequence (of_attempt o) = pa_sequence (of_attempt o')
         ∧ pa_attempt (of_attempt o) < pa_attempt (of_attempt o')).

(** What passes the fence while [o] is barred is later than [o]; recording it keeps [o] barred,
    whenever that happens. *)
Lemma fence_past d o o' r : barred d o r → is_ok (fence_publication d o' r) = true → is_dead d (of_incarnation o) r = true ∨ past o o'.
Proof.
  intros [Hd|(s & Hs & _ & _ & Hp & Hb)] Hok; [by left|right].
  destruct (fence_ok d o' r Hok) as (_ & s0 & Hs0 & _ & _ & Hm). rewrite Hs in Hs0. injection Hs0 as <-.
  specialize (Hm Hp). apply fence_marks_ok in Hm. unfold beyond in Hb. unfold past.
  destruct Hb as [?|[Hbg Hb]]; [left; destruct Hm as [?|[? _]]; lia|].
  destruct Hm as [?|(Hmg & Hsame & Hm)]; [left; lia|]. right. split; [lia|]. intros Heq. rewrite Hsame in Hb. specialize (Hb Heq). lia.
Qed.

Lemma record_past d o d' o' now r : (d' = d → past o o') → barred d o r → barred d o (record_publication d' o' now r).2.
Proof.
  intros Hp. unfold barred. apply (held_record _ _ (λ s, ds_published s = true ∧ beyond s o)); [tauto|].
  intros Hd s Hg Hdig Ha Hpub. split; [exact Hpub|]. unfold beyond.
  rewrite Hg, Hdig, Ha. destruct (Hp Hd) as [?|[? Hlater]]; [by left|right]. split; [done|]. intros Heq. specialize (Hlater Heq). lia.
Qed.

(** What passed the fence was sent by the live incarnation, which is held from then on. *)
Lemma fence_held d o r : is_ok (fence_publication d o r) = true → held d (of_incarnation o) (λ _, True) r.
Proof. intros (_ & s & Hs & Hl & Hi & _)%fence_ok. right. by exists s. Qed.

Lemma recorded_barred d o now r : held d (of_incarnation o) (λ _, True) r →
  mdk_valid d = true → is_set (of_generation o) = true → digest_is_zero (of_digest o) = false →
  barred d o (record_publication d o now r).2.
Proof.
  intros Hh Hd Hg Hz. unfold record_publication. rewrite Hd, Hg, Hz. cbn [negb orb snd].
  destruct Hh as [?|(s & Hs & Hl & Hi & _)]; [by left|]. right. eexists. simpl. rewrite lookup_insert_eq, Hs.
  split; [done|]. split; [done|]. split; [done|]. split; [done|]. right. split; [done|]. intros _. right. by split.
Qed.

Lemma fence_ok_valid d o r :
  is_ok (fence_publication d o r) = true →
  mdk_valid d = true ∧ is_set (of_generation o) = true ∧ digest_is_zero (of_digest o) = false.
Proof.
  unfold fence_publication. by destruct (mdk_valid d), (is_set _), (digest_is_zero _).
Qed.

(** *** Callers that interleave

    A caller asks the fence, and later records what passed. The calls of several callers come
    in any order. *)
Inductive call : Type :=
| Asks (d : member_domain_key) (o : offer)
| Does (c : op).

Definition calls_run (r : registry) (calls : list call) : registry :=
  foldl (λ r c, match c with Asks _ _ => r | Does c => apply_op r c end) r calls.

(** Every record of [d] is of an offer in [tickets] or of one that passed the fence since, and
    no operator resets [d]. *)
Fixpoint ticketed (d : member_domain_key) (tickets : list offer) (r : registry) (calls : list call) : Prop :=
  match calls with
  | [] => True
  | Asks d' o :: calls =>
      ticketed d (if bool_decide (d' = d) && is_ok (fence_publication d' o r) then o :: tickets else tickets) r calls
  | Does c :: calls =>
      match c with Record d' o _ => d' = d → o ∈ tickets | Clear d' => d' ≠ d | _ => True end
      ∧ ticketed d tickets (apply_op r c) calls
  end.

Lemma ticketed_barred d o calls : ∀ tickets r,
  barred d o r → (is_dead d (of_incarnation o) r = true ∨ Forall (past o) tickets) → ticketed d tickets r calls →
  barred d o (calls_run r calls).
Proof.
  induction calls as [|[d' o'|c] calls IH]; intros tickets r Hb Ht Hc; [done|..].
  - cbn in Hc |- *. eapply IH; [exact Hb| |exact Hc]. destruct (bool_decide (d' = d)) eqn:Hd; [|exact Ht].
    destruct (is_ok (fence_publication d' o' r)) eqn:Hok; [|exact Ht]. cbn [andb]. apply bool_decide_eq_true in Hd as ->.
    destruct Ht as [?|Ht]; [by left|]. destruct (fence_past d o o' r Hb Hok) as [?|?]; [by left|]. right. by constructor.
  - cbn in Hc |- *. destruct Hc as [Hc Hcs].
    assert (is_dead d (of_incarnation o) (apply_op r c) = true ∨ Forall (past o) tickets) as Ht'
      by (destruct Ht; [left; by apply dead_step|by right]).
    eapply IH; [|exact Ht'|exact Hcs]. destruct Ht as [Hd|Ht]; [left; by apply dead_step|].
    assert (match c with Record _ _ _ => False | _ => True end → barred d o (apply_op r c)) as Hother.
    { intros Hn. refine (held_step d _ _ r c _ Hb). by destruct c. }
    destruct c as [| | | | |d' o' now|d']; try exact (Hother I).
    cbn [apply_op]. apply record_past; [|exact Hb]. intros Hd. rewrite Forall_forall in Ht. by apply Ht, Hc.
Qed.

(** C7: no publication is accepted twice: an offer that passed the fence and was recorded,
    however many calls later, is refused from then on, whatever calls follow - takeovers,
    retirements, leases, and publications of other callers whose fences and records interleave
    freely - as long as what is recorded of its domain passed the fence after it was recorded
    and no operator clears the domain. The condition is needed: the fence and the record are two
    calls, and [interleaved_publications_regress] shows what a fence asked before does. *)
Theorem no_publication_replay (d : member_domain_key) (o : offer) (now_ms : Z) (r : registry)
    (before : list op) (after : list call) :
  is_ok (fence_publication d o r) = true → Forall (λ c, c ≠ Clear d) before →
  let recorded := apply_op (run r before) (Record d o now_ms) in
  ticketed d [] recorded after →
  is_ok (fence_publication d o (calls_run recorded after)) = false.
Proof.
  intros Hok Hbefore recorded Hafter. pose proof (fence_ok_valid d o r Hok) as (Hd & Hg & Hz).
  assert (held d (of_incarnation o) (λ _, True) (run r before)) as Hheld.
  { eapply (run_invariant _ (λ c, c ≠ Clear d)); [|exact Hbefore|by apply fence_held].
    intros r' c Hc Hr. destruct c; try (apply held_step; [exact I|exact Hr]); [|apply held_step; [congruence|exact Hr]].
    cbn [apply_op]. apply (held_record _ _ (λ _, True) (λ _, True)); [tauto|tauto|exact Hr]. }
  apply fence_barred. eapply ticketed_barred; [|right; constructor|exact Hafter]. by apply recorded_barred.
Qed.

(** Between the fence and the record another member is admitted; afterwards the member
    publishes twice, the second publication asking before the first is recorded. *)
Lemma no_publication_replay_witness :
  let later n := Offer 1 sample_holder n (repeat x02 32) (PublishAttempt n 1) in
  let recorded := apply_op (run (run empty_registry [Admit sample_domain sample_holder 1])
                     [Admit (MemberDomainKey MemberDomainKind.POD "pod-1") sample_holder 2]) (Record sample_domain sample_offer 3) in
  let after := [Asks sample_domain (later 4); Asks sample_domain (later 5);
                Does (Record sample_domain (later 5) 4); Does (Record sample_domain (later 4) 5)] in
  is_ok (fence_publication sample_domain sample_offer (calls_run recorded after)) = false.
Proof.
  intros later recorded after.
  apply (no_publication_replay sample_domain sample_offer 3 (run empty_registry [Admit sample_domain sample_holder 1])
    [Admit (MemberDomainKey MemberDomainKind.POD "pod-1") sample_holder 2] after).
  - vm_compute. reflexivity.
  - constructor; [by intros [=]|constructor].
  - cbn [ticketed after]. assert (is_ok (fence_publication sample_domain (later 4) recorded) = true) as H4 by (vm_compute; reflexivity).
    assert (is_ok (fence_publication sample_domain (later 5) recorded) = true) as H5 by (vm_compute; reflexivity).
    fold recorded. rewrite H4, H5. rewrite bool_decide_eq_true_2 by reflexivity. cbn [andb].
    split; [intros _; left|]. split; [intros _; right; left|exact I].
Defined.

(** ** Sequences *)

(** The sequences a domain granted to new incarnations, in the order of the calls. *)
Definition granted_by (d : member_domain_key) (r : registry) (c : op) : list Z :=
  match c with
  | Admit d' i now_ms =>
      if decide (d' = d) then
        match admit_member_incarnation d i now_ms r with
        | (Status.OK, Some q, _) => [q]
        | _ => []
        end
      else []
  | _ => []
  end.
Fixpoint granted_sequences (d : member_domain_key) (r : registry) (ops : list op) : list Z :=
  match ops with
  | [] => []
  | c :: ops => granted_by d r c ++ granted_sequences d (apply_op r c) ops
  end.

(** The next sequence is past every one granted so far. *)
Definition sequence_wf (d : member_domain_key) (r : registry) : Prop :=
  let s := default new_domain (domains r !! d) in
  1 ≤ ds_next_sequence s ∧ (ds_has_live s = true → ds_next_sequence s = inc_sequence (ds_live s) + 1).

Definition next_sequence (d : member_domain_key) (r : registry) : Z :=
  ds_next_sequence (default new_domain (domains r !! d)).

Lemma sequence_same d r r' :
  domains r' !! d = domains r !! d →
  (sequence_wf d r → sequence_wf d r') ∧ next_sequence d r' = next_sequence d r.
Proof. unfold sequence_wf, next_sequence. by intros ->. Qed.

Lemma sequence_set_default d d' r :
  let r' := set_domain d' (default new_domain (domains r !! d')) r in
  (sequence_wf d r → sequence_wf d r') ∧ next_sequence d r' = next_sequence d r.
Proof.
  unfold sequence_wf, next_sequence. simpl. destruct (decide (d' = d)) as [->|].
  - by rewrite lookup_insert_eq.
  - by rewrite lookup_insert_ne.
Qed.

Lemma granted_new d cand now s r :
  0 ≤ inc_sequence cand < 2 ^ 64 - 1 →
  let r' := set_domain d (enliven cand now s) r in
  sequence_wf d r' ∧ next_sequence d r' = inc_sequence cand + 1.
Proof.
  intros Hr. unfold sequence_wf, next_sequence. simpl. rewrite lookup_insert_eq. simpl.
  rewrite wrap_small by (unfold in_u; lia). split_and!; [lia|done|done].
Qed.

Definition sequence_post (d : member_domain_key) (r r' : registry) (granted : list Z) : Prop :=
  sequence_wf d r'
  ∧ Forall (λ q, next_sequence d r ≤ q < next_sequence d r') granted
  ∧ (zlen granted ≤ 1) ∧ next_sequence d r ≤ next_sequence d r'.

Lemma sequence_post_same d r r' :
  (sequence_wf d r → sequence_wf d r') ∧ next_sequence d r' = next_sequence d r →
  sequence_wf d r → sequence_post d r r' [].
Proof. intros [Hs Hn] Hwf. split_and!; [by apply Hs|done|done|lia]. Qed.

Lemma sequence_post_set d d' s r :
  d' ≠ d → sequence_wf d r → sequence_post d r (set_domain d' s r) [].
Proof.
  intros Hne. apply sequence_post_same, sequence_same. simpl. by rewrite lookup_insert_ne.
Qed.

Lemma sequence_post_new d cand now s r r0 :
  sequence_wf d r → next_sequence d r ≤ inc_sequence cand → inc_sequence cand < 2 ^ 64 - 1 →
  sequence_post d r (set_domain d (enliven cand now s) r0) [inc_sequence cand].
Proof.
  intros [H1 _] Hle Hlt. fold (next_sequence d r) in H1.
  destruct (granted_new d cand now s r0) as [Hw Hn]; [lia|].
  split_and!; [done|constructor; [lia|done]|done|lia].
Qed.

Lemma sequence_admit d i now r :
  sequence_wf d r → Forall (λ q, q < 2 ^ 64 - 1) (granted_by d r (Admit d i now)) →
  sequence_post d r (apply_op r (Admit d i now)) (granted_by d r (Admit d i now)).
Proof.
  intros Hwf. cbn [apply_op granted_by]. rewrite decide_True by done.
  destruct (admit_cases d i now r)
    as [(Hn1 & Hn2 & Hr)|[(_ & _ & _ & ->)|[(_ & Hnl & Hle & ->)|(_ & Hl & _ & Hlt & ->)]]].
  - destruct (admit_member_incarnation d i now r) as [[st q] r']. cbn [fst snd] in *. intros _.
    assert (match st with Status.OK => match q with Some q0 => [q0] | None => [] end | _ => [] end
            = @nil Z) as -> by (by destruct st).
    apply sequence_post_same; [|done]. destruct Hr as [-> | ->]; [done|apply sequence_set_default].
  - intros _. apply sequence_post_same; [|done]. apply sequence_set_default.
  - cbn [fst snd]. intros [Hq _]%Forall_cons. by apply sequence_post_new.
  - cbn [fst snd]. intros [Hq _]%Forall_cons. apply sequence_post_new; [done| |done].
    destruct Hwf as [_ H2]. specialize (H2 Hl). unfold next_sequence. lia.
Qed.

(** One call: a granted sequence is not below the next one, and the next one is past it. *)
Lemma sequence_step d r c :
  c ≠ Clear d → sequence_wf d r → Forall (λ q, q < 2 ^ 64 - 1) (granted_by d r c) →
  sequence_post d r (apply_op r c) (granted_by d r c).
Proof.
  intros Hc Hwf Hq. pose proof (lease_ops_domains r c) as Hlease.
  destruct c as [| | |d' i now|d' i now|d' o now|d'];
    try (destruct (Hlease I) as [Hd Ht]; apply sequence_post_same; [apply sequence_same; by rewrite Hd|done]);
    clear Hlease.
  - destruct (decide (d' = d)) as [->|Hne]; [by apply sequence_admit|].
    cbn [apply_op granted_by] in *. rewrite decide_False by done.
    destruct (admit_cases d' i now r)
      as [(_ & _ & [->| ->])|[(_ & _ & _ & ->)|[(_ & _ & _ & ->)|(_ & _ & _ & _ & ->)]]];
      apply sequence_post_same; try done; apply sequence_same; simpl; by rewrite ?lookup_insert_ne.
  - cbn [apply_op granted_by]. unfold retire_member_incarnation.
    destruct (_ || _); [by apply sequence_post_same|]. cbv zeta.
    destruct (domains _ !! d') as [s|] eqn:Hs; [|by apply sequence_post_same].
    destruct (_ && _); [|by apply sequence_post_same]. apply sequence_post_same; [|done].
    destruct (decide (d' = d)) as [->|]; [|apply sequence_same; simpl; by rewrite lookup_insert_ne].
    simpl in Hs. unfold sequence_wf, next_sequence. simpl. rewrite lookup_insert_eq, Hs. simpl. naive_solver.
  - cbn [apply_op granted_by]. apply sequence_post_same; [|done].
    unfold record_publication. destruct (_ || _); [done|]. cbn [snd].
    destruct (decide (d' = d)) as [->|]; [|apply sequence_same; simpl; by rewrite lookup_insert_ne].
    unfold sequence_wf, next_sequence. simpl. by rewrite lookup_insert_eq.
  - apply sequence_post_same; [|done]. apply sequence_same. simpl. apply lookup_delete_ne. congruence.
Qed.

(** Sequences are issued once and in order: short of an operator clearing the domain, the
    sequences a domain grants are strictly increasing, and positive, as long as none is
    2^64 - 1. *)
Theorem granted_sequences_increase (d : member_domain_key) (ops : list op) :
  Forall (λ c, c ≠ Clear d) ops →
  Forall (λ q, q < 2 ^ 64 - 1) (granted_sequences d empty_registry ops) →
  StronglySorted Z.lt (granted_sequences d empty_registry ops)
  ∧ Forall (λ q, 1 ≤ q) (granted_sequences d empty_registry ops).
Proof.
  assert (∀ r, sequence_wf d r → Forall (λ c, c ≠ Clear d) ops →
    Forall (λ q, q < 2 ^ 64 - 1) (granted_sequences d r ops) →
    StronglySorted Z.lt (granted_sequences d r ops)
    ∧ Forall (λ q, next_sequence d r ≤ q) (granted_sequences d r ops)) as Hgen.
  { induction ops as [|c ops IH]; intros r Hwf Hc Hq; simpl; [split; constructor|].
    apply Forall_cons in Hc as [Hc Hcs]. simpl in Hq. apply Forall_app in Hq as [Hq Hqs].
    destruct (sequence_step d r c Hc Hwf Hq) as (Hwf' & Hg & Hlen & Hle).
    destruct (IH _ Hwf' Hcs Hqs) as [Hs Hall].
    destruct (granted_by d r c) as [|q [|]]; simpl.
    - split; [done|]. eapply Forall_impl; [done|]. simpl. lia.
    - apply Forall_cons in Hg as [Hg _]. split; (constructor; [done || lia|]);
        (eapply Forall_impl; [done|]; simpl; lia).
    - unfold zlen in Hlen. simpl in Hlen. lia. }
  intros Hc Hq. destruct (Hgen empty_registry) as [Hs Hall]; [|done..|done].
  split; [done|]. simpl. by destruct (ds_has_live new_domain) eqn:E.
Qed.

Lemma granted_sequences_increase_witness :
  let ops := [Admit sample_domain (Incarnation 0 "boot-1") 1; Admit sample_domain (Incarnation 0 "boot-2") 2;
              Retire sample_domain sample_rival 3; Admit sample_domain (Incarnation 7 "boot-3") 4] in
  granted_sequences sample_domain empty_registry ops = [1; 2; 7]
  ∧ StronglySorted Z.lt (granted_sequences sample_domain empty_registry ops).
Proof.
  intros ops. assert (granted_sequences sample_domain empty_registry ops = [1; 2; 7]) as E
    by (vm_compute; reflexivity).
  split; [exact E|]. apply granted_sequences_increase.
  - repeat constructor; by intros [=].
  - rewrite E. repeat constructor.
Defined.

(** The bound is needed: a member may name the sequence 2^64 - 1 itself, the next
    sequence wraps to 0, and after that member retires the domain issues the sequence 0, the
    value that stands for no sequence at all. *)
Theorem sequence_wraps_to_zero :
  let boot n := Incarnation n "boot-1" in
  let ops := [Admit sample_domain (boot (2 ^ 64 - 1)) 1; Retire sample_domain (boot (2 ^ 64 - 1)) 2;
              Admit sample_domain (boot 0) 3] in
  granted_sequences sample_domain empty_registry ops = [2 ^ 64 - 1; 0]
  ∧ incarnation_valid (boot 0) = false.
Proof. vm_compute. split; reflexivity. Qed.
