(* ===== verification/Forest.v ===== *)
(** The failure-domain forest (failure_domain.hpp, src/compose/validate.cpp 198-334).

    The composed failure domains of a site, each naming at most one parent.
    [resolve_ancestry] climbs from every node to its root, detecting cycles and chains deeper
    than the limit, and lists children; [are_separate] answers whether two resources share no
    domain, ancestors included. *)

From stdpp Require Import sorting sets.
From S2P Require Import Prelude Ordering Enums Sha256 Identity Claims.

Record failure_domain_node := FailureDomainNode {
  fdn_id : string;
  fdn_domain_class : failure_domain_class;
  fdn_parent : option string;
  fdn_members : list resource_key;
  fdn_children : list string;
  fdn_ancestors : list string;
  fdn_depth : Z;
  fdn_attestors : source_set;
  fdn_status : status;
}.

Record failure_domain_forest := FailureDomainForest {
  ff_nodes : list failure_domain_node;
  ff_cyclic : list string;
  ff_dangling : list string;
  ff_status : status;
  ff_factors : factors;
}.

Definition forest_find (id : string) (f : failure_domain_forest) : option failure_domain_node :=
  find (λ n, bool_decide (fdn_id n = id)) (ff_nodes f).
Definition ancestor_of (n : failure_domain_node) (other : string) : bool :=
  bool_decide (other ∈ fdn_ancestors n).

(** * Resolving ancestry *)

(** [index_of]: the position of the last node with that id. *)
Fixpoint index_of (ns : list failure_domain_node) (id : string) : option nat :=
  match ns with
  | [] => None
  | n :: ns' =>
      match index_of ns' id with
      | Some i => Some (S i)
      | None => if decide (fdn_id n = id) then Some 0%nat else None
      end
  end.

Definition node_of (ns : list failure_domain_node) (id : string) : option failure_domain_node :=
  i ← index_of ns id; ns !! i.

(** The climb from one node: [budget] is [kMaxFailureDomainDepth - depth], so the source's
    depth check is the end of the budget. [None] when it gives up with a cycle. Only ids and
    parents are read, which the loop over the nodes never writes. *)
Fixpoint climb (budget : nat) (ns : list failure_domain_node) (self : string)
    (parent : option string) (seen ancestors : list string) (depth : Z) : option (list string * Z) :=
  match parent with
  | None => Some (ancestors, depth)
  | Some parent_id =>
      if bool_decide (parent_id ∈ seen) || bool_decide (parent_id = self) then None
      else
        match budget with
        | O => None
        | S budget' =>
            match node_of ns parent_id with
            | None => Some (ancestors, depth)
            | Some cursor =>
                climb budget' ns self (fdn_parent cursor) (seen ++ [parent_id])
                  (ancestors ++ [parent_id]) (depth + 1)
            end
        end
  end.

Definition with_ancestry (ancestors : list string) (depth : Z) (s : status) (n : failure_domain_node)
    : failure_domain_node :=
  FailureDomainNode (fdn_id n) (fdn_domain_class n) (fdn_parent n) (fdn_members n) (fdn_children n)
    ancestors depth (fdn_attestors n) s.
Definition with_children (children : list string) (n : failure_domain_node) : failure_domain_node :=
  FailureDomainNode (fdn_id n) (fdn_domain_class n) (fdn_parent n) (fdn_members n) children
    (fdn_ancestors n) (fdn_depth n) (fdn_attestors n) (fdn_status n).

Definition climb_from (ns : list failure_domain_node) (n : failure_domain_node) : option (list string * Z) :=
  climb (Z.to_nat kMaxFailureDomainDepth) ns (fdn_id n) (fdn_parent n) [] [] 0.

Definition resolve_node (ns : list failure_domain_node) (n : failure_domain_node) : failure_domain_node :=
  match climb_from ns n with
  | Some (ancestors, depth) => with_ancestry ancestors depth (fdn_status n) n
  | None => with_ancestry [] 0 Status.FAILURE_DOMAIN_CYCLE n
  end.

Definition note_cyclic (ns : list failure_domain_node) (cyclic : list string) (n : failure_domain_node)
    : list string :=
  match climb_from ns n with
  | Some _ => cyclic
  | None => if decide (fdn_id n ∈ cyclic) then cyclic else cyclic ++ [fdn_id n]
  end.

Definition with_child (child : string) (parent : failure_domain_node) : failure_domain_node :=
  if decide (child ∈ fdn_children parent) then parent
  else with_children (fdn_children parent ++ [child]) parent.

(** One step of the children loop. *)
Definition add_child (ns : list failure_domain_node) (node : failure_domain_node)
    : list failure_domain_node :=
  match fdn_parent node with
  | None => ns
  | Some p =>
      match index_of ns p with
      | None => ns
      | Some i => alter (with_child (fdn_id node)) i ns
      end
  end.

Definition link_children (ns : list failure_domain_node) : list failure_domain_node :=
  let cleared := with_children [] <$> ns in
  (λ n, with_children (sort_by id (fdn_children n)) n) <$> foldl add_child cleared cleared.

Definition resolve_ancestry (f : failure_domain_forest) : failure_domain_forest :=
  let ns := ff_nodes f in
  FailureDomainForest (link_children (resolve_node ns <$> ns))
    (sort_by id (foldl (note_cyclic ns) (ff_cyclic f) ns)) (sort_by id (ff_dangling f))
    (ff_status f) (ff_factors f).

(** * Separateness *)

(** The domains one resource is in, ancestors included. *)
Definition domains_of (f : failure_domain_forest) (r : resource_key) : list string :=
  n ← ff_nodes f; if bool_decide (r ∈ fdn_members n) then fdn_id n :: fdn_ancestors n else [].

Definition are_separate (left right : resource_key) (f : failure_domain_forest) : bool :=
  let left_domains := domains_of f left in
  let right_domains := domains_of f right in
  if bool_decide (left_domains = []) || bool_decide (right_domains = []) then false
  else negb (existsb (λ candidate, bool_decide (candidate ∈ right_domains)) left_domains).

(** ** Looking nodes up *)

Lemma index_of_Some ns id i :
  index_of ns id = Some i → ∃ n, ns !! i = Some n ∧ fdn_id n = id.
Proof.
  revert i. induction ns as [|n ns IH]; intros i; simpl; [done|].
  destruct (index_of ns id); [intros [= <-]; by apply IH|].
  case_decide; [|done]. intros [= <-]. by exists n.
Qed.

Lemma index_of_is_Some ns id : is_Some (index_of ns id) ↔ id ∈ fdn_id <$> ns.
Proof.
  induction ns as [|n ns IH]; simpl.
  { rewrite elem_of_nil. split; [by intros [? ?]|done]. }
  rewrite elem_of_cons, <- IH. destruct (index_of ns id); [naive_solver|].
  case_decide; split; try done; naive_solver.
Qed.

Lemma node_of_id ns id n : node_of ns id = Some n → fdn_id n = id ∧ n ∈ ns.
Proof.
  unfold node_of. rewrite bind_Some. intros (i & Hi & Hn).
  apply index_of_Some in Hi as (n' & Hn' & <-). simplify_eq. split; [done|]. by eapply list_elem_of_lookup_2.
Qed.

Lemma node_of_None ns id : node_of ns id = None ↔ id ∉ fdn_id <$> ns.
Proof.
  rewrite <- index_of_is_Some. unfold node_of. destruct (index_of ns id) as [i|] eqn:E; simpl.
  - apply index_of_Some in E as (n & -> & _). split; [done|]. intros []. by eexists.
  - split; [|done]. by intros _ [? ?].
Qed.

Lemma node_of_elem ns n : NoDup (fdn_id <$> ns) → n ∈ ns → node_of ns (fdn_id n) = Some n.
Proof.
  intros Hnd Hn. destruct (node_of ns (fdn_id n)) as [m|] eqn:E.
  - apply node_of_id in E as [Hid Hm]. f_equal.
    apply list_elem_of_lookup in Hn as [i Hi], Hm as [j Hj].
    assert (i = j) as ->; [|congruence].
    apply (NoDup_lookup (fdn_id <$> ns) i j (fdn_id n)); [done|by rewrite list_lookup_fmap, Hi|].
    rewrite list_lookup_fmap, Hj. simpl. by rewrite Hid.
  - apply node_of_None in E. destruct E. by apply list_elem_of_fmap_2.
Qed.

(** ** Ancestry *)

Section ancestry.
Context (ns : list failure_domain_node).

(** The chain of known ancestors above a parent, nearest first, and the missing parent it
    ends at, if it does not end at a root. *)
Inductive ancestry : option string → list string → option string → Prop :=
| ancestry_root : ancestry None [] None
| ancestry_missing p : node_of ns p = None → ancestry (Some p) [] (Some p)
| ancestry_up p n l e :
    node_of ns p = Some n → ancestry (fdn_parent n) l e → ancestry (Some p) (p :: l) e.

Lemma ancestry_det p l e l' e' : ancestry p l e → ancestry p l' e' → l = l' ∧ e = e'.
Proof using Type.
  intros H. revert l' e'. induction H as [|p Hp|p n l e Hp H IH]; intros l' e' H';
    inversion H' as [| |q n' l0 e0 Hq Hup]; subst; try done; try congruence.
  assert (n' = n) as -> by congruence. by destruct (IH _ _ Hup) as [-> ->].
Qed.

Lemma ancestry_suffix p a b l e : ancestry p (a ++ b :: l) e → ancestry (Some b) (b :: l) e.
Proof using Type.
  revert p. induction a as [|x a IH]; intros p H; simpl in H; inversion H; subst; [done|]. by eapply IH.
Qed.

Lemma ancestry_known p l e x : ancestry p l e → x ∈ l → is_Some (node_of ns x).
Proof using Type.
  induction 1 as [| |p n l e Hp H IH]; rewrite ?elem_of_nil; try done.
  rewrite elem_of_cons. intros [->|?]; [by eexists|by apply IH].
Qed.

(** A finite chain never comes back to where it passed. *)
Lemma ancestry_no_return n l e : ancestry (fdn_parent n) l e → node_of ns (fdn_id n) = Some n → fdn_id n ∉ l.
Proof using Type.
  intros H Hn Hin. apply list_elem_of_split in Hin as (a & b & ->).
  pose proof (ancestry_suffix _ _ _ _ _ H) as Hs. inversion Hs as [| |q n' l' e' Hq Hup]; subst.
  assert (n' = n) as -> by congruence. destruct (ancestry_det _ _ _ _ _ H Hup) as [Heq _]. apply (f_equal length) in Heq.
  rewrite length_app in Heq. simpl in Heq. lia.
Qed.

Lemma ancestry_NoDup p l e : ancestry p l e → NoDup l.
Proof using Type.
  induction 1 as [| |p n l e Hp H IH]; constructor; [|done].
  destruct (node_of_id _ _ _ Hp) as [<- _]. by eapply ancestry_no_return.
Qed.

Lemma ancestry_end p l q : ancestry p l (Some q) → node_of ns q = None.
Proof using Type. intros H. remember (Some q) as e. induction H; naive_solver. Qed.

(** The steps a climb spends: one per known ancestor and one on a missing parent. *)
Definition climb_length (l : list string) (e : option string) : nat :=
  length l + match e with Some _ => 1 | None => 0 end.

Lemma climb_spec budget self p seen depth l :
  (∃ e, ancestry p l e ∧ climb_length l e ≤ budget ∧ NoDup (self :: seen ++ l)
        ∧ (match e with Some q => q ∉ self :: seen | None => True end))%nat →
  climb budget ns self p seen seen depth = Some (seen ++ l, depth + zlen l).
Proof using Type.
  intros (e & H & Hb & Hnd & He). revert budget seen depth Hb Hnd He.
  induction H as [|q Hq|q n l e Hq H IH]; intros budget seen depth Hb Hnd He; unfold climb_length in Hb.
  - unfold zlen. simpl. rewrite app_nil_r, Z.add_0_r. by destruct budget.
  - destruct budget as [|budget]; simpl in *; [lia|]. rewrite Hq.
    rewrite bool_decide_eq_false_2 by set_solver. rewrite bool_decide_eq_false_2 by set_solver. simpl.
    unfold zlen. simpl. by rewrite app_nil_r, Z.add_0_r.
  - simpl in Hb. destruct budget as [|budget]; [lia|]. simpl. rewrite Hq.
    apply NoDup_cons in Hnd as Hself. destruct Hself as [Hself Hnd'].
    assert (q ∉ seen) as Hqs.
    { intros Hin. apply NoDup_app in Hnd' as (_ & Hdis & _). apply (Hdis q Hin). left. }
    rewrite bool_decide_eq_false_2 by done. rewrite bool_decide_eq_false_2 by set_solver. simpl.
    rewrite IH.
    + rewrite <- app_assoc. autorewrite with fabric. simpl. do 2 f_equal. lia.
    + unfold climb_length. lia.
    + by rewrite <- app_assoc.
    + destruct e as [m|]; [|done]. intros Hm. apply elem_of_cons in Hm as [->|Hm]; [set_solver|].
      apply elem_of_app in Hm as [?|Hm]; [set_solver|]. apply list_elem_of_singleton in Hm as ->.
      apply ancestry_end in H. congruence.
Qed.

Lemma climb_sound budget self p seen depth l d :
  climb budget ns self p seen seen depth = Some (l, d) →
  ∃ l' e, l = seen ++ l' ∧ d = depth + zlen l' ∧ ancestry p l' e ∧ (climb_length l' e ≤ budget)%nat.
Proof using Type.
  revert p seen depth. induction budget as [|budget IH]; intros p seen depth; destruct p as [q|]; simpl.
  - by destruct (_ || _).
  - intros [= <- <-]. exists [], None. rewrite app_nil_r. unfold zlen. simpl. split_and!; [done|lia|constructor|done].
  - destruct (_ || _); [done|]. destruct (node_of ns q) as [n|] eqn:Hn.
    + intros (l' & e & -> & -> & H & Hle)%IH. exists (q :: l'), e. rewrite <- app_assoc.
      autorewrite with fabric. unfold climb_length in *. simpl. split_and!; [done|lia|by econstructor|lia].
    + intros [= <- <-]. exists [], (Some q). rewrite app_nil_r. unfold zlen, climb_length. simpl.
      split_and!; [done|lia|by constructor|lia].
  - intros [= <- <-]. exists [], None. rewrite app_nil_r. unfold zlen, climb_length. simpl.
    split_and!; [done|lia|constructor|lia].
Qed.

Definition climbs (n : failure_domain_node) (l : list string) : Prop :=
  ∃ e, ancestry (fdn_parent n) l e ∧ Z.of_nat (climb_length l e) ≤ kMaxFailureDomainDepth.

(** From a node of a forest with unique ids the climb finds exactly the chain. *)
Lemma climb_from_iff n l d :
  NoDup (fdn_id <$> ns) → n ∈ ns → climb_from ns n = Some (l, d) ↔ climbs n l ∧ d = zlen l.
Proof using Type.
  intros Hnd Hn. unfold climb_from, climbs. split.
  - intros (l' & e & -> & -> & H & Hle)%climb_sound. simpl. split; [|lia]. exists e. split; [done|].
    unfold kMaxFailureDomainDepth in *. lia.
  - intros [(e & H & Hle) ->]. pose proof (node_of_elem _ _ Hnd Hn) as Hself.
    rewrite (climb_spec _ _ _ [] 0 l); [done|]. exists e. split_and!; [done| | |].
    + unfold kMaxFailureDomainDepth in *. lia.
    + simpl. constructor; [by eapply ancestry_no_return|by eapply ancestry_NoDup].
    + destruct e as [m|]; [|done]. apply ancestry_end in H. rewrite list_elem_of_singleton.
      intros ->. congruence.
Qed.
End ancestry.

(** ** Children *)

Lemma index_of_ids ns ns' p : fdn_id <$> ns = fdn_id <$> ns' → index_of ns p = index_of ns' p.
Proof.
  revert ns'. induction ns as [|n ns IH]; intros [|n' ns']; simpl; intros [=]; [done|].
  by rewrite (IH ns'), H0.
Qed.

Lemma with_children_same n : with_children (fdn_children n) n = n.
Proof. by destruct n. Qed.

Lemma with_child_spec x n :
  ∃ cs, with_child x n = with_children cs n ∧ (NoDup (fdn_children n) → NoDup cs)
    ∧ ∀ y, y ∈ cs ↔ y ∈ fdn_children n ∨ y = x.
Proof.
  unfold with_child. case_decide as Hx.
  - exists (fdn_children n). rewrite with_children_same. naive_solver.
  - exists (fdn_children n ++ [x]). split; [done|]. split.
    + intros Hn. apply NoDup_app. split_and!; [done| |by apply NoDup_singleton].
      intros y Hy ->%list_elem_of_singleton. done.
    + intros y. by rewrite elem_of_app, list_elem_of_singleton.
Qed.

(** The position a node adds itself to as a child. *)
Definition parent_index (ns : list failure_domain_node) (m : failure_domain_node) : option nat :=
  p ← fdn_parent m; index_of ns p.

Lemma add_child_lookup ns m i n :
  ns !! i = Some n →
  ∃ cs, add_child ns m !! i = Some (with_children cs n) ∧ (NoDup (fdn_children n) → NoDup cs)
    ∧ ∀ y, y ∈ cs ↔ y ∈ fdn_children n ∨ (parent_index ns m = Some i ∧ y = fdn_id m).
Proof.
  intros Hn. unfold add_child, parent_index. destruct (fdn_parent m) as [p|]; simpl.
  2: { exists (fdn_children n). rewrite with_children_same. naive_solver. }
  destruct (index_of ns p) as [j|].
  2: { exists (fdn_children n). rewrite with_children_same. naive_solver. }
  destruct (decide (j = i)) as [->|Hne].
  - rewrite list_lookup_alter_eq, Hn. simpl.
    destruct (with_child_spec (fdn_id m) n) as (cs & -> & Hnd & Hcs). exists cs. naive_solver.
  - rewrite list_lookup_alter_ne by done. exists (fdn_children n). rewrite with_children_same. naive_solver.
Qed.

Lemma add_child_ids ns m : fdn_id <$> add_child ns m = fdn_id <$> ns.
Proof.
  unfold add_child. destruct (fdn_parent m) as [p|]; [|done]. destruct (index_of ns p) as [i|]; [|done].
  rewrite (list_fmap_alter _ _ id).
  - rewrite list_alter_id; done.
  - apply Forall_true. intros n. destruct (with_child_spec (fdn_id m) n) as (cs & -> & _). done.
Qed.

Lemma add_children_lookup todo ns i n :
  ns !! i = Some n →
  ∃ cs, foldl add_child ns todo !! i = Some (with_children cs n) ∧ (NoDup (fdn_children n) → NoDup cs)
    ∧ ∀ y, y ∈ cs ↔ y ∈ fdn_children n ∨ ∃ m, m ∈ todo ∧ parent_index ns m = Some i ∧ y = fdn_id m.
Proof.
  revert ns n. induction todo as [|m todo IH]; intros ns n Hn; simpl.
  { exists (fdn_children n). rewrite with_children_same. split_and!; [done..|]. intros y.
    split; [by left|]. intros [?|(m & Hm & _)]; [done|by apply elem_of_nil in Hm]. }
  destruct (add_child_lookup ns m i n Hn) as (cs & Hcs & Hnd & Hin).
  destruct (IH _ _ Hcs) as (ds & Hds & Hndd & Hind). exists ds. split_and!; [done|auto|].
  assert (∀ m', parent_index (add_child ns m) m' = parent_index ns m') as Hp.
  { intros m'. unfold parent_index. destruct (fdn_parent m'); [|done]. simpl. apply index_of_ids, add_child_ids. }
  intros y. rewrite Hind. simpl. rewrite Hin. setoid_rewrite Hp. setoid_rewrite elem_of_cons. naive_solver.
Qed.

Lemma link_children_lookup ns i n :
  ns !! i = Some n →
  ∃ cs, link_children ns !! i = Some (with_children cs n) ∧ StronglySorted lt_key cs
    ∧ ∀ y, y ∈ cs ↔ ∃ m, m ∈ ns ∧ parent_index ns m = Some i ∧ y = fdn_id m.
Proof.
  intros Hn. unfold link_children. rewrite list_lookup_fmap.
  destruct (add_children_lookup (with_children [] <$> ns) (with_children [] <$> ns) i (with_children [] n))
    as (cs & -> & Hnd & Hin); [by rewrite list_lookup_fmap, Hn|]. simpl.
  exists (sort_by id cs). split; [by destruct n|]. split.
  - apply le_sorted_NoDup_lt; [apply sort_by_sorted|]. rewrite sort_by_perm. apply Hnd. constructor.
  - intros y. rewrite sort_by_elem, Hin. simpl. rewrite elem_of_nil.
    assert (∀ m, parent_index (with_children [] <$> ns) (with_children [] m) = parent_index ns m) as Hp.
    { intros m. unfold parent_index. simpl. destruct (fdn_parent m); [|done]. simpl. apply index_of_ids.
      rewrite <- list_fmap_compose. by apply list_fmap_ext. }
    split.
    + intros [?|(m' & (m & -> & Hm)%list_elem_of_fmap & Hpi & ->)]; [done|].
      exists m. rewrite <- Hp. done.
    + intros (m & Hm & Hpi & ->). right. exists (with_children [] m). rewrite Hp.
      split; [by apply list_elem_of_fmap_2|done].
Qed.

Lemma link_children_length ns : length (link_children ns) = length ns.
Proof.
  unfold link_children. rewrite length_fmap.
  assert (∀ todo acc, length (foldl add_child acc todo) = length acc) as ->; [|by rewrite length_fmap].
  induction todo as [|m todo IH]; intros acc; simpl; [done|]. rewrite IH.
  pose proof (f_equal length (add_child_ids acc m)) as H. by rewrite !length_fmap in H.
Qed.

(** ** The resolved forest *)

Lemma note_cyclic_spec ns todo cyc x :
  x ∈ foldl (note_cyclic ns) cyc todo ↔
    x ∈ cyc ∨ ∃ n, n ∈ todo ∧ climb_from ns n = None ∧ x = fdn_id n.
Proof.
  revert cyc. induction todo as [|n todo IH]; intros cyc; simpl.
  { split; [by left|]. intros [?|(n & Hn & _)]; [done|by apply elem_of_nil in Hn]. }
  rewrite IH. setoid_rewrite elem_of_cons. unfold note_cyclic.
  destruct (climb_from ns n) eqn:E; [naive_solver|]. case_decide; [naive_solver|].
  rewrite elem_of_app, list_elem_of_singleton. naive_solver.
Qed.

Lemma climb_from_None ns n :
  NoDup (fdn_id <$> ns) → n ∈ ns → climb_from ns n = None ↔ ∀ l, ¬ climbs ns n l.
Proof.
  intros Hnd Hn. split.
  - intros Hc l Hl. pose proof (proj2 (climb_from_iff ns n l (zlen l) Hnd Hn) (conj Hl eq_refl)). congruence.
  - intros Hno. destruct (climb_from ns n) as [[l d]|] eqn:E; [|done].
    apply climb_from_iff in E as [Hl _]; [|done..]. by destruct (Hno l).
Qed.

Lemma resolve_lookup f i n :
  NoDup (fdn_id <$> ff_nodes f) → ff_nodes f !! i = Some n →
  ∃ cs, ff_nodes (resolve_ancestry f) !! i = Some (with_children cs (resolve_node (ff_nodes f) n))
    ∧ StronglySorted lt_key cs
    ∧ ∀ x, x ∈ cs ↔ ∃ m, m ∈ ff_nodes f ∧ fdn_id m = x ∧ fdn_parent m = Some (fdn_id n).
Proof.
  intros Hnd Hn. set (ns := ff_nodes f) in *.
  destruct (link_children_lookup (resolve_node ns <$> ns) i (resolve_node ns n)) as (cs & Hcs & Hs & Hin).
  { by rewrite list_lookup_fmap, Hn. }
  exists cs. split_and!; [done|done|]. intros x. rewrite Hin.
  assert (∀ m, fdn_id (resolve_node ns m) = fdn_id m ∧ fdn_parent (resolve_node ns m) = fdn_parent m) as Hsame.
  { intros m. unfold resolve_node. by destruct (climb_from ns m) as [[? ?]|]. }
  assert (fdn_id <$> (resolve_node ns <$> ns) = fdn_id <$> ns) as Hids.
  { rewrite <- list_fmap_compose. apply list_fmap_ext. intros ? m _. apply Hsame. }
  assert (∀ p, index_of ns p = Some i ↔ p = fdn_id n) as Hidx.
  { intros p. split.
    - intros (n' & Hn' & <-)%index_of_Some. by simplify_eq.
    - intros ->. destruct (index_of ns (fdn_id n)) as [j|] eqn:E.
      + apply index_of_Some in E as (n' & Hj & Hid). f_equal.
        apply (NoDup_lookup (fdn_id <$> ns) j i (fdn_id n)); [done|..]; rewrite list_lookup_fmap.
        * by rewrite Hj, <- Hid.
        * by rewrite Hn.
      + destruct (proj2 (index_of_is_Some ns (fdn_id n))); [|congruence].
        apply list_elem_of_fmap_2. by eapply list_elem_of_lookup_2. }
  split.
  - intros (m' & (m & -> & Hm)%list_elem_of_fmap & Hpi & ->). exists m.
    destruct (Hsame m) as [-> Hp]. split_and!; [done..|]. unfold parent_index in Hpi. rewrite Hp in Hpi.
    destruct (fdn_parent m) as [p|]; [|done]. simpl in Hpi.
    rewrite (index_of_ids _ _ p Hids) in Hpi. f_equal. by apply Hidx.
  - intros (m & Hm & <- & Hp). exists (resolve_node ns m). destruct (Hsame m) as [-> Hpr].
    split_and!; [by apply list_elem_of_fmap_2| |done]. unfold parent_index. rewrite Hpr, Hp. simpl.
    rewrite (index_of_ids _ _ _ Hids). by apply Hidx.
Qed.

(** C31: ancestry is resolved exactly: in a forest with unique ids every node keeps its
    position and its claims; a node whose chain of parents ends within the depth limit gets
    that chain, nearest first, as its ancestors and its length as depth; every other node - on
    or below a cycle, or too deep - has no ancestors, is marked FAILURE_DOMAIN_CYCLE and is
    listed as cyclic; and the children of a node are exactly the nodes naming it as parent,
    in order. *)
Theorem resolve_ancestry_exact (f : failure_domain_forest) (i : nat) (n : failure_domain_node) :
  NoDup (fdn_id <$> ff_nodes f) → ff_nodes f !! i = Some n →
  ∃ n', ff_nodes (resolve_ancestry f) !! i = Some n'
  ∧ fdn_id n' = fdn_id n ∧ fdn_parent n' = fdn_parent n ∧ fdn_members n' = fdn_members n
  ∧ StronglySorted lt_key (fdn_children n')
  ∧ (∀ x, x ∈ fdn_children n' ↔ ∃ m, m ∈ ff_nodes f ∧ fdn_id m = x ∧ fdn_parent m = Some (fdn_id n))
  ∧ ((climbs (ff_nodes f) n (fdn_ancestors n') ∧ fdn_depth n' = zlen (fdn_ancestors n')
      ∧ fdn_status n' = fdn_status n)
     ∨ ((∀ l, ¬ climbs (ff_nodes f) n l) ∧ fdn_ancestors n' = [] ∧ fdn_depth n' = 0
        ∧ fdn_status n' = Status.FAILURE_DOMAIN_CYCLE ∧ fdn_id n ∈ ff_cyclic (resolve_ancestry f))).
Proof.
  intros Hnd Hn. destruct (resolve_lookup f i n Hnd Hn) as (cs & -> & Hs & Hin).
  assert (n ∈ ff_nodes f) as Hel by (by eapply list_elem_of_lookup_2).
  eexists. split; [done|]. unfold resolve_node. destruct (climb_from (ff_nodes f) n) as [[l d]|] eqn:E.
  - apply climb_from_iff in E as E'; [|done..]. simpl. split_and!; [done..|]. left. naive_solver.
  - pose proof (proj1 (climb_from_None _ _ Hnd Hel) E). simpl. split_and!; [done..|]. right.
    split_and!; [done..|]. rewrite sort_by_elem, note_cyclic_spec. right. by exists n.
Qed.

Definition sample_node (id : string) (parent : option string) (members : list resource_key)
    : failure_domain_node :=
  FailureDomainNode id FailureDomainClass.UNKNOWN parent members [] [] 0 ss_empty Status.OK.
Definition rack (id : string) : resource_key := ResourceKey ResourceKind.RACK id.
Definition sample_forest : failure_domain_forest :=
  FailureDomainForest
    [sample_node "hall" None []; sample_node "room" (Some "hall") [rack "r1"];
     sample_node "row" (Some "room") [rack "r2"]] [] [] Status.OK no_factors.

Lemma resolve_ancestry_exact_witness :
  ∃ n', ff_nodes (resolve_ancestry sample_forest) !! 2%nat = Some n'
    ∧ fdn_ancestors n' = ["room"; "hall"]%string ∧ fdn_depth n' = 2.
Proof.
  destruct (resolve_ancestry_exact sample_forest 2 (sample_node "row" (Some "room") [rack "r2"]))
    as (n' & Hn' & _).
  - by apply (bool_decide_unpack _); vm_compute.
  - reflexivity.
  - exists n'. split; [exact Hn'|]. vm_compute in Hn'. injection Hn' as <-. split; reflexivity.
Defined.

(** The climb reads ids and parents only. *)
Definition shape (n : failure_domain_node) : string * option string := (fdn_id n, fdn_parent n).

Lemma shape_ids (ns ns' : list failure_domain_node) : shape <$> ns = shape <$> ns' → fdn_id <$> ns = fdn_id <$> ns'.
Proof. intros H. apply (f_equal (fmap fst)) in H. by rewrite <- !list_fmap_compose in H. Qed.

Lemma node_of_shape (ns ns' : list failure_domain_node) p : shape <$> ns = shape <$> ns' → shape <$> node_of ns p = shape <$> node_of ns' p.
Proof.
  intros H. unfold node_of. rewrite (index_of_ids ns ns' p (shape_ids _ _ H)).
  destruct (index_of ns' p) as [i|]; [|done]. simpl.
  apply (f_equal (λ l, l !! i)) in H. by rewrite !list_lookup_fmap in H.
Qed.

Lemma climb_shape (ns ns' : list failure_domain_node) :
  shape <$> ns = shape <$> ns' →
  ∀ b self p seen anc d, climb b ns self p seen anc d = climb b ns' self p seen anc d.
Proof.
  intros H. induction b as [|b IH]; intros self p seen anc d; simpl; [done|].
  destruct p as [p|]; [|done]. destruct (_ || _); [done|].
  pose proof (node_of_shape _ _ p H) as Hn.
  destruct (node_of ns p) as [c|], (node_of ns' p) as [c'|]; simpl in Hn; try done.
  injection Hn as _ Hp. rewrite Hp. apply IH.
Qed.

Lemma climb_from_shape (ns ns' : list failure_domain_node) n n' :
  shape <$> ns = shape <$> ns' → shape n = shape n' → climb_from ns n = climb_from ns' n'.
Proof. intros H [= Hi Hp]. unfold climb_from. rewrite Hi, Hp. by apply climb_shape. Qed.

Lemma resolve_shape f : shape <$> ff_nodes (resolve_ancestry f) = shape <$> ff_nodes f.
Proof.
  apply list_eq. intros i. rewrite !list_lookup_fmap. simpl.
  destruct (ff_nodes f !! i) as [n|] eqn:Hn.
  - destruct (link_children_lookup (resolve_node (ff_nodes f) <$> ff_nodes f) i
      (resolve_node (ff_nodes f) n)) as (cs & -> & _); [by rewrite list_lookup_fmap, Hn|]. simpl.
    unfold resolve_node. by destruct (climb_from (ff_nodes f) n) as [[? ?]|].
  - rewrite (proj2 (lookup_ge_None _ _)); [done|]. rewrite link_children_length, length_fmap.
    by apply lookup_ge_None.
Qed.

Lemma resolve_node_again (ns ns' : list failure_domain_node) n cs :
  shape <$> ns' = shape <$> ns →
  with_children [] (resolve_node ns' (with_children cs (resolve_node ns n)))
    = with_children [] (resolve_node ns n).
Proof.
  intros H. set (n' := with_children cs (resolve_node ns n)).
  assert (shape n' = shape n) as Hn.
  { unfold n', resolve_node. by destruct (climb_from ns n) as [[? ?]|]. }
  unfold resolve_node at 1 2. rewrite (climb_from_shape _ _ _ _ H Hn).
  unfold n', resolve_node. by destruct (climb_from ns n) as [[? ?]|].
Qed.

(** Resolving twice changes nothing. *)
Theorem resolve_ancestry_idempotent (f : failure_domain_forest) :
  resolve_ancestry (resolve_ancestry f) = resolve_ancestry f.
Proof.
  set (ns := ff_nodes f). set (ns' := ff_nodes (resolve_ancestry f)).
  assert (shape <$> ns' = shape <$> ns) as Hsh by apply resolve_shape.
  assert (∀ i n, ns !! i = Some n → ∃ cs, ns' !! i = Some (with_children cs (resolve_node ns n))) as Hat.
  { intros i n Hn. destruct (link_children_lookup (resolve_node ns <$> ns) i (resolve_node ns n))
      as (cs & Hcs & _); [by rewrite list_lookup_fmap, Hn|]. by exists cs. }
  assert (∀ i, ns !! i = None → ns' !! i = None) as Hnone.
  { intros i. rewrite !lookup_ge_None. unfold ns'. simpl. by rewrite link_children_length, length_fmap. }
  unfold resolve_ancestry at 1. fold ns'. simpl ff_dangling. simpl ff_cyclic. simpl ff_status. simpl ff_factors.
  unfold resolve_ancestry. fold ns. f_equal.
  - unfold link_children. cbv zeta.
    assert (with_children [] <$> (resolve_node ns' <$> ns') = with_children [] <$> (resolve_node ns <$> ns)) as ->; [|done].
    apply list_eq. intros i. rewrite !list_lookup_fmap. destruct (ns !! i) as [n|] eqn:Hn; simpl.
    { destruct (Hat i n Hn) as [cs ->]. simpl. by rewrite resolve_node_again. }
    by rewrite (Hnone i Hn).
  - set (cyc := foldl (note_cyclic ns) (ff_cyclic f) ns).
    assert (∀ todo acc, (∀ n, n ∈ todo → climb_from ns' n = None → fdn_id n ∈ acc) →
      foldl (note_cyclic ns') acc todo = acc) as Hdone.
    { induction todo as [|m todo IH]; intros acc Hin; simpl; [done|].
      assert (note_cyclic ns' acc m = acc) as ->; [|apply IH; intros; apply Hin; [by right|done]].
      unfold note_cyclic. destruct (climb_from ns' m) eqn:E; [done|].
      rewrite decide_True; [done|]. apply Hin; [left|done]. }
    rewrite Hdone; [apply sort_by_idemp|]. intros n' Hn' Hc. rewrite sort_by_elem. apply note_cyclic_spec. right.
    apply list_elem_of_lookup in Hn' as [i Hi]. destruct (ns !! i) as [n|] eqn:Hn; [|by rewrite Hnone in Hi].
    exists n. pose proof (f_equal (λ l, l !! i) Hsh) as Hs. simpl in Hs.
    rewrite !list_lookup_fmap, Hi, Hn in Hs. injection Hs as Hid Hp.
    split_and!; [by eapply list_elem_of_lookup_2| |done]. rewrite <- Hc. symmetry.
    apply climb_from_shape; [done|]. unfold shape. by rewrite Hid, Hp.
  - apply sort_by_idemp.
Qed.

(** ** Separateness *)

(** A resolved domain covers a resource: it holds it, or is an ancestor of one that does. *)
Definition covers (f : failure_domain_forest) (d : string) (r : resource_key) : Prop :=
  ∃ n, n ∈ ff_nodes f ∧ r ∈ fdn_members n ∧ (d = fdn_id n ∨ d ∈ fdn_ancestors n).

Lemma domains_of_covers f r d : d ∈ domains_of f r ↔ covers f d r.
Proof.
  unfold domains_of, covers. rewrite list_elem_of_bind. split.
  - intros (n & Hd & Hn). case_bool_decide; [|by apply elem_of_nil in Hd].
    apply elem_of_cons in Hd. naive_solver.
  - intros (n & Hn & Hr & Hd). exists n. rewrite bool_decide_eq_true_2 by done.
    rewrite elem_of_cons. naive_solver.
Qed.

(** Two resources are separate exactly when both are covered and no resolved domain
    covers both; in particular an unknown resource is separate from
    none. *)
Theorem are_separate_exact (f : failure_domain_forest) (left right : resource_key) :
  are_separate left right f = true ↔
    (∃ d, covers f d left) ∧ (∃ d, covers f d right) ∧ ∀ d, ¬ (covers f d left ∧ covers f d right).
Proof.
  unfold are_separate.
  assert (∀ r, domains_of f r ≠ [] ↔ ∃ d, covers f d r) as Hne.
  { intros r. setoid_rewrite <- domains_of_covers. destruct (domains_of f r) as [|d ds].
    - split; [done|]. by intros [d ?%elem_of_nil].
    - split; [|done]. intros _. exists d. left. }
  rewrite <- !Hne. setoid_rewrite <- domains_of_covers.
  case_bool_decide as H1; [simpl; naive_solver|]. case_bool_decide as H2; [simpl; naive_solver|]. simpl.
  rewrite negb_true_iff, <- not_true_iff_false, existsb_exists. setoid_rewrite bool_decide_eq_true.
  setoid_rewrite <- list_elem_of_In. naive_solver.
Qed.

(** A cycle is taken for separateness: domains that name each other as parent lose
    their ancestors, so resources inside the same cycle are answered to be separate. *)
Theorem cycle_taken_for_separate :
  let f := resolve_ancestry (FailureDomainForest
    [sample_node "a" (Some "b") [rack "r1"]; sample_node "b" (Some "a") [rack "r2"]] [] [] Status.OK no_factors) in
  ff_cyclic f = ["a"; "b"]%string ∧ are_separate (rack "r1") (rack "r2") f = true.
Proof. vm_compute. split; reflexivity. Qed.
