(* ===== verification/Site.v ===== *)
(** The composed site (composition.hpp, maintenance.hpp, member.hpp, failure_domain.hpp): the
    state of every member domain, the attribution of every resource, the capacity ledger, the
    connectivity summary, maintenance effects, obligation verdicts, conflicts, deficits and
    decisions, and the lookups over them (src/compose/validate.cpp 800-933). *)

From S2P Require Import Prelude Ordering Enums Sha256 Identity Canonical Evidence Capacity Claims Forest.

Record member_domain_state := MemberDomainState {
  ms_domain : member_domain_key;
  ms_lifecycle : member_lifecycle;
  ms_status : status;
  ms_generation : generation;
  ms_digest : digest;
  ms_schema : schema_version;
  ms_incarnation : incarnation;
  ms_publisher : string;
  ms_received_at_ms : Z;
  ms_evidence_state : evidence_state;
  ms_expected : bool;
  ms_expectation_pinned : bool;
  ms_source : source_ref;
  ms_factors : factors;
}.

Record resource_attribution := ResourceAttribution {
  ra_key : resource_key;
  ra_attestors : source_set;
  ra_consensus_digest : digest;
  ra_distinct_contents : Z;
  ra_status : status;
  ra_factors : factors;
}.

Record capacity_ledger_entry := CapacityLedgerEntry {
  le_owner : resource_key;
  le_scope : capacity_scope;
  le_capacity : capacity_vector;
  le_attestors : source_set;
  le_status : status;
  le_counted_in_total : bool;
  le_factors : factors;
}.

Record capacity_ledger := CapacityLedger {
  cl_entries : list capacity_ledger_entry;
  cl_total : capacity_vector;
  cl_available : capacity_vector;
  cl_excluded_by_maintenance : capacity_vector;
  cl_indeterminate : capacity_vector;
  cl_closes_exactly : bool;
  cl_status : status;
  cl_factors : factors;
}.

Record connectivity_summary := ConnectivitySummary {
  cs_shared_links : Z;
  cs_shared_links_up : Z;
  cs_shared_links_down : Z;
  cs_shared_links_degraded : Z;
  cs_shared_links_unknown : Z;
  cs_external_links : Z;
  cs_internal_links : Z;
  cs_gateways : Z;
  cs_gateways_up : Z;
  cs_gateways_down : Z;
  cs_gateways_degraded : Z;
  cs_gateways_unknown : Z;
  cs_unknown_state : list resource_key;
  cs_sources : source_set;
  cs_status : status;
}.

Record maintenance_effect := MaintenanceEffect {
  me_id : string;
  me_state : maintenance_state;
  me_excluded : list resource_key;
  me_indeterminate : list resource_key;
  me_overlapping_obligations : list string;
  me_excluded_capacity : capacity_vector;
  me_status : status;
  me_factors : factors;
}.

Record obligation_verdict := ObligationVerdict {
  ov_id : string;
  ov_kind : obligation_kind;
  ov_status : status;
  ov_required : Z;
  ov_observed : Z;
  ov_observed_known : bool;
  ov_sources : source_set;
  ov_factors : factors;
}.

Record site_conflict := SiteConflict {
  sc_code : status;
  sc_subject : resource_key;
  sc_parties : source_set;
  sc_variants : list string;
  sc_detected_at_ms : Z;
}.

Record site_deficit := SiteDeficit {
  sd_code : status;
  sd_domain : member_domain_key;
  sd_detail : string;
}.

Record decision_id := DecisionId { did_kind : decision_kind; did_subject : resource_key }.
#[export] Instance decision_id_eq_dec : EqDecision decision_id.
Proof. solve_decision. Defined.
Definition did_fields (d : decision_id) := (did_kind d, did_subject d).
#[export] Instance did_fields_inj : Inj (=) (=) did_fields.
Proof. intros [] []; by intros [= -> ->]. Qed.
#[export] Instance decision_id_ord : Ord decision_id := ord_inj did_fields.

Record site_decision := SiteDecision {
  dec_id : decision_id;
  dec_status : status;
  dec_sources : source_set;
  dec_value_digest : digest;
  dec_factors : factors;
}.

Record composed_site := ComposedSite {
  site_id : string;
  site_epoch : epoch;
  site_generation : generation;
  site_incarnation : incarnation;
  site_composed_at_ms : Z;
  site_lifecycle_state : site_lifecycle;
  site_status : status;
  site_membership_complete : bool;
  site_all_evidence_fresh : bool;
  site_any_conflict : bool;
  site_any_unknown_capacity : bool;
  site_members : list member_domain_state;
  site_ownership : list resource_attribution;
  site_capacity : capacity_ledger;
  site_connectivity : connectivity_summary;
  site_failure_domains : failure_domain_forest;
  site_maintenance : list maintenance_effect;
  site_obligations : list obligation_verdict;
  site_conflicts : list site_conflict;
  site_deficits : list site_deficit;
  site_decisions : list site_decision;
  site_factors : factors;
}.

(** Everything composition is allowed to look at. *)
Record composition_input := CompositionInput {
  in_site : string;
  in_epoch : epoch;
  in_generation : generation;
  in_incarnation : incarnation;
  in_now_ms : Z;
  in_expectation : site_expectation;
  in_publications : list publication_record;
  in_retirements : list retirement_record;
  in_revoked : list member_domain_key;
  in_reconstructed : list member_domain_key;
}.

(** * Lookups *)

Definition ra_attributed (a : resource_attribution) : bool :=
  bool_decide (ra_status a = Status.OK) && (ra_distinct_contents a =? 1).

Definition ledger_find (owner : resource_key) (l : capacity_ledger) : option capacity_ledger_entry :=
  List.find (λ e, bool_decide (le_owner e = owner)) (cl_entries l).

Definition find_in (members : list member_domain_state) (domain : member_domain_key)
    : option member_domain_state :=
  List.find (λ m, bool_decide (ms_domain m = domain)) members.
Definition find_member (domain : member_domain_key) (s : composed_site) : option member_domain_state :=
  find_in (site_members s) domain.

Definition find_ownership (key : resource_key) (s : composed_site) : option resource_attribution :=
  List.find (λ a, bool_decide (ra_key a = key)) (site_ownership s).

Definition find_decision (id : decision_id) (s : composed_site) : option site_decision :=
  List.find (λ d, bool_decide (dec_id d = id)) (site_decisions s).

Definition count_decisions (kind : decision_kind) (s : composed_site) : Z :=
  zlen (List.filter (λ d, bool_decide (did_kind (dec_id d) = kind)) (site_decisions s)).

Definition depends_on (ref : source_ref) (d : site_decision) : bool := ss_contains (dec_sources d) ref.
Definition depends_on_domain (domain : member_domain_key) (d : site_decision) : bool :=
  contains_domain (dec_sources d) domain.

(** [Factors::join]. *)
Fixpoint join_from (separator out : string) (items : list string) : string :=
  match items with
  | [] => out
  | item :: rest => join_from separator (out +:+ separator +:+ item)%string rest
  end.
Definition factors_join (separator : string) (f : factors) : string :=
  let out := match fac_items f with [] => ""%string | item :: rest => join_from separator item rest end in
  if fac_dropped f =? 0 then out
  else
    let out := if bool_decide (out = "") then out else (out +:+ separator)%string in
    (out +:+ "dropped=" +:+ dec (fac_dropped f))%string.

(** [decision_value_digest] (codec.cpp). *)
Definition decision_value_digest (id : decision_id) (s : status) (f : factors) : digest :=
  finish_digest (w_u8 (enum_code (did_kind id)) ++ write_resource_key (did_subject id)
                 ++ w_u8 (enum_code s) ++ write_factors f).

(** * Notes: what every stage of a composition adds to *)

Record notes := Notes {
  note_conflicts : list site_conflict;
  note_deficits : list site_deficit;
  note_factors : factors;
}.
Definition no_notes : notes := Notes [] [] no_factors.

(** [add_conflict] (compose.cpp), at the instant of the composition. *)
Definition add_conflict (now_ms : Z) (code : status) (subject : resource_key) (parties : source_set)
    (variants : list string) (n : notes) : notes :=
  if kMaxConflicts <=? zlen (note_conflicts n)
  then Notes (note_conflicts n) (note_deficits n)
         (factors_add_pair "conflicts_truncated" "true" (note_factors n))
  else Notes (note_conflicts n ++ [SiteConflict code subject parties variants now_ms]) (note_deficits n)
         (note_factors n).

Definition add_deficit (code : status) (domain : member_domain_key) (detail : string) (n : notes) : notes :=
  if kMaxDeficits <=? zlen (note_deficits n)
  then Notes (note_conflicts n) (note_deficits n)
         (factors_add_pair "deficits_truncated" "true" (note_factors n))
  else Notes (note_conflicts n) (note_deficits n ++ [SiteDeficit code domain detail]) (note_factors n).

Definition note_factor (prefix value : string) (n : notes) : notes :=
  Notes (note_conflicts n) (note_deficits n) (factors_add_pair prefix value (note_factors n)).
