(* ===== verification/SiteCodec.v ===== *)
(** The composed-site and snapshot codecs (src/core/codec.cpp 849-1837, digest.cpp 255-278).

    Writers and readers of every part of a composed site, of the authority token and of the
    snapshot body, and the digests taken over them. A source set and a factor list keep their
    items on the wire but not whether, and how much, was dropped: [on_wire] resets that. *)

From stdpp Require Import sorting.
From S2P Require Import Prelude Ordering Enums Sha256 Identity Canonical Evidence Capacity Claims Codec Authority Forest Site.

(** * Authority tokens *)

Definition write_authority_token (t : token) : bytes :=
  w_u8 (enum_code (tok_kind t)) ++ w_text (tok_holder t) ++ w_text (tok_site t) ++ w_epoch (tok_epoch t)
  ++ w_incarnation (tok_incarnation t) ++ w_generation (tok_generation t) ++ w_u64 (tok_lease_id t)
  ++ w_i64 (tok_issued_at_ms t) ++ w_i64 (tok_expires_at_ms t).

Definition read_authority_token : reader token :=
  kind ← read_enum AuthorityKind.OBSERVER; holder ← r_text kMaxIdentifierBytes; site ← read_strong_id;
  ep ← r_epoch; inc ← r_incarnation; gen ← r_generation; lease ← r_u64; issued ← r_i64; expires ← r_i64;
  mret (AuthorityToken kind holder site ep inc gen lease issued expires).

(** * Writers *)

Definition write_member_state (s : member_domain_state) : bytes :=
  write_member_domain_key (ms_domain s) ++ w_u8 (enum_code (ms_lifecycle s)) ++ w_u8 (enum_code (ms_status s))
  ++ w_generation (ms_generation s) ++ w_digest (ms_digest s) ++ w_schema (ms_schema s)
  ++ w_incarnation (ms_incarnation s) ++ w_text (ms_publisher s) ++ w_i64 (ms_received_at_ms s)
  ++ w_u8 (enum_code (ms_evidence_state s)) ++ w_flag (ms_expected s) ++ w_flag (ms_expectation_pinned s)
  ++ w_source_ref (ms_source s) ++ write_factors (ms_factors s).

Definition write_ownership (a : resource_attribution) : bytes :=
  write_resource_key (ra_key a) ++ write_source_set (ra_attestors a) ++ w_digest (ra_consensus_digest a)
  ++ w_u64 (ra_distinct_contents a) ++ w_u8 (enum_code (ra_status a)) ++ write_factors (ra_factors a).

Definition write_ledger_entry (e : capacity_ledger_entry) : bytes :=
  write_resource_key (le_owner e) ++ w_u8 (enum_code (le_scope e)) ++ write_capacity (le_capacity e)
  ++ write_source_set (le_attestors e) ++ w_u8 (enum_code (le_status e)) ++ w_flag (le_counted_in_total e)
  ++ write_factors (le_factors e).

Definition write_forest_node (n : failure_domain_node) : bytes :=
  w_text (fdn_id n) ++ w_u8 (enum_code (fdn_domain_class n)) ++ w_opt w_text (fdn_parent n)
  ++ w_list write_resource_key (fdn_members n) ++ w_list w_text (fdn_children n)
  ++ w_list w_text (fdn_ancestors n) ++ w_u32 (fdn_depth n) ++ write_source_set (fdn_attestors n)
  ++ w_u8 (enum_code (fdn_status n)).

Definition write_maintenance_effect (e : maintenance_effect) : bytes :=
  w_text (me_id e) ++ w_u8 (enum_code (me_state e)) ++ w_list write_resource_key (me_excluded e)
  ++ w_list write_resource_key (me_indeterminate e) ++ w_list w_text (me_overlapping_obligations e)
  ++ write_capacity (me_excluded_capacity e) ++ w_u8 (enum_code (me_status e)) ++ write_factors (me_factors e).

Definition write_verdict (v : obligation_verdict) : bytes :=
  w_text (ov_id v) ++ w_u8 (enum_code (ov_kind v)) ++ w_u8 (enum_code (ov_status v)) ++ w_u64 (ov_required v)
  ++ w_u64 (ov_observed v) ++ w_flag (ov_observed_known v) ++ write_source_set (ov_sources v)
  ++ write_factors (ov_factors v).

Definition write_conflict (c : site_conflict) : bytes :=
  w_u8 (enum_code (sc_code c)) ++ write_resource_key (sc_subject c) ++ write_source_set (sc_parties c)
  ++ w_list w_text (sc_variants c) ++ w_i64 (sc_detected_at_ms c).

Definition write_deficit (d : site_deficit) : bytes :=
  w_u8 (enum_code (sd_code d)) ++ write_member_domain_key (sd_domain d) ++ w_text (sd_detail d).

Definition write_decision (d : site_decision) : bytes :=
  w_u8 (enum_code (did_kind (dec_id d))) ++ write_resource_key (did_subject (dec_id d))
  ++ w_u8 (enum_code (dec_status d)) ++ write_source_set (dec_sources d) ++ w_digest (dec_value_digest d)
  ++ write_factors (dec_factors d).

Definition write_connectivity (c : connectivity_summary) : bytes :=
  w_u64 (cs_shared_links c) ++ w_u64 (cs_shared_links_up c) ++ w_u64 (cs_shared_links_down c)
  ++ w_u64 (cs_shared_links_degraded c) ++ w_u64 (cs_shared_links_unknown c) ++ w_u64 (cs_external_links c)
  ++ w_u64 (cs_internal_links c) ++ w_u64 (cs_gateways c) ++ w_u64 (cs_gateways_up c)
  ++ w_u64 (cs_gateways_down c) ++ w_u64 (cs_gateways_degraded c) ++ w_u64 (cs_gateways_unknown c)
  ++ w_list write_resource_key (cs_unknown_state c) ++ write_source_set (cs_sources c)
  ++ w_u8 (enum_code (cs_status c)).

(** The parts [write_composed_site] writes field by field. *)
Definition write_ledger (l : capacity_ledger) : bytes :=
  w_list write_ledger_entry (cl_entries l) ++ write_capacity (cl_total l) ++ write_capacity (cl_available l)
  ++ write_capacity (cl_excluded_by_maintenance l) ++ write_capacity (cl_indeterminate l)
  ++ w_flag (cl_closes_exactly l) ++ w_u8 (enum_code (cl_status l)) ++ write_factors (cl_factors l).

Definition write_forest (f : failure_domain_forest) : bytes :=
  w_list write_forest_node (ff_nodes f) ++ w_list w_text (ff_cyclic f) ++ w_list w_text (ff_dangling f)
  ++ w_u8 (enum_code (ff_status f)) ++ write_factors (ff_factors f).

Definition write_composed_site (s : composed_site) : bytes :=
  w_text (site_id s) ++ w_epoch (site_epoch s) ++ w_generation (site_generation s)
  ++ w_incarnation (site_incarnation s) ++ w_i64 (site_composed_at_ms s)
  ++ w_u8 (enum_code (site_lifecycle_state s)) ++ w_u8 (enum_code (site_status s))
  ++ w_flag (site_membership_complete s) ++ w_flag (site_all_evidence_fresh s) ++ w_flag (site_any_conflict s)
  ++ w_flag (site_any_unknown_capacity s) ++ w_list write_member_state (site_members s)
  ++ w_list write_ownership (site_ownership s) ++ write_ledger (site_capacity s)
  ++ write_connectivity (site_connectivity s) ++ write_forest (site_failure_domains s)
  ++ w_list write_maintenance_effect (site_maintenance s) ++ w_list write_verdict (site_obligations s)
  ++ w_list write_conflict (site_conflicts s) ++ w_list write_deficit (site_deficits s)
  ++ w_list write_decision (site_decisions s) ++ write_factors (site_factors s).

Definition composed_site_digest (s : composed_site) : digest := finish_digest (write_composed_site s).

(** * Readers *)

Definition read_status : reader status := read_enum Status.NO_AUTHORITATIVE_SOURCE.

Definition read_member_state : reader member_domain_state :=
  dom ← read_member_domain_key; lc ← read_enum MemberLifecycle.REVOKED; st ← read_status;
  gen ← r_generation; dig ← r_digest; schema ← r_schema; inc ← r_incarnation;
  publisher ← read_optional_identifier; received ← r_i64;
  ev ← read_enum EvidenceState.RECONSTRUCTED_NEEDS_REVALIDATION; expected ← r_flag; pinned ← r_flag;
  source ← r_source_ref; f ← read_factors;
  mret (MemberDomainState dom lc st gen dig schema inc publisher received ev expected pinned source f).

Definition read_ownership : reader resource_attribution :=
  key ← read_resource_key; attestors ← read_source_set; consensus ← r_digest; distinct ← r_u64;
  st ← read_status; f ← read_factors; mret (ResourceAttribution key attestors consensus distinct st f).

Definition read_ledger_entry : reader capacity_ledger_entry :=
  owner ← read_resource_key; scope ← read_enum CapacityScope.GATEWAY; capacity ← read_capacity;
  attestors ← read_source_set; st ← read_status; counted ← r_flag; f ← read_factors;
  mret (CapacityLedgerEntry owner scope capacity attestors st counted f).

Definition read_forest_node : reader failure_domain_node :=
  id ← read_identifier; cls ← read_enum FailureDomainClass.ADMINISTRATIVE; parent ← r_opt read_strong_id;
  members ← r_list (kMaxResourceMembers + 1) read_resource_key;
  children ← r_list (kMaxDistinctFailureDomains + 1) read_strong_id;
  ancestors ← r_list (kMaxFailureDomainDepth + 1) read_strong_id;
  depth ← r_u32; require (depth <=? kMaxFailureDomainDepth) Status.LIMIT_EXCEEDED;;
  attestors ← read_source_set; st ← read_status;
  mret (FailureDomainNode id cls parent members children ancestors depth attestors st).

Definition read_maintenance_effect : reader maintenance_effect :=
  id ← read_identifier; state ← read_enum MaintenanceState.CANCELLED;
  excluded ← r_list (kMaxDistinctResources + 1) read_resource_key;
  indeterminate ← r_list (kMaxDistinctResources + 1) read_resource_key;
  overlapping ← r_list (kMaxDistinctObligations + 1) read_strong_id;
  capacity ← read_capacity; st ← read_status; f ← read_factors;
  mret (MaintenanceEffect id state excluded indeterminate overlapping capacity st f).

Definition read_verdict : reader obligation_verdict :=
  id ← read_identifier; kind ← read_enum ObligationKind.DOMAIN_SURVIVABILITY; st ← read_status;
  required ← r_u64; observed ← r_u64; known ← r_flag; sources ← read_source_set; f ← read_factors;
  mret (ObligationVerdict id kind st required observed known sources f).

Definition read_conflict : reader site_conflict :=
  code ← read_status; subject ← read_resource_key; parties ← read_source_set;
  variants ← r_list (kMaxAttestorsPerResource + 1) (r_text kMaxTextBytes); detected ← r_i64;
  mret (SiteConflict code subject parties variants detected).

Definition read_deficit : reader site_deficit :=
  code ← read_status; dom ← read_member_domain_key; detail ← r_text kMaxTextBytes;
  mret (SiteDeficit code dom detail).

Definition read_decision : reader site_decision :=
  kind ← read_enum DecisionKind.SITE_LIFECYCLE; subject ← read_resource_key; st ← read_status;
  sources ← read_source_set; dig ← r_digest; f ← read_factors;
  mret (SiteDecision (DecisionId kind subject) st sources dig f).

Definition read_connectivity : reader connectivity_summary :=
  links ← r_u64; up ← r_u64; down ← r_u64; degraded ← r_u64; unknown ← r_u64; external ← r_u64;
  internal ← r_u64; gateways ← r_u64; gup ← r_u64; gdown ← r_u64; gdegraded ← r_u64; gunknown ← r_u64;
  keys ← r_list (kMaxDistinctResources + 1) read_resource_key; sources ← read_source_set; st ← read_status;
  mret (ConnectivitySummary links up down degraded unknown external internal gateways gup gdown gdegraded
          gunknown keys sources st).

Definition read_ledger : reader capacity_ledger :=
  entries ← r_list (kMaxDistinctResources + 1) read_ledger_entry; total ← read_capacity;
  available ← read_capacity; excluded ← read_capacity; indeterminate ← read_capacity; closes ← r_flag;
  st ← read_status; f ← read_factors;
  mret (CapacityLedger entries total available excluded indeterminate closes st f).

Definition read_forest : reader failure_domain_forest :=
  nodes ← r_list (kMaxDistinctFailureDomains + 1) read_forest_node;
  cyclic ← r_list (kMaxDistinctFailureDomains + 1) read_strong_id;
  dangling ← r_list (kMaxDistinctFailureDomains + 1) read_strong_id; st ← read_status; f ← read_factors;
  mret (FailureDomainForest nodes cyclic dangling st f).

Definition read_composed_site : reader composed_site :=
  id ← read_strong_id; ep ← r_epoch; gen ← r_generation; inc ← r_incarnation; composed ← r_i64;
  lc ← read_enum SiteLifecycle.STOPPED; st ← read_status; complete ← r_flag; fresh ← r_flag; conflict ← r_flag;
  unknown ← r_flag; members ← r_list (kMaxMemberDomains + 1) read_member_state;
  ownership ← r_list (kMaxDistinctResources + 1) read_ownership; capacity ← read_ledger;
  connectivity ← read_connectivity; forest ← read_forest;
  maintenance ← r_list (kMaxDistinctMaintenanceZones + 1) read_maintenance_effect;
  obligations ← r_list (kMaxDistinctObligations + 1) read_verdict;
  conflicts ← r_list (kMaxConflicts + 1) read_conflict; deficits ← r_list (kMaxDeficits + 1) read_deficit;
  decisions ← r_list (kMaxDecisions + 1) read_decision; f ← read_factors;
  mret (ComposedSite id ep gen inc composed lc st complete fresh conflict unknown members ownership capacity
          connectivity forest maintenance obligations conflicts deficits decisions f).

(** * Snapshots *)

Record site_snapshot := SiteSnapshot {
  snap_site : string;
  snap_epoch : epoch;
  snap_generation : generation;
  snap_incarnation : incarnation;
  snap_sequence : Z;
  snap_site_digest : digest;
  snap_snapshot_digest : digest;
  snap_published_at_ms : Z;
  snap_lifecycle : site_lifecycle;
  snap_status : status;
  snap_complete : bool;
  snap_sources : source_set;
  snap_factors : factors;
  snap_state : composed_site;
}.

(** The envelope: what the body and the envelope digest share. *)
Definition write_envelope (s : site_snapshot) : bytes :=
  w_text (snap_site s) ++ w_epoch (snap_epoch s) ++ w_generation (snap_generation s)
  ++ w_incarnation (snap_incarnation s) ++ w_u64 (snap_sequence s) ++ w_digest (snap_site_digest s)
  ++ w_i64 (snap_published_at_ms s) ++ w_u8 (enum_code (snap_lifecycle s)) ++ w_u8 (enum_code (snap_status s))
  ++ w_flag (snap_complete s) ++ write_source_set (snap_sources s) ++ write_factors (snap_factors s).

Definition snapshot_envelope_digest (s : site_snapshot) : digest := finish_digest (write_envelope s).

Definition write_snapshot_body (s : site_snapshot) : bytes :=
  write_envelope s ++ write_composed_site (snap_state s).

(** [snapshot_digest] is not on the wire: it is left at zero. *)
Definition read_snapshot_body : reader site_snapshot :=
  id ← read_strong_id; ep ← r_epoch; gen ← r_generation; inc ← r_incarnation; seq ← r_u64; dig ← r_digest;
  published ← r_i64; lc ← read_enum SiteLifecycle.STOPPED; st ← read_status; complete ← r_flag;
  sources ← read_source_set; f ← read_factors; state ← read_composed_site;
  mret (SiteSnapshot id ep gen inc seq dig zero_digest published lc st complete sources f state).

(** * What an encoded part keeps *)

#[export] Instance source_set_on_wire : OnWire source_set := {| on_wire s := SourceSet (ss_items s) false 0 |}.
#[export] Instance factors_on_wire : OnWire factors := {| on_wire f := Factors (fac_items f) 0 |}.
#[export] Instance member_state_on_wire : OnWire member_domain_state := {| on_wire s :=
  MemberDomainState (ms_domain s) (ms_lifecycle s) (ms_status s) (ms_generation s) (ms_digest s) (ms_schema s)
    (ms_incarnation s) (ms_publisher s) (ms_received_at_ms s) (ms_evidence_state s) (ms_expected s)
    (ms_expectation_pinned s) (ms_source s) (on_wire (ms_factors s)) |}.
#[export] Instance ownership_on_wire : OnWire resource_attribution := {| on_wire a :=
  ResourceAttribution (ra_key a) (on_wire (ra_attestors a)) (ra_consensus_digest a) (ra_distinct_contents a)
    (ra_status a) (on_wire (ra_factors a)) |}.
#[export] Instance ledger_entry_on_wire : OnWire capacity_ledger_entry := {| on_wire e :=
  CapacityLedgerEntry (le_owner e) (le_scope e) (le_capacity e) (on_wire (le_attestors e)) (le_status e)
    (le_counted_in_total e) (on_wire (le_factors e)) |}.
#[export] Instance ledger_on_wire : OnWire capacity_ledger := {| on_wire l :=
  CapacityLedger (on_wire <$> cl_entries l) (cl_total l) (cl_available l) (cl_excluded_by_maintenance l)
    (cl_indeterminate l) (cl_closes_exactly l) (cl_status l) (on_wire (cl_factors l)) |}.
#[export] Instance connectivity_on_wire : OnWire connectivity_summary := {| on_wire c :=
  ConnectivitySummary (cs_shared_links c) (cs_shared_links_up c) (cs_shared_links_down c)
    (cs_shared_links_degraded c) (cs_shared_links_unknown c) (cs_external_links c) (cs_internal_links c)
    (cs_gateways c) (cs_gateways_up c) (cs_gateways_down c) (cs_gateways_degraded c) (cs_gateways_unknown c)
    (cs_unknown_state c) (on_wire (cs_sources c)) (cs_status c) |}.
#[export] Instance forest_node_on_wire : OnWire failure_domain_node := {| on_wire n :=
  FailureDomainNode (fdn_id n) (fdn_domain_class n) (fdn_parent n) (fdn_members n) (fdn_children n)
    (fdn_ancestors n) (fdn_depth n) (on_wire (fdn_attestors n)) (fdn_status n) |}.
#[export] Instance forest_on_wire : OnWire failure_domain_forest := {| on_wire f :=
  FailureDomainForest (on_wire <$> ff_nodes f) (ff_cyclic f) (ff_dangling f) (ff_status f) (on_wire (ff_factors f)) |}.
#[export] Instance maintenance_on_wire : OnWire maintenance_effect := {| on_wire e :=
  MaintenanceEffect (me_id e) (me_state e) (me_excluded e) (me_indeterminate e) (me_overlapping_obligations e)
    (me_excluded_capacity e) (me_status e) (on_wire (me_factors e)) |}.
#[export] Instance verdict_on_wire : OnWire obligation_verdict := {| on_wire v :=
  ObligationVerdict (ov_id v) (ov_kind v) (ov_status v) (ov_required v) (ov_observed v) (ov_observed_known v)
    (on_wire (ov_sources v)) (on_wire (ov_factors v)) |}.
#[export] Instance conflict_on_wire : OnWire site_conflict := {| on_wire c :=
  SiteConflict (sc_code c) (sc_subject c) (on_wire (sc_parties c)) (sc_variants c) (sc_detected_at_ms c) |}.
#[export] Instance decision_on_wire : OnWire site_decision := {| on_wire d :=
  SiteDecision (dec_id d) (dec_status d) (on_wire (dec_sources d)) (dec_value_digest d) (on_wire (dec_factors d)) |}.
#[export] Instance site_on_wire : OnWire composed_site := {| on_wire s :=
  ComposedSite (site_id s) (site_epoch s) (site_generation s) (site_incarnation s) (site_composed_at_ms s)
    (site_lifecycle_state s) (site_status s) (site_membership_complete s) (site_all_evidence_fresh s)
    (site_any_conflict s) (site_any_unknown_capacity s) (on_wire <$> site_members s) (on_wire <$> site_ownership s)
    (on_wire (site_capacity s)) (on_wire (site_connectivity s)) (on_wire (site_failure_domains s))
    (on_wire <$> site_maintenance s) (on_wire <$> site_obligations s) (on_wire <$> site_conflicts s)
    (site_deficits s) (on_wire <$> site_decisions s) (on_wire (site_factors s)) |}.
#[export] Instance snapshot_on_wire : OnWire site_snapshot := {| on_wire s :=
  SiteSnapshot (snap_site s) (snap_epoch s) (snap_generation s) (snap_incarnation s) (snap_sequence s)
    (snap_site_digest s) zero_digest (snap_published_at_ms s) (snap_lifecycle s) (snap_status s) (snap_complete s)
    (on_wire (snap_sources s)) (on_wire (snap_factors s)) (on_wire (snap_state s)) |}.

(** * What a part must satisfy to be read back *)

Definition text_ok (s : string) : Prop := text_fits kMaxTextBytes s.
Definition source_set_ok (s : source_set) : Prop :=
  StronglySorted lt_key (ss_items s) ∧ zlen (ss_items s) ≤ kMaxDecisionSources ∧ Forall source_ref_wf (ss_items s).
Definition factors_ok (f : factors) : Prop := zlen (fac_items f) ≤ kMaxFactors ∧ Forall text_ok (fac_items f).
Definition optional_id_ok (s : string) : Prop := s = ""%string ∨ id_ok s.

Definition token_ok (t : token) : Prop :=
  text_fits kMaxIdentifierBytes (tok_holder t) ∧ id_ok (tok_site t) ∧ in_u 64 (tok_epoch t)
  ∧ incarnation_wf (tok_incarnation t) ∧ in_u 64 (tok_generation t) ∧ in_u 64 (tok_lease_id t)
  ∧ in_i64 (tok_issued_at_ms t) ∧ in_i64 (tok_expires_at_ms t).
Definition member_state_ok (s : member_domain_state) : Prop :=
  domain_ok (ms_domain s) ∧ in_u 64 (ms_generation s) ∧ digest_wf (ms_digest s) ∧ schema_wf (ms_schema s)
  ∧ incarnation_wf (ms_incarnation s) ∧ optional_id_ok (ms_publisher s) ∧ in_i64 (ms_received_at_ms s)
  ∧ source_ref_wf (ms_source s) ∧ factors_ok (ms_factors s).
Definition ownership_ok (a : resource_attribution) : Prop :=
  resource_ok (ra_key a) ∧ source_set_ok (ra_attestors a) ∧ digest_wf (ra_consensus_digest a)
  ∧ in_u 64 (ra_distinct_contents a) ∧ factors_ok (ra_factors a).
Definition ledger_entry_ok (e : capacity_ledger_entry) : Prop :=
  resource_ok (le_owner e) ∧ capacity_ok (le_capacity e) ∧ source_set_ok (le_attestors e) ∧ factors_ok (le_factors e).
Definition ledger_ok (l : capacity_ledger) : Prop :=
  list_ok kMaxDistinctResources ledger_entry_ok (cl_entries l) ∧ capacity_ok (cl_total l)
  ∧ capacity_ok (cl_available l) ∧ capacity_ok (cl_excluded_by_maintenance l)
  ∧ capacity_ok (cl_indeterminate l) ∧ factors_ok (cl_factors l).
Definition connectivity_ok (c : connectivity_summary) : Prop :=
  in_u 64 (cs_shared_links c) ∧ in_u 64 (cs_shared_links_up c) ∧ in_u 64 (cs_shared_links_down c)
  ∧ in_u 64 (cs_shared_links_degraded c) ∧ in_u 64 (cs_shared_links_unknown c) ∧ in_u 64 (cs_external_links c)
  ∧ in_u 64 (cs_internal_links c) ∧ in_u 64 (cs_gateways c) ∧ in_u 64 (cs_gateways_up c)
  ∧ in_u 64 (cs_gateways_down c) ∧ in_u 64 (cs_gateways_degraded c) ∧ in_u 64 (cs_gateways_unknown c)
  ∧ list_ok kMaxDistinctResources resource_ok (cs_unknown_state c) ∧ source_set_ok (cs_sources c).
Definition forest_node_ok (n : failure_domain_node) : Prop :=
  id_ok (fdn_id n) ∧ opt_ok id_ok (fdn_parent n) ∧ list_ok kMaxResourceMembers resource_ok (fdn_members n)
  ∧ list_ok kMaxDistinctFailureDomains id_ok (fdn_children n)
  ∧ list_ok kMaxFailureDomainDepth id_ok (fdn_ancestors n) ∧ 0 ≤ fdn_depth n ≤ kMaxFailureDomainDepth
  ∧ source_set_ok (fdn_attestors n).
Definition forest_ok (f : failure_domain_forest) : Prop :=
  list_ok kMaxDistinctFailureDomains forest_node_ok (ff_nodes f)
  ∧ list_ok kMaxDistinctFailureDomains id_ok (ff_cyclic f)
  ∧ list_ok kMaxDistinctFailureDomains id_ok (ff_dangling f) ∧ factors_ok (ff_factors f).
Definition maintenance_ok (e : maintenance_effect) : Prop :=
  id_ok (me_id e) ∧ list_ok kMaxDistinctResources resource_ok (me_excluded e)
  ∧ list_ok kMaxDistinctResources resource_ok (me_indeterminate e)
  ∧ list_ok kMaxDistinctObligations id_ok (me_overlapping_obligations e)
  ∧ capacity_ok (me_excluded_capacity e) ∧ factors_ok (me_factors e).
Definition verdict_ok (v : obligation_verdict) : Prop :=
  id_ok (ov_id v) ∧ in_u 64 (ov_required v) ∧ in_u 64 (ov_observed v) ∧ source_set_ok (ov_sources v)
  ∧ factors_ok (ov_factors v).
Definition conflict_ok (c : site_conflict) : Prop :=
  resource_ok (sc_subject c) ∧ source_set_ok (sc_parties c)
  ∧ list_ok kMaxAttestorsPerResource text_ok (sc_variants c) ∧ in_i64 (sc_detected_at_ms c).
Definition deficit_ok (d : site_deficit) : Prop := domain_ok (sd_domain d) ∧ text_ok (sd_detail d).
Definition decision_ok (d : site_decision) : Prop :=
  resource_ok (did_subject (dec_id d)) ∧ source_set_ok (dec_sources d) ∧ digest_wf (dec_value_digest d)
  ∧ factors_ok (dec_factors d).
Definition site_ok (s : composed_site) : Prop :=
  id_ok (site_id s) ∧ in_u 64 (site_epoch s) ∧ in_u 64 (site_generation s) ∧ incarnation_wf (site_incarnation s)
  ∧ in_i64 (site_composed_at_ms s) ∧ list_ok kMaxMemberDomains member_state_ok (site_members s)
  ∧ list_ok kMaxDistinctResources ownership_ok (site_ownership s) ∧ ledger_ok (site_capacity s)
  ∧ connectivity_ok (site_connectivity s) ∧ forest_ok (site_failure_domains s)
  ∧ list_ok kMaxDistinctMaintenanceZones maintenance_ok (site_maintenance s)
  ∧ list_ok kMaxDistinctObligations verdict_ok (site_obligations s)
  ∧ list_ok kMaxConflicts conflict_ok (site_conflicts s) ∧ list_ok kMaxDeficits deficit_ok (site_deficits s)
  ∧ list_ok kMaxDecisions decision_ok (site_decisions s) ∧ factors_ok (site_factors s).
Definition snapshot_ok (s : site_snapshot) : Prop :=
  id_ok (snap_site s) ∧ in_u 64 (snap_epoch s) ∧ in_u 64 (snap_generation s) ∧ incarnation_wf (snap_incarnation s)
  ∧ in_u 64 (snap_sequence s) ∧ digest_wf (snap_site_digest s) ∧ in_i64 (snap_published_at_ms s)
  ∧ source_set_ok (snap_sources s) ∧ factors_ok (snap_factors s) ∧ site_ok (snap_state s).

(** * Round trips *)

Lemma sort_unique_sorted_id {A} `{Ord A, EqDecision A} (l : list A) :
  StronglySorted lt_key l → sort_unique l = l.
Proof.
  intros Hs. apply lt_sorted_ext; [apply sort_unique_sorted|done|]. intros x. apply sort_unique_elem.
Qed.

Lemma decodes_source_set s : source_set_ok s → decodes read_source_set (write_source_set s) (on_wire s).
Proof.
  intros (Hs & Hlen & Hwf). unfold read_source_set, write_source_set. eapply decodes_last.
  - apply (decodes_list_id kMaxDecisionSources source_ref_wf); [by split; [lia|]|done|apply decodes_source_ref].
  - rewrite ss_insert_all_canonical; rewrite sort_unique_sorted_id; done.
Qed.

Lemma factors_add_all l k :
  zlen (k ++ l) ≤ kMaxFactors → foldl (λ f factor, factors_add factor f) (Factors k 0) l = Factors (k ++ l) 0.
Proof.
  revert k. induction l as [|x l IH]; intros k Hl; simpl; [by rewrite app_nil_r|].
  unfold factors_add at 2. simpl. rewrite (proj2 (Z.leb_gt _ _)).
  - rewrite IH; [by rewrite <- app_assoc|]. by rewrite <- app_assoc.
  - rewrite zlen_app, zlen_cons in Hl. pose proof (zlen_nonneg l). lia.
Qed.

Lemma decodes_factors f : factors_ok f → decodes read_factors (write_factors f) (on_wire f).
Proof.
  intros [Hlen Hf]. unfold read_factors, write_factors. eapply decodes_last.
  - apply (decodes_list_id kMaxFactors text_ok); [by split; [lia|]|done|apply decodes_text].
  - by apply (factors_add_all _ []).
Qed.

Lemma decodes_optional_identifier s : optional_id_ok s → decodes read_optional_identifier (w_text s) s.
Proof.
  intros Hs. rewrite <- (app_nil_r (w_text s)). eapply decodes_bind.
  - apply decodes_text. destruct Hs as [->|Hs]; [done|by apply identifier_fits].
  - apply decodes_require; [|apply decodes_ret]. destruct Hs as [->|Hs]; [done|]. unfold id_ok in Hs.
    rewrite Hs. apply orb_true_r.
Qed.

(** A field of these records: one of [Codec]'s, a status, a set, factors or a text. *)
Ltac site_field :=
  lazymatch goal with
  | |- decodes read_status (w_u8 (enum_code ?e)) _ => apply decodes_enum_byte; by destruct e
  | |- decodes read_source_set _ _ => by apply decodes_source_set
  | |- decodes read_factors _ _ => by apply decodes_factors
  | |- decodes (r_text _) _ _ => by apply decodes_text
  | |- decodes read_optional_identifier _ _ => by apply decodes_optional_identifier
  | |- decodes read_identifier _ _ => by apply decodes_identifier
  | |- decodes r_source_ref _ _ => by apply decodes_source_ref
  | |- decodes (r_list _ (r_text _)) _ _ => eapply decodes_list_id; [done|done|]; apply decodes_text
  | _ => field
  end.
Ltac site_codec :=
  repeat (eapply decodes_bind; [solve [site_field]|]); eapply decodes_last; [solve [site_field]|done].

Lemma decodes_token t : token_ok t → decodes read_authority_token (write_authority_token t) t.
Proof.
  intros (? & ? & ? & ? & ? & ? & ? & ?). unfold read_authority_token, write_authority_token. destruct t. site_codec.
Qed.

Lemma decodes_member_state s : member_state_ok s → decodes read_member_state (write_member_state s) (on_wire s).
Proof.
  intros (? & ? & ? & ? & ? & ? & ? & ? & ?). unfold read_member_state, write_member_state. site_codec.
Qed.

Lemma decodes_ownership a : ownership_ok a → decodes read_ownership (write_ownership a) (on_wire a).
Proof. intros (? & ? & ? & ? & ?). unfold read_ownership, write_ownership. site_codec. Qed.

Lemma decodes_ledger_entry e : ledger_entry_ok e → decodes read_ledger_entry (write_ledger_entry e) (on_wire e).
Proof. intros (? & ? & ? & ?). unfold read_ledger_entry, write_ledger_entry. site_codec. Qed.

Lemma decodes_connectivity c : connectivity_ok c → decodes read_connectivity (write_connectivity c) (on_wire c).
Proof.
  intros (? & ? & ? & ? & ? & ? & ? & ? & ? & ? & ? & ? & ? & ?).
  unfold read_connectivity, write_connectivity. site_codec.
Qed.

Lemma decodes_forest_node n : forest_node_ok n → decodes read_forest_node (write_forest_node n) (on_wire n).
Proof.
  intros (? & ? & ? & ? & ? & Hd & ?). unfold read_forest_node, write_forest_node.
  do 6 (eapply decodes_bind; [solve [site_field]|]).
  eapply decodes_bind; [apply decodes_u32; unfold in_u, kMaxFailureDomainDepth in *; lia|].
  apply decodes_require; [apply Z.leb_le; lia|]. site_codec.
Qed.

Lemma decodes_maintenance e : maintenance_ok e → decodes read_maintenance_effect (write_maintenance_effect e) (on_wire e).
Proof. intros (? & ? & ? & ? & ? & ?). unfold read_maintenance_effect, write_maintenance_effect. site_codec. Qed.

Lemma decodes_verdict v : verdict_ok v → decodes read_verdict (write_verdict v) (on_wire v).
Proof. intros (? & ? & ? & ? & ?). unfold read_verdict, write_verdict. site_codec. Qed.

Lemma decodes_conflict c : conflict_ok c → decodes read_conflict (write_conflict c) (on_wire c).
Proof. intros (? & ? & ? & ?). unfold read_conflict, write_conflict. site_codec. Qed.

Lemma decodes_deficit d : deficit_ok d → decodes read_deficit (write_deficit d) d.
Proof. intros (? & ?). unfold read_deficit, write_deficit. destruct d. site_codec. Qed.

Lemma decodes_decision d : decision_ok d → decodes read_decision (write_decision d) (on_wire d).
Proof. intros (? & ? & ? & ?). unfold read_decision, write_decision. destruct d as [[? ?] ? ? ? ?]. site_codec. Qed.

(** A counted list of parts. *)
Ltac list_field H L := eapply decodes_bind; [by eapply (decodes_list_map _ _ _ _ _ _ H); [|apply L]|].

Lemma decodes_ledger l : ledger_ok l → decodes read_ledger (write_ledger l) (on_wire l).
Proof.
  intros (He & ? & ? & ? & ? & ?). unfold read_ledger, write_ledger. list_field He decodes_ledger_entry. site_codec.
Qed.

Lemma decodes_forest f : forest_ok f → decodes read_forest (write_forest f) (on_wire f).
Proof.
  intros (Hn & ? & ? & ?). unfold read_forest, write_forest. list_field Hn decodes_forest_node. site_codec.
Qed.

Lemma decodes_composed_site s : site_ok s → decodes read_composed_site (write_composed_site s) (on_wire s).
Proof.
  intros (? & ? & ? & ? & ? & Hm & Ho & ? & ? & ? & He & Hv & Hc & Hd & Hx & ?).
  unfold read_composed_site, write_composed_site. do 11 (eapply decodes_bind; [solve [site_field]|]).
  list_field Hm decodes_member_state. list_field Ho decodes_ownership.
  eapply decodes_bind; [by apply decodes_ledger|]. eapply decodes_bind; [by apply decodes_connectivity|].
  eapply decodes_bind; [by apply decodes_forest|]. list_field He decodes_maintenance.
  list_field Hv decodes_verdict. list_field Hc decodes_conflict.
  eapply decodes_bind; [by eapply (decodes_list_id _ _ _ _ _ Hd); [|apply decodes_deficit]|].
  list_field Hx decodes_decision. eapply decodes_last; [by apply decodes_factors|done].
Qed.

Lemma decodes_snapshot s : snapshot_ok s → decodes read_snapshot_body (write_snapshot_body s) (on_wire s).
Proof.
  intros (? & ? & ? & ? & ? & ? & ? & ? & ? & ?). unfold read_snapshot_body, write_snapshot_body, write_envelope.
  rewrite <- !app_assoc. repeat (eapply decodes_bind; [solve [site_field]|]).
  eapply decodes_last; [by apply decodes_composed_site|done].
Qed.

(** ** The bytes a digest covers are those the wire carries *)

Lemma w_list_image {A} (w : A → bytes) (f : A → A) l : (∀ a, w (f a) = w a) → w_list w (f <$> l) = w_list w l.
Proof.
  intros Hw. unfold w_list, zlen. rewrite length_fmap. f_equal.
  induction l as [|a l IH]; [done|]. by rewrite fmap_cons, !bind_cons, IH, Hw.
Qed.

Lemma write_site_on_wire s : write_composed_site (on_wire s) = write_composed_site s.
Proof.
  unfold write_composed_site, write_ledger, write_forest.
  cbn [on_wire site_on_wire ledger_on_wire connectivity_on_wire forest_on_wire site_id site_epoch site_generation
    site_incarnation site_composed_at_ms site_lifecycle_state site_status site_membership_complete
    site_all_evidence_fresh site_any_conflict site_any_unknown_capacity site_members site_ownership site_capacity
    site_connectivity site_failure_domains site_maintenance site_obligations site_conflicts site_deficits
    site_decisions site_factors cl_entries cl_total cl_available cl_excluded_by_maintenance cl_indeterminate
    cl_closes_exactly cl_status cl_factors ff_nodes ff_cyclic ff_dangling ff_status ff_factors].
  by rewrite !w_list_image by done.
Qed.

Lemma write_envelope_on_wire s : write_envelope (on_wire s) = write_envelope s.
Proof. done. Qed.

(** A snapshot survives the store and the wire: reading back the bytes written for any
    encodable snapshot returns it, envelope and composed site, with only the truncation marks
    of source sets and factor lists and the envelope digest reset; both digests of the value
    read back are those of the original; and every strict prefix is refused as TRUNCATED. *)
Theorem snapshot_codec (s : site_snapshot) :
  snapshot_ok s →
  (∀ rest, read_snapshot_body (write_snapshot_body s ++ rest) = Ok (on_wire s, rest))
  ∧ composed_site_digest (snap_state (on_wire s)) = composed_site_digest (snap_state s)
  ∧ snapshot_envelope_digest (on_wire s) = snapshot_envelope_digest s
  ∧ (∀ p q, write_snapshot_body s = p ++ q → q ≠ [] → read_snapshot_body p = Err Status.TRUNCATED).
Proof.
  intros Hs. destruct (decodes_snapshot s Hs) as [Hr Ht]. split_and!; [done| |done|done].
  unfold composed_site_digest. cbn [on_wire snapshot_on_wire snap_state]. by rewrite write_site_on_wire.
Qed.

(** An incomplete site of one absent member, wrapped as its second snapshot. *)
Module SampleSite.

Definition rack : member_domain_key := MemberDomainKey MemberDomainKind.RACK "rack-1".
Definition absent : member_domain_state :=
  MemberDomainState rack MemberLifecycle.ABSENT Status.MEMBERSHIP_MISSING 0 zero_digest (SchemaVersion 0 0)
    (Incarnation 0 "") "" 0 EvidenceState.UNKNOWN true false no_source_ref (Factors ["reported=false"%string] 0).
Definition ledger : capacity_ledger :=
  CapacityLedger [] all_unknown all_unknown all_unknown all_unknown true Status.CAPACITY_UNKNOWN no_factors.
Definition connectivity : connectivity_summary :=
  ConnectivitySummary 0 0 0 0 0 0 0 0 0 0 0 0 [] ss_empty Status.CONNECTIVITY_UNKNOWN.
Definition decision : site_decision :=
  SiteDecision (DecisionId DecisionKind.SITE_LIFECYCLE no_resource) Status.PARTITIONED ss_empty zero_digest no_factors.
Definition site_at (ep : epoch) : composed_site :=
  ComposedSite "site-a" ep 2 (Incarnation 1 "boot-1") 2000 SiteLifecycle.PARTITIONED Status.PARTITIONED false false
    false true [absent] [] ledger connectivity (FailureDomainForest [] [] [] Status.OK no_factors) [] [] []
    [SiteDeficit Status.MEMBERSHIP_MISSING rack "no publication received"] [decision] no_factors.
Definition snapshot_at (ep : epoch) : site_snapshot :=
  SiteSnapshot "site-a" ep 2 (Incarnation 1 "boot-1") 2 (composed_site_digest (site_at ep)) zero_digest 2000
    SiteLifecycle.PARTITIONED Status.PARTITIONED false ss_empty no_factors (site_at ep).
Definition snapshot : site_snapshot := snapshot_at 1.

(** A site without members, and a snapshot of it as the controller builds one: no digest yet. *)
Definition bare (ep : epoch) : composed_site :=
  ComposedSite "site-a" ep 2 (Incarnation 1 "boot-1") 2000 SiteLifecycle.PARTITIONED Status.PARTITIONED false false
    false true [] [] ledger connectivity (FailureDomainForest [] [] [] Status.OK no_factors) [] [] [] [] [] no_factors.
Definition unsealed (ep : epoch) : site_snapshot :=
  SiteSnapshot "site-a" ep 2 (Incarnation 1 "boot-1") 0 zero_digest zero_digest 2000
    SiteLifecycle.PARTITIONED Status.PARTITIONED false ss_empty no_factors (bare ep).

End SampleSite.

(** Closed side conditions of the sample. *)
Ltac site_sample_ok :=
  repeat match goal with
  | |- _ ∧ _ => split
  | |- Forall _ _ => constructor
  | |- StronglySorted _ _ => constructor
  | |- domain_ok _ => right
  | |- resource_ok _ => left
  | |- source_ref_wf _ => left
  | |- optional_id_ok _ => left
  | |- opt_ok _ _ => exact I
  | |- list_ok _ _ _ => split
  | |- capacity_ok _ => split
  | |- value_ok _ => split
  | |- cv_wf _ => split
  | |- source_set_ok _ => split
  | |- factors_ok _ => split
  | |- schema_wf _ => split
  | |- incarnation_wf _ => split
  | |- text_ok _ => split
  | |- snapshot_ok _ => unfold snapshot_ok
  | |- site_ok _ => unfold site_ok
  | |- member_state_ok _ => unfold member_state_ok
  | |- ledger_ok _ => unfold ledger_ok
  | |- connectivity_ok _ => unfold connectivity_ok
  | |- forest_ok _ => unfold forest_ok
  | |- deficit_ok _ => unfold deficit_ok
  | |- decision_ok _ => unfold decision_ok
  end; try (vm_compute; repeat split; congruence).

Lemma sample_snapshot_ok : snapshot_ok SampleSite.snapshot.
Proof. site_sample_ok. Qed.
Lemma sample_unsealed_ok : snapshot_ok (SampleSite.unsealed 1).
Proof. site_sample_ok. Qed.

Lemma snapshot_codec_witness :
  read_snapshot_body (write_snapshot_body SampleSite.snapshot ++ [x00]) = Ok (on_wire SampleSite.snapshot, [x00]).
Proof. apply (snapshot_codec SampleSite.snapshot sample_snapshot_ok). Defined.
