(* ===== verification/Snapshot.v ===== *)
(** The snapshot chain (snapshot.hpp, src/core/snapshot.cpp).

    One mutex guards the chain, so each entry point is one atomic function from chain to
    result and chain. The history is oldest first; [refusals] counts refused publications by
    status code. The chain refines the plain log of everything it accepted: what it holds is
    always the end of that log. *)

From stdpp Require Import sorting.
From S2P Require Import Prelude Ordering Enums Sha256 Identity Canonical Evidence Capacity Claims Codec Authority Forest Site SiteCodec.

Definition kDefaultSnapshotHistory : Z := 256.

(** * Envelopes *)

Definition with_digests (site_digest snapshot_digest : digest) (s : site_snapshot) : site_snapshot :=
  SiteSnapshot (snap_site s) (snap_epoch s) (snap_generation s) (snap_incarnation s) (snap_sequence s)
    site_digest snapshot_digest (snap_published_at_ms s) (snap_lifecycle s) (snap_status s) (snap_complete s)
    (snap_sources s) (snap_factors s) (snap_state s).
Definition with_sequence (sequence : Z) (s : site_snapshot) : site_snapshot :=
  SiteSnapshot (snap_site s) (snap_epoch s) (snap_generation s) (snap_incarnation s) sequence (snap_site_digest s)
    (snap_snapshot_digest s) (snap_published_at_ms s) (snap_lifecycle s) (snap_status s) (snap_complete s)
    (snap_sources s) (snap_factors s) (snap_state s).
(** [site_digest = d], then [snapshot_digest = snapshot_envelope_digest]. *)
Definition seal_digests (d : digest) (s : site_snapshot) : site_snapshot :=
  let s := with_digests d (snap_snapshot_digest s) s in with_digests d (snapshot_envelope_digest s) s.

(** A non-zero site digest that is not the digest of the state. *)
Definition digest_differs (d : digest) (s : site_snapshot) : bool :=
  negb (digest_is_zero (snap_site_digest s)) && negb (bool_decide (d = snap_site_digest s)).

(** [SiteSnapshot::recompute_digest]. *)
Definition recompute_digest (s : site_snapshot) : status * site_snapshot :=
  let state_digest := composed_site_digest (snap_state s) in
  if digest_differs state_digest s then (Status.INTEGRITY_FAILURE, s)
  else (Status.OK, seal_digests state_digest s).

(** * The chain *)

Record snapshot_chain := SnapshotChain {
  ch_history : list site_snapshot;
  ch_limit : Z;
  ch_refusals : omap_t Z Z;
}.

Record publish_result := SnapshotPublishResult {
  pr_status : status;
  pr_sequence : Z;
  pr_factors : factors;
}.
Definition accepted (r : publish_result) : bool :=
  bool_decide (pr_status r ∈ [Status.OK; Status.PUBLISHED; Status.ALREADY_EXISTS]).

Definition clamp_limit (history_limit : Z) : Z :=
  let history_limit := if history_limit =? 0 then kDefaultSnapshotHistory else history_limit in
  if kMaxSnapshotHistory <? history_limit then kMaxSnapshotHistory else history_limit.

Definition new_chain (history_limit : Z) : snapshot_chain := SnapshotChain [] (clamp_limit history_limit) [].

Definition count_refusal (code : status) (c : snapshot_chain) : snapshot_chain :=
  let n := default 0 (om_find (enum_code code) (ch_refusals c)) in
  SnapshotChain (ch_history c) (ch_limit c) (om_set (enum_code code) (wrap 64 (n + 1)) (ch_refusals c)).

(** The [refuse] lambda of [publish]. *)
Definition refuse (code : status) (factor : string) (c : snapshot_chain) : publish_result * snapshot_chain :=
  (SnapshotPublishResult code 0 (factors_add factor no_factors), count_refusal code c).

(** [while (history.size() > limit) history.pop_front();] *)
Fixpoint trim (limit : Z) (h : list site_snapshot) : list site_snapshot :=
  match h with
  | [] => []
  | _ :: rest => if limit <? zlen h then trim limit rest else h
  end.
Definition push (s : site_snapshot) (c : snapshot_chain) : snapshot_chain :=
  SnapshotChain (trim (ch_limit c) (ch_history c ++ [s])) (ch_limit c) (ch_refusals c).

(** The checks that need no incumbent: the refusal, or the digest of the state. *)
Definition check_snapshot (s : site_snapshot) (t : token) (now_ms : Z) : result (status * string) digest :=
  if negb (is_valid_identifier (snap_site s)) || negb (is_set (snap_epoch s))
  then Err (Status.INVALID, "snapshot_header"%string)
  else if negb (bool_decide (tok_site t = snap_site s)) then Err (Status.SITE_MISMATCH, "token_site_differs"%string)
  else
    let token_status := evaluate_at t now_ms in
    if negb (is_ok token_status) then Err (token_status, "token"%string)
    else if negb (bool_decide (site_id (snap_state s) = snap_site s))
    then Err (Status.INVALID, "state_site_differs"%string)
    else if negb (site_epoch (snap_state s) =? snap_epoch s)
            || negb (site_generation (snap_state s) =? snap_generation s)
    then Err (Status.INVALID, "state_epoch_or_generation_differs"%string)
    else
      let state_digest := composed_site_digest (snap_state s) in
      if digest_differs state_digest s then Err (Status.INTEGRITY_FAILURE, "site_digest"%string)
      else Ok state_digest.

(** What the incumbent says to a publication under [t] with that state digest. *)
Inductive fence : Type :=
| Advances
| Fenced (code : status) (factor : string)
| Republished.

Definition fence_against (current : site_snapshot) (t : token) (state_digest : digest) : fence :=
  if tok_epoch t <? snap_epoch current then Fenced Status.FENCED_EPOCH "lower_epoch"
  else if tok_epoch t =? snap_epoch current then
    if negb (bool_decide (tok_incarnation t = snap_incarnation current)) then
      if inc_sequence (tok_incarnation t) <? inc_sequence (snap_incarnation current)
      then Fenced Status.FENCED_INCARNATION "lower_incarnation_sequence" else Advances
    else if tok_generation t <? snap_generation current
    then Fenced Status.FENCED_GENERATION "lower_generation"
    else if tok_generation t =? snap_generation current then
      if bool_decide (state_digest = snap_site_digest current) then Republished
      else Fenced Status.FENCED_GENERATION "same_generation_different_content"
    else Advances
  else Advances.

Definition published (sequence : Z) : publish_result := SnapshotPublishResult Status.PUBLISHED sequence no_factors.

Definition publish (s : site_snapshot) (t : token) (now_ms : Z) (c : snapshot_chain)
    : publish_result * snapshot_chain :=
  match check_snapshot s t now_ms with
  | Err (code, factor) => refuse code factor c
  | Ok d =>
      match last (ch_history c) with
      | None =>
          let candidate := seal_digests d (with_sequence 1 s) in
          (published (snap_sequence candidate),
           SnapshotChain (ch_history c ++ [candidate]) (ch_limit c) (ch_refusals c))
      | Some current =>
          match fence_against current t d with
          | Fenced code factor => refuse code factor c
          | Republished =>
              (SnapshotPublishResult Status.ALREADY_EXISTS (snap_sequence current)
                 (factors_add_pair "republication" "identical" no_factors),
               count_refusal Status.ALREADY_EXISTS c)
          | Advances =>
              let candidate := seal_digests d (with_sequence (wrap 64 (snap_sequence current + 1)) s) in
              (published (snap_sequence candidate), push candidate c)
          end
      end
  end.

Definition restore (s : site_snapshot) (c : snapshot_chain) : status * snapshot_chain :=
  if negb (is_valid_identifier (snap_site s)) || negb (is_set (snap_epoch s)) || (snap_sequence s =? 0)
  then (Status.INVALID, c)
  else if negb (bool_decide (composed_site_digest (snap_state s) = snap_site_digest s))
  then (Status.INTEGRITY_FAILURE, c)
  else if negb (digest_is_zero (snap_snapshot_digest s))
          && negb (bool_decide (snapshot_envelope_digest s = snap_snapshot_digest s))
  then (Status.INTEGRITY_FAILURE, c)
  else
    match last (ch_history c) with
    | Some newest =>
        if snap_sequence s =? snap_sequence newest then (Status.ALREADY_EXISTS, c)
        else if snap_sequence s <? snap_sequence newest then (Status.REPLAYED, c)
        else (Status.OK, push s c)
    | None => (Status.OK, push s c)
    end.

(** * Reading the chain *)

Definition current (c : snapshot_chain) : option site_snapshot := last (ch_history c).
Definition at_sequence (sequence : Z) (c : snapshot_chain) : option site_snapshot :=
  List.find (λ s, snap_sequence s =? sequence) (ch_history c).
Definition sequences (c : snapshot_chain) : list Z := snap_sequence <$> ch_history c.
Definition chain_size (c : snapshot_chain) : Z := zlen (ch_history c).
Definition set_history_limit (history_limit : Z) (c : snapshot_chain) : snapshot_chain :=
  SnapshotChain (ch_history c) (clamp_limit history_limit) (ch_refusals c).
Definition chain_epoch (c : snapshot_chain) : epoch := from_option snap_epoch 0 (current c).
Definition chain_incarnation (c : snapshot_chain) : incarnation :=
  from_option snap_incarnation (Incarnation 0 "") (current c).
Definition chain_generation (c : snapshot_chain) : generation := from_option snap_generation 0 (current c).
Definition refusals (code : status) (c : snapshot_chain) : Z := default 0 (om_find (enum_code code) (ch_refusals c)).
Definition clear (c : snapshot_chain) : snapshot_chain := SnapshotChain [] (ch_limit c) [].

(** * The specification: the log of everything accepted *)

Definition spec_publish (s : site_snapshot) (t : token) (now_ms : Z) (log : list site_snapshot)
    : status * list site_snapshot :=
  match check_snapshot s t now_ms with
  | Err (code, _) => (code, log)
  | Ok d =>
      match last log with
      | None => (Status.PUBLISHED, log ++ [seal_digests d (with_sequence 1 s)])
      | Some current =>
          match fence_against current t d with
          | Fenced code _ => (code, log)
          | Republished => (Status.ALREADY_EXISTS, log)
          | Advances =>
              (Status.PUBLISHED, log ++ [seal_digests d (with_sequence (wrap 64 (snap_sequence current + 1)) s)])
          end
      end
  end.

(** A recovered snapshot whose digests agree with its content. *)
Definition intact (s : site_snapshot) : bool :=
  bool_decide (composed_site_digest (snap_state s) = snap_site_digest s)
  && (digest_is_zero (snap_snapshot_digest s) || bool_decide (snapshot_envelope_digest s = snap_snapshot_digest s)).

Definition spec_restore (s : site_snapshot) (log : list site_snapshot) : status * list site_snapshot :=
  if negb (is_valid_identifier (snap_site s)) || negb (is_set (snap_epoch s)) || (snap_sequence s =? 0)
  then (Status.INVALID, log)
  else if negb (intact s) then (Status.INTEGRITY_FAILURE, log)
  else
    match last log with
    | Some newest =>
        if snap_sequence s =? snap_sequence newest then (Status.ALREADY_EXISTS, log)
        else if snap_sequence s <? snap_sequence newest then (Status.REPLAYED, log)
        else (Status.OK, log ++ [s])
    | None => (Status.OK, log ++ [s])
    end.

(** The calls that change a chain. *)
Inductive chain_op : Type :=
| OpPublish (s : site_snapshot) (t : token) (now_ms : Z)
| OpRestore (s : site_snapshot)
| OpLimit (history_limit : Z)
| OpClear.

Definition chain_step (op : chain_op) (c : snapshot_chain) : status * snapshot_chain :=
  match op with
  | OpPublish s t now => let '(r, c) := publish s t now c in (pr_status r, c)
  | OpRestore s => restore s c
  | OpLimit n => (Status.OK, set_history_limit n c)
  | OpClear => (Status.OK, clear c)
  end.
Definition log_step (op : chain_op) (log : list site_snapshot) : status * list site_snapshot :=
  match op with
  | OpPublish s t now => spec_publish s t now log
  | OpRestore s => spec_restore s log
  | OpLimit _ => (Status.OK, log)
  | OpClear => (Status.OK, [])
  end.

(** A run, with the statuses it answered. *)
Fixpoint run_ops {S} (step : chain_op → S → status * S) (ops : list chain_op) (s : S) : list status * S :=
  match ops with
  | [] => ([], s)
  | op :: rest => let '(st, s) := step op s in let '(sts, s) := run_ops step rest s in (st :: sts, s)
  end.

(** What the chain keeps of the log. *)
Definition represents (c : snapshot_chain) (log : list site_snapshot) : Prop :=
  ch_history c `suffix_of` log ∧ last (ch_history c) = last log
  ∧ 0 < ch_limit c ≤ kMaxSnapshotHistory ∧ zlen (ch_history c) ≤ kMaxSnapshotHistory.

Lemma clamp_limit_range n : 0 ≤ n → 0 < clamp_limit n ≤ kMaxSnapshotHistory.
Proof.
  intros Hn. unfold clamp_limit, kDefaultSnapshotHistory, kMaxSnapshotHistory.
  destruct (Z.eqb_spec n 0); repeat case_match; lia.
Qed.

Lemma trim_spec limit h :
  0 < limit → h ≠ [] →
  trim limit h `suffix_of` h ∧ last (trim limit h) = last h ∧ zlen (trim limit h) ≤ limit.
Proof.
  intros Hl. induction h as [|s rest IH]; [done|]. intros _. simpl.
  destruct (Z.ltb_spec limit (zlen (s :: rest))) as [Hlt|Hge]; [|done].
  destruct rest as [|s' rest].
  { unfold zlen in Hlt. simpl in Hlt. lia. }
  destruct IH as (H1 & H2 & H3); [done|]. split_and!; [by apply suffix_cons_r|by rewrite H2|done].
Qed.

Lemma represents_push c log s : represents c log → represents (push s c) (log ++ [s]).
Proof.
  intros (Hs & _ & Hl & _). unfold push. split_and!; cbn [ch_history ch_limit]; try lia.
  all: destruct (trim_spec (ch_limit c) (ch_history c ++ [s])) as (H1 & H2 & H3); [lia|by destruct (ch_history c)|].
  - etrans; [exact H1|]. destruct Hs as [l ->]. exists l. by rewrite app_assoc.
  - by rewrite H2, !last_snoc.
  - lia.
Qed.

Lemma represents_refusal c log code : represents c log → represents (count_refusal code c) log.
Proof. done. Qed.

Lemma publish_refines s t now c log :
  represents c log →
  let '(r, c') := publish s t now c in
  let '(st, log') := spec_publish s t now log in pr_status r = st ∧ represents c' log'.
Proof.
  intros HR. pose proof HR as (Hsuf & Hlast & Hlim & _). unfold publish, spec_publish.
  destruct (check_snapshot s t now) as [d|[code factor]]; [|done]. rewrite <- Hlast.
  destruct (last (ch_history c)) as [cur|] eqn:E.
  - destruct (fence_against cur t d) as [|code factor|]; [|done|done]. split; [done|]. by apply represents_push.
  - apply last_None in E. split; [done|]. rewrite E in *. split_and!; cbn [ch_history ch_limit]; try lia.
    + destruct Hsuf as [l ->]. exists l. by rewrite app_nil_r.
    + by rewrite !last_snoc.
    + done.
Qed.

Lemma restore_refines s c log :
  represents c log →
  let '(st, c') := restore s c in let '(st', log') := spec_restore s log in st = st' ∧ represents c' log'.
Proof.
  intros HR. pose proof HR as (_ & Hlast & _). unfold restore, spec_restore, intact.
  destruct (negb (is_valid_identifier _) || _ || _); [done|].
  destruct (bool_decide (composed_site_digest _ = _)); [|done]. cbn [negb andb].
  destruct (digest_is_zero (snap_snapshot_digest s)), (bool_decide (snapshot_envelope_digest s = _));
    cbn [negb andb orb]; try done; rewrite <- Hlast; destruct (last (ch_history c)) as [newest|];
    try (destruct (_ =? _); [done|]; destruct (_ <? _); [done|]); split; try done; by apply represents_push.
Qed.

Definition limit_ok (op : chain_op) : Prop := match op with OpLimit n => 0 ≤ n | _ => True end.

Lemma step_refines op c log :
  limit_ok op → represents c log →
  let '(st, c') := chain_step op c in let '(st', log') := log_step op log in st = st' ∧ represents c' log'.
Proof.
  intros Hop HR. destruct op as [s t now|s|n|]; cbn [chain_step log_step].
  - pose proof (publish_refines s t now c log HR) as H. by destruct (publish s t now c), (spec_publish s t now log).
  - by apply restore_refines.
  - destruct HR as (H1 & H2 & H3 & H4). split; [done|]. pose proof (clamp_limit_range n Hop). unfold represents. cbn. tauto.
  - destruct HR as (_ & _ & Hl & _). split; [done|]. by destruct Hl; split_and!.
Qed.

(** A run of a fresh chain refines the run of its log. *)
Lemma runs_refine (history_limit : Z) (ops : list chain_op) :
  0 ≤ history_limit → Forall limit_ok ops →
  let '(answers, c) := run_ops chain_step ops (new_chain history_limit) in
  let '(answers', log) := run_ops log_step ops [] in
  answers = answers' ∧ represents c log.
Proof.
  intros Hn Hops.
  assert (represents (new_chain history_limit) []) as HR.
  { destruct (clamp_limit_range _ Hn). split_and!; done || by cbn. }
  revert HR. generalize (new_chain history_limit) ([] : list site_snapshot).
  induction Hops as [|op ops Hop _ IH]; intros c log HR; [done|]. cbn [run_ops].
  pose proof (step_refines op c log Hop HR) as Hstep.
  destruct (chain_step op c) as [st c'], (log_step op log) as [st' log']. destruct Hstep as [-> HR'].
  specialize (IH c' log' HR').
  destruct (run_ops chain_step ops c') as [sts c''], (run_ops log_step ops log') as [sts' log''].
  by destruct IH as [-> IH].
Qed.

(** C21: the chain refines its log: over any sequence of publications, restores, limit changes
    and clears of a fresh chain, every call answers what the specification over the whole log
    answers, the chain holds the end of the log with the same current snapshot, and it never
    holds more than 4096 snapshots. *)
Theorem chain_refines_log (history_limit : Z) (ops : list chain_op) :
  0 ≤ history_limit → Forall limit_ok ops →
  let '(answers, c) := run_ops chain_step ops (new_chain history_limit) in
  let '(answers', log) := run_ops log_step ops [] in
  answers = answers' ∧ represents c log.
Proof. apply runs_refine. Qed.

Definition sample_token : token :=
  AuthorityToken AuthorityKind.SITE_CONTROLLER "ctl-1" "site-a" 1 (Incarnation 1 "boot-1") 2 1 1000 9000.

(** Published, offered again unchanged, then offered under an older epoch's token. *)
Lemma chain_refines_log_witness :
  let ops := [OpPublish (SampleSite.unsealed 1) sample_token 2000; OpPublish (SampleSite.unsealed 1) sample_token 2001;
              OpLimit 1; OpClear] in
  (run_ops chain_step ops (new_chain 8)).1 = (run_ops log_step ops []).1
  ∧ zlen (ch_history (run_ops chain_step ops (new_chain 8)).2) ≤ kMaxSnapshotHistory.
Proof.
  cbv zeta. set (ops := [_; _; _; _]).
  pose proof (chain_refines_log 8 ops ltac:(lia) ltac:(repeat constructor; done)) as H.
  destruct (run_ops chain_step ops (new_chain 8)) as [answers c], (run_ops log_step ops []) as [answers' log].
  destruct H as [-> (_ & _ & _ & H)]. split; [reflexivity|exact H].
Defined.

(** ** Sequence numbers *)

(** Every snapshot of the log is numbered below [bound], in order. *)
Definition numbered (bound : Z) (log : list site_snapshot) : Prop :=
  StronglySorted Z.lt (snap_sequence <$> log) ∧ Forall (λ s, 0 ≤ snap_sequence s < bound) log.

Lemma numbered_snoc bound log s :
  numbered bound log → (∀ l, last log = Some l → snap_sequence l < snap_sequence s) → 0 ≤ snap_sequence s ≤ bound →
  numbered (bound + 1) (log ++ [s]).
Proof.
  intros [Hs Hf] Hlast Hb. split.
  - rewrite fmap_app. simpl. apply StronglySorted_app. split_and!; [|done|by repeat constructor].
    intros x1 x2 Hx1 ->%list_elem_of_singleton. apply list_elem_of_fmap in Hx1 as (x & -> & Hx).
    destruct (last log) as [l|] eqn:E; [|apply last_None in E; subst; by apply elem_of_nil in Hx].
    specialize (Hlast l eq_refl). apply last_Some in E as [k ->].
    apply elem_of_app in Hx as [Hx | ->%list_elem_of_singleton]; [|done].
    rewrite fmap_app in Hs. simpl in Hs.
    assert (snap_sequence x < snap_sequence l); [|lia].
    apply StronglySorted_app in Hs as (Hs & _ & _). apply Hs; [by apply list_elem_of_fmap_2|left].
  - apply Forall_app. split; [|by repeat constructor; lia].
    eapply Forall_impl; [exact Hf|]. simpl. lia.
Qed.

Lemma numbered_weaken b b' log : numbered b log → b ≤ b' → numbered b' log.
Proof. intros [Hs Hf] Hb. split; [done|]. eapply Forall_impl; [exact Hf|]. simpl. lia. Qed.

Definition restores_below (bound : Z) (op : chain_op) : Prop :=
  match op with OpRestore s => 0 ≤ snap_sequence s < bound | _ => True end.

Lemma seal_sequence d s : snap_sequence (seal_digests d s) = snap_sequence s.
Proof. done. Qed.

Lemma log_step_numbered b op log :
  1 ≤ b < 2 ^ 64 → restores_below b op → numbered b log → numbered (b + 1) (log_step op log).2.
Proof.
  intros Hb Hop Hn. assert (numbered (b + 1) log) as Hn' by (eapply numbered_weaken; [done|lia]).
  destruct op as [s t now|s|n|]; cbn [log_step].
  - unfold spec_publish. destruct (check_snapshot s t now) as [d|[code f]]; [|done].
    destruct (last log) as [cur|] eqn:E.
    + destruct (fence_against cur t d); [|done..]. cbn [snd].
      assert (0 ≤ snap_sequence cur < b) as Hcur.
      { destruct Hn as [_ Hf]. apply last_Some in E as [k ->]. apply Forall_app in Hf as [_ Hf]. by inversion Hf. }
      apply numbered_snoc; [done| |]; rewrite seal_sequence; cbn [with_sequence snap_sequence];
        rewrite wrap_small by (unfold in_u; lia); [|lia].
      intros l Hl. rewrite E in Hl. injection Hl as <-. lia.
    + cbn [snd]. apply numbered_snoc; [done|by intros l Hl; rewrite E in Hl|rewrite seal_sequence; cbn; lia].
  - cbn in Hop. unfold spec_restore. destruct (negb (is_valid_identifier _) || _ || _); [done|].
    destruct (negb (intact s)); [done|]. destruct (last log) as [cur|] eqn:E.
    + destruct (Z.eqb_spec (snap_sequence s) (snap_sequence cur)); [done|].
      destruct (Z.ltb_spec (snap_sequence s) (snap_sequence cur)); [done|]. cbn [snd].
      apply numbered_snoc; [done| |lia]. intros l Hl. rewrite E in Hl. injection Hl as <-. lia.
    + apply numbered_snoc; [done|by intros l Hl; rewrite E in Hl|lia].
  - done.
  - by repeat constructor.
Qed.

(** The log of a run stays numbered: the bound grows by one with every call. *)
Lemma log_numbered ops b log :
  1 ≤ b → b + zlen ops < 2 ^ 64 → Forall (restores_below b) ops → numbered b log →
  numbered (b + zlen ops) (run_ops log_step ops log).2.
Proof.
  intros Hb Hlen Hops. revert b log Hb Hlen Hops. induction ops as [|op ops IH]; intros b log Hb Hlen Hops Hn.
  { unfold zlen. simpl. by rewrite Z.add_0_r. }
  apply Forall_cons in Hops as [Hop Hops]. rewrite zlen_cons in *. pose proof (zlen_nonneg ops). cbn [run_ops].
  pose proof (log_step_numbered b op log ltac:(lia) Hop Hn) as Hn'.
  destruct (log_step op log) as [st log']. cbn [snd] in Hn'.
  specialize (IH (b + 1) log' ltac:(lia) ltac:(lia)).
  destruct (run_ops log_step ops log') as [sts log'']. cbn [snd] in *.
  rewrite Z.add_assoc. apply IH; [|done].
  eapply Forall_impl; [exact Hops|]. intros [] ?; cbn in *; try done. lia.
Qed.

Lemma find_sequence l s :
  StronglySorted Z.lt (snap_sequence <$> l) → s ∈ l →
  List.find (λ x, snap_sequence x =? snap_sequence s) l = Some s.
Proof.
  induction l as [|x l IH]; intros Hs Hin; [by apply elem_of_nil in Hin|]. simpl.
  apply StronglySorted_inv in Hs as [Hs Hf]. rewrite Forall_forall in Hf.
  apply elem_of_cons in Hin as [<-|Hin]; [by rewrite Z.eqb_refl|].
  assert (snap_sequence x < snap_sequence s) by (apply Hf; by apply list_elem_of_fmap_2).
  rewrite (proj2 (Z.eqb_neq _ _)) by lia. by apply IH.
Qed.

(** Sequence numbers identify snapshots: over any run of a fresh chain whose restored
    snapshots are numbered below [b], with room for one more number per call, the numbers held
    are strictly increasing and each held snapshot is the one found under its number. *)
Theorem sequences_identify (history_limit b : Z) (ops : list chain_op) :
  0 ≤ history_limit → Forall limit_ok ops → 1 ≤ b → b + zlen ops < 2 ^ 64 → Forall (restores_below b) ops →
  let c := (run_ops chain_step ops (new_chain history_limit)).2 in
  StronglySorted Z.lt (sequences c) ∧ ∀ s, s ∈ ch_history c → at_sequence (snap_sequence s) c = Some s.
Proof.
  intros Hn Hops Hb Hlen Hbelow. cbv zeta.
  assert (StronglySorted Z.lt (sequences (run_ops chain_step ops (new_chain history_limit)).2)) as Hs.
  2: { split; [done|]. intros s Hin. by apply find_sequence. }
  pose proof (runs_refine history_limit ops Hn Hops) as Href.
  pose proof (log_numbered ops b [] Hb Hlen Hbelow ltac:(by repeat constructor)) as [Hnum _].
  destruct (run_ops chain_step ops (new_chain history_limit)) as [answers c], (run_ops log_step ops []) as [answers' log].
  cbn [snd] in *. destruct Href as [_ ((l & ->) & _)]. rewrite fmap_app in Hnum.
  by apply StronglySorted_app in Hnum as (_ & _ & ?).
Qed.

(** ** Fencing *)

(** The token advances past the current snapshot. *)
Definition advances (t : token) (cur : site_snapshot) : Prop :=
  snap_epoch cur < tok_epoch t
  ∨ (tok_epoch t = snap_epoch cur
     ∧ ((tok_incarnation t ≠ snap_incarnation cur
         ∧ inc_sequence (snap_incarnation cur) ≤ inc_sequence (tok_incarnation t))
        ∨ (tok_incarnation t = snap_incarnation cur ∧ snap_generation cur < tok_generation t))).

Lemma fence_advances cur t d : fence_against cur t d = Advances ↔ advances t cur.
Proof.
  unfold fence_against, advances.
  destruct (Z.ltb_spec (tok_epoch t) (snap_epoch cur)); [split; [done|lia]|].
  destruct (Z.eqb_spec (tok_epoch t) (snap_epoch cur)) as [He|He]; [|split; [left; lia|done]].
  case_bool_decide as Hi; cbn [negb].
  - destruct (Z.ltb_spec (tok_generation t) (snap_generation cur)); [split; [done|intros [?|(_ & [[? _]|[_ ?]])]; done || lia]|].
    destruct (Z.eqb_spec (tok_generation t) (snap_generation cur)).
    + case_bool_decide; (split; [done|intros [?|(_ & [[? _]|[_ ?]])]; done || lia]).
    + split; [|done]. intros _. right. split; [done|]. right. split; [done|lia].
  - destruct (Z.ltb_spec (inc_sequence (tok_incarnation t)) (inc_sequence (snap_incarnation cur))).
    + split; [done|]. intros [?|(_ & [[_ ?]|[? _]])]; done || lia.
    + split; [|done]. intros _. right. split; [done|]. left. by split.
Qed.

Lemma check_snapshot_ok s t now d :
  check_snapshot s t now = Ok d →
  is_valid_identifier (snap_site s) = true ∧ is_set (snap_epoch s) = true ∧ tok_site t = snap_site s
  ∧ is_ok (evaluate_at t now) = true ∧ site_id (snap_state s) = snap_site s
  ∧ site_epoch (snap_state s) = snap_epoch s ∧ site_generation (snap_state s) = snap_generation s
  ∧ d = composed_site_digest (snap_state s) ∧ digest_differs d s = false.
Proof.
  unfold check_snapshot.
  destruct (is_valid_identifier _), (is_set _); cbn [negb orb]; try done.
  case_bool_decide; [|done]. destruct (is_ok (evaluate_at t now)); [|done]. case_bool_decide; [|done]. cbn [negb].
  destruct (Z.eqb_spec (site_epoch (snap_state s)) (snap_epoch s)); [|done].
  destruct (Z.eqb_spec (site_generation (snap_state s)) (snap_generation s)); [|done]. cbn [negb orb].
  destruct (digest_differs _ s) eqn:E; [done|]. by intros [= <-].
Qed.

(** A refused publication answers with a status that is not an acceptance. *)
Lemma check_snapshot_err s t now code f :
  check_snapshot s t now = Err (code, f) → code ≠ Status.PUBLISHED ∧ code ≠ Status.ALREADY_EXISTS.
Proof.
  unfold check_snapshot. repeat (case_match; try (intros [= <- <-]; done)); try done.
  intros [= <- <-]. unfold evaluate_at in *. repeat case_match; done.
Qed.

Lemma fence_code cur t d code f :
  fence_against cur t d = Fenced code f → code ≠ Status.PUBLISHED ∧ code ≠ Status.ALREADY_EXISTS.
Proof. unfold fence_against. repeat (case_match; try (intros [= <- <-]; done)); done. Qed.

(** Publication is fenced: against a current snapshot, a publication is accepted exactly
    when it is well-formed - its site and epoch valid and those of its state, its digest that
    of its state - its token covers the site at this instant, and the token advances in epoch,
    or to another incarnation no older, or in generation; then the chain grows by it, sealed
    and numbered one up, and otherwise the history does not change. *)
Theorem publication_fenced (s : site_snapshot) (t : token) (now_ms : Z) (c : snapshot_chain) (cur : site_snapshot) :
  current c = Some cur →
  let '(r, c') := publish s t now_ms c in
  let d := composed_site_digest (snap_state s) in
  (pr_status r = Status.PUBLISHED ↔ check_snapshot s t now_ms = Ok d ∧ advances t cur)
  ∧ (pr_status r = Status.PUBLISHED →
       let p := seal_digests d (with_sequence (wrap 64 (snap_sequence cur + 1)) s) in
       pr_sequence r = snap_sequence p ∧ ch_history c' = trim (ch_limit c) (ch_history c ++ [p]))
  ∧ (pr_status r ≠ Status.PUBLISHED → ch_history c' = ch_history c)
  ∧ (pr_status r = Status.ALREADY_EXISTS → snap_site_digest cur = d).
Proof.
  intros Hcur. unfold publish. unfold current in Hcur. rewrite Hcur.
  destruct (check_snapshot s t now_ms) as [d|[code f]] eqn:Hck.
  2: { apply check_snapshot_err in Hck as [Hp Ha]. unfold refuse. cbn. split_and!; try done.
       split; [done|]. by intros [? _]. }
  pose proof (check_snapshot_ok _ _ _ _ Hck) as (_ & _ & _ & _ & _ & _ & _ & -> & _).
  pose proof (fence_advances cur t (composed_site_digest (snap_state s))) as Hadv.
  destruct (fence_against _ _ _) as [|code f|] eqn:Hf; cbn.
  - split_and!; try done. split; [|done]. intros _. split; [done|]. by apply Hadv.
  - apply fence_code in Hf as [Hp Ha]. split_and!; try done. split; [done|]. intros [_ ?]. by apply Hadv in H.
  - split_and!; try done.
    + split; [done|]. intros [_ ?]. by apply Hadv in H.
    + intros _. unfold fence_against in Hf. repeat (case_match; try done).
      by match goal with H : bool_decide _ = true |- _ => apply bool_decide_eq_true in H end.
Qed.

Lemma publication_fenced_witness :
  let t := AuthorityToken AuthorityKind.SITE_CONTROLLER "ctl-1" "site-a" 5 (Incarnation 1 "boot-1") 2 1 1000 9000 in
  let c := (publish (SampleSite.unsealed 5) t 2000 (new_chain 8)).2 in
  ∃ cur, current c = Some cur ∧ pr_status (publish (SampleSite.unsealed 1) sample_token 2001 c).1 = Status.FENCED_EPOCH
    ∧ ch_history (publish (SampleSite.unsealed 1) sample_token 2001 c).2 = ch_history c.
Proof.
  intros t c. assert (from_option (λ x, snap_sequence x =? 1) false (current c) = true) as Hc by (vm_compute; reflexivity).
  destruct (current c) as [cur|] eqn:E; [|discriminate Hc]. exists cur. split; [reflexivity|].
  pose proof (publication_fenced (SampleSite.unsealed 1) sample_token 2001 c cur E) as H.
  assert (pr_status (publish (SampleSite.unsealed 1) sample_token 2001 c).1 = Status.FENCED_EPOCH) as Hs
    by (vm_compute; reflexivity).
  destruct (publish (SampleSite.unsealed 1) sample_token 2001 c) as [r c']. split; [exact Hs|].
  apply (proj1 (proj2 (proj2 H))). intros Hp. cbn [fst] in Hs. congruence.
Defined.

(** The fence reads the token, never the snapshot: under a newer token an older epoch's
    snapshot is accepted and the chain's epoch goes back. *)
Lemma older_snapshot_published :
  let newer := SampleSite.unsealed 5 in
  let t := AuthorityToken AuthorityKind.SITE_CONTROLLER "ctl-1" "site-a" 6 (Incarnation 1 "boot-1") 2 1 1000 9000 in
  let c := (publish newer t 2000 (new_chain 8)).2 in
  let c' := (publish (SampleSite.unsealed 1) t 2001 c).2 in
  chain_epoch c = 5 ∧ chain_epoch c' = 1.
Proof. vm_compute. split; reflexivity. Qed.

(** ** Recovery *)

(** The envelope digest does not cover itself. *)
Lemma seal_envelope d s : snapshot_envelope_digest (seal_digests d s) = snap_snapshot_digest (seal_digests d s).
Proof. unfold seal_digests. cbn [snap_snapshot_digest with_digests]. unfold snapshot_envelope_digest. by f_equal. Qed.

(** What the chain publishes can be recovered: the snapshot a publication appended, written
    and read back, is restored by a fresh chain, as its current snapshot and with the same
    digests of state and envelope. *)
Theorem published_restores (s : site_snapshot) (t : token) (now_ms history_limit : Z) (c : snapshot_chain)
    (p : site_snapshot) :
  pr_status (publish s t now_ms c).1 = Status.PUBLISHED → current (publish s t now_ms c).2 = Some p →
  snapshot_ok p → snap_sequence p ≠ 0 → 0 ≤ history_limit → 0 < ch_limit c →
  ∃ p' c', read_snapshot_body (write_snapshot_body p) = Ok (p', [])
    ∧ restore p' (new_chain history_limit) = (Status.OK, c') ∧ current c' = Some p'
    ∧ snap_site_digest p' = composed_site_digest (snap_state p)
    ∧ snapshot_envelope_digest p' = snap_snapshot_digest p.
Proof.
  intros Hpub Hcur Hok Hseq Hlim Hc.
  assert (is_valid_identifier (snap_site p) = true ∧ is_set (snap_epoch p) = true
    ∧ snap_site_digest p = composed_site_digest (snap_state p)
    ∧ snapshot_envelope_digest p = snap_snapshot_digest p) as (Hid & Hep & Hdig & Henv).
  { unfold publish in *. destruct (check_snapshot s t now_ms) as [d|[code f]] eqn:Hck.
    2: { apply check_snapshot_err in Hck as [Hp _]. done. }
    pose proof (check_snapshot_ok _ _ _ _ Hck) as (Hi & He & _ & _ & _ & _ & _ & -> & _).
    assert (∀ q, Some (seal_digests (composed_site_digest (snap_state s)) (with_sequence q s)) = Some p →
      is_valid_identifier (snap_site p) = true ∧ is_set (snap_epoch p) = true
      ∧ snap_site_digest p = composed_site_digest (snap_state p)
      ∧ snapshot_envelope_digest p = snap_snapshot_digest p) as Hdone.
    { intros q Hq. injection Hq as <-. split_and!; [exact Hi|exact He|reflexivity|apply seal_envelope]. }
    destruct (last (ch_history c)) as [cur|] eqn:El.
    - destruct (fence_against cur t _) as [|code f|] eqn:Hf; [|by apply fence_code in Hf as [? _]|done].
      unfold current, push in Hcur. cbn [snd ch_history] in Hcur.
      destruct (trim_spec (ch_limit c) (ch_history c ++ [seal_digests (composed_site_digest (snap_state s))
        (with_sequence (wrap 64 (snap_sequence cur + 1)) s)])) as (_ & Hl & _);
        [done|by destruct (ch_history c)|]. rewrite Hl, last_snoc in Hcur. by eapply Hdone.
    - unfold current in Hcur. cbn [snd ch_history] in Hcur. rewrite last_snoc in Hcur. by eapply Hdone. }
  exists (on_wire p). destruct (decodes_snapshot p Hok) as [Hr _]. specialize (Hr []). rewrite app_nil_r in Hr.
  assert (composed_site_digest (snap_state (on_wire p)) = composed_site_digest (snap_state p)) as Hsite.
  { unfold composed_site_digest. cbn [on_wire snapshot_on_wire snap_state]. by rewrite write_site_on_wire. }
  eexists. split; [done|]. split.
  { unfold restore. rewrite Hsite. cbn [on_wire snapshot_on_wire snap_site snap_epoch snap_sequence snap_site_digest
      snap_snapshot_digest]. rewrite Hid, Hep, (proj2 (Z.eqb_neq _ _) Hseq), (bool_decide_eq_true_2 _ (eq_sym Hdig)).
    change (digest_is_zero zero_digest) with true. reflexivity. }
  split_and!; [|exact Hdig|exact Henv].
  unfold current, push. cbn [ch_history ch_limit new_chain app].
  pose proof (clamp_limit_range history_limit Hlim).
  destruct (trim_spec (clamp_limit history_limit) [on_wire p]) as (_ & Hl & _); [lia|done|exact Hl].
Qed.

Lemma published_restores_witness :
  let c := (publish (SampleSite.unsealed 1) sample_token 2000 (new_chain 8)).2 in
  ∃ p p' c', current c = Some p ∧ read_snapshot_body (write_snapshot_body p) = Ok (p', [])
             ∧ restore p' (new_chain 8) = (Status.OK, c').
Proof.
  cbv zeta. set (d := composed_site_digest (snap_state (SampleSite.unsealed 1))).
  set (p := seal_digests d (with_sequence 1 (SampleSite.unsealed 1))).
  assert (current (publish (SampleSite.unsealed 1) sample_token 2000 (new_chain 8)).2 = Some p) as Hcur by reflexivity.
  assert (snapshot_ok p) as Hok.
  { pose proof sample_unsealed_ok as H. unfold snapshot_ok in *. cbn in *. split_and!; try apply H; try done. }
  destruct (published_restores (SampleSite.unsealed 1) sample_token 2000 8 (new_chain 8) p) as (p' & c' & H1 & H2 & _).
  - vm_compute; reflexivity.
  - exact Hcur.
  - exact Hok.
  - vm_compute; discriminate.
  - lia.
  - vm_compute; reflexivity.
  - exists p, p', c'. split; [exact Hcur|]. split; [exact H1|exact H2].
Defined.
