(* ===== verification/StoreFormat.v ===== *)
(** The store file: layout, records and recovery scan (src/persistence/persistence.cpp).

    A file is the 48-byte header and then records, each an 80-byte header that carries the
    length and two digests, and its payload. [scan_image] reads a byte image forward and
    stops at the first record that does not verify. The theorems: what was written is
    recovered exactly, and cutting a well-formed image anywhere loses only the record the
    cut falls into. *)

From stdpp Require Import sorting.
From S2P Require Import Prelude Ordering Enums Sha256 Identity Canonical Evidence Capacity Claims Codec Authority Forest Site SiteCodec.

Definition kFileMagic : bytes := string_bytes "SFABSTOR".
Definition kRecordMagic : Z := 0x43524653.
Definition kFileHeaderBytes : Z := 48.
Definition kRecordHeaderBytes : Z := 80.
Definition kPersistenceFormatVersion : Z := 1.

(** [span.subspan(offset, size)]. *)
Definition subspan (offset size : nat) (data : bytes) : bytes := take size (drop offset data).

(** * Headers *)

Definition header_fields (version : Z) : bytes := kFileMagic ++ put_u32 version ++ put_u32 0.
Definition make_file_header : bytes :=
  let fields := header_fields kPersistenceFormatVersion in fields ++ digest_bytes fields.

(** The version of a header whose magic and digest verify. *)
Definition verify_file_header (data : bytes) : option Z :=
  if zlen data <? kFileHeaderBytes then None
  else if negb (bool_decide (subspan 0 8 data = kFileMagic)) then None
  else if negb (bool_decide (digest_bytes (subspan 0 16 data) = subspan 16 32 data)) then None
  else Some (read_u32_at data 8).

Definition record_fields (type : record_type) (payload : bytes) : bytes :=
  put_u32 kRecordMagic ++ w_u16 (enum_code type) ++ [x00; x00] ++ put_u32 (zlen payload) ++ put_u32 0
  ++ digest_bytes payload.
Definition make_record (type : record_type) (payload : bytes) : bytes :=
  if (kMaxRecordPayloadBytes <? zlen payload) || (0xFFFFFFFF <? zlen payload) then []
  else let fields := record_fields type payload in fields ++ digest_bytes fields ++ payload.

(** * Entries: what one record contributes *)

Inductive entry : Type :=
| ESnapshot (snapshot : site_snapshot)
| EPublication (publication : publication_record)
| ERetirement (retirement : retirement_record)
| ETombstone (tombstone : string)
| ELease (lease : token)
| ECheckpoint.

Definition entry_type (e : entry) : record_type :=
  match e with
  | ESnapshot _ => RecordType.SNAPSHOT | EPublication _ => RecordType.PUBLICATION
  | ERetirement _ => RecordType.RETIREMENT | ETombstone _ => RecordType.TOMBSTONE
  | ELease _ => RecordType.LEASE | ECheckpoint => RecordType.CHECKPOINT
  end.
Definition entry_payload (e : entry) : bytes :=
  match e with
  | ESnapshot s => write_snapshot_body s | EPublication p => write_publication p
  | ERetirement r => write_retirement_record r | ETombstone t => w_text t
  | ELease t => write_authority_token t | ECheckpoint => []
  end.
Definition encode_entry (e : entry) : bytes := make_record (entry_type e) (entry_payload e).

Definition read_entry (type : record_type) : reader entry :=
  match type with
  | RecordType.SNAPSHOT => s ← read_snapshot_body; mret (ESnapshot s)
  | RecordType.PUBLICATION => p ← read_publication_record; mret (EPublication p)
  | RecordType.RETIREMENT => r ← read_retirement_record; mret (ERetirement r)
  | RecordType.LEASE => t ← read_authority_token; mret (ELease t)
  | RecordType.TOMBSTONE => t ← r_text kMaxTextBytes; mret (ETombstone t)
  | RecordType.CHECKPOINT => mret ECheckpoint
  | _ => fail Status.UNSUPPORTED
  end.
Definition decode_record (type : record_type) (payload : bytes) : result status entry :=
  p ← (e ← read_entry type; r_finish;; mret e) payload; Ok p.1.

(** * Contents and report *)

Record recovery_report := StoreRecoveryReport {
  rep_status : status;
  rep_records_scanned : Z;
  rep_records_accepted : Z;
  rep_records_rejected : Z;
  rep_bytes_consumed : Z;
  rep_bytes_truncated : Z;
  rep_header_present : bool;
  rep_tail_truncated : bool;
  rep_version_incompatible : bool;
  rep_digest_mismatch : bool;
  rep_diagnostics : list string;
}.
Definition empty_report : recovery_report :=
  StoreRecoveryReport Status.UNKNOWN 0 0 0 0 0 false false false false [].
Definition usable (r : recovery_report) : bool := rep_header_present r && negb (rep_version_incompatible r).

Record store_contents := StoreContents {
  co_snapshot_history : list site_snapshot;
  co_publications : list publication_record;
  co_retirements : list retirement_record;
  co_tombstones : list string;
  co_leases : list token;
}.
Definition no_contents : store_contents := StoreContents [] [] [] [] [].

(** [push_back] on the list of the record's type. *)
Definition collect (c : store_contents) (e : entry) : store_contents :=
  let '(StoreContents ss ps rs ts ls) := c in
  match e with
  | ESnapshot s => StoreContents (ss ++ [s]) ps rs ts ls
  | EPublication p => StoreContents ss (ps ++ [p]) rs ts ls
  | ERetirement r => StoreContents ss ps (rs ++ [r]) ts ls
  | ETombstone t => StoreContents ss ps rs (ts ++ [t]) ls
  | ELease t => StoreContents ss ps rs ts (ls ++ [t])
  | ECheckpoint => c
  end.

Definition latest_snapshot (c : store_contents) : option site_snapshot := last (co_snapshot_history c).
Definition record_count (c : store_contents) : Z :=
  zlen (co_snapshot_history c) + zlen (co_publications c) + zlen (co_retirements c)
  + zlen (co_tombstones c) + zlen (co_leases c).

Definition publication_key (r : publication_record) : member_domain_key * generation :=
  (pub_domain r, pub_generation r).
(** The sorts that end the scan. *)
Definition sort_contents (c : store_contents) : store_contents :=
  StoreContents (sort_by snap_sequence (co_snapshot_history c)) (sort_by publication_key (co_publications c))
    (co_retirements c) (co_tombstones c) (co_leases c).

Definition content_digest (c : store_contents) : digest :=
  finish_digest
    ((co_snapshot_history c ≫= λ s, w_u8 (enum_code RecordType.SNAPSHOT) ++ w_u64 (snap_sequence s)
        ++ w_digest (snap_snapshot_digest s))
     ++ (co_publications c ≫= λ r, w_u8 (enum_code RecordType.PUBLICATION) ++ w_u64 (pub_acceptance_sequence r)
        ++ w_digest (publication_digest r))
     ++ (co_retirements c ≫= λ r, w_u8 (enum_code RecordType.RETIREMENT) ++ w_text (mdk_to_string (ret_domain r))
        ++ w_generation (ret_generation r))
     ++ (co_tombstones c ≫= λ t, w_u8 (enum_code RecordType.TOMBSTONE) ++ w_text t)
     ++ (co_leases c ≫= λ t, w_u8 (enum_code RecordType.LEASE) ++ write_authority_token t)).

(** * The scan *)

(** Why the scan stopped: the terminal status, the marks it sets on the report, and
    whether the record had been counted as scanned. *)
Record stopped := Stopped {
  stop_status : status;
  stop_torn : bool;
  stop_digest : bool;
  stop_scanned : bool;
  stop_diagnostic : Z → string;
}.

Definition ensure (c : bool) (s : stopped) : result stopped unit := if c then Ok () else Err s.
Definition at_offset (what : string) (offset : Z) : string := what +:+ " at offset " +:+ dec offset.

(** The header of the record that starts [rest]: its type and payload length. *)
Definition examine_header (rest : bytes) : result stopped (record_type * Z) :=
  ensure (kRecordHeaderBytes <=? zlen rest)
    (Stopped Status.TRUNCATED true false false (at_offset "record header truncated"));;
  ensure (read_u32_at rest 0 =? kRecordMagic)
    (Stopped Status.CORRUPT false false false (at_offset "record magic mismatch"));;
  ensure (bool_decide (digest_bytes (subspan 0 48 rest) = subspan 48 32 rest))
    (Stopped Status.CORRUPT false true false (at_offset "record header digest mismatch"));;
  let raw_type := Z.lor (byte_at rest 4) (Z.shiftl (byte_at rest 5) 8) in
  ensure (raw_type <=? enum_code RecordType.CHECKPOINT)
    (Stopped Status.CORRUPT false false false (at_offset "unknown record type"));;
  let payload_bytes := read_u32_at rest 8 in
  ensure (payload_bytes <=? kMaxRecordPayloadBytes)
    (Stopped Status.LIMIT_EXCEEDED false false false (at_offset "record payload above the bound"));;
  mret (default RecordType.UNKNOWN (enum_of_code raw_type), payload_bytes).

(** The snapshot embedded in the record must hash to the digest it carries. *)
Definition snapshot_intact (e : entry) : bool :=
  match e with
  | ESnapshot s => bool_decide (composed_site_digest (snap_state s) = snap_site_digest s)
  | _ => true
  end.

(** The whole record: its entry and its size in bytes. *)
Definition examine (rest : bytes) : result stopped (entry * Z) :=
  h ← examine_header rest;
  let '(type, payload_bytes) := h in
  ensure (payload_bytes <=? zlen rest - kRecordHeaderBytes)
    (Stopped Status.TRUNCATED true false true (at_offset "record payload truncated"));;
  let payload := subspan 80 (Z.to_nat payload_bytes) rest in
  ensure (bool_decide (digest_bytes payload = subspan 16 32 rest))
    (Stopped Status.INTEGRITY_FAILURE false true true (at_offset "record payload digest mismatch"));;
  match decode_record type payload with
  | Err s =>
      Err (Stopped s false false true
             (λ offset, at_offset "record decode failed" offset +:+ ": " +:+ to_string s))
  | Ok e =>
      ensure (snapshot_intact e)
        (Stopped Status.INTEGRITY_FAILURE false true true (at_offset "snapshot state digest mismatch"));;
      mret (e, kRecordHeaderBytes + payload_bytes)
  end.

(** The state of the loop: contents, counters, offset. *)
Record scan_state := ScanState {
  sc_contents : store_contents;
  sc_scanned : Z;
  sc_accepted : Z;
  sc_offset : Z;
}.
Definition accept_entry (e : entry) (size : Z) (st : scan_state) : scan_state :=
  ScanState (collect (sc_contents st) e) (sc_scanned st + 1) (sc_accepted st + 1) (sc_offset st + size).

(** The loop over [rest], the image from the offset on. *)
Fixpoint scan_records (fuel : nat) (rest : bytes) (st : scan_state) : scan_state * option stopped :=
  match fuel, rest with
  | O, _ | _, [] => (st, None)
  | S fuel, _ =>
      match examine rest with
      | Err s => (st, Some s)
      | Ok (e, size) => scan_records fuel (drop (Z.to_nat size) rest) (accept_entry e size st)
      end
  end.

(** The report after the loop: [image_size - offset] bytes were left behind. *)
Definition report_of (image_size : Z) (st : scan_state) (stop : option stopped) : recovery_report :=
  match stop with
  | None => StoreRecoveryReport Status.OK (sc_scanned st) (sc_accepted st) 0 (sc_offset st) 0 true false false false []
  | Some s =>
      let code := stop_status s in
      StoreRecoveryReport (if is_ok code then Status.OK else code)
        (sc_scanned st + if stop_scanned s then 1 else 0) (sc_accepted st)
        (if negb (is_ok code) && negb (bool_decide (code = Status.TRUNCATED)) then 1 else 0) (sc_offset st)
        (if stop_torn s || negb (is_ok code) then image_size - sc_offset st else 0) true (stop_torn s) false
        (stop_digest s) [stop_diagnostic s (sc_offset st)]
  end.

Record recovered := Recovered {
  rc_contents : store_contents;
  rc_report : recovery_report;
  rc_consumed : Z;
}.
(** An image whose file header is refused. *)
Definition refused (r : recovery_report) : recovered := Recovered no_contents r 0.

Definition scan_start : scan_state := ScanState no_contents 0 0 kFileHeaderBytes.

Definition scan_image (image : bytes) : recovered :=
  if zlen image <? kFileHeaderBytes then
    refused (StoreRecoveryReport Status.NOT_FOUND 0 0 0 0 0 false false false false
               ["file smaller than the store header"%string])
  else match verify_file_header image with
  | None =>
      refused (StoreRecoveryReport Status.CORRUPT 0 0 0 0 0 false false false false
                 ["store header magic or digest mismatch"%string])
  | Some version =>
      if negb (version =? kPersistenceFormatVersion) then
        refused (StoreRecoveryReport Status.UNSUPPORTED_FORMAT 0 0 0 kFileHeaderBytes 0 true false true false
                   ["store format version " +:+ dec version +:+ " is not " +:+ dec kPersistenceFormatVersion])
      else
        let '(st, stop) := scan_records (length image) (drop (Z.to_nat kFileHeaderBytes) image) scan_start in
        Recovered (sort_contents (sc_contents st)) (report_of (zlen image) st stop) (sc_offset st)
  end.

(** The status [scan_image] returns is the one on its report. *)
Definition rc_status (r : recovered) : status := rep_status (rc_report r).

(** * What the format preserves *)

Definition entry_on_wire (e : entry) : entry :=
  match e with
  | ESnapshot s => ESnapshot (on_wire s)
  | EPublication p => EPublication (publication_on_wire p)
  | _ => e
  end.

(** An entry the store can read back: within the model bounds, its payload within the
    record bound, and a snapshot carrying the digest of its state. *)
Definition entry_ok (e : entry) : Prop :=
  zlen (entry_payload e) ≤ kMaxRecordPayloadBytes
  ∧ match e with
    | ESnapshot s => snapshot_ok s ∧ composed_site_digest (snap_state s) = snap_site_digest s
    | EPublication p => publication_ok p
    | ERetirement r => retirement_ok r
    | ETombstone t => text_ok t
    | ELease t => token_ok t
    | ECheckpoint => True
    end.

Lemma subspan_app_l o n (a b : bytes) : (o + n ≤ length a)%nat → subspan o n (a ++ b) = subspan o n a.
Proof. intros H. unfold subspan. rewrite drop_app_le by lia. rewrite take_app_le; [done|]. rewrite length_drop. lia. Qed.
Lemma subspan_middle o n (a b c : bytes) : length a = o → length b = n → subspan o n (a ++ b ++ c) = b.
Proof. intros <- <-. unfold subspan. by rewrite drop_app_length, take_app_length. Qed.
Lemma subspan_last o n (a b : bytes) : length a = o → length b = n → subspan o n (a ++ b) = b.
Proof. intros Ha Hb. rewrite <- (app_nil_r b) at 1. by apply subspan_middle. Qed.

Lemma read_u32_middle o (a : bytes) v c : length a = o → in_u 32 v → read_u32_at (a ++ put_u32 v ++ c) o = v.
Proof.
  intros <- Hv. replace (length a) with (length a + 0)%nat by lia. rewrite read_u32_at_app by done.
  by apply read_put_u32.
Qed.

Lemma byte_at_app (a b : bytes) i : byte_at (a ++ b) (length a + i) = byte_at b i.
Proof. unfold byte_at. rewrite app_nth2 by lia. do 2 f_equal. lia. Qed.

(** ** One record *)

Definition record_header (type : record_type) (payload : bytes) : bytes :=
  record_fields type payload ++ digest_bytes (record_fields type payload).

Lemma record_fields_length type payload : length (record_fields type payload) = 48%nat.
Proof. unfold record_fields. rewrite !length_app, digest_bytes_length. done. Qed.
Lemma record_header_length type payload : length (record_header type payload) = 80%nat.
Proof. unfold record_header. by rewrite length_app, record_fields_length, digest_bytes_length. Qed.

Lemma make_record_eq type payload :
  zlen payload ≤ kMaxRecordPayloadBytes → make_record type payload = record_header type payload ++ payload.
Proof.
  intros H. unfold make_record, kMaxRecordPayloadBytes in *.
  rewrite !(proj2 (Z.ltb_ge _ _)) by lia. unfold record_header. by rewrite <- app_assoc.
Qed.

Lemma ensure_true c s : c = true → ensure c s = Ok ().
Proof. by intros ->. Qed.

Lemma examine_header_record type payload x :
  zlen payload ≤ kMaxRecordPayloadBytes →
  examine_header (record_header type payload ++ x) = Ok (type, zlen payload).
Proof.
  intros Hp. pose proof (zlen_nonneg payload) as Hn. unfold examine_header.
  rewrite (ensure_true (kRecordHeaderBytes <=? _)); [|apply Z.leb_le; rewrite zlen_app; unfold zlen; rewrite record_header_length;
                         unfold kRecordHeaderBytes; lia].
  unfold record_header. rewrite <- app_assoc.
  assert (read_u32_at (record_fields type payload ++ digest_bytes (record_fields type payload) ++ x) 0
          = kRecordMagic) as ->.
  { unfold record_fields. rewrite <- app_assoc. by apply read_put_u32. }
  assert (read_u32_at (record_fields type payload ++ digest_bytes (record_fields type payload) ++ x) 8
          = zlen payload) as ->.
  { unfold record_fields. rewrite !(app_assoc (put_u32 kRecordMagic)), !(app_assoc (_ ++ w_u16 _)), <- !app_assoc.
    rewrite (app_assoc (put_u32 kRecordMagic)), (app_assoc (_ ++ w_u16 _)).
    apply read_u32_middle; [done|]. unfold in_u, kMaxRecordPayloadBytes in *. lia. }
  assert (subspan 0 48 (record_fields type payload ++ digest_bytes (record_fields type payload) ++ x)
          = record_fields type payload) as ->.
  { unfold subspan. rewrite drop_0, take_app_le by (rewrite record_fields_length; done).
    by rewrite take_ge by (rewrite record_fields_length; done). }
  rewrite subspan_middle by (apply record_fields_length || apply digest_bytes_length).
  rewrite Z.eqb_refl, bool_decide_true by done. cbn [ensure mbind result_bind].
  assert (Z.lor (byte_at (record_fields type payload ++ digest_bytes (record_fields type payload) ++ x) 4)
            (Z.shiftl (byte_at (record_fields type payload ++ digest_bytes (record_fields type payload) ++ x) 5) 8)
          = enum_code type) as ->.
  { unfold record_fields. rewrite <- app_assoc. 
    change 4%nat with (length (put_u32 kRecordMagic) + 0)%nat. change 5%nat with (length (put_u32 kRecordMagic) + 1)%nat.
    rewrite !byte_at_app. by destruct type. }
  rewrite enum_of_code_code, (ensure_true (zlen payload <=? _)) by (by apply Z.leb_le).
  by destruct type.
Qed.

(** A strict prefix of the record header is a torn tail. *)
Lemma examine_header_short p : (length p < 80)%nat →
  examine_header p = Err (Stopped Status.TRUNCATED true false false (at_offset "record header truncated")).
Proof.
  intros Hp. unfold examine_header. replace (kRecordHeaderBytes <=? zlen p) with false; [done|].
  symmetry. apply Z.leb_gt. unfold zlen, kRecordHeaderBytes. lia.
Qed.

Lemma examine_record type payload rest e :
  zlen payload ≤ kMaxRecordPayloadBytes → decode_record type payload = Ok e → snapshot_intact e = true →
  examine (make_record type payload ++ rest) = Ok (e, kRecordHeaderBytes + zlen payload).
Proof.
  intros Hp He Hi. unfold examine. rewrite make_record_eq, <- app_assoc, examine_header_record by done.
  cbn [mbind result_bind].
  rewrite (ensure_true (zlen payload <=? _)).
  2: { apply Z.leb_le. rewrite !zlen_app. pose proof (zlen_nonneg rest). unfold zlen at 2.
       rewrite record_header_length. unfold kRecordHeaderBytes. lia. }
  rewrite (subspan_middle 80) by (apply record_header_length || (unfold zlen; lia)).
  assert (subspan 16 32 (record_header type payload ++ payload ++ rest) = digest_bytes payload) as ->.
  { unfold record_header, record_fields. rewrite !(app_assoc _ _ (digest_bytes payload)), <- !app_assoc.
    rewrite (app_assoc (put_u32 kRecordMagic)), (app_assoc (_ ++ w_u16 _)), (app_assoc (_ ++ [x00; x00])), (app_assoc (_ ++ put_u32 (zlen payload))).
    apply subspan_middle; [done|apply digest_bytes_length]. }
  rewrite bool_decide_true by done. cbn [ensure mbind result_bind]. rewrite He, Hi. done.
Qed.

(** The record of which only a strict prefix of the payload is there. *)
Lemma examine_payload_short type payload p q :
  zlen payload ≤ kMaxRecordPayloadBytes → payload = p ++ q → q ≠ [] →
  examine (record_header type payload ++ p)
  = Err (Stopped Status.TRUNCATED true false true (at_offset "record payload truncated")).
Proof.
  intros Hp Heq Hq. unfold examine. rewrite examine_header_record by done. cbn [mbind result_bind].
  replace (zlen payload <=? _) with false; [done|]. symmetry. apply Z.leb_gt.
  rewrite zlen_app, Heq, zlen_app. destruct q; [done|]. rewrite zlen_cons. pose proof (zlen_nonneg q).
  unfold zlen at 1. rewrite record_header_length. unfold kRecordHeaderBytes. lia.
Qed.

(** ** One entry *)

Definition record_size (e : entry) : Z := kRecordHeaderBytes + zlen (entry_payload e).

Lemma record_size_pos e : kRecordHeaderBytes ≤ record_size e.
Proof. unfold record_size. pose proof (zlen_nonneg (entry_payload e)). lia. Qed.

Lemma encode_entry_eq e :
  entry_ok e → encode_entry e = record_header (entry_type e) (entry_payload e) ++ entry_payload e.
Proof. intros [Hp _]. by apply make_record_eq. Qed.

Lemma encode_entry_size e : entry_ok e → zlen (encode_entry e) = record_size e.
Proof.
  intros He. rewrite encode_entry_eq, zlen_app by done. unfold record_size, zlen.
  by rewrite record_header_length.
Qed.

Lemma decode_record_of {A} type (r : reader A) (f : A → entry) w a :
  read_entry type = (x ← r; mret (f x)) → decodes r w a → decode_record type w = Ok (f a).
Proof.
  intros Hr [Hd _]. specialize (Hd []). rewrite app_nil_r in Hd. unfold decode_record. rewrite Hr.
  unfold mbind, reader_bind, result_bind, mret, reader_ret. by rewrite Hd.
Qed.

Lemma decode_entry e : entry_ok e →
  decode_record (entry_type e) (entry_payload e) = Ok (entry_on_wire e) ∧ snapshot_intact (entry_on_wire e) = true.
Proof.
  intros [_ He]. destruct e as [s|p|r|t|t|]; cbn [entry_type entry_payload entry_on_wire].
  - destruct He as [Hs Hd]. split; [by apply (decode_record_of _ read_snapshot_body ESnapshot), decodes_snapshot|].
    apply bool_decide_true. cbn [on_wire snapshot_on_wire snap_state snap_site_digest].
    unfold composed_site_digest. rewrite write_site_on_wire. exact Hd.
  - split; [|exact eq_refl]. by apply (decode_record_of _ read_publication_record EPublication), decodes_publication.
  - split; [|exact eq_refl]. by apply (decode_record_of _ read_retirement_record ERetirement), decodes_retirement.
  - split; [|exact eq_refl]. by apply (decode_record_of _ (r_text kMaxTextBytes) ETombstone), decodes_text.
  - split; [|exact eq_refl]. by apply (decode_record_of _ read_authority_token ELease), decodes_token.
  - split; exact eq_refl.
Qed.

Lemma examine_entry e rest : entry_ok e → examine (encode_entry e ++ rest) = Ok (entry_on_wire e, record_size e).
Proof. intros He. destruct (decode_entry e He) as [Hd Hi]. apply examine_record; [apply He|done|done]. Qed.

Lemma examine_torn e p q : entry_ok e → encode_entry e = p ++ q → q ≠ [] →
  ∃ why, examine p = Err (Stopped Status.TRUNCATED true false (80 <=? zlen p) why).
Proof.
  intros He Heq Hq. destruct (decide (length p < 80)%nat) as [Hl|Hl].
  - exists (at_offset "record header truncated"). unfold examine. rewrite examine_header_short by done.
    replace (80 <=? zlen p) with false; [done|]. symmetry. apply Z.leb_gt. unfold zlen. lia.
  - exists (at_offset "record payload truncated"). rewrite encode_entry_eq in Heq by done.
    apply app_eq_app in Heq as (l & [[Hh ->]|[-> Hpl]]).
    + assert (l = []) as ->.
      { apply (f_equal length) in Hh. rewrite record_header_length, length_app in Hh. destruct l; [done|simpl in Hh; lia]. }
      rewrite app_nil_r in Hh. rewrite <- Hh, <- (app_nil_r (record_header _ _)).
      erewrite examine_payload_short by (apply He || done || by rewrite app_nil_l).
      rewrite app_nil_r. unfold zlen. by rewrite record_header_length.
    + erewrite examine_payload_short by (apply He || done).
      rewrite zlen_app. replace (80 <=? _) with true; [done|]. symmetry. apply Z.leb_le. unfold zlen.
      rewrite record_header_length. lia.
Qed.

(** ** Images *)

Definition image_of (es : list entry) : bytes := make_file_header ++ (es ≫= encode_entry).
Fixpoint records_size (es : list entry) : Z :=
  match es with [] => 0 | e :: es => record_size e + records_size es end.
Definition image_size (es : list entry) : Z := kFileHeaderBytes + records_size es.

(** The entries whose records fit in the first [n] bytes. *)
Fixpoint fitting (n : Z) (es : list entry) : list entry :=
  match es with
  | [] => []
  | e :: es => if record_size e <=? n then e :: fitting (n - record_size e) es else []
  end.

Definition contents_of (es : list entry) : store_contents :=
  sort_contents (foldl collect no_contents (entry_on_wire <$> es)).
Definition scan_after (es : list entry) (st : scan_state) : scan_state :=
  foldl (λ st e, accept_entry (entry_on_wire e) (record_size e) st) st es.

Lemma scan_after_fields es st :
  sc_contents (scan_after es st) = foldl collect (sc_contents st) (entry_on_wire <$> es)
  ∧ sc_scanned (scan_after es st) = sc_scanned st + zlen es
  ∧ sc_accepted (scan_after es st) = sc_accepted st + zlen es
  ∧ sc_offset (scan_after es st) = sc_offset st + records_size es.
Proof.
  revert st. induction es as [|e es IH]; intros st; [unfold zlen; simpl; split_and!; try done; lia|].
  destruct (IH (accept_entry (entry_on_wire e) (record_size e) st)) as (IH1 & IH2 & IH3 & IH4).
  cbn [scan_after foldl records_size fmap list_fmap]. unfold scan_after in *. rewrite IH1, IH2, IH3, IH4, zlen_cons.
  unfold accept_entry. cbn [sc_contents sc_scanned sc_accepted sc_offset]. split_and!; [done|lia|lia|lia].
Qed.

Lemma scan_entries es rest fuel st : Forall entry_ok es → (length es ≤ fuel)%nat →
  scan_records fuel ((es ≫= encode_entry) ++ rest) st = scan_records (fuel - length es) rest (scan_after es st).
Proof.
  intros Hes. revert fuel st. induction Hes as [|e es He Hes IH]; intros fuel st Hf.
  - by rewrite Nat.sub_0_r.
  - destruct fuel as [|fuel]; [simpl in Hf; lia|]. rewrite bind_cons, <- app_assoc. cbn [scan_records].
    pose proof (encode_entry_size e He) as Hsz. pose proof (record_size_pos e). unfold kRecordHeaderBytes in *.
    destruct (encode_entry e ++ (es ≫= encode_entry) ++ rest) eqn:Hne.
    { apply (f_equal zlen) in Hne. rewrite zlen_app, Hsz in Hne. unfold zlen in Hne. simpl in Hne. lia. }
    rewrite <- Hne, examine_entry by done.
    replace (Z.to_nat (record_size e)) with (length (encode_entry e)) by (unfold zlen in Hsz; lia).
    rewrite drop_app_length, IH by (simpl in Hf; lia). done.
Qed.

Lemma records_length es : Forall entry_ok es → zlen (es ≫= encode_entry) = records_size es.
Proof.
  induction 1 as [|e es He Hes IH]; [done|]. rewrite bind_cons, zlen_app, IH.
  by rewrite (encode_entry_size e He).
Qed.

Lemma records_count es : Forall entry_ok es → (length es ≤ length (es ≫= encode_entry))%nat.
Proof.
  intros H. induction H as [|e es He Hes IH]; [simpl; lia|]. rewrite bind_cons, length_app.
  pose proof (encode_entry_size e He) as Hsz. pose proof (record_size_pos e). unfold kRecordHeaderBytes, zlen in *. simpl. lia.
Qed.

(** What a cut leaves: the records that fit, and a strict prefix of the next one. *)
Lemma take_fitting es n : Forall entry_ok es →
  ∃ p, take n (es ≫= encode_entry) = (fitting (Z.of_nat n) es ≫= encode_entry) ++ p
    ∧ (p = [] ∨ ∃ e q, entry_ok e ∧ encode_entry e = p ++ q ∧ q ≠ []).
Proof.
  intros Hes. revert n. induction Hes as [|e es He Hes IH]; intros n.
  - exists []. split; [by destruct n|auto].
  - pose proof (encode_entry_size e He) as Hsz. cbn [fitting]. rewrite bind_cons.
    destruct (Z.leb_spec (record_size e) (Z.of_nat n)).
    + destruct (IH (n - length (encode_entry e))%nat) as (p & Htake & Hp). exists p. split; [|done].
      rewrite take_app_ge by (unfold zlen in Hsz; lia). rewrite Htake, bind_cons, <- app_assoc. do 4 f_equal.
      unfold zlen in Hsz. lia.
    + exists (take n (encode_entry e)). rewrite take_app_le by (unfold zlen in Hsz; lia).
      split; [done|]. right. exists e, (drop n (encode_entry e)). split_and!; [done|by rewrite take_drop|].
      intros Hd. apply (f_equal length) in Hd. rewrite length_drop in Hd. unfold zlen in Hsz. simpl in Hd. lia.
Qed.

Lemma fitting_prefix n es : fitting n es `prefix_of` es.
Proof.
  revert n. induction es as [|e es IH]; intros n; [done|]. cbn [fitting].
  destruct (record_size e <=? n); [by apply prefix_cons|by apply prefix_nil].
Qed.
Lemma records_size_nonneg es : 0 ≤ records_size es.
Proof.
  induction es as [|e es IH]; cbn [records_size]; [done|]. pose proof (record_size_pos e).
  unfold kRecordHeaderBytes in *. lia.
Qed.
Lemma fitting_size n es : 0 ≤ n → records_size (fitting n es) ≤ n.
Proof.
  revert n. induction es as [|e es IH]; intros n Hn; [done|]. cbn [fitting].
  destruct (Z.leb_spec (record_size e) n); cbn [records_size]; [|done]. specialize (IH (n - record_size e)). lia.
Qed.
Lemma fitting_max n es k : k `prefix_of` es → records_size k ≤ n → k `prefix_of` fitting n es.
Proof.
  revert n k. induction es as [|e es IH]; intros n k Hk Hs; [done|].
  destruct k as [|x k]; [apply prefix_nil|]. pose proof (prefix_cons_inv_1 _ _ _ _ Hk) as ->.
  apply prefix_cons_inv_2 in Hk. cbn [records_size fitting] in *. pose proof (records_size_nonneg k).
  rewrite (proj2 (Z.leb_le _ _)) by lia. apply prefix_cons, IH; [done|lia].
Qed.

Lemma verify_file_header_image rest : verify_file_header (make_file_header ++ rest) = Some kPersistenceFormatVersion.
Proof.
  unfold verify_file_header, make_file_header. cbv zeta. rewrite <- app_assoc.
  set (d := digest_bytes (header_fields _)).
  assert (length d = 32%nat) as Hd by apply digest_bytes_length.
  replace (_ <? _) with false.
  2: { symmetry. apply Z.ltb_ge. rewrite !zlen_app. pose proof (zlen_nonneg rest). unfold zlen at 2.
       rewrite Hd. change (zlen (header_fields _)) with 16. unfold kFileHeaderBytes. lia. }
  rewrite (subspan_middle 16) by done.
  rewrite (subspan_app_l 0 16) by (simpl; lia). change (subspan 0 16 (header_fields _)) with (header_fields kPersistenceFormatVersion).
  rewrite (bool_decide_true (digest_bytes _ = d)) by done.
  rewrite (subspan_app_l 0 8) by (simpl; lia). by rewrite bool_decide_true.
Qed.

Lemma make_file_header_length : length make_file_header = 48%nat.
Proof. unfold make_file_header. cbv zeta. by rewrite length_app, digest_bytes_length. Qed.

Lemma image_of_length es : Forall entry_ok es → zlen (image_of es) = image_size es.
Proof.
  intros Hes. unfold image_of. rewrite zlen_app, records_length by done. unfold zlen.
  by rewrite make_file_header_length.
Qed.

(** What a scan reports when [extra] bytes of a torn record follow the entries [es]. *)
Definition recovered_as (es : list entry) (extra : Z) (r : recovered) : Prop :=
  rc_contents r = contents_of es
  ∧ rc_consumed r = image_size es
  ∧ rc_status r = (if 0 <? extra then Status.TRUNCATED else Status.OK)
  ∧ rep_tail_truncated (rc_report r) = (0 <? extra)
  ∧ rep_bytes_truncated (rc_report r) = extra
  ∧ rep_records_accepted (rc_report r) = zlen es
  ∧ rep_records_rejected (rc_report r) = 0
  ∧ usable (rc_report r) = true ∧ rep_digest_mismatch (rc_report r) = false.

(** An image that is the file header, whole records and a torn one. *)
Lemma scan_torn es p : Forall entry_ok es →
  p = [] ∨ (∃ e q, entry_ok e ∧ encode_entry e = p ++ q ∧ q ≠ []) →
  recovered_as es (zlen p) (scan_image (image_of es ++ p)).
Proof.
  intros Hes Hp. unfold scan_image, image_of. rewrite <- app_assoc, verify_file_header_image.
  replace (_ <? _) with false.
  2: { symmetry. apply Z.ltb_ge. rewrite zlen_app. unfold zlen at 1. rewrite make_file_header_length.
       pose proof (zlen_nonneg ((es ≫= encode_entry) ++ p)). unfold kFileHeaderBytes. lia. }
  cbn [Z.eqb negb kPersistenceFormatVersion Pos.eqb].
  change (Z.to_nat kFileHeaderBytes) with 48%nat. rewrite <- make_file_header_length, drop_app_length.
  rewrite scan_entries by (done || (rewrite !length_app; pose proof (records_count es Hes); lia)).
  destruct (scan_after_fields es scan_start) as (Hc & Hs & Ha & Ho).
  set (st := scan_after es scan_start) in *.
  rewrite !length_app, make_file_header_length. pose proof (records_count es Hes).
  replace (48 + (length (es ≫= encode_entry) + length p) - length es)%nat
    with (S (47 + (length (es ≫= encode_entry) - length es) + length p))%nat by lia.
  assert (zlen (make_file_header ++ (es ≫= encode_entry) ++ p) - sc_offset st = zlen p) as Hleft.
  { rewrite !zlen_app, Ho, records_length by done. unfold zlen at 1. rewrite make_file_header_length.
    unfold scan_start, kFileHeaderBytes. cbn [sc_offset]. lia. }
  destruct p as [|b p].
  - cbn [scan_records]. split; [by rewrite Hc|]. split; [exact Ho|].
    split_and!; try reflexivity. exact Ha.
  - destruct Hp as [[=]|(e & q & He & Heq & Hq)].
    destruct (examine_torn e _ q He Heq Hq) as (why & Hx). cbn [scan_records]. rewrite Hx.
    cbn [rc_contents rc_consumed]. unfold report_of, rc_status.
    cbn [rc_report stop_status stop_torn stop_scanned stop_digest rep_status rep_tail_truncated
         rep_bytes_truncated rep_records_accepted rep_records_rejected rep_digest_mismatch orb].
    change (is_ok Status.TRUNCATED) with false.
    replace (0 <? zlen (b :: p)) with true by (symmetry; apply Z.ltb_lt; rewrite zlen_cons; pose proof (zlen_nonneg p); lia).
    split; [by rewrite Hc|]. split; [exact Ho|]. split_and!; try reflexivity; [exact Hleft|exact Ha].
Qed.

Lemma image_size_pos es : kFileHeaderBytes ≤ image_size es.
Proof. unfold image_size. pose proof (records_size_nonneg es). lia. Qed.

(** The cut itself, read as whole records and a torn one. *)
Lemma take_image es n : Forall entry_ok es → kFileHeaderBytes ≤ n →
  ∃ p, take (Z.to_nat n) (image_of es) = image_of (fitting (n - kFileHeaderBytes) es) ++ p
    ∧ zlen p = Z.min n (image_size es) - image_size (fitting (n - kFileHeaderBytes) es)
    ∧ (p = [] ∨ ∃ e q, entry_ok e ∧ encode_entry e = p ++ q ∧ q ≠ []).
Proof.
  intros Hes Hn. unfold kFileHeaderBytes in *.
  destruct (take_fitting es (Z.to_nat (n - 48)) Hes) as (p & Htake & Hp). rewrite Z2Nat.id in Htake by lia.
  assert (take (Z.to_nat n) (image_of es) = image_of (fitting (n - 48) es) ++ p) as Heq.
  { unfold image_of at 1. rewrite take_app_ge by (rewrite make_file_header_length; lia).
    rewrite make_file_header_length. replace (Z.to_nat n - 48)%nat with (Z.to_nat (n - 48)) by lia.
    rewrite Htake. unfold image_of. by rewrite app_assoc. }
  exists p. split_and!; [exact Heq| |exact Hp].
  apply (f_equal zlen) in Heq. rewrite zlen_app in Heq.
  assert (Forall entry_ok (fitting (n - 48) es)) as Hfit.
  { destruct (fitting_prefix (n - 48) es) as [k Hk]. rewrite Hk in Hes. by apply Forall_app in Hes as [? _]. }
  rewrite image_of_length in Heq by done. rewrite <- image_of_length by done.
  pose proof (image_of_length es Hes). unfold zlen in *. rewrite length_take in Heq. lia.
Qed.

(** Crash safety of the store file: however many bytes of a well-formed file survive,
    the scan recovers exactly the longest prefix of the appended entries whose records lie
    wholly in what survived, reports OK when the cut falls between records and a torn tail
    with the number of bytes left behind otherwise, and rejects nothing; in particular
    every entry whose record reached the disk is recovered, and an uncut file yields every
    entry. *)
Theorem crash_recovers_prefix (es : list entry) (n : Z) :
  Forall entry_ok es → kFileHeaderBytes ≤ n →
  let kept := fitting (n - kFileHeaderBytes) es in
  recovered_as kept (Z.min n (image_size es) - image_size kept) (scan_image (take (Z.to_nat n) (image_of es)))
  ∧ kept `prefix_of` es
  ∧ (∀ k, k `prefix_of` es → image_size k ≤ n → k `prefix_of` kept)
  ∧ (image_size es ≤ n → kept = es).
Proof.
  intros Hes Hn kept. subst kept.
  assert (∀ k, k `prefix_of` es → image_size k ≤ n → k `prefix_of` fitting (n - kFileHeaderBytes) es) as Hmax.
  { intros k Hk Hs. apply fitting_max; [done|]. unfold image_size in Hs. lia. }
  split_and!; [|apply fitting_prefix|exact Hmax|].
  - destruct (take_image es n Hes Hn) as (p & -> & <- & Hp). apply scan_torn; [|exact Hp].
    destruct (fitting_prefix (n - kFileHeaderBytes) es) as [k Hk]. rewrite Hk in Hes. by apply Forall_app in Hes as [? _].
  - intros Hs. apply (anti_symm prefix); [apply fitting_prefix|]. by apply Hmax.
Qed.

(** ** Bytes after the record that stopped the scan are never looked at *)

Lemma read_u32_at_prefix (a b : bytes) o : (o + 3 < length a)%nat → read_u32_at (a ++ b) o = read_u32_at a o.
Proof. intros H. unfold read_u32_at, byte_at. by rewrite !app_nth1 by lia. Qed.

Lemma examine_header_app rest extra :
  (80 ≤ length rest)%nat → examine_header (rest ++ extra) = examine_header rest.
Proof.
  intros Hl. unfold examine_header. rewrite !read_u32_at_prefix, !subspan_app_l by lia.
  unfold byte_at. rewrite !app_nth1 by lia.
  assert ((kRecordHeaderBytes <=? zlen rest) = true) as Hr
    by (apply Z.leb_le; unfold zlen, kRecordHeaderBytes; lia).
  assert ((kRecordHeaderBytes <=? zlen (rest ++ extra)) = true) as ->
    by (apply Z.leb_le; rewrite zlen_app; apply Z.leb_le in Hr; pose proof (zlen_nonneg extra); lia).
  by rewrite Hr.
Qed.

Lemma read_u32_at_nonneg data o : 0 ≤ read_u32_at data o.
Proof.
  assert (∀ i, 0 ≤ byte_at data i) by (intros i; unfold byte_at; apply byte_val_range).
  unfold read_u32_at. rewrite !Z.lor_nonneg, !Z.shiftl_nonneg. auto.
Qed.

Lemma examine_header_size rest h : examine_header rest = Ok h → 0 ≤ h.2.
Proof.
  unfold examine_header. do 5 (intros (? & Hc & H)%result_bind_Ok; clear Hc; revert H).
  intros [= <-]. apply read_u32_at_nonneg.
Qed.

Lemma examine_header_long rest h : examine_header rest = Ok h → (80 ≤ length rest)%nat.
Proof.
  unfold examine_header. intros (? & Hc & _)%result_bind_Ok. unfold ensure in Hc.
  destruct (Z.leb_spec kRecordHeaderBytes (zlen rest)); [|done]. unfold zlen, kRecordHeaderBytes in *. lia.
Qed.
Lemma examine_header_stop rest s :
  examine_header rest = Err s → stop_torn s = false → (80 ≤ length rest)%nat.
Proof.
  unfold examine_header, ensure at 1.
  destruct (Z.leb_spec kRecordHeaderBytes (zlen rest)) as [|Hl]; [intros; unfold zlen, kRecordHeaderBytes in *; lia|].
  intros [= <-] [=].
Qed.

(** Unless the stop is a torn tail, what follows the bytes at hand changes nothing. *)
Lemma examine_app rest extra :
  (∀ s, examine rest = Err s → stop_torn s = false) → examine (rest ++ extra) = examine rest.
Proof.
  intros Hs. unfold examine in *. destruct (examine_header rest) as [[type size]|s] eqn:Hh.
  - pose proof (examine_header_long _ _ Hh) as Hl. pose proof (examine_header_size _ _ Hh) as Hn. cbn [snd] in Hn.
    rewrite examine_header_app, Hh by done. cbn [mbind result_bind] in *.
    destruct (Z.leb_spec size (zlen rest - kRecordHeaderBytes)) as [Hle|Hgt].
    + rewrite (ensure_true (size <=? _)).
      2: { apply Z.leb_le. rewrite zlen_app. pose proof (zlen_nonneg extra). lia. }
      unfold zlen, kRecordHeaderBytes in Hle. rewrite !subspan_app_l by lia. done.
    + by specialize (Hs _ eq_refl).
  - pose proof (examine_header_stop _ _ Hh (Hs _ eq_refl)). by rewrite examine_header_app, Hh.
Qed.

Lemma examine_size rest e size : examine rest = Ok (e, size) → 0 < size ≤ zlen rest.
Proof.
  unfold examine. intros ([type n] & Hh & Hx)%result_bind_Ok. pose proof (examine_header_size _ _ Hh) as Hn.
  cbn [snd] in Hn. apply result_bind_Ok in Hx as (u & Hc & Hx). unfold ensure in Hc.
  destruct (Z.leb_spec n (zlen rest - kRecordHeaderBytes)); [|done]. apply result_bind_Ok in Hx as (? & _ & Hx).
  destruct (decode_record _ _); [|done]. apply result_bind_Ok in Hx as (? & _ & [= _ <-]).
  unfold kRecordHeaderBytes in *. lia.
Qed.

Lemma scan_records_app fuel fuel' rest extra st st' s :
  scan_records fuel rest st = (st', Some s) → stop_torn s = false → (fuel ≤ fuel')%nat →
  scan_records fuel' (rest ++ extra) st = (st', Some s).
Proof.
  intros Hx Ht. revert fuel' rest st Hx. induction fuel as [|fuel IH]; intros fuel' rest st Hx Hf; [done|].
  destruct fuel' as [|fuel']; [lia|]. cbn [scan_records] in *. destruct rest as [|b rest]; [done|].
  cbn [app]. change (b :: rest ++ extra) with ((b :: rest) ++ extra).
  destruct (examine (b :: rest)) as [[e size]|s'] eqn:He.
  - rewrite (examine_app (b :: rest) extra) by (rewrite He; by intros ? [=]). rewrite He. apply examine_size in He. unfold zlen in He.
    rewrite drop_app_le by lia. apply IH; [done|lia].
  - injection Hx as <- <-. rewrite (examine_app (b :: rest) extra); [by rewrite He|]. rewrite He. by intros ? [= <-].
Qed.

Lemma verify_file_header_app image extra :
  (48 ≤ length image)%nat → verify_file_header (image ++ extra) = verify_file_header image.
Proof.
  intros Hl. unfold verify_file_header. rewrite !subspan_app_l, read_u32_at_prefix by lia.
  assert ((zlen image <? kFileHeaderBytes) = false) as ->
    by (apply Z.ltb_ge; unfold zlen, kFileHeaderBytes; lia).
  assert ((zlen (image ++ extra) <? kFileHeaderBytes) = false) as ->; [|done].
  apply Z.ltb_ge. rewrite zlen_app. pose proof (zlen_nonneg extra). unfold zlen, kFileHeaderBytes in *. lia.
Qed.

Lemma scan_damaged_app image extra :
  usable (rc_report (scan_image image)) = true → rep_tail_truncated (rc_report (scan_image image)) = false →
  rc_status (scan_image image) ≠ Status.OK →
  rc_contents (scan_image (image ++ extra)) = rc_contents (scan_image image)
  ∧ rc_status (scan_image (image ++ extra)) = rc_status (scan_image image).
Proof.
  unfold scan_image. destruct (Z.ltb_spec (zlen image) kFileHeaderBytes) as [|Hl]; [done|].
  assert ((zlen (image ++ extra) <? kFileHeaderBytes) = false) as ->
    by (apply Z.ltb_ge; rewrite zlen_app; pose proof (zlen_nonneg extra); lia).
  unfold zlen, kFileHeaderBytes in Hl. rewrite verify_file_header_app by lia.
  destruct (verify_file_header image) as [v|]; [|done]. destruct (negb _); [done|].
  rewrite drop_app_le by (change (Z.to_nat kFileHeaderBytes) with 48%nat; lia).
  destruct (scan_records (length image) _ _) as [st [s|]] eqn:Hx; [|done].
  cbn [rc_report]. intros _ Ht _. rewrite (scan_records_app _ _ _ _ _ _ _ Hx); [done|done|].
  rewrite length_app. lia.
Qed.

(** ** A concrete file: a snapshot, a retirement and a tombstone *)

Definition sample_entries : list entry :=
  [ESnapshot SampleSite.snapshot; ERetirement Sample.retirement; ETombstone "rack:rack-1"].

Lemma sample_entries_ok : Forall entry_ok sample_entries.
Proof.
  constructor; [|constructor; [|constructor; [|constructor]]]; (split; [vm_compute; congruence|]).
  - split; [exact sample_snapshot_ok|reflexivity].
  - sample_ok.
  - split; [vm_compute; congruence|done].
Qed.

(** Cut 85 bytes into the tombstone's record: the snapshot and the retirement are there. *)
Definition sample_cut : Z := image_size (take 2 sample_entries) + 85.

Lemma crash_recovers_prefix_witness :
  rc_status (scan_image (take (Z.to_nat sample_cut) (image_of sample_entries))) = Status.TRUNCATED
  ∧ rc_contents (scan_image (take (Z.to_nat sample_cut) (image_of sample_entries)))
    = StoreContents [on_wire SampleSite.snapshot] [] [Sample.retirement] [] [].
Proof.
  destruct (crash_recovers_prefix sample_entries sample_cut sample_entries_ok) as ((Hc & _ & Hs & _) & _).
  - vm_compute. congruence.
  - rewrite Hs, Hc.
    assert (fitting (sample_cut - kFileHeaderBytes) sample_entries = take 2 sample_entries) as ->
      by (vm_compute; reflexivity).
    split; [vm_compute; reflexivity|reflexivity].
Defined.
