(* ===== verification/Store.v ===== *)
(** The store (persistence.hpp, src/persistence/persistence.cpp).

    The file is its bytes, [None] when there is none. Each call is a function from the
    outcomes of the operating-system calls it makes, the store and the file to its status,
    the store and the file. The mutex makes every entry point one step. The theorems: under
    any interleaving of appends and crashes the store implements a bounded log of entries
    that a crash cuts to the records that survived; compaction keeps the newest snapshots
    and the newest publication of every domain; and appends behind damage are lost. *)

From stdpp Require Import sorting sets.
From S2P Require Import Prelude Ordering Enums Sha256 Identity Canonical Evidence Capacity Claims Codec Authority Forest Site SiteCodec Snapshot StoreFormat.

Definition kMaxMaxStoreBytes : Z := 4 * 1024 * 1024 * 1024.
Definition kMaxMaxStoreRecords : Z := 4 * 1024 * 1024.

(** * Configuration, state and environment *)

Record store_config := StoreConfig {
  cfg_path : string;
  cfg_max_bytes : Z;
  cfg_max_records : Z;
  cfg_snapshot_history : Z;
  cfg_durable_commit : bool;
}.

(** [SiteStore::Impl]; [st_handle]: the file is open. *)
Record store := SiteStore {
  st_config : store_config;
  st_handle : bool;
  st_bytes : Z;
  st_records : Z;
  st_report : recovery_report;
}.

Inductive handle_outcome : Type := Opened | OpenFailed | SeekFailed.

(** What the operating system answers: a status or a fault per call of internal/files.cpp,
    and the outcome of [fopen], [fseek] and [ftell]. *)
Record environment := Environment {
  env_directory : status;
  env_read : option status;
  env_write : option status;
  env_truncate : option status;
  env_handle : handle_outcome;
}.

(** How far an append gets: [fwrite], [fflush], then [sync_path]. The count is the bytes
    that reached the file. *)
Inductive commit : Type :=
| Committed
| ShortWrite (count : nat)
| FlushFailed (count : nat)
| SyncFailed (code : status).

(** * Files *)

Abbreviation file := (option bytes).

Definition read_image (env : environment) (max_bytes : Z) (image : bytes) : result status bytes :=
  if max_bytes <? zlen image then Err Status.LIMIT_EXCEEDED
  else match env_read env with Some s => Err s | None => Ok image end.

(** [write_file_atomic]: a temporary file renamed over the path, or nothing. *)
Definition write_file_atomic (env : environment) (image : bytes) (f : file) : result status file :=
  match env_write env with Some s => Err s | None => Ok (Some image) end.

Definition truncate_file (env : environment) (length : Z) (f : file) : result status file :=
  match env_truncate env with Some s => Err s | None => Ok (take (Z.to_nat length) <$> f) end.

(** * Reading *)

Definition not_found : recovered :=
  refused (StoreRecoveryReport Status.NOT_FOUND 0 0 0 0 0 false false false false []).
Definition unreadable (s : status) : recovered :=
  refused (StoreRecoveryReport s 0 0 0 0 0 false false false false []).

Definition read_file (env : environment) (f : file) : recovered :=
  match f with
  | None => not_found
  | Some image =>
      match read_image env kMaxMaxStoreBytes image with
      | Err s => unreadable s
      | Ok image => scan_image image
      end
  end.

(** [SiteStore::load]. *)
Definition load (env : environment) (f : file) : recovered := read_file env f.

(** * Appending *)

Definition with_handle (h : bool) (st : store) : store :=
  SiteStore (st_config st) h (st_bytes st) (st_records st) (st_report st).
Definition with_counts (bytes records : Z) (st : store) : store :=
  SiteStore (st_config st) (st_handle st) bytes records (st_report st).

Definition extend (data : bytes) (f : file) : file := Some (default [] f ++ data).

Definition append_record (type : record_type) (payload : bytes) (c : commit) (st : store) (f : file)
    : status * store * file :=
  let cfg := st_config st in
  if negb (st_handle st) then (Status.STOPPED, st, f)
  else if kMaxRecordPayloadBytes <? zlen payload then (Status.LIMIT_EXCEEDED, st, f)
  else
    let record := make_record type payload in
    if cfg_max_bytes cfg <? st_bytes st + zlen record then (Status.LIMIT_EXCEEDED, st, f)
    else if cfg_max_records cfg <? st_records st + 1 then (Status.LIMIT_EXCEEDED, st, f)
    else match c with
    | ShortWrite count => (Status.TRUNCATED, st, extend (take count record) f)
    | FlushFailed count => (Status.INVALID, st, extend (take count record) f)
    | Committed => (Status.OK, with_counts (st_bytes st + zlen record) (st_records st + 1) st, extend record f)
    | SyncFailed code =>
        if cfg_durable_commit cfg && negb (is_ok code) then (code, st, extend record f)
        else (Status.OK, with_counts (st_bytes st + zlen record) (st_records st + 1) st, extend record f)
    end.

Definition append_snapshot (s : site_snapshot) := append_record RecordType.SNAPSHOT (write_snapshot_body s).
Definition append_publication (r : publication_record) := append_record RecordType.PUBLICATION (write_publication r).
Definition append_retirement (r : retirement_record) := append_record RecordType.RETIREMENT (write_retirement_record r).
Definition append_tombstone (t : string) := append_record RecordType.TOMBSTONE (w_text t).
Definition append_lease (t : token) := append_record RecordType.LEASE (write_authority_token t).

(** * Compaction *)

Definition history_limit (cfg : store_config) : Z :=
  if cfg_snapshot_history cfg =? 0 then kDefaultSnapshotHistory else cfg_snapshot_history cfg.

(** The first snapshot kept. *)
Definition first_kept (cfg : store_config) (c : store_contents) : Z :=
  let size := zlen (co_snapshot_history c) in
  if history_limit cfg <? size then size - history_limit cfg else 0.

Definition keep_newest (m : omap_t member_domain_key publication_record) (r : publication_record)
    : omap_t member_domain_key publication_record :=
  match om_find (pub_domain r) m with
  | None => om_set (pub_domain r) r m
  | Some found =>
      if (pub_generation found <? pub_generation r)
         || ((pub_generation found =? pub_generation r)
             && (pub_acceptance_sequence found <? pub_acceptance_sequence r))
      then om_set (pub_domain r) r m else m
  end.
Definition newest_publication (rs : list publication_record) : omap_t member_domain_key publication_record :=
  foldl keep_newest [] rs.

Definition compacted (cfg : store_config) (c : store_contents) : store_contents :=
  StoreContents (drop (Z.to_nat (first_kept cfg c)) (co_snapshot_history c))
    (newest_publication (co_publications c)).*2 (co_retirements c) (co_tombstones c) (co_leases c).
Definition dropped_by (cfg : store_config) (c : store_contents) : Z :=
  first_kept cfg c + (zlen (co_publications c) - zlen (newest_publication (co_publications c))).

(** The records of the rewritten file, in order. *)
Definition entries_of (c : store_contents) : list entry :=
  (ESnapshot <$> co_snapshot_history c) ++ (EPublication <$> co_publications c)
  ++ (ERetirement <$> co_retirements c) ++ (ETombstone <$> co_tombstones c) ++ (ELease <$> co_leases c).
Definition compact_image (c : store_contents) : bytes := make_file_header ++ (entries_of c ≫= encode_entry).

(** [compact_locked]: status, dropped, store, file. *)
Definition compact_locked (env : environment) (st : store) (f : file) : status * Z * store * file :=
  let cfg := st_config st in
  if bool_decide (cfg_path cfg = ""%string) then (Status.INVALID, 0, st, f)
  else
    let loaded := read_file env f in
    let code := rc_status loaded in
    if negb (is_ok code) && negb (bool_decide (code = Status.TRUNCATED)) then (code, 0, st, f)
    else
      let contents := rc_contents loaded in
      let kept := compacted cfg contents in
      let dropped := dropped_by cfg contents in
      let image := compact_image kept in
      if cfg_max_bytes cfg <? zlen image then (Status.LIMIT_EXCEEDED, dropped, st, f)
      else
        let st := with_handle false st in
        match write_file_atomic env image f with
        | Err s => (s, dropped, st, f)
        | Ok f =>
            match env_handle env with
            | OpenFailed => (Status.INVALID, dropped, st, f)
            | SeekFailed => (Status.INVALID, dropped, with_handle true st, f)
            | Opened =>
                (Status.OK, dropped,
                 with_counts (zlen image) (wrap 32 (record_count kept)) (with_handle true st), f)
            end
        end.

(** [SiteStore::compact]. *)
Definition compact (env : environment) (st : store) (f : file) : status * Z * store * file := compact_locked env st f.

(** * Opening and closing *)

Definition closed (cfg : store_config) (r : recovery_report) (records : Z) : store := SiteStore cfg false 0 records r.

Definition config_valid (cfg : store_config) : bool :=
  negb (bool_decide (cfg_path cfg = ""%string))
  && negb ((cfg_max_bytes cfg =? 0) || (kMaxMaxStoreBytes <? cfg_max_bytes cfg))
  && negb ((cfg_max_records cfg =? 0) || (kMaxMaxStoreRecords <? cfg_max_records cfg)).

(** Creates the file, or recovers it: the closed store and the file, ready to be opened. *)
Definition prepare_file (cfg : store_config) (env : environment) (f : file)
    : result (status * store) (store * file) :=
  match f with
  | None =>
      match write_file_atomic env make_file_header f with
      | Err s => Err (s, closed cfg empty_report 0)
      | Ok f => Ok (closed cfg empty_report 0, f)
      end
  | Some image =>
      match read_image env kMaxMaxStoreBytes image with
      | Err s => Err (s, closed cfg (rc_report (unreadable s)) 0)
      | Ok image =>
          let r := scan_image image in
          let report := rc_report r in
          let records := wrap 32 (record_count (rc_contents r)) in
          if negb (usable report) then Err (rc_status r, closed cfg report 0)
          else if (rc_consumed r <? zlen image) && rep_tail_truncated report then
            match truncate_file env (rc_consumed r) f with
            | Err s => Err (s, closed cfg report 0)
            | Ok f => Ok (with_counts (rc_consumed r) records (closed cfg report 0), f)
            end
          else Ok (closed cfg report records, f)
      end
  end.

Definition open (cfg : store_config) (env : environment) (f : file) : status * store * file :=
  let st := closed cfg empty_report 0 in
  if negb (config_valid cfg) then (Status.INVALID, st, f)
  else if negb (is_ok (env_directory env)) then (env_directory env, st, f)
  else match prepare_file cfg env f with
  | Err (s, st) => (s, st, f)
  | Ok (st, f) =>
      match env_handle env with
      | OpenFailed | SeekFailed => (Status.INVALID, st, f)
      | Opened =>
          let st := with_counts (zlen (default [] f)) (st_records st) (with_handle true st) in
          if cfg_max_bytes cfg <? st_bytes st then
            let '(s, _, st, f) := compact_locked env st f in
            (if is_ok s then Status.OK else s, st, f)
          else (Status.OK, st, f)
      end
  end.

(** [SiteStore::close]; [flushed]: the last [fflush] succeeded. *)
Definition close (flushed : bool) (st : store) : status * store :=
  if st_handle st then (if flushed then Status.OK else Status.INVALID, with_handle false st)
  else (Status.OK, st).

Definition is_open (st : store) : bool := st_handle st.

(** * The log the store implements *)

(** An entry the controller appends, read back by its type's codec. *)
Definition loggable (e : entry) : Prop := entry_ok e ∧ e ≠ ECheckpoint.

Definition append_entry (e : entry) : commit → store → file → status * store * file :=
  append_record (entry_type e) (entry_payload e).

Inductive store_op : Type :=
| Append (e : entry)        (* an append the operating system completes *)
| Crash (survived : Z).     (* the process dies, the file keeps its first bytes, the store is reopened *)

Definition sound_environment : environment := Environment Status.OK None None None Opened.

Definition store_step (cfg : store_config) (op : store_op) (p : store * file) : status * (store * file) :=
  match op with
  | Append e => let '(s, st, f) := append_entry e Committed p.1 p.2 in (s, (st, f))
  | Crash n => let '(s, st, f) := open cfg sound_environment (take (Z.to_nat n) <$> p.2) in (s, (st, f))
  end.

(** The specification: a log bounded in bytes and records. *)
Definition spec_step (cfg : store_config) (op : store_op) (log : list entry) : status * list entry :=
  match op with
  | Append e =>
      if (cfg_max_bytes cfg <? image_size (log ++ [e])) || (cfg_max_records cfg <? zlen (log ++ [e]))
      then (Status.LIMIT_EXCEEDED, log) else (Status.OK, log ++ [e])
  | Crash n => (Status.OK, fitting (n - kFileHeaderBytes) log)
  end.

Fixpoint run_store {S} (step : store_op → S → status * S) (ops : list store_op) (s : S) : list status * S :=
  match ops with
  | [] => ([], s)
  | op :: ops => let '(code, s) := step op s in let '(codes, s) := run_store step ops s in (code :: codes, s)
  end.

(** The store holds exactly the log. *)
Definition holds (cfg : store_config) (p : store * file) (log : list entry) : Prop :=
  st_config p.1 = cfg ∧ st_handle p.1 = true ∧ p.2 = Some (image_of log) ∧ st_bytes p.1 = image_size log
  ∧ st_records p.1 = zlen log ∧ Forall loggable log
  ∧ image_size log ≤ cfg_max_bytes cfg ∧ zlen log ≤ cfg_max_records cfg.

Definition op_ok (op : store_op) : Prop :=
  match op with Append e => loggable e | Crash n => kFileHeaderBytes ≤ n end.
Definition config_ok (cfg : store_config) : Prop :=
  cfg_path cfg ≠ ""%string ∧ kFileHeaderBytes ≤ cfg_max_bytes cfg ≤ kMaxMaxStoreBytes
  ∧ 0 < cfg_max_records cfg ≤ kMaxMaxStoreRecords.

Lemma loggable_ok log : Forall loggable log → Forall entry_ok log.
Proof. intros H. eapply Forall_impl; [exact H|]. by intros e [? _]. Qed.

Lemma records_size_app a b : records_size (a ++ b) = records_size a + records_size b.
Proof. induction a as [|e a IH]; simpl; [done|]. rewrite IH. lia. Qed.

Lemma image_of_snoc log e : image_of (log ++ [e]) = image_of log ++ encode_entry e.
Proof. unfold image_of. rewrite bind_app, app_assoc, bind_cons. exact (f_equal (app _) (app_nil_r _)). Qed.

Lemma config_valid_ok cfg : config_ok cfg → config_valid cfg = true.
Proof.
  intros (Hp & Hb & Hr). unfold config_valid, kFileHeaderBytes in *. rewrite bool_decide_false by done. cbn [negb andb].
  rewrite !(proj2 (Z.eqb_neq _ _)), !(proj2 (Z.ltb_ge _ _)) by lia. done.
Qed.

Lemma append_holds cfg p log e : config_ok cfg → holds cfg p log → loggable e →
  holds cfg (store_step cfg (Append e) p).2 (spec_step cfg (Append e) log).2
  ∧ (store_step cfg (Append e) p).1 = (spec_step cfg (Append e) log).1.
Proof.
  intros Hcfg (Hc & Hh & Hf & Hb & Hr & Hl & Hm & Hn) [He Hne]. destruct p as [st f]. cbn [fst snd] in *.
  unfold store_step, append_entry, append_record, spec_step. cbn [fst snd]. rewrite Hh, Hc. cbn [negb].
  pose proof (encode_entry_size e He) as Hsz. unfold encode_entry in Hsz. rewrite Hsz, Hb, Hr.
  assert ((kMaxRecordPayloadBytes <? zlen (entry_payload e)) = false) as -> by (apply Z.ltb_ge, He).
  rewrite zlen_app. change (zlen [e]) with 1.
  assert (image_size (log ++ [e]) = image_size log + record_size e) as ->
    by (unfold image_size; rewrite records_size_app; cbn [records_size]; lia).
  destruct (Z.ltb_spec (cfg_max_bytes cfg) (image_size log + record_size e)); cbn [orb fst snd];
    [split; [split_and!; assumption|reflexivity]|].
  destruct (Z.ltb_spec (cfg_max_records cfg) (zlen log + 1)); cbn [fst snd];
    [split; [split_and!; assumption|reflexivity]|].
  split; [|reflexivity]. unfold holds, with_counts. cbn [fst snd st_config st_handle st_bytes st_records].
  rewrite Hc, zlen_app, Hf, image_of_snoc. change (zlen [e]) with 1. unfold image_size in *. rewrite records_size_app.
  cbn [records_size]. split_and!; try assumption; try reflexivity; try lia. apply Forall_app. split; [assumption|].
  by constructor; [split; assumption|constructor].
Qed.

(** ** Opening after a crash *)

Lemma collect_count c e : e ≠ ECheckpoint → record_count (collect c e) = record_count c + 1.
Proof.
  intros He. destruct c, e; try done; unfold record_count; cbn; rewrite zlen_app; unfold zlen; cbn; lia.
Qed.
Lemma collect_all_count es c :
  Forall (λ e, e ≠ ECheckpoint) es → record_count (foldl collect c es) = record_count c + zlen es.
Proof.
  intros Hes. revert c. induction Hes as [|e es He Hes IH]; intros c; cbn [foldl]; [unfold zlen; simpl; lia|].
  rewrite IH, collect_count, zlen_cons by done. lia.
Qed.
Lemma sort_contents_count c : record_count (sort_contents c) = record_count c.
Proof. unfold record_count, sort_contents, zlen. cbn. by rewrite !sort_by_length. Qed.

Lemma contents_of_count log : Forall loggable log → record_count (contents_of log) = zlen log.
Proof.
  intros Hl. unfold contents_of. rewrite sort_contents_count, collect_all_count.
  - unfold zlen. rewrite length_fmap. reflexivity.
  - apply Forall_fmap. eapply Forall_impl; [exact Hl|]. intros e [_ He]. by destruct e.
Qed.

Lemma fitting_all cfg n log : Forall loggable log → image_size log ≤ cfg_max_bytes cfg → zlen log ≤ cfg_max_records cfg →
  kFileHeaderBytes ≤ n →
  let kept := fitting (n - kFileHeaderBytes) log in
  Forall loggable kept ∧ image_size kept ≤ cfg_max_bytes cfg ∧ zlen kept ≤ cfg_max_records cfg.
Proof.
  intros Hl Hb Hr Hn kept. destruct (fitting_prefix (n - kFileHeaderBytes) log) as [k Hk]. fold kept in Hk.
  rewrite Hk in Hl, Hb, Hr. apply Forall_app in Hl as [Hl _]. unfold image_size in *. rewrite records_size_app in Hb.
  rewrite zlen_app in Hr. pose proof (records_size_nonneg k). pose proof (zlen_nonneg k). split_and!; [assumption|lia|lia].
Qed.

Lemma open_image cfg es p : config_ok cfg → Forall loggable es → image_size es + zlen p ≤ cfg_max_bytes cfg →
  zlen es ≤ cfg_max_records cfg → p = [] ∨ (∃ e q, entry_ok e ∧ encode_entry e = p ++ q ∧ q ≠ []) →
  let '(s, st, f) := open cfg sound_environment (Some (image_of es ++ p)) in
  s = Status.OK ∧ holds cfg (st, f) es.
Proof.
  intros Hcfg Hl Hb Hr Hp. pose proof (loggable_ok _ Hl) as Hok. pose proof (image_of_length es Hok) as Hlen.
  destruct (scan_torn es p Hok Hp) as (Hc & Hcons & Hs & Ht & Htr & Ha & Hrej & Hu & Hd).
  unfold open. rewrite config_valid_ok by exact Hcfg. cbn [negb env_directory sound_environment].
  change (is_ok Status.OK) with true. cbn [negb]. unfold prepare_file, read_image.
  destruct Hcfg as (Hpath & Hmax & Hrec).
  assert ((kMaxMaxStoreBytes <? zlen (image_of es ++ p)) = false) as ->
    by (apply Z.ltb_ge; rewrite zlen_app, Hlen; lia).
  cbn [env_read sound_environment]. rewrite Hu. cbn [negb]. rewrite Hcons, Ht, zlen_app, Hlen, Hc, contents_of_count by exact Hl.
  assert (wrap 32 (zlen es) = zlen es) as ->.
  { apply wrap_small. unfold in_u, kMaxMaxStoreRecords in *. pose proof (zlen_nonneg es). lia. }
  assert (∀ st f, st_config st = cfg → st_records st = zlen es → f = Some (image_of es) →
    let '(s, st, f) := (let st := with_counts (zlen (default [] f)) (st_records st) (with_handle true st) in
      if cfg_max_bytes cfg <? st_bytes st then
        let '(s, _, st, f) := compact_locked sound_environment st f in (if is_ok s then Status.OK else s, st, f)
      else (Status.OK, st, f)) in s = Status.OK ∧ holds cfg (st, f) es) as Hopened.
  { intros st f Hst Hrecs ->. cbn [with_counts with_handle st_bytes st_config st_records].
    change (default [] (Some (image_of es))) with (image_of es). rewrite Hlen.
    pose proof (zlen_nonneg p).
    assert ((cfg_max_bytes cfg <? image_size es) = false) as -> by (apply Z.ltb_ge; lia).
    split; [reflexivity|]. split_and!; try assumption; try reflexivity; cbn; lia. }
  destruct p as [|b p].
  - rewrite app_nil_r. change (0 <? zlen []) with false. rewrite andb_false_r.
    cbn [env_handle sound_environment]. by apply Hopened.
  - assert (0 < zlen (b :: p)) as Hpos by (rewrite zlen_cons; pose proof (zlen_nonneg p); lia).
    rewrite !(proj2 (Z.ltb_lt _ _)) by lia. cbn [andb truncate_file env_truncate sound_environment env_handle].
    apply Hopened; [reflexivity|reflexivity|].
    change (take ?n <$> Some ?l) with (Some (take n l)). f_equal.
    rewrite take_app_le by (unfold zlen in Hlen; lia). apply take_ge. unfold zlen in Hlen. lia.
Qed.

Lemma crash_holds cfg p log n : config_ok cfg → holds cfg p log → kFileHeaderBytes ≤ n →
  holds cfg (store_step cfg (Crash n) p).2 (spec_step cfg (Crash n) log).2
  ∧ (store_step cfg (Crash n) p).1 = (spec_step cfg (Crash n) log).1.
Proof.
  intros Hcfg (Hc & Hh & Hf & Hb & Hr & Hl & Hm & Hn) Hsurv. destruct p as [st f]. cbn [fst snd] in *. subst f.
  destruct (take_image log n (loggable_ok _ Hl) Hsurv) as (p & Htake & Hlen & Hp).
  destruct (fitting_all cfg n log Hl Hm Hn Hsurv) as (Hl' & Hm' & Hn').
  pose proof (open_image cfg (fitting (n - kFileHeaderBytes) log) p Hcfg Hl' ltac:(lia) Hn' Hp) as Hopen.
  unfold store_step, spec_step. cbn [fst snd].
  change (take (Z.to_nat n) <$> Some (image_of log)) with (Some (take (Z.to_nat n) (image_of log))). rewrite Htake.
  destruct (open cfg sound_environment _) as [[s st'] f']. destruct Hopen as [-> Hopen]. cbn [fst snd].
  split; [exact Hopen|reflexivity].
Qed.

Lemma create_holds cfg : config_ok cfg →
  let '(s, st, f) := open cfg sound_environment None in s = Status.OK ∧ holds cfg (st, f) [].
Proof.
  intros Hcfg. pose proof (config_valid_ok cfg Hcfg) as Hv. destruct Hcfg as (Hp & Hb & Hr).
  unfold open. rewrite Hv. cbn [negb env_directory sound_environment]. change (is_ok Status.OK) with true. cbn [negb].
  unfold prepare_file, write_file_atomic. cbn [env_write sound_environment env_handle with_counts with_handle st_bytes].
  change (default [] (Some make_file_header)) with make_file_header.
  assert (zlen make_file_header = 48) as -> by (unfold zlen; by rewrite make_file_header_length).
  assert ((cfg_max_bytes cfg <? 48) = false) as -> by (apply Z.ltb_ge; unfold kFileHeaderBytes in *; lia).
  split; [reflexivity|]. unfold holds. cbn [fst snd with_counts with_handle closed st_config st_handle st_bytes st_records].
  split; [reflexivity|]. split; [reflexivity|].
  split; [exact (f_equal Some (eq_sym (app_nil_r make_file_header)))|].
  split_and!; [reflexivity|reflexivity|constructor|unfold image_size; cbn [records_size]; lia|].
  unfold zlen. simpl. lia.
Qed.

Lemma store_runs cfg ops p log : config_ok cfg → Forall op_ok ops → holds cfg p log →
  (run_store (store_step cfg) ops p).1 = (run_store (spec_step cfg) ops log).1
  ∧ holds cfg (run_store (store_step cfg) ops p).2 (run_store (spec_step cfg) ops log).2.
Proof.
  intros Hcfg Hops. revert p log. induction Hops as [|op ops Hop Hops IH]; intros p log Hh; [by split|].
  cbn [run_store].
  assert (holds cfg (store_step cfg op p).2 (spec_step cfg op log).2
          ∧ (store_step cfg op p).1 = (spec_step cfg op log).1) as [Hstep Hcode].
  { destruct op as [e|n]; [by apply append_holds|by apply crash_holds]. }
  destruct (store_step cfg op p) as [code p'], (spec_step cfg op log) as [code' log']. cbn [fst snd] in *.
  destruct (IH p' log' Hstep) as [IH1 IH2].
  destruct (run_store (store_step cfg) ops p') as [codes p''], (run_store (spec_step cfg) ops log') as [codes' log''].
  cbn [fst snd] in *. by subst.
Qed.

Lemma load_holds cfg p log : config_ok cfg → holds cfg p log →
  recovered_as log 0 (load sound_environment p.2).
Proof.
  intros (_ & Hb & _) (_ & _ & Hf & _ & _ & Hl & Hm & _). rewrite Hf. pose proof (loggable_ok _ Hl) as Hok.
  unfold load, read_file, read_image. rewrite image_of_length by exact Hok.
  assert ((kMaxMaxStoreBytes <? image_size log) = false) as -> by (apply Z.ltb_ge; lia). cbn [env_read sound_environment].
  rewrite <- (app_nil_r (image_of log)). apply (scan_torn log []); [exact Hok|by left].
Qed.


Definition sample_config : store_config := StoreConfig "site.store" 100000 8 4 false.
(** Two appends, a crash inside the second record, one more append. *)
Definition sample_ops : list store_op :=
  [Append (ESnapshot SampleSite.snapshot); Append (ERetirement Sample.retirement);
   Crash (image_size [ESnapshot SampleSite.snapshot] + 90); Append (ETombstone "rack:rack-1")].


(** * Damage in the middle *)

Lemma record_count_nonneg c : 0 ≤ record_count c.
Proof. unfold record_count, zlen. lia. Qed.

(** A store whose file is damaged before its end still opens and still acknowledges
    appends, although the recovery scan stops at the damage: everything appended from then
    on is lost, since a later load recovers exactly what it recovered before and reports
    the same status. *)
Theorem append_after_damage_lost (cfg : store_config) (image : bytes) (e : entry) :
  config_ok cfg → loggable e →
  let found := scan_image image in
  usable (rc_report found) = true → rep_tail_truncated (rc_report found) = false → rc_status found ≠ Status.OK →
  zlen image + record_size e ≤ cfg_max_bytes cfg → record_count (rc_contents found) < cfg_max_records cfg →
  let '(opened, st, f) := open cfg sound_environment (Some image) in
  let '(appended, _, f') := append_entry e Committed st f in
  opened = Status.OK ∧ appended = Status.OK ∧ f' = Some (image ++ encode_entry e)
  ∧ rc_contents (load sound_environment f') = rc_contents found
  ∧ rc_status (load sound_environment f') = rc_status found.
Proof.
  intros Hcfg [He Hne] found Hu Ht Hs Hsize Hcount. pose proof (record_size_pos e). unfold kRecordHeaderBytes in *.
  pose proof (config_valid_ok cfg Hcfg) as Hv. destruct Hcfg as (Hpath & Hmax & Hrec).
  unfold open. rewrite Hv. cbn [negb env_directory sound_environment]. change (is_ok Status.OK) with true. cbn [negb].
  unfold prepare_file, read_image. assert ((kMaxMaxStoreBytes <? zlen image) = false) as -> by (apply Z.ltb_ge; lia).
  cbn [env_read sound_environment]. fold found. rewrite Hu, Ht, andb_false_r. cbn [negb env_handle sound_environment].
  change (default [] (Some image)) with image. cbn [with_counts with_handle closed st_bytes st_config st_records st_handle st_report].
  assert ((cfg_max_bytes cfg <? zlen image) = false) as -> by (apply Z.ltb_ge; lia).
  unfold append_entry, append_record. cbn [with_counts with_handle closed st_bytes st_config st_records st_handle negb].
  pose proof (encode_entry_size e He) as Hsz. unfold encode_entry in Hsz. rewrite Hsz.
  assert ((kMaxRecordPayloadBytes <? zlen (entry_payload e)) = false) as -> by (apply Z.ltb_ge, He).
  pose proof (record_count_nonneg (rc_contents found)).
  rewrite wrap_small by (unfold in_u, kMaxMaxStoreRecords in *; lia).
  rewrite !(proj2 (Z.ltb_ge _ _)) by lia.
  split; [reflexivity|]. split; [reflexivity|]. split; [reflexivity|].
  unfold extend, load, read_file, read_image. change (default [] (Some image)) with image.
  rewrite zlen_app, Hsz. assert ((kMaxMaxStoreBytes <? zlen image + record_size e) = false) as -> by (apply Z.ltb_ge; lia).
  cbn [env_read sound_environment]. by apply scan_damaged_app.
Qed.

(** The first byte of the first record's payload overwritten. *)
Definition damaged_image : bytes :=
  let image := image_of [ETombstone "rack:rack-1"; ETombstone "rack:rack-2"] in
  take 132 image ++ [xff] ++ drop 133 image.

Lemma append_after_damage_lost_witness :
  let '(opened, st, f) := open sample_config sound_environment (Some damaged_image) in
  let '(appended, _, f') := append_entry (ERetirement Sample.retirement) Committed st f in
  opened = Status.OK ∧ appended = Status.OK
  ∧ rc_contents (load sound_environment f') = no_contents
  ∧ rc_status (load sound_environment f') = Status.INTEGRITY_FAILURE.
Proof.
  pose proof sample_entries_ok as Hok. apply Forall_cons in Hok as [_ Hok]. apply Forall_cons in Hok as [H2 _].
  assert (rc_contents (scan_image damaged_image) = no_contents
          ∧ rc_status (scan_image damaged_image) = Status.INTEGRITY_FAILURE) as [Hc Hs] by (vm_compute; split; reflexivity).
  pose proof (append_after_damage_lost sample_config damaged_image (ERetirement Sample.retirement)) as H.
  destruct (open sample_config sound_environment (Some damaged_image)) as [[opened st] f].
  destruct (append_entry (ERetirement Sample.retirement) Committed st f) as [[appended st'] f'].
  destruct H as (-> & -> & _ & -> & ->).
  - vm_compute; repeat split; congruence.
  - split; [exact H2|congruence].
  - vm_compute. reflexivity.
  - vm_compute. reflexivity.
  - rewrite Hs. congruence.
  - vm_compute. congruence.
  - rewrite Hc. vm_compute. reflexivity.
  - split; [reflexivity|]. split; [reflexivity|]. split; [exact Hc|exact Hs].
Defined.

(** * Compaction keeps the newest *)

(** [q] is not newer than [r]. *)
Definition not_newer (q r : publication_record) : Prop :=
  pub_generation q < pub_generation r
  ∨ (pub_generation q = pub_generation r ∧ pub_acceptance_sequence q ≤ pub_acceptance_sequence r).

(** ** Keeping one record per domain *)

Section keep.
Context (newer : publication_record → publication_record → bool).
Context (upto : publication_record → publication_record → Prop).
Hypothesis upto_refl : ∀ r, upto r r.
Hypothesis newer_upto : ∀ found r q, newer found r = true → upto q found → upto q r.
Hypothesis older_upto : ∀ found r, newer found r = false → upto r found.

Definition keep_if (m : omap_t member_domain_key publication_record) (r : publication_record)
    : omap_t member_domain_key publication_record :=
  match om_find (pub_domain r) m with
  | None => om_set (pub_domain r) r m
  | Some found => if newer found r then om_set (pub_domain r) r m else m
  end.

(** The map holds, for every domain of the records, one of its records that all are up to. *)
Definition kept_in (rs : list publication_record) (m : omap_t member_domain_key publication_record) : Prop :=
  om_sorted m
  ∧ (∀ d r, om_find d m = Some r → r ∈ rs ∧ pub_domain r = d ∧ ∀ q, q ∈ rs → pub_domain q = d → upto q r)
  ∧ (∀ q, q ∈ rs → is_Some (om_find (pub_domain q) m)).

Lemma kept_set rs m r :
  kept_in rs m → (∀ q, q ∈ rs → pub_domain q = pub_domain r → upto q r) →
  kept_in (rs ++ [r]) (om_set (pub_domain r) r m).
Proof using All.
  intros (Hs & Hm & Hd) Hall. split_and!.
  - by apply om_set_sorted.
  - intros d x. destruct (decide (d = pub_domain r)) as [->|Hne].
    + rewrite om_find_set_eq. intros [= <-]. split_and!; [set_solver|done|]. intros q [Hq|Hq]%elem_of_app Hqd; [by apply Hall|].
      apply list_elem_of_singleton in Hq as ->. done.
    + rewrite om_find_set_ne by done. intros Hx. destruct (Hm d x Hx) as (Hx1 & Hx2 & Hx3).
      split_and!; [set_solver|done|]. intros q [Hq|Hq]%elem_of_app Hqd; [by apply Hx3|].
      apply list_elem_of_singleton in Hq as ->. done.
  - intros q [Hq|Hq]%elem_of_app; (destruct (decide (pub_domain q = pub_domain r)) as [->|Hne];
      [rewrite om_find_set_eq; eauto|rewrite om_find_set_ne by done]); [by apply Hd|].
    apply list_elem_of_singleton in Hq as ->. done.
Qed.

Lemma keep_if_spec rs m r : kept_in rs m → kept_in (rs ++ [r]) (keep_if m r).
Proof using All.
  intros Hk. pose proof Hk as (Hs & Hm & Hd). unfold keep_if.
  destruct (om_find (pub_domain r) m) as [found|] eqn:Hf.
  - destruct (Hm _ _ Hf) as (Hf1 & Hf2 & Hf3). destruct (newer found r) eqn:Hn.
    + apply kept_set; [done|]. intros q Hq Hqd. eapply newer_upto; [done|by apply Hf3].
    + split_and!; [done| |].
      * intros d x Hx. destruct (Hm d x Hx) as (Hx1 & Hx2 & Hx3). split_and!; [set_solver|done|].
        intros q [Hq|Hq]%elem_of_app Hqd; [by apply Hx3|]. apply list_elem_of_singleton in Hq as ->.
        rewrite Hqd, Hx in Hf. injection Hf as <-. by apply older_upto.
      * intros q [Hq|Hq]%elem_of_app; [by apply Hd|]. apply list_elem_of_singleton in Hq as ->. eauto.
  - apply kept_set; [done|]. intros q Hq Hqd. destruct (Hd q Hq) as [x Hx]. rewrite Hqd in Hx. congruence.
Qed.

Lemma keep_all_spec rs : kept_in rs (foldl keep_if [] rs).
Proof using All.
  assert (∀ done_ m, kept_in done_ m → kept_in (done_ ++ rs) (foldl keep_if m rs)) as H.
  { induction rs as [|r rs IH]; intros done_ m Hm; [by rewrite app_nil_r|]. cbn [foldl].
    rewrite cons_middle, app_assoc. by apply IH, keep_if_spec. }
  apply (H []). split_and!; [constructor|done|]. intros q Hq. by apply elem_of_nil in Hq.
Qed.
End keep.

Definition newest_in : list publication_record → omap_t member_domain_key publication_record → Prop := kept_in not_newer.

Lemma newest_publication_spec rs : newest_in rs (newest_publication rs).
Proof.
  apply (keep_all_spec (λ found r, (pub_generation found <? pub_generation r)
    || ((pub_generation found =? pub_generation r) && (pub_acceptance_sequence found <? pub_acceptance_sequence r)))).
  - intros r. right. lia.
  - intros found r q. unfold not_newer.
    intros [?%Z.ltb_lt|[?%Z.eqb_eq ?%Z.ltb_lt]%andb_true_iff]%orb_true_iff; lia.
  - intros found r [Hc1%Z.ltb_ge Hc2]%orb_false_iff. unfold not_newer.
    apply andb_false_iff in Hc2 as [?%Z.eqb_neq|?%Z.ltb_ge]; lia.
Qed.

(** ** What was written back *)

Lemma publication_bytes_on_wire p : write_publication (publication_on_wire p) = write_publication p.
Proof.
  unfold write_publication, publication_on_wire. cbn [pub_domain pub_generation pub_digest pub_schema pub_site
    pub_observed_epoch pub_incarnation pub_publisher pub_attempt pub_received_at_ms pub_acceptance_sequence
    pub_has_declaration pub_declaration].
  destruct (pub_has_declaration p); [|done]. do 13 f_equal.
  exact (write_content_on_wire (pub_declaration p)).
Qed.

Lemma entry_bytes_on_wire e :
  entry_type (entry_on_wire e) = entry_type e ∧ entry_payload (entry_on_wire e) = entry_payload e.
Proof.
  destruct e; cbn [entry_on_wire entry_type entry_payload]; split; try exact eq_refl.
  - unfold write_snapshot_body. rewrite write_envelope_on_wire. f_equal.
    cbn [on_wire snapshot_on_wire snap_state]. apply write_site_on_wire.
  - apply publication_bytes_on_wire.
Qed.

Lemma encode_on_wire e : encode_entry (entry_on_wire e) = encode_entry e.
Proof. destruct (entry_bytes_on_wire e) as [Ht Hp]. unfold encode_entry. by rewrite Ht, Hp. Qed.
Lemma record_size_on_wire e : record_size (entry_on_wire e) = record_size e.
Proof. destruct (entry_bytes_on_wire e) as [_ Hp]. unfold record_size. by rewrite Hp. Qed.

Lemma encode_all_on_wire es : ((entry_on_wire <$> es) ≫= encode_entry) = (es ≫= encode_entry).
Proof. induction es as [|e es IH]; [done|]. by rewrite fmap_cons, !bind_cons, IH, encode_on_wire. Qed.
Lemma records_size_on_wire es : records_size (entry_on_wire <$> es) = records_size es.
Proof. induction es as [|e es IH]; [done|]. cbn [fmap list_fmap records_size]. by rewrite record_size_on_wire, <- IH. Qed.

Lemma records_size_submseteq a b : a ⊆+ b → records_size a ≤ records_size b.
Proof.
  induction 1 as [|x a b _ IH|x y a|x a b _ IH|a b c _ IH1 _ IH2]; cbn [records_size] in *; try lia.
  pose proof (record_size_pos x). unfold kRecordHeaderBytes in *. lia.
Qed.

(** ** Contents as entries *)

Lemma entries_of_collect c e : e ≠ ECheckpoint → entries_of (collect c e) ≡ₚ e :: entries_of c.
Proof.
  intros He. destruct c as [ss ps rs ts ls], e; try done; unfold entries_of; cbn [collect co_snapshot_history
    co_publications co_retirements co_tombstones co_leases]; rewrite fmap_app; cbn [fmap list_fmap]; solve_Permutation.
Qed.
Lemma entries_of_collect_all es c :
  Forall (λ e, e ≠ ECheckpoint) es → entries_of (foldl collect c es) ≡ₚ es ++ entries_of c.
Proof.
  intros Hes. revert c. induction Hes as [|e es He Hes IH]; intros c; [done|]. cbn [foldl].
  rewrite IH, entries_of_collect by done. solve_Permutation.
Qed.
Lemma entries_of_sort c : entries_of (sort_contents c) ≡ₚ entries_of c.
Proof. unfold entries_of, sort_contents. cbn. by rewrite !sort_by_perm. Qed.

(** Pushing a whole list of one type. *)
Definition push_all (c d : store_contents) : store_contents :=
  StoreContents (co_snapshot_history c ++ co_snapshot_history d) (co_publications c ++ co_publications d)
    (co_retirements c ++ co_retirements d) (co_tombstones c ++ co_tombstones d) (co_leases c ++ co_leases d).

Ltac push_list l :=
  induction l as [|x l IH]; intros [s0 p0 r0 t0 l0]; [by unfold push_all; cbn; rewrite !app_nil_r|];
  cbn [fmap list_fmap foldl]; rewrite IH; unfold push_all; cbn; by rewrite !app_nil_r, <- ?app_assoc.

Lemma push_snapshots ss : ∀ c, foldl collect c (ESnapshot <$> ss) = push_all c (StoreContents ss [] [] [] []).
Proof. push_list ss. Qed.
Lemma push_publications ps : ∀ c, foldl collect c (EPublication <$> ps) = push_all c (StoreContents [] ps [] [] []).
Proof. push_list ps. Qed.
Lemma push_retirements rs : ∀ c, foldl collect c (ERetirement <$> rs) = push_all c (StoreContents [] [] rs [] []).
Proof. push_list rs. Qed.
Lemma push_tombstones ts : ∀ c, foldl collect c (ETombstone <$> ts) = push_all c (StoreContents [] [] [] ts []).
Proof. push_list ts. Qed.
Lemma push_leases ls : ∀ c, foldl collect c (ELease <$> ls) = push_all c (StoreContents [] [] [] [] ls).
Proof. push_list ls. Qed.

Lemma collect_entries_of c : foldl collect no_contents (entries_of c) = c.
Proof.
  destruct c as [ss ps rs ts ls]. unfold entries_of. cbn [co_snapshot_history co_publications co_retirements co_tombstones co_leases].
  rewrite !foldl_app, push_snapshots, push_publications, push_retirements, push_tombstones, push_leases.
  unfold push_all. cbn. by rewrite !app_nil_r.
Qed.

Lemma stored_entries es l : Forall loggable es → (∀ x, x ∈ l → x ∈ entry_on_wire <$> es) →
  ∃ k, Forall loggable k ∧ l = entry_on_wire <$> k.
Proof.
  intros Hes. induction l as [|x l IH]; intros Hl; [by exists []|].
  destruct (proj1 (list_elem_of_fmap _ _ _) (Hl x ltac:(left))) as (e & -> & He).
  destruct IH as (k & Hk & ->); [intros y Hy; apply Hl; by right|].
  exists (e :: k). split; [|done]. constructor; [|done]. rewrite Forall_forall in Hes. by apply Hes.
Qed.

(** ** What compaction keeps of the contents *)

Lemma newest_domains rs : pub_domain <$> (newest_publication rs).*2 = (newest_publication rs).*1.
Proof.
  destruct (newest_publication_spec rs) as (Hs & Hm & _). rewrite <- list_fmap_compose.
  apply list_fmap_ext. intros i [d r] Hp. cbn. apply list_elem_of_lookup_2 in Hp.
  apply om_find_elem in Hp; [|exact Hs]. by destruct (Hm d r Hp) as (_ & ? & _).
Qed.

Lemma newest_in_elem rs r : r ∈ (newest_publication rs).*2 ↔ om_find (pub_domain r) (newest_publication rs) = Some r.
Proof.
  destruct (newest_publication_spec rs) as (Hs & Hm & _). rewrite om_find_elem by exact Hs. rewrite list_elem_of_fmap. split.
  - intros ([d x] & -> & Hp). cbn. pose proof Hp as Hf. apply om_find_elem in Hf; [|exact Hs].
    by destruct (Hm d x Hf) as (_ & -> & _).
  - intros Hp. by exists (pub_domain r, r).
Qed.

Lemma newest_submseteq rs : (newest_publication rs).*2 ⊆+ rs.
Proof.
  destruct (newest_publication_spec rs) as (Hs & Hm & _). apply NoDup_submseteq.
  - apply (NoDup_fmap_1 pub_domain). rewrite newest_domains. by apply lt_sorted_NoDup.
  - intros r Hr%newest_in_elem. by destruct (Hm _ _ Hr) as (? & _).
Qed.

Lemma newest_sorted rs : sort_by publication_key (newest_publication rs).*2 = (newest_publication rs).*2.
Proof.
  apply sort_by_id. destruct (newest_publication_spec rs) as (Hs & _). unfold om_sorted in Hs.
  rewrite <- newest_domains in Hs. induction ((newest_publication rs).*2) as [|r l IH]; [constructor|].
  cbn [fmap list_fmap] in Hs. apply StronglySorted_inv in Hs as [Hs Hf]. constructor; [by apply IH|].
  rewrite Forall_fmap in Hf. eapply Forall_impl; [exact Hf|]. intros x Hx. unfold key_le. apply lt_le.
  unfold lt_key, publication_key in *. cbn in *. by rewrite Hx.
Qed.

Lemma sorted_drop {A} (R : relation A) n l : StronglySorted R l → StronglySorted R (drop n l).
Proof.
  revert n. induction l as [|x l IH]; intros [|n] Hs; try done. apply StronglySorted_inv in Hs as [Hs _]. by apply IH.
Qed.

Lemma compacted_sorted cfg c :
  sort_contents (compacted cfg (sort_contents c)) = compacted cfg (sort_contents c).
Proof.
  unfold compacted, sort_contents at 1. cbn [co_snapshot_history co_publications co_retirements co_tombstones co_leases].
  f_equal; [|apply newest_sorted]. apply sort_by_id, sorted_drop, sort_by_sorted.
Qed.

Lemma compacted_submseteq cfg c : entries_of (compacted cfg c) ⊆+ entries_of c.
Proof.
  unfold entries_of, compacted. cbn [co_snapshot_history co_publications co_retirements co_tombstones co_leases].
  apply submseteq_app; [|apply submseteq_app; [|done]]; apply fmap_submseteq.
  - apply sublist_submseteq, sublist_drop.
  - apply newest_submseteq.
Qed.

Lemma compacted_count cfg c :
  0 ≤ cfg_snapshot_history cfg → dropped_by cfg c = record_count c - record_count (compacted cfg c).
Proof.
  intros Hh. unfold dropped_by, record_count, compacted. cbn [co_snapshot_history co_publications co_retirements co_tombstones co_leases].
  assert (0 ≤ first_kept cfg c ≤ zlen (co_snapshot_history c)).
  { unfold first_kept, history_limit, kDefaultSnapshotHistory. pose proof (zlen_nonneg (co_snapshot_history c)).
    destruct (cfg_snapshot_history cfg =? 0);
      match goal with |- context [?a <? ?b] => destruct (Z.ltb_spec a b) end; lia. }
  unfold zlen in *. rewrite length_drop, length_fmap. lia.
Qed.

Lemma kept_snapshots cfg c : 0 ≤ cfg_snapshot_history cfg →
  zlen (drop (Z.to_nat (first_kept cfg c)) (co_snapshot_history c))
  = Z.min (history_limit cfg) (zlen (co_snapshot_history c)).
Proof.
  intros Hh. unfold zlen at 1. rewrite length_drop. unfold first_kept, history_limit, kDefaultSnapshotHistory.
  pose proof (zlen_nonneg (co_snapshot_history c)). unfold zlen in *.
  destruct (Z.eqb_spec (cfg_snapshot_history cfg) 0);
    match goal with |- context [?a <? ?b] => destruct (Z.ltb_spec a b) end; lia.
Qed.

(** The log compaction rewrites the file to. *)
Lemma compacted_log cfg log : Forall loggable log →
  ∃ log', Forall loggable log' ∧ entries_of (compacted cfg (contents_of log)) = entry_on_wire <$> log'
    ∧ contents_of log' = compacted cfg (contents_of log)
    ∧ image_of log' = compact_image (compacted cfg (contents_of log))
    ∧ image_size log' ≤ image_size log ∧ zlen log' ≤ zlen log.
Proof.
  intros Hl.
  assert (entries_of (compacted cfg (contents_of log)) ⊆+ (entry_on_wire <$> log)) as Hsub.
  { etrans; [apply compacted_submseteq|]. unfold contents_of. rewrite entries_of_sort, entries_of_collect_all.
    - rewrite app_nil_r. reflexivity.
    - apply Forall_fmap. eapply Forall_impl; [exact Hl|]. intros e [_ He]. by destruct e. }
  destruct (stored_entries log (entries_of (compacted cfg (contents_of log))) Hl) as (log' & Hl' & Heq).
  { intros x Hx. by eapply elem_of_submseteq. }
  exists log'. split; [exact Hl'|]. split; [exact Heq|]. split_and!.
  - unfold contents_of at 1. rewrite <- Heq, collect_entries_of. unfold contents_of at 1. apply compacted_sorted.
  - unfold image_of, compact_image. rewrite Heq, encode_all_on_wire. reflexivity.
  - unfold image_size. rewrite <- (records_size_on_wire log'), <- Heq, <- (records_size_on_wire log).
    pose proof (records_size_submseteq _ _ Hsub). lia.
  - apply submseteq_length in Hsub. rewrite Heq, !length_fmap in Hsub. unfold zlen. lia.
Qed.

Lemma kept_publications cfg c :
  NoDup (pub_domain <$> co_publications (compacted cfg c))
  ∧ (∀ r, r ∈ co_publications (compacted cfg c) → r ∈ co_publications c
       ∧ ∀ q, q ∈ co_publications c → pub_domain q = pub_domain r → not_newer q r)
  ∧ (∀ q, q ∈ co_publications c → pub_domain q ∈ pub_domain <$> co_publications (compacted cfg c)).
Proof.
  destruct (newest_publication_spec (co_publications c)) as (Hs & Hnew & Hall).
  cbn [compacted co_publications]. rewrite newest_domains. split_and!; [by apply lt_sorted_NoDup| |].
  - intros r Hr'%newest_in_elem. by destruct (Hnew _ _ Hr') as (? & _ & ?).
  - intros q Hq. by apply om_keys_find, Hall.
Qed.

(** C24: compaction keeps the newest and loses nothing else: it always succeeds on a store
    that holds a log, leaves a store that still holds a log within the bounds, and a load
    afterwards finds the newest snapshots by sequence up to the configured history, exactly
    one publication per domain that had any (the newest by generation, then acceptance),
    and every retirement, tombstone and lease in order; the count it reports is the number
    of entries that are gone. *)
Theorem compaction_keeps_newest (cfg : store_config) (p : store * file) (log : list entry) :
  config_ok cfg → 0 ≤ cfg_snapshot_history cfg → holds cfg p log →
  let before := contents_of log in
  let '(code, dropped, st, f) := compact sound_environment p.1 p.2 in
  let after := rc_contents (load sound_environment f) in
  code = Status.OK
  ∧ (∃ log', holds cfg (st, f) log' ∧ contents_of log' = after)
  ∧ (co_snapshot_history after `suffix_of` co_snapshot_history before
     ∧ zlen (co_snapshot_history after) = Z.min (history_limit cfg) (zlen (co_snapshot_history before)))
  ∧ (NoDup (pub_domain <$> co_publications after)
     ∧ (∀ r, r ∈ co_publications after → r ∈ co_publications before
          ∧ ∀ q, q ∈ co_publications before → pub_domain q = pub_domain r → not_newer q r)
     ∧ (∀ q, q ∈ co_publications before → pub_domain q ∈ pub_domain <$> co_publications after))
  ∧ co_retirements after = co_retirements before ∧ co_tombstones after = co_tombstones before
  ∧ co_leases after = co_leases before
  ∧ dropped = record_count before - record_count after.
Proof.
  intros Hcfg Hh Hholds before. pose proof (load_holds cfg p log Hcfg Hholds) as (Hload & _ & Hcode & _).
  destruct Hholds as (Hc & Hopen & Hf & Hb & Hr & Hl & Hm & Hn).
  destruct (compacted_log cfg log Hl) as (log' & Hl' & _ & Hcont & Himg & Hsize & Hcount). fold before in Hcont, Himg.
  unfold compact, compact_locked. change (read_file sound_environment p.2) with (load sound_environment p.2).
  rewrite Hcode, Hload, Hc. fold before. rewrite bool_decide_false by apply Hcfg.
  change (is_ok (if 0 <? 0 then Status.TRUNCATED else Status.OK)) with true. cbn [negb andb].
  rewrite <- Himg, image_of_length by (by apply loggable_ok).
  assert ((cfg_max_bytes cfg <? image_size log') = false) as -> by (apply Z.ltb_ge; lia).
  unfold write_file_atomic. cbn [env_write env_handle sound_environment].
  assert (record_count (compacted cfg before) = zlen log') as Hrc by (rewrite <- Hcont; by apply contents_of_count).
  rewrite Hrc, wrap_small by (unfold in_u; destruct Hcfg as (_ & _ & ?); unfold kMaxMaxStoreRecords in *; pose proof (zlen_nonneg log'); lia).
  set (st := with_counts _ _ _).
  assert (holds cfg (st, Some (image_of log')) log') as Hafter.
  { subst st. unfold holds. cbn [fst snd with_counts with_handle st_config st_handle st_bytes st_records].
    split; [exact Hc|]. split; [reflexivity|]. split; [reflexivity|]. split; [reflexivity|]. split; [reflexivity|].
    split; [exact Hl'|]. split; lia. }
  destruct (load_holds cfg _ _ Hcfg Hafter) as (Hload' & _). cbn [snd] in Hload'. rewrite Hload', Hcont.
  split; [reflexivity|]. split; [exact (ex_intro _ log' (conj Hafter Hcont))|].
  split; [split; [apply suffix_drop|exact (kept_snapshots cfg before Hh)]|].
  split; [exact (kept_publications cfg before)|].
  split; [reflexivity|]. split; [reflexivity|]. split; [reflexivity|]. exact (compacted_count cfg before Hh).
Qed.

(** A history of one: two snapshots, of which the newer is kept. *)
Definition compact_config : store_config := StoreConfig "site.store" 100000 8 1 false.
Definition two_snapshots : list entry :=
  [ESnapshot SampleSite.snapshot; ERetirement Sample.retirement; ESnapshot SampleSite.snapshot].
Definition compact_store : store := SiteStore compact_config true (image_size two_snapshots) 3 empty_report.

Lemma two_snapshots_loggable : Forall loggable two_snapshots.
Proof.
  pose proof sample_entries_ok as Hok. apply Forall_cons in Hok as [H1 Hok]. apply Forall_cons in Hok as [H2 _].
  constructor; [split; [exact H1|congruence]|]. constructor; [split; [exact H2|congruence]|].
  constructor; [split; [exact H1|congruence]|constructor].
Qed.

Lemma compaction_keeps_newest_witness :
  let '(code, dropped, _, f) := compact sound_environment compact_store (Some (image_of two_snapshots)) in
  code = Status.OK ∧ dropped = record_count (contents_of two_snapshots) - record_count (rc_contents (load sound_environment f))
  ∧ zlen (co_snapshot_history (rc_contents (load sound_environment f))) = 1.
Proof.
  pose proof (compaction_keeps_newest compact_config (compact_store, Some (image_of two_snapshots)) two_snapshots) as H.
  cbn [fst snd] in H.
  destruct (compact sound_environment compact_store (Some (image_of two_snapshots))) as [[[code dropped] st] f].
  destruct H as (-> & _ & (_ & Hlen) & _ & _ & _ & _ & ->).
  - vm_compute; repeat split; congruence.
  - vm_compute. congruence.
  - split; [reflexivity|]. split; [reflexivity|]. split; [reflexivity|]. split; [reflexivity|].
    split; [reflexivity|]. split; [exact two_snapshots_loggable|]. split; vm_compute; congruence.
  - split; [reflexivity|]. split; [reflexivity|]. rewrite Hlen. vm_compute. reflexivity.
Defined.

(** ** Edges *)

(** A short write leaves a torn record in the middle of the file: the append reports
    TRUNCATED, the next one succeeds, and neither is recovered. *)
Lemma torn_append_hides_later_ones :
  let st := SiteStore sample_config true (image_size []) 0 empty_report in
  let '(first, st, f) := append_entry (ERetirement Sample.retirement) (ShortWrite 20) st (Some (image_of [])) in
  let '(second, _, f) := append_entry (ETombstone "rack:rack-1") Committed st f in
  first = Status.TRUNCATED ∧ second = Status.OK
  ∧ rc_contents (load sound_environment f) = no_contents ∧ rc_status (load sound_environment f) = Status.CORRUPT.
Proof. vm_compute. repeat split. Qed.

(** The digest over the contents does not depend on what a snapshot says: the reader leaves
    [snapshot_digest] at zero, so two stores whose snapshots differ in everything but their
    sequence agree. *)
Lemma content_digest_ignores_snapshots :
  let other := SampleSite.snapshot_at 7 in
  content_digest (contents_of [ESnapshot SampleSite.snapshot]) = content_digest (contents_of [ESnapshot other])
  ∧ snap_epoch SampleSite.snapshot ≠ snap_epoch other.
Proof. vm_compute. split; [reflexivity|congruence]. Qed.
