(* ===== verification/Protocol.v ===== *)
(** The wire protocol (protocol.hpp, src/protocol/protocol.cpp) and the frames of
    src/transport/tcp.cpp.

    A frame is a 48-byte header and a payload; the header carries the length and the digest
    of the payload, and is refused before a payload of the declared length is read. A
    message is the canonical encoding of its fields, and nothing may follow it. [Message] is
    the interface every message type implements; its laws give the theorems for all of them
    at once: a message sent is the message received, whatever the bytes behind it. *)

From stdpp Require Import sorting.
From S2P Require Import Prelude Ordering Enums Sha256 Identity Canonical Evidence Capacity Claims Codec Authority Forest Site SiteCodec StoreFormat.

Definition kFrameMagic : Z := 0x53464142.
Definition kFrameHeaderBytes : Z := 48.
Definition kWireProtocolVersion : Z := 1.

(** * Frames *)

Record frame_header := FrameHeader {
  fh_protocol_version : Z;
  fh_type : message_type;
  fh_flags : Z;
  fh_payload_bytes : Z;
  fh_payload_digest : digest;
}.

(** [is_known]. *)
Definition known_message (type : message_type) : bool := negb (bool_decide (type = MessageType.UNKNOWN)).

Definition frame_fields (type : message_type) (payload : bytes) (flags : Z) : bytes :=
  put_u32 kFrameMagic ++ w_u16 kWireProtocolVersion ++ w_u16 (enum_code type) ++ put_u32 flags
  ++ put_u32 (wrap 32 (zlen payload)) ++ digest_bytes payload.

Definition encode_frame (type : message_type) (payload : bytes) (flags : Z) : result status bytes :=
  if negb (known_message type) then Err Status.UNSUPPORTED
  else if kMaxFrameBytes <? zlen payload then Err Status.LIMIT_EXCEEDED
  else Ok (frame_fields type payload flags ++ payload).

Definition get_u16 (data : bytes) (offset : nat) : Z :=
  Z.lor (byte_at data offset) (wrap 16 (Z.shiftl (byte_at data (offset + 1)) 8)).

(** [if (refused) return s;] *)
Definition refuse_if (refused : bool) (s : status) : result status unit := if refused then Err s else Ok ().

Definition decode_frame_header (data : bytes) : result status frame_header :=
  refuse_if (negb (zlen data =? kFrameHeaderBytes)) Status.TRUNCATED;;
  refuse_if (negb (read_u32_at data 0 =? kFrameMagic)) Status.MALFORMED;;
  let version := get_u16 data 4 in
  refuse_if (negb (version =? kWireProtocolVersion)) Status.UNSUPPORTED_FORMAT;;
  let type := get_u16 data 6 in
  refuse_if ((type =? 0) || (enum_code MessageType.PONG <? type)) Status.UNSUPPORTED;;
  let payload_bytes := read_u32_at data 12 in
  refuse_if (kMaxFrameBytes <? payload_bytes) Status.LIMIT_EXCEEDED;;
  mret (FrameHeader version (default MessageType.UNKNOWN (enum_of_code type)) (read_u32_at data 8) payload_bytes
          (subspan 16 32 data)).

Definition verify_payload (h : frame_header) (payload : bytes) : status :=
  if negb (zlen payload =? fh_payload_bytes h) then Status.TRUNCATED
  else if negb (bool_decide (digest_bytes payload = fh_payload_digest h)) then Status.INTEGRITY_FAILURE
  else Status.OK.

(** [TcpConnection::read_exact] over the bytes the peer sent: all of them, or the status
    [ended] of a stream that ends first. *)
Definition read_exact (ended : status) (size : Z) : bytes → result status (bytes * bytes) := λ stream,
  if zlen stream <? size then Err ended else Ok (take (Z.to_nat size) stream, drop (Z.to_nat size) stream).

(** [receive_frame]: the type, the payload and the stream behind the frame. *)
Definition receive_frame (ended : status) (stream : bytes) : result status (message_type * bytes * bytes) :=
  h ← read_exact ended kFrameHeaderBytes stream;
  header ← decode_frame_header h.1;
  body ← (if fh_payload_bytes header =? 0 then mret ([], h.2) else read_exact ended (fh_payload_bytes header) h.2);
  let verified := verify_payload header body.1 in
  if negb (is_ok verified) then Err verified else mret (fh_type header, body.1, body.2).

(** * Messages *)

Record hello_request := HelloRequest {
  hq_domain : member_domain_key;
  hq_site : string;
  hq_incarnation : incarnation;
  hq_publisher : string;
  hq_observed_epoch : epoch;
  hq_schema : schema_version;
  hq_resume_from : generation;
}.
Record hello_response := HelloResponse {
  hr_status : status;
  hr_site : string;
  hr_epoch : epoch;
  hr_controller : incarnation;
  hr_assigned_sequence : Z;
  hr_current_generation : generation;
  hr_factors : factors;
}.
Record publish_response := PublishResponse {
  pp_status : status;
  pp_site : string;
  pp_epoch : epoch;
  pp_site_generation : generation;
  pp_acceptance_sequence : Z;
  pp_recomposed : bool;
  pp_factors : factors;
}.
Record retire_request := RetireRequest {
  rq_domain : member_domain_key;
  rq_generation : generation;
  rq_incarnation : incarnation;
  rq_reason : string;
}.
Record retire_response := RetireResponse {
  rp_status : status;
  rp_site : string;
  rp_epoch : epoch;
  rp_acceptance_sequence : Z;
  rp_factors : factors;
}.
Record fetch_site_request := FetchSiteRequest {
  fq_site : string;
  fq_sequence : Z;
  fq_include_state : bool;
}.
Record heartbeat_response := HeartbeatResponse {
  bp_status : status;
  bp_epoch : epoch;
  bp_site_generation : generation;
  bp_site_sequence : Z;
  bp_invalidated : list member_domain_key;
  bp_factors : factors;
}.
Record invalidate_notice := InvalidateNotice {
  iv_site : string;
  iv_epoch : epoch;
  iv_sources : source_set;
  iv_reason : string;
}.
Record revoke_notice := RevokeNotice {
  rn_site : string;
  rn_epoch : epoch;
  rn_domain : member_domain_key;
  rn_reason : string;
}.
Record error_response := ErrorResponse {
  er_status : status;
  er_detail : string;
  er_factors : factors;
}.
Record shutdown_request := ShutdownRequest {
  sq_site : string;
  sq_controller : incarnation;
  sq_reason : string;
}.
Record shutdown_response := ShutdownResponse {
  sp_status : status;
  sp_factors : factors;
}.
Record ping_message := PingMessage {
  ping_nonce : Z;
}.

(** Messages around a declaration, a snapshot or a heartbeat. *)
Record publish_request := PublishRequest {
  pq_declaration : declaration;
  pq_attempt : publish_attempt;
}.
Record fetch_site_response := FetchSiteResponse {
  fp_status : status;
  fp_has_snapshot : bool;
  fp_snapshot : option site_snapshot;
  fp_factors : factors;
}.
Record heartbeat_request := HeartbeatRequest {
  bq_domain : member_domain_key;
  bq_site : string;
  bq_incarnation : incarnation;
  bq_observed_epoch : epoch;
  bq_since_sequence : Z;
}.

Definition write_domain_list (domains : list member_domain_key) : bytes := w_list write_member_domain_key domains.
Definition read_domain_list : reader (list member_domain_key) :=
  r_list (kMaxMemberDomains + 1) read_member_domain_key.

(** [HelloRequest]. *)
Definition write_hello_request (m : hello_request) : bytes :=
  write_member_domain_key (hq_domain m) ++ w_text (hq_site m) ++ w_incarnation (hq_incarnation m)
  ++ w_text (hq_publisher m) ++ w_epoch (hq_observed_epoch m) ++ w_schema (hq_schema m)
  ++ w_generation (hq_resume_from m).
Definition read_hello_request : reader hello_request :=
  domain ← read_member_domain_key; site ← read_strong_id; incarnation ← r_incarnation;
  publisher ← read_strong_id; observed_epoch ← r_epoch; schema ← r_schema; resume_from ← r_generation;
  mret (HelloRequest domain site incarnation publisher observed_epoch schema resume_from).

(** [HelloResponse]. *)
Definition write_hello_response (m : hello_response) : bytes :=
  w_u8 (enum_code (hr_status m)) ++ w_text (hr_site m) ++ w_epoch (hr_epoch m)
  ++ w_incarnation (hr_controller m) ++ w_u64 (hr_assigned_sequence m)
  ++ w_generation (hr_current_generation m) ++ write_factors (hr_factors m).
Definition read_hello_response : reader hello_response :=
  status ← read_status; site ← read_strong_id; epoch ← r_epoch; controller ← r_incarnation;
  assigned_sequence ← r_u64; current_generation ← r_generation; factors ← read_factors;
  mret (HelloResponse status site epoch controller assigned_sequence current_generation factors).

(** [PublishResponse]. *)
Definition write_publish_response (m : publish_response) : bytes :=
  w_u8 (enum_code (pp_status m)) ++ w_text (pp_site m) ++ w_epoch (pp_epoch m)
  ++ w_generation (pp_site_generation m) ++ w_u64 (pp_acceptance_sequence m) ++ w_flag (pp_recomposed m)
  ++ write_factors (pp_factors m).
Definition read_publish_response : reader publish_response :=
  status ← read_status; site ← read_strong_id; epoch ← r_epoch; site_generation ← r_generation;
  acceptance_sequence ← r_u64; recomposed ← r_flag; factors ← read_factors;
  mret (PublishResponse status site epoch site_generation acceptance_sequence recomposed factors).

(** [RetireRequest]. *)
Definition write_retire_request (m : retire_request) : bytes :=
  write_member_domain_key (rq_domain m) ++ w_generation (rq_generation m)
  ++ w_incarnation (rq_incarnation m) ++ w_text (rq_reason m).
Definition read_retire_request : reader retire_request :=
  domain ← read_member_domain_key; generation ← r_generation; incarnation ← r_incarnation;
  reason ← r_text kMaxTextBytes; mret (RetireRequest domain generation incarnation reason).

(** [RetireResponse]. *)
Definition write_retire_response (m : retire_response) : bytes :=
  w_u8 (enum_code (rp_status m)) ++ w_text (rp_site m) ++ w_epoch (rp_epoch m)
  ++ w_u64 (rp_acceptance_sequence m) ++ write_factors (rp_factors m).
Definition read_retire_response : reader retire_response :=
  status ← read_status; site ← read_strong_id; epoch ← r_epoch; acceptance_sequence ← r_u64;
  factors ← read_factors; mret (RetireResponse status site epoch acceptance_sequence factors).

(** [FetchSiteRequest]. *)
Definition write_fetch_site_request (m : fetch_site_request) : bytes :=
  w_text (fq_site m) ++ w_u64 (fq_sequence m) ++ w_flag (fq_include_state m).
Definition read_fetch_site_request : reader fetch_site_request :=
  site ← read_strong_id; sequence ← r_u64; include_state ← r_flag;
  mret (FetchSiteRequest site sequence include_state).

(** [HeartbeatResponse]. *)
Definition write_heartbeat_response (m : heartbeat_response) : bytes :=
  w_u8 (enum_code (bp_status m)) ++ w_epoch (bp_epoch m) ++ w_generation (bp_site_generation m)
  ++ w_u64 (bp_site_sequence m) ++ write_domain_list (bp_invalidated m) ++ write_factors (bp_factors m).
Definition read_heartbeat_response : reader heartbeat_response :=
  status ← read_status; epoch ← r_epoch; site_generation ← r_generation; site_sequence ← r_u64;
  invalidated ← read_domain_list; factors ← read_factors;
  mret (HeartbeatResponse status epoch site_generation site_sequence invalidated factors).

(** [InvalidateNotice]. *)
Definition write_invalidate_notice (m : invalidate_notice) : bytes :=
  w_text (iv_site m) ++ w_epoch (iv_epoch m) ++ write_source_set (iv_sources m) ++ w_text (iv_reason m).
Definition read_invalidate_notice : reader invalidate_notice :=
  site ← read_strong_id; epoch ← r_epoch; sources ← read_source_set; reason ← r_text kMaxTextBytes;
  mret (InvalidateNotice site epoch sources reason).

(** [RevokeNotice]. *)
Definition write_revoke_notice (m : revoke_notice) : bytes :=
  w_text (rn_site m) ++ w_epoch (rn_epoch m) ++ write_member_domain_key (rn_domain m)
  ++ w_text (rn_reason m).
Definition read_revoke_notice : reader revoke_notice :=
  site ← read_strong_id; epoch ← r_epoch; domain ← read_member_domain_key; reason ← r_text kMaxTextBytes;
  mret (RevokeNotice site epoch domain reason).

(** [ErrorResponse]. *)
Definition write_error_response (m : error_response) : bytes :=
  w_u8 (enum_code (er_status m)) ++ w_text (er_detail m) ++ write_factors (er_factors m).
Definition read_error_response : reader error_response :=
  status ← read_status; detail ← r_text kMaxTextBytes; factors ← read_factors;
  mret (ErrorResponse status detail factors).

(** [ShutdownRequest]. *)
Definition write_shutdown_request (m : shutdown_request) : bytes :=
  w_text (sq_site m) ++ w_incarnation (sq_controller m) ++ w_text (sq_reason m).
Definition read_shutdown_request : reader shutdown_request :=
  site ← read_strong_id; controller ← r_incarnation; reason ← r_text kMaxTextBytes;
  mret (ShutdownRequest site controller reason).

(** [ShutdownResponse]. *)
Definition write_shutdown_response (m : shutdown_response) : bytes :=
  w_u8 (enum_code (sp_status m)) ++ write_factors (sp_factors m).
Definition read_shutdown_response : reader shutdown_response :=
  status ← read_status; factors ← read_factors; mret (ShutdownResponse status factors).

(** [PingMessage]. *)
Definition write_ping_message (m : ping_message) : bytes :=
  w_u64 (ping_nonce m).
Definition read_ping_message : reader ping_message :=
  nonce ← r_u64; mret (PingMessage nonce).

(** [PublishRequest]. *)
Definition write_publish_request (m : publish_request) : bytes :=
  write_declaration_content (pq_declaration m) ++ w_u64 (pa_sequence (pq_attempt m))
  ++ w_u32 (pa_attempt (pq_attempt m)).
Definition read_publish_request : reader publish_request :=
  declaration ← read_declaration; sequence ← r_u64; attempt ← r_u32;
  mret (PublishRequest declaration (PublishAttempt sequence attempt)).

(** [FetchSiteResponse]: the snapshot is there when the flag says so. *)
Definition write_fetch_site_response (m : fetch_site_response) : bytes :=
  w_u8 (enum_code (fp_status m)) ++ w_flag (fp_has_snapshot m)
  ++ (if fp_has_snapshot m then from_option write_snapshot_body [] (fp_snapshot m) else [])
  ++ write_factors (fp_factors m).
Definition read_fetch_site_response : reader fetch_site_response :=
  status ← read_status; has_snapshot ← r_flag;
  snapshot ← (if has_snapshot then s ← read_snapshot_body; mret (Some s) else mret None);
  factors ← read_factors; mret (FetchSiteResponse status has_snapshot snapshot factors).

(** [HeartbeatRequest]: [since_sequence] is not written. *)
Definition write_heartbeat_request (m : heartbeat_request) : bytes :=
  write_member_domain_key (bq_domain m) ++ w_text (bq_site m) ++ w_incarnation (bq_incarnation m)
  ++ w_epoch (bq_observed_epoch m).
Definition read_heartbeat_request : reader heartbeat_request :=
  domain ← read_member_domain_key; site ← read_strong_id; incarnation ← r_incarnation; epoch ← r_epoch;
  mret (HeartbeatRequest domain site incarnation epoch 0).

(** * The interface of a message *)

(** What encodes to what, and the law: the reader reads back what the writer wrote, as the
    format keeps it. *)
Class Message (A : Type) `{OnWire A} := {
  message_type_of : message_type;
  write_message : A → bytes;
  read_message : reader A;
  message_ok : A → Prop;
  message_known : known_message message_type_of = true;
  decodes_message : ∀ m, message_ok m → decodes read_message (write_message m) (on_wire m);
}.
Arguments message_type_of A {_ _}.

Definition encode_message `{Message A} (m : A) : bytes := write_message m.
Definition decode_message `{Message A} (payload : bytes) : result status A :=
  p ← (m ← read_message; r_finish;; mret m) payload; Ok p.1.

(** A message that is a sequence of fields. *)
Ltac message_field :=
  first [ site_field | by eapply decodes_list_id; [eassumption|done|apply decodes_domain_key] ].
Ltac message_codec rd wr :=
  intros Hok; hnf in Hok; unfold rd, wr;
  repeat match goal with H : _ ∧ _ |- _ => destruct H end;
  repeat (eapply decodes_bind; [solve [message_field]|]);
  eapply decodes_last; [solve [message_field]|reflexivity].

Definition hello_request_ok (m : hello_request) : Prop :=
  domain_ok (hq_domain m) ∧ id_ok (hq_site m) ∧ incarnation_wf (hq_incarnation m) ∧ id_ok (hq_publisher m)
  ∧ in_u 64 (hq_observed_epoch m) ∧ schema_wf (hq_schema m) ∧ in_u 64 (hq_resume_from m).
#[export] Instance hello_request_on_wire : OnWire hello_request := {| on_wire m :=
  HelloRequest (hq_domain m) (hq_site m) (hq_incarnation m) (hq_publisher m) (hq_observed_epoch m) (hq_schema m) (hq_resume_from m) |}.
Lemma decodes_hello_request m : hello_request_ok m → decodes read_hello_request (write_hello_request m) (on_wire m).
Proof. message_codec read_hello_request write_hello_request. Qed.
#[export] Instance hello_request_message : Message hello_request := {|
  message_type_of := MessageType.HELLO_REQUEST; write_message := write_hello_request; read_message := read_hello_request;
  message_ok := hello_request_ok; message_known := eq_refl; decodes_message := decodes_hello_request |}.

Definition hello_response_ok (m : hello_response) : Prop :=
  id_ok (hr_site m) ∧ in_u 64 (hr_epoch m) ∧ incarnation_wf (hr_controller m)
  ∧ in_u 64 (hr_assigned_sequence m) ∧ in_u 64 (hr_current_generation m) ∧ factors_ok (hr_factors m).
#[export] Instance hello_response_on_wire : OnWire hello_response := {| on_wire m :=
  HelloResponse (hr_status m) (hr_site m) (hr_epoch m) (hr_controller m) (hr_assigned_sequence m) (hr_current_generation m) (on_wire (hr_factors m)) |}.
Lemma decodes_hello_response m : hello_response_ok m → decodes read_hello_response (write_hello_response m) (on_wire m).
Proof. message_codec read_hello_response write_hello_response. Qed.
#[export] Instance hello_response_message : Message hello_response := {|
  message_type_of := MessageType.HELLO_RESPONSE; write_message := write_hello_response; read_message := read_hello_response;
  message_ok := hello_response_ok; message_known := eq_refl; decodes_message := decodes_hello_response |}.

Definition publish_response_ok (m : publish_response) : Prop :=
  id_ok (pp_site m) ∧ in_u 64 (pp_epoch m) ∧ in_u 64 (pp_site_generation m)
  ∧ in_u 64 (pp_acceptance_sequence m) ∧ factors_ok (pp_factors m).
#[export] Instance publish_response_on_wire : OnWire publish_response := {| on_wire m :=
  PublishResponse (pp_status m) (pp_site m) (pp_epoch m) (pp_site_generation m) (pp_acceptance_sequence m) (pp_recomposed m) (on_wire (pp_factors m)) |}.
Lemma decodes_publish_response m : publish_response_ok m → decodes read_publish_response (write_publish_response m) (on_wire m).
Proof. message_codec read_publish_response write_publish_response. Qed.
#[export] Instance publish_response_message : Message publish_response := {|
  message_type_of := MessageType.PUBLISH_RESPONSE; write_message := write_publish_response; read_message := read_publish_response;
  message_ok := publish_response_ok; message_known := eq_refl; decodes_message := decodes_publish_response |}.

Definition retire_request_ok (m : retire_request) : Prop :=
  domain_ok (rq_domain m) ∧ in_u 64 (rq_generation m) ∧ incarnation_wf (rq_incarnation m)
  ∧ text_ok (rq_reason m).
#[export] Instance retire_request_on_wire : OnWire retire_request := {| on_wire m :=
  RetireRequest (rq_domain m) (rq_generation m) (rq_incarnation m) (rq_reason m) |}.
Lemma decodes_retire_request m : retire_request_ok m → decodes read_retire_request (write_retire_request m) (on_wire m).
Proof. message_codec read_retire_request write_retire_request. Qed.
#[export] Instance retire_request_message : Message retire_request := {|
  message_type_of := MessageType.RETIRE_REQUEST; write_message := write_retire_request; read_message := read_retire_request;
  message_ok := retire_request_ok; message_known := eq_refl; decodes_message := decodes_retire_request |}.

Definition retire_response_ok (m : retire_response) : Prop :=
  id_ok (rp_site m) ∧ in_u 64 (rp_epoch m) ∧ in_u 64 (rp_acceptance_sequence m) ∧ factors_ok (rp_factors m).
#[export] Instance retire_response_on_wire : OnWire retire_response := {| on_wire m :=
  RetireResponse (rp_status m) (rp_site m) (rp_epoch m) (rp_acceptance_sequence m) (on_wire (rp_factors m)) |}.
Lemma decodes_retire_response m : retire_response_ok m → decodes read_retire_response (write_retire_response m) (on_wire m).
Proof. message_codec read_retire_response write_retire_response. Qed.
#[export] Instance retire_response_message : Message retire_response := {|
  message_type_of := MessageType.RETIRE_RESPONSE; write_message := write_retire_response; read_message := read_retire_response;
  message_ok := retire_response_ok; message_known := eq_refl; decodes_message := decodes_retire_response |}.

Definition fetch_site_request_ok (m : fetch_site_request) : Prop :=
  id_ok (fq_site m) ∧ in_u 64 (fq_sequence m).
#[export] Instance fetch_site_request_on_wire : OnWire fetch_site_request := {| on_wire m :=
  FetchSiteRequest (fq_site m) (fq_sequence m) (fq_include_state m) |}.
Lemma decodes_fetch_site_request m : fetch_site_request_ok m → decodes read_fetch_site_request (write_fetch_site_request m) (on_wire m).
Proof. message_codec read_fetch_site_request write_fetch_site_request. Qed.
#[export] Instance fetch_site_request_message : Message fetch_site_request := {|
  message_type_of := MessageType.FETCH_SITE_REQUEST; write_message := write_fetch_site_request; read_message := read_fetch_site_request;
  message_ok := fetch_site_request_ok; message_known := eq_refl; decodes_message := decodes_fetch_site_request |}.

Definition heartbeat_response_ok (m : heartbeat_response) : Prop :=
  in_u 64 (bp_epoch m) ∧ in_u 64 (bp_site_generation m) ∧ in_u 64 (bp_site_sequence m)
  ∧ list_ok kMaxMemberDomains domain_ok (bp_invalidated m) ∧ factors_ok (bp_factors m).
#[export] Instance heartbeat_response_on_wire : OnWire heartbeat_response := {| on_wire m :=
  HeartbeatResponse (bp_status m) (bp_epoch m) (bp_site_generation m) (bp_site_sequence m) (bp_invalidated m) (on_wire (bp_factors m)) |}.
Lemma decodes_heartbeat_response m : heartbeat_response_ok m → decodes read_heartbeat_response (write_heartbeat_response m) (on_wire m).
Proof. message_codec read_heartbeat_response write_heartbeat_response. Qed.
#[export] Instance heartbeat_response_message : Message heartbeat_response := {|
  message_type_of := MessageType.HEARTBEAT_RESPONSE; write_message := write_heartbeat_response; read_message := read_heartbeat_response;
  message_ok := heartbeat_response_ok; message_known := eq_refl; decodes_message := decodes_heartbeat_response |}.

Definition invalidate_notice_ok (m : invalidate_notice) : Prop :=
  id_ok (iv_site m) ∧ in_u 64 (iv_epoch m) ∧ source_set_ok (iv_sources m) ∧ text_ok (iv_reason m).
#[export] Instance invalidate_notice_on_wire : OnWire invalidate_notice := {| on_wire m :=
  InvalidateNotice (iv_site m) (iv_epoch m) (on_wire (iv_sources m)) (iv_reason m) |}.
Lemma decodes_invalidate_notice m : invalidate_notice_ok m → decodes read_invalidate_notice (write_invalidate_notice m) (on_wire m).
Proof. message_codec read_invalidate_notice write_invalidate_notice. Qed.
#[export] Instance invalidate_notice_message : Message invalidate_notice := {|
  message_type_of := MessageType.INVALIDATE_NOTICE; write_message := write_invalidate_notice; read_message := read_invalidate_notice;
  message_ok := invalidate_notice_ok; message_known := eq_refl; decodes_message := decodes_invalidate_notice |}.

Definition revoke_notice_ok (m : revoke_notice) : Prop :=
  id_ok (rn_site m) ∧ in_u 64 (rn_epoch m) ∧ domain_ok (rn_domain m) ∧ text_ok (rn_reason m).
#[export] Instance revoke_notice_on_wire : OnWire revoke_notice := {| on_wire m :=
  RevokeNotice (rn_site m) (rn_epoch m) (rn_domain m) (rn_reason m) |}.
Lemma decodes_revoke_notice m : revoke_notice_ok m → decodes read_revoke_notice (write_revoke_notice m) (on_wire m).
Proof. message_codec read_revoke_notice write_revoke_notice. Qed.
#[export] Instance revoke_notice_message : Message revoke_notice := {|
  message_type_of := MessageType.REVOKE_NOTICE; write_message := write_revoke_notice; read_message := read_revoke_notice;
  message_ok := revoke_notice_ok; message_known := eq_refl; decodes_message := decodes_revoke_notice |}.

Definition error_response_ok (m : error_response) : Prop :=
  text_ok (er_detail m) ∧ factors_ok (er_factors m).
#[export] Instance error_response_on_wire : OnWire error_response := {| on_wire m :=
  ErrorResponse (er_status m) (er_detail m) (on_wire (er_factors m)) |}.
Lemma decodes_error_response m : error_response_ok m → decodes read_error_response (write_error_response m) (on_wire m).
Proof. message_codec read_error_response write_error_response. Qed.
#[export] Instance error_response_message : Message error_response := {|
  message_type_of := MessageType.ERROR_RESPONSE; write_message := write_error_response; read_message := read_error_response;
  message_ok := error_response_ok; message_known := eq_refl; decodes_message := decodes_error_response |}.

Definition shutdown_request_ok (m : shutdown_request) : Prop :=
  id_ok (sq_site m) ∧ incarnation_wf (sq_controller m) ∧ text_ok (sq_reason m).
#[export] Instance shutdown_request_on_wire : OnWire shutdown_request := {| on_wire m :=
  ShutdownRequest (sq_site m) (sq_controller m) (sq_reason m) |}.
Lemma decodes_shutdown_request m : shutdown_request_ok m → decodes read_shutdown_request (write_shutdown_request m) (on_wire m).
Proof. message_codec read_shutdown_request write_shutdown_request. Qed.
#[export] Instance shutdown_request_message : Message shutdown_request := {|
  message_type_of := MessageType.SHUTDOWN_REQUEST; write_message := write_shutdown_request; read_message := read_shutdown_request;
  message_ok := shutdown_request_ok; message_known := eq_refl; decodes_message := decodes_shutdown_request |}.

Definition shutdown_response_ok (m : shutdown_response) : Prop :=
  factors_ok (sp_factors m).
#[export] Instance shutdown_response_on_wire : OnWire shutdown_response := {| on_wire m :=
  ShutdownResponse (sp_status m) (on_wire (sp_factors m)) |}.
Lemma decodes_shutdown_response m : shutdown_response_ok m → decodes read_shutdown_response (write_shutdown_response m) (on_wire m).
Proof. message_codec read_shutdown_response write_shutdown_response. Qed.
#[export] Instance shutdown_response_message : Message shutdown_response := {|
  message_type_of := MessageType.SHUTDOWN_RESPONSE; write_message := write_shutdown_response; read_message := read_shutdown_response;
  message_ok := shutdown_response_ok; message_known := eq_refl; decodes_message := decodes_shutdown_response |}.

Definition ping_message_ok (m : ping_message) : Prop :=
  in_u 64 (ping_nonce m).
#[export] Instance ping_message_on_wire : OnWire ping_message := {| on_wire m :=
  PingMessage (ping_nonce m) |}.
Lemma decodes_ping_message m : ping_message_ok m → decodes read_ping_message (write_ping_message m) (on_wire m).
Proof. message_codec read_ping_message write_ping_message. Qed.
#[export] Instance ping_message_message : Message ping_message := {|
  message_type_of := MessageType.PING; write_message := write_ping_message; read_message := read_ping_message;
  message_ok := ping_message_ok; message_known := eq_refl; decodes_message := decodes_ping_message |}.

(** A publication carries a whole declaration, which comes back with a recomputed digest. *)
Definition publish_request_ok (m : publish_request) : Prop :=
  decl_ok (pq_declaration m) ∧ in_u 64 (pa_sequence (pq_attempt m)) ∧ in_u 32 (pa_attempt (pq_attempt m)).
#[export] Instance publish_request_on_wire : OnWire publish_request := {| on_wire m :=
  PublishRequest (decl_on_wire (pq_declaration m)) (pq_attempt m) |}.
Lemma decodes_publish_request m :
  publish_request_ok m → decodes read_publish_request (write_publish_request m) (on_wire m).
Proof.
  destruct m as [d [sequence attempt]]. intros (Hd & ? & ?). unfold read_publish_request, write_publish_request.
  eapply decodes_bind; [by apply decodes_declaration|]. eapply decodes_bind; [by apply decodes_u64|].
  eapply decodes_last; [by apply decodes_u32|reflexivity].
Qed.
#[export] Instance publish_request_message : Message publish_request := {|
  message_type_of := MessageType.PUBLISH_REQUEST; write_message := write_publish_request;
  read_message := read_publish_request; message_ok := publish_request_ok; message_known := eq_refl; decodes_message := decodes_publish_request |}.

Definition fetch_site_response_ok (m : fetch_site_response) : Prop :=
  factors_ok (fp_factors m) ∧ (if fp_has_snapshot m then ∃ s, fp_snapshot m = Some s ∧ snapshot_ok s else True).
#[export] Instance fetch_site_response_on_wire : OnWire fetch_site_response := {| on_wire m :=
  FetchSiteResponse (fp_status m) (fp_has_snapshot m)
    (if fp_has_snapshot m then on_wire <$> fp_snapshot m else None) (on_wire (fp_factors m)) |}.
Lemma decodes_fetch_site_response m :
  fetch_site_response_ok m → decodes read_fetch_site_response (write_fetch_site_response m) (on_wire m).
Proof.
  destruct m as [st has s f]. intros [Hf Hs]. cbn [fp_factors fp_has_snapshot fp_snapshot] in *.
  unfold read_fetch_site_response, write_fetch_site_response. cbn [fp_factors fp_has_snapshot fp_snapshot fp_status].
  eapply decodes_bind; [solve [message_field]|]. eapply decodes_bind; [apply decodes_flag|].
  destruct has.
  - destruct Hs as (x & -> & Hx). eapply decodes_bind; [by apply decodes_map, decodes_snapshot|].
    eapply decodes_last; [solve [message_field]|reflexivity].
  - eapply decodes_bind; [apply decodes_ret|]. eapply decodes_last; [solve [message_field]|reflexivity].
Qed.
#[export] Instance fetch_site_response_message : Message fetch_site_response := {|
  message_type_of := MessageType.FETCH_SITE_RESPONSE; write_message := write_fetch_site_response;
  read_message := read_fetch_site_response; message_ok := fetch_site_response_ok; message_known := eq_refl;
  decodes_message := decodes_fetch_site_response |}.

(** The acceptance sequence the caller last observed does not cross the wire. *)
Definition heartbeat_request_ok (m : heartbeat_request) : Prop :=
  domain_ok (bq_domain m) ∧ id_ok (bq_site m) ∧ incarnation_wf (bq_incarnation m) ∧ in_u 64 (bq_observed_epoch m).
#[export] Instance heartbeat_request_on_wire : OnWire heartbeat_request := {| on_wire m :=
  HeartbeatRequest (bq_domain m) (bq_site m) (bq_incarnation m) (bq_observed_epoch m) 0 |}.
Lemma decodes_heartbeat_request m :
  heartbeat_request_ok m → decodes read_heartbeat_request (write_heartbeat_request m) (on_wire m).
Proof. message_codec read_heartbeat_request write_heartbeat_request. Qed.
#[export] Instance heartbeat_request_message : Message heartbeat_request := {|
  message_type_of := MessageType.HEARTBEAT_REQUEST; write_message := write_heartbeat_request;
  read_message := read_heartbeat_request; message_ok := heartbeat_request_ok; message_known := eq_refl;
  decodes_message := decodes_heartbeat_request |}.

(** * What the laws give for every message *)

Lemma decode_message_inv `{Message A} (payload : bytes) :
  decode_message payload
  = match read_message (A:=A) payload with
    | Ok (m, []) => Ok m | Ok (_, _) => Err Status.MALFORMED | Err s => Err s
    end.
Proof.
  unfold decode_message, mbind, result_bind, reader_bind, r_finish, mret, reader_ret.
  destruct (read_message payload) as [[m [|b rest]]|s]; reflexivity.
Qed.

Lemma decode_encode_message `{Message A} (m : A) : message_ok m →
  decode_message (encode_message m) = Ok (on_wire m)
  ∧ (∀ x, x ≠ [] → decode_message (A:=A) (encode_message m ++ x) = Err Status.MALFORMED)
  ∧ (∀ p q, encode_message m = p ++ q → q ≠ [] → decode_message (A:=A) p = Err Status.TRUNCATED).
Proof.
  intros Hm. destruct (decodes_message m Hm) as [Hr Ht]. unfold encode_message. split_and!.
  - rewrite decode_message_inv. specialize (Hr []). rewrite app_nil_r in Hr. by rewrite Hr.
  - intros x Hx. rewrite decode_message_inv, Hr. by destruct x.
  - intros p q Heq Hq. rewrite decode_message_inv. by rewrite (Ht p q Heq Hq).
Qed.

(** * Frames are exactly the images of [encode_frame] *)

Definition header_bytes (h : frame_header) : bytes :=
  put_u32 kFrameMagic ++ w_u16 kWireProtocolVersion ++ w_u16 (enum_code (fh_type h)) ++ put_u32 (fh_flags h)
  ++ put_u32 (fh_payload_bytes h) ++ fh_payload_digest h.
Definition header_wf (h : frame_header) : Prop :=
  fh_protocol_version h = kWireProtocolVersion ∧ known_message (fh_type h) = true ∧ in_u 32 (fh_flags h)
  ∧ 0 ≤ fh_payload_bytes h ≤ kMaxFrameBytes ∧ digest_wf (fh_payload_digest h).

Lemma get_u16_middle o (a : bytes) v c : length a = o → in_u 16 v → get_u16 (a ++ w_u16 v ++ c) o = v.
Proof.
  intros <- Hv. unfold get_u16. rewrite byte_at_app. replace (length a) with (length a + 0)%nat at 1 by lia.
  rewrite byte_at_app. unfold byte_at, w_u16, in_u in *. cbn [nth app]. rewrite !byte_at_to_byte, Z.shiftr_div_pow2 by lia.
  rewrite wrap_small by (unfold in_u; rewrite Z.shiftl_mul_pow2 by lia; Z.to_euclidean_division_equations; lia).
  rewrite lor_shiftl_add by (Z.to_euclidean_division_equations; lia).
  Z.to_euclidean_division_equations; lia.
Qed.

Lemma header_bytes_length h : digest_wf (fh_payload_digest h) → length (header_bytes h) = 48%nat.
Proof. intros Hd. unfold header_bytes. rewrite !length_app, Hd. reflexivity. Qed.

Lemma decode_header_bytes h : header_wf h → decode_frame_header (header_bytes h) = Ok h.
Proof.
  destruct h as [v ty fl n d]. intros (Hv & Hty & Hfl & Hn & Hd). cbn [fh_protocol_version fh_type fh_flags fh_payload_bytes fh_payload_digest] in *.
  unfold decode_frame_header. assert (zlen (header_bytes (FrameHeader v ty fl n d)) = 48) as ->
    by (unfold zlen; by rewrite header_bytes_length). cbn [Z.eqb kFrameHeaderBytes Pos.eqb negb].
  set (data := header_bytes _).
  assert (read_u32_at data 0 = kFrameMagic) as -> by (by apply read_put_u32).
  assert (get_u16 data 4 = kWireProtocolVersion) as -> by (by apply (get_u16_middle 4 (put_u32 kFrameMagic))).
  assert (get_u16 data 6 = enum_code ty) as ->.
  { apply (get_u16_middle 6 (put_u32 kFrameMagic ++ w_u16 kWireProtocolVersion)); [done|]. by destruct ty. }
  assert (read_u32_at data 8 = fl) as ->.
  { by apply (read_u32_middle 8 (put_u32 kFrameMagic ++ w_u16 kWireProtocolVersion ++ w_u16 (enum_code ty))). }
  assert (read_u32_at data 12 = n) as ->.
  { apply (read_u32_middle 12 (put_u32 kFrameMagic ++ w_u16 kWireProtocolVersion ++ w_u16 (enum_code ty) ++ put_u32 fl));
      [done|]. unfold in_u, kMaxFrameBytes in *. lia. }
  assert (subspan 16 32 data = d) as ->.
  { apply (subspan_last 16 32 (put_u32 kFrameMagic ++ w_u16 kWireProtocolVersion ++ w_u16 (enum_code ty) ++ put_u32 fl ++ put_u32 n));
      done. }
  rewrite Z.eqb_refl, enum_of_code_code. cbn [negb refuse_if mbind result_bind].
  rewrite (proj2 (Z.ltb_ge kMaxFrameBytes n)) by lia. rewrite Hv.
  destruct ty; done.
Qed.

Lemma put_read_u32 (data : bytes) : (4 ≤ length data)%nat → put_u32 (read_u32_at data 0) = take 4 data.
Proof.
  destruct data as [|a [|b [|c [|d data]]]]; cbn [length]; try lia. intros _. unfold read_u32_at, byte_at. cbn [nth Nat.add take].
  pose proof (byte_val_range a). pose proof (byte_val_range b). pose proof (byte_val_range c). pose proof (byte_val_range d).
  rewrite (lor_shiftl_add _ _ 8) by lia. rewrite (lor_shiftl_add _ _ 16) by lia. rewrite (lor_shiftl_add _ _ 24) by lia.
  unfold put_u32.
  assert (∀ x k, 0 ≤ k → byte_val x = (byte_val a + byte_val b * 2 ^ 8 + byte_val c * 2 ^ 16 + byte_val d * 2 ^ 24) / 2 ^ k mod 256 →
    to_byte (Z.land (Z.shiftr (byte_val a + byte_val b * 2 ^ 8 + byte_val c * 2 ^ 16 + byte_val d * 2 ^ 24) k) 0xFF) = x) as Hx.
  { intros x k Hk Hx. rewrite <- (to_byte_val x), Hx. change 0xFF with (Z.ones 8).
    by rewrite Z.land_ones, Z.shiftr_div_pow2 by lia. }
  rewrite (Hx b 8), (Hx c 16), (Hx d 24) by (Z.to_euclidean_division_equations; lia).
  rewrite <- (Hx a 0) at 2 by (Z.to_euclidean_division_equations; lia). by rewrite Z.shiftr_0_r.
Qed.

Lemma put_get_u16 (data : bytes) : (2 ≤ length data)%nat → w_u16 (get_u16 data 0) = take 2 data.
Proof.
  destruct data as [|a [|b data]]; cbn [length]; try lia. intros _. unfold get_u16, byte_at. cbn [nth Nat.add take].
  pose proof (byte_val_range a). pose proof (byte_val_range b).
  rewrite wrap_small by (unfold in_u; rewrite Z.shiftl_mul_pow2 by lia; lia).
  rewrite (lor_shiftl_add _ _ 8) by lia. unfold w_u16. rewrite Z.shiftr_div_pow2 by lia. change 0xFF with (Z.ones 8).
  rewrite !Z.land_ones by lia. f_equal; [|f_equal].
  - rewrite <- (to_byte_val a) at 2. f_equal. Z.to_euclidean_division_equations; lia.
  - rewrite <- (to_byte_val b) at 2. f_equal. Z.to_euclidean_division_equations; lia.
Qed.

Lemma read_u32_drop (data : bytes) o : read_u32_at data o = read_u32_at (drop o data) 0.
Proof.
  unfold read_u32_at, byte_at. rewrite !nth_lookup, !lookup_drop. by rewrite !Nat.add_0_r.
Qed.
Lemma get_u16_drop (data : bytes) o : get_u16 data o = get_u16 (drop o data) 0.
Proof. unfold get_u16, byte_at. rewrite !nth_lookup, !lookup_drop. by rewrite !Nat.add_0_r. Qed.

Lemma refuse_if_Ok c s u : refuse_if c s = Ok u → c = false.
Proof. by destruct c. Qed.

Lemma take_drop_app n o m (data : bytes) : m = (o + n)%nat → take n (drop o data) ++ drop m data = drop o data.
Proof. intros ->. by rewrite <- drop_drop, take_drop. Qed.

Lemma decode_header_inv data h : decode_frame_header data = Ok h → data = header_bytes h ∧ header_wf h.
Proof.
  unfold decode_frame_header. intros (u1 & H1%refuse_if_Ok & H)%result_bind_Ok.
  apply result_bind_Ok in H as (u2 & H2%refuse_if_Ok & H). apply result_bind_Ok in H as (u3 & H3%refuse_if_Ok & H).
  apply result_bind_Ok in H as (u4 & H4%refuse_if_Ok & H). apply result_bind_Ok in H as (u5 & H5%refuse_if_Ok & [= <-]).
  apply negb_false_iff, Z.eqb_eq in H1, H2, H3. apply orb_false_iff in H4 as [H4 H4'%Z.ltb_ge].
  apply Z.eqb_neq in H4. apply Z.ltb_ge in H5.
  assert (length data = 48%nat) as Hlen by (unfold zlen, kFrameHeaderBytes in H1; lia).
  assert (0 ≤ get_u16 data 6) as Hty.
  { unfold get_u16. rewrite Z.lor_nonneg. unfold byte_at. split; [apply byte_val_range|]. apply wrap_range. lia. }
  destruct (enum_of_code (get_u16 data 6)) as [ty|] eqn:Hcode.
  2: { exfalso. unfold enum_of_code in Hcode. rewrite (proj2 (Z.leb_le _ _) Hty) in Hcode.
       apply lookup_ge_None in Hcode. simpl in Hcode. change (enum_code MessageType.PONG) with 17 in H4'. lia. }
  change (default MessageType.UNKNOWN (Some ty)) with ty. pose proof (enum_code_of_code _ _ Hcode) as Hec.
  split.
  - unfold header_bytes. cbn [fh_type fh_flags fh_payload_bytes fh_payload_digest]. rewrite Hec, <- H2, <- H3.
    rewrite (get_u16_drop data 4), (get_u16_drop data 6), (read_u32_drop data 8), (read_u32_drop data 12).
    rewrite !put_read_u32, !put_get_u16 by (rewrite ?length_drop; lia).
    unfold subspan. rewrite (take_ge (drop 16 data) 32) by (rewrite length_drop; lia).
    by rewrite (take_drop_app 4 12 16), (take_drop_app 4 8 12), (take_drop_app 2 6 8), (take_drop_app 2 4 6), take_drop by done.
  - unfold header_wf. cbn [fh_protocol_version fh_type fh_flags fh_payload_bytes fh_payload_digest].
    split_and!; [exact H3| | |apply read_u32_at_nonneg|exact H5|].
    + unfold known_message. rewrite bool_decide_false; [reflexivity|]. intros ->. change (enum_code MessageType.UNKNOWN) with 0 in Hec. lia.
    + rewrite read_u32_drop. pose proof (put_read_u32 (drop 8 data)) as Hp. unfold read_u32_at, byte_at, in_u.
      set (a := nth 0 _ _). set (b := nth (0 + 1) _ _). set (c := nth (0 + 2) _ _). set (d := nth (0 + 3) _ _).
      pose proof (byte_val_range a). pose proof (byte_val_range b). pose proof (byte_val_range c). pose proof (byte_val_range d).
      rewrite (lor_shiftl_add _ _ 8), (lor_shiftl_add _ _ 16), (lor_shiftl_add _ _ 24) by lia. lia.
    + unfold digest_wf, subspan. rewrite length_take, length_drop. lia.
Qed.

(** The bytes of a frame: its header, whose digest and length are those of the payload. *)
Lemma frame_fields_header ty payload flags : zlen payload ≤ kMaxFrameBytes →
  frame_fields ty payload flags
  = header_bytes (FrameHeader kWireProtocolVersion ty flags (zlen payload) (digest_bytes payload)).
Proof.
  intros Hp. unfold frame_fields, header_bytes. cbn [fh_type fh_flags fh_payload_bytes fh_payload_digest].
  rewrite wrap_small; [done|]. unfold in_u, kMaxFrameBytes in *. pose proof (zlen_nonneg payload). lia.
Qed.

Lemma read_exact_app ended (a b : bytes) n : zlen a = n → read_exact ended n (a ++ b) = Ok (a, b).
Proof.
  intros Ha. unfold read_exact. rewrite zlen_app. pose proof (zlen_nonneg b). rewrite (proj2 (Z.ltb_ge _ _)) by lia.
  unfold zlen in Ha. rewrite <- Ha, Nat2Z.id. by rewrite take_app_length, drop_app_length.
Qed.
Lemma read_exact_inv ended n s a b : 0 ≤ n → read_exact ended n s = Ok (a, b) → s = a ++ b ∧ zlen a = n.
Proof.
  intros Hn. unfold read_exact. destruct (Z.ltb_spec (zlen s) n); [done|]. intros [= <- <-]. rewrite take_drop.
  split; [done|]. unfold zlen in *. rewrite length_take. lia.
Qed.
Lemma read_exact_short ended n s : zlen s < n → read_exact ended n s = Err ended.
Proof. intros H. unfold read_exact. by rewrite (proj2 (Z.ltb_lt _ _)). Qed.

Lemma receive_encoded ended ty payload flags frame rest :
  in_u 32 flags → encode_frame ty payload flags = Ok frame →
  receive_frame ended (frame ++ rest) = Ok (ty, payload, rest).
Proof.
  intros Hfl. unfold encode_frame. destruct (known_message ty) eqn:Hty; [|done].
  destruct (Z.ltb_spec kMaxFrameBytes (zlen payload)); [done|]. cbn [negb]. intros Hf.
  assert (frame = frame_fields ty payload flags ++ payload) as -> by congruence. clear Hf.
  pose proof (zlen_nonneg payload). rewrite frame_fields_header by done.
  assert (header_wf (FrameHeader kWireProtocolVersion ty flags (zlen payload) (digest_bytes payload))) as Hwf
    by (split_and!; try done; apply digest_bytes_length).
  unfold receive_frame. rewrite <- app_assoc, read_exact_app by (unfold zlen; rewrite header_bytes_length; [done|apply Hwf]).
  cbn [mbind result_bind fst snd]. rewrite decode_header_bytes by exact Hwf. cbn [mbind result_bind fh_payload_bytes fh_type].
  assert (verify_payload (FrameHeader kWireProtocolVersion ty flags (zlen payload) (digest_bytes payload)) payload = Status.OK) as Hv.
  { unfold verify_payload. cbn [fh_payload_bytes fh_payload_digest]. by rewrite Z.eqb_refl, bool_decide_true. }
  destruct (Z.eqb_spec (zlen payload) 0) as [Hz|Hz].
  - assert (payload = []) as -> by (destruct payload; [done|rewrite zlen_cons in Hz; pose proof (zlen_nonneg payload); lia]).
    cbn [mret result_ret mbind result_bind fst snd app]. by rewrite Hv.
  - rewrite read_exact_app by done. cbn [mbind result_bind fst snd]. by rewrite Hv.
Qed.

Lemma receive_inv ended stream ty payload rest : receive_frame ended stream = Ok (ty, payload, rest) →
  ∃ flags frame, in_u 32 flags ∧ encode_frame ty payload flags = Ok frame ∧ stream = frame ++ rest.
Proof.
  unfold receive_frame. intros ([hb tail] & Hh & H)%result_bind_Ok. apply read_exact_inv in Hh as [-> Hhb]; [|done].
  cbn [fst snd] in H. apply result_bind_Ok in H as (h & Hd & H). apply decode_header_inv in Hd as [-> Hwf].
  destruct Hwf as (Hv & Hty & Hfl & Hn & Hdig). apply result_bind_Ok in H as ([body rest'] & Hb & H).
  assert (tail = body ++ rest' ∧ zlen body = fh_payload_bytes h) as [-> Hlen].
  { destruct (Z.eqb_spec (fh_payload_bytes h) 0) as [Hz|Hz]; [by injection Hb as <- <-|].
    apply (read_exact_inv ended); [lia|done]. }
  cbn [fst snd] in H. unfold verify_payload in H. rewrite Hlen, Z.eqb_refl in H. cbn [negb] in H.
  destruct (bool_decide_reflect (digest_bytes body = fh_payload_digest h)) as [He|He]; [|done].
  cbn [negb] in H. change (is_ok Status.OK) with true in H. cbn [negb] in H. injection H as <- <- <-.
  exists (fh_flags h), (header_bytes h ++ body). split; [done|]. split; [|by rewrite app_assoc].
  unfold encode_frame. rewrite Hty, Hlen, (proj2 (Z.ltb_ge _ _)) by lia. cbn [negb].
  rewrite frame_fields_header by lia. rewrite Hlen, He, <- Hv. by destruct h.
Qed.

Lemma receive_prefix ended ty payload flags frame p q :
  in_u 32 flags → encode_frame ty payload flags = Ok frame → frame = p ++ q → q ≠ [] → receive_frame ended p = Err ended.
Proof.
  intros Hfl. unfold encode_frame. destruct (known_message ty) eqn:Hty; [|done].
  destruct (Z.ltb_spec kMaxFrameBytes (zlen payload)); [done|]. cbn [negb]. intros Hf Heq Hq.
  assert (frame = frame_fields ty payload flags ++ payload) as Hframe by congruence. clear Hf. pose proof (zlen_nonneg payload).
  rewrite frame_fields_header in Hframe by done. rewrite Hframe in Heq. clear Hframe.
  set (h := FrameHeader _ _ _ _ _) in Heq.
  assert (header_wf h) as Hwf by (split_and!; try done; apply digest_bytes_length).
  assert (zlen (header_bytes h) = kFrameHeaderBytes) as Hlen by (unfold zlen; rewrite header_bytes_length; [done|apply Hwf]).
  apply app_eq_app in Heq as (l & [[Hl ->]|[-> Hl]]).
  - destruct (decide (l = [])) as [->|Hne].
    + rewrite app_nil_r in Hl. subst p. unfold receive_frame. rewrite <- (app_nil_r (header_bytes h)), read_exact_app by done.
      cbn [mbind result_bind fst snd]. rewrite decode_header_bytes by exact Hwf. cbn [mbind result_bind]. subst h. cbn [fh_payload_bytes] in *.
      destruct payload as [|b payload]; [done|]. rewrite zlen_cons in *. pose proof (zlen_nonneg payload).
      rewrite (proj2 (Z.eqb_neq _ _)) by lia. rewrite read_exact_short; [done|]. unfold zlen at 1. simpl. lia.
    + unfold receive_frame. rewrite read_exact_short; [done|]. rewrite <- Hlen, Hl, zlen_app.
      destruct l; [done|]. rewrite zlen_cons. pose proof (zlen_nonneg l). lia.
  - unfold receive_frame. rewrite read_exact_app by done. cbn [mbind result_bind fst snd].
    rewrite decode_header_bytes by exact Hwf. cbn [mbind result_bind]. subst h. cbn [fh_payload_bytes] in *.
    assert (zlen l < zlen payload) by (rewrite Hl, zlen_app; destruct q; [done|]; rewrite zlen_cons; pose proof (zlen_nonneg q); lia).
    pose proof (zlen_nonneg l). rewrite (proj2 (Z.eqb_neq _ _)) by lia. by rewrite read_exact_short by lia.
Qed.

(** C27: framing is exact: a receiver takes a message type and a payload off a byte stream
    exactly when the stream starts with the frame [encode_frame] makes of them (for some
    flags), and it leaves the stream behind that frame; so it never accepts a payload above
    the bound, of an unknown type, or one whose bytes are not those that were sent. A frame
    cut short is never mistaken for another: the receiver reports that the stream ended. *)
Theorem frames_exact (ended : status) (stream : bytes) (ty : message_type) (payload rest : bytes) :
  (receive_frame ended stream = Ok (ty, payload, rest)
   ↔ ∃ flags frame, in_u 32 flags ∧ encode_frame ty payload flags = Ok frame ∧ stream = frame ++ rest)
  ∧ (∀ flags frame p q, in_u 32 flags → encode_frame ty payload flags = Ok frame → frame = p ++ q → q ≠ [] →
       receive_frame ended p = Err ended)
  ∧ (receive_frame ended stream = Ok (ty, payload, rest) →
       zlen payload ≤ kMaxFrameBytes ∧ ty ≠ MessageType.UNKNOWN).
Proof.
  split_and!.
  - split; [apply receive_inv|]. intros (flags & frame & Hfl & Hf & ->). by eapply receive_encoded.
  - intros flags frame p q. apply receive_prefix.
  - intros (flags & frame & _ & Hf & _)%receive_inv. unfold encode_frame in Hf.
    destruct (known_message ty) eqn:Hty; [|done]. destruct (Z.ltb_spec kMaxFrameBytes (zlen payload)); [done|].
    split; [lia|]. by intros ->.
Qed.

Lemma frames_exact_witness :
  match encode_frame MessageType.PING [x01; x02] 0 with
  | Ok frame => receive_frame Status.STOPPED (frame ++ [xff]) = Ok (MessageType.PING, [x01; x02], [xff])
  | Err _ => False
  end.
Proof.
  pose proof (frames_exact Status.STOPPED) as H. destruct (encode_frame MessageType.PING [x01; x02] 0) as [frame|s] eqn:E.
  - apply (H (frame ++ [xff]) MessageType.PING [x01; x02] [xff]). exists 0, frame.
    split; [by vm_compute|]. split; [exact E|reflexivity].
  - vm_compute in E. discriminate E.
Defined.

(** C29: a message is delivered or refused by its sender: for every type of message, when what
    its writer produces is not longer than the largest payload it is framed, a receiver takes
    exactly those bytes off the stream, under the message's type, and decoding them returns the
    message as the format keeps it; a longer one, such as a large site, gets no frame but
    LIMIT_EXCEEDED. Bytes behind a message are refused as MALFORMED and a message cut short as
    TRUNCATED. *)
Theorem message_delivered {A} `{Message A} (m : A) (ended : status) (rest : bytes) :
  message_ok m →
  let payload := encode_message m in
  (if kMaxFrameBytes <? zlen payload
   then encode_frame (message_type_of A) payload 0 = Err Status.LIMIT_EXCEEDED
   else ∃ frame, encode_frame (message_type_of A) payload 0 = Ok frame
          ∧ receive_frame ended (frame ++ rest) = Ok (message_type_of A, payload, rest))
  ∧ decode_message payload = Ok (on_wire m)
  ∧ (∀ x, x ≠ [] → decode_message (A:=A) (payload ++ x) = Err Status.MALFORMED)
  ∧ (∀ p q, payload = p ++ q → q ≠ [] → decode_message (A:=A) p = Err Status.TRUNCATED).
Proof.
  intros Hm payload. split; [|by apply decode_encode_message].
  destruct (encode_frame (message_type_of A) payload 0) as [frame|s] eqn:E; pose proof E as E';
    unfold encode_frame in E'; rewrite message_known in E'; cbn [negb] in E'; destruct (kMaxFrameBytes <? zlen payload).
  - discriminate E'.
  - exists frame. split; [done|]. by eapply receive_encoded.
  - by injection E' as <-.
  - discriminate E'.
Qed.

Definition sample_hello : hello_request :=
  HelloRequest (Sample.domain MemberDomainKind.RACK "rack-1") "site-a" (Incarnation 0 "boot-1") "member-1" 1 supported_schema 0.
Lemma message_delivered_witness :
  ∃ frame, encode_frame MessageType.HELLO_REQUEST (encode_message sample_hello) 0 = Ok frame
    ∧ receive_frame Status.STOPPED (frame ++ [x01; x02]) = Ok (MessageType.HELLO_REQUEST, encode_message sample_hello, [x01; x02])
    ∧ decode_message (encode_message sample_hello) = Ok sample_hello.
Proof.
  destruct (message_delivered sample_hello Status.STOPPED [x01; x02]) as (Hf & Hd & _).
  - split; [right; reflexivity|]. vm_compute. repeat split; congruence.
  - assert ((kMaxFrameBytes <? zlen (encode_message sample_hello)) = false) as E by (vm_compute; reflexivity).
    rewrite E in Hf. destruct Hf as (frame & He & Hr). exists frame. split; [exact He|]. split; [exact Hr|exact Hd].
Defined.

(** The acceptance sequence of a heartbeat is lost: two requests that differ only in it are
    the same bytes, and the receiver always reads zero, which asks for everything. *)
Lemma heartbeat_since_lost domain site inc ep since :
  encode_message (HeartbeatRequest domain site inc ep since) = encode_message (HeartbeatRequest domain site inc ep 0).
Proof. reflexivity. Qed.

(** The four bytes in front of a frame are B, A, F, S. *)
Lemma magic_bytes ty payload flags : take 4 (frame_fields ty payload flags) = string_bytes "BAFS".
Proof. reflexivity. Qed.
