(* ===== verification/Samples.v ===== *)
(** Concrete compositions, for the witnesses of the theorems on composition: a two-member site
    with a gateway and a rack under maintenance. *)

From S2P Require Import Prelude Ordering Enums Sha256 Identity Canonical Evidence Capacity Claims Codec Canonicalize Forest Site.

Module Scenario.

Definition declared (domain : string) (racks : list rack_claim) (gateways : list gateway_claim)
    (pools : list capacity_contribution) (zones : list maintenance_zone) (obligations : list protected_obligation)
    : declaration :=
  let d := Sample.declaration in
  set_lists (MemberDomainDeclaration (MemberDomainKey MemberDomainKind.RACK domain) (decl_site d)
    (decl_generation d) (decl_schema d) (decl_digest d) (decl_observed_epoch d) [] [] [] [] [] [] [] [] []
    (decl_evidence d)) [] [] racks [] gateways pools [] zones obligations.

(** A sealed declaration as it is published. *)
Definition published (d : declaration) : publication_record :=
  let s := (seal d).2 in
  MemberPublicationRecord (decl_domain s) (decl_generation s) (decl_digest s) supported_schema (decl_site s)
    1 (Incarnation 1 "boot-1") "member-1" (PublishAttempt 1 1) 1500 1 true s.

Definition expected (domain : string) : expected_member :=
  ExpectedMember (MemberDomainKey MemberDomainKind.RACK domain) false 0 zero_digest true.

Definition input (domains : list string) (pubs : list publication_record) : composition_input :=
  CompositionInput "site-a" 1 1 (Incarnation 1 "boot-1") 2000
    (SiteExpectation "site-a" supported_schema 0 (expected <$> domains) false) pubs [] [] [].

Definition zone (id : string) (s : maintenance_state) (keys : list resource_key) : maintenance_zone :=
  MaintenanceZone id s 0 0 [] keys 1 zero_digest Sample.observed.
Definition obligation (id : string) (k : obligation_kind) (required : Z) : protected_obligation :=
  ProtectedObligation id k None None required true 1 zero_digest Sample.observed.

(** Two members; the second puts the first one's second rack under maintenance. *)
Definition gateway : gateway_claim := Sample.gateway "gw-1" 1000 ConnectivityState.UP.
Definition first_member : declaration :=
  declared "rack-1" [Sample.rack "rack-1" 400; Sample.rack "rack-2" 100] [gateway] [] [] [].
Definition second_member (s : maintenance_state) : declaration :=
  declared "rack-2" [] [] [] [zone "zone-1" s [ResourceKey ResourceKind.RACK "rack-2"]] [].
Definition maintained (s : maintenance_state) : composition_input :=
  input ["rack-1"; "rack-2"] [published (first_member); published (second_member s)].

End Scenario.
