(* ===== verification/Admit.v ===== *)
(** Admission (compose.cpp, [Composer::prepare] and [Composer::admit_members]).

    The inputs are checked, one publication per domain is chosen, and every chosen publication
    is judged: its lifecycle says whether its declaration is authoritative. The loop's
    [all_sources_] is collected and never read, so it is left out. *)

From stdpp Require Import sorting.
From S2P Require Import Prelude Ordering Enums Sha256 Identity Canonical Evidence Capacity Claims Canonicalize Forest Site.

Record admission := Admission {
  ad_domain : member_domain_key;
  ad_lifecycle : member_lifecycle;
  ad_status : status;
  ad_evidence_state : evidence_state;
  ad_expected : bool;
  ad_expectation_pinned : bool;
  ad_source : source_ref;
  ad_factors : factors;
  ad_record : publication_record;
}.

Definition ad_authoritative (a : admission) : bool := bool_decide (ad_lifecycle a = MemberLifecycle.CURRENT).

Definition evidence_to_status (s : evidence_state) : status :=
  match s with
  | EvidenceState.FRESH => Status.OK
  | EvidenceState.STALE => Status.EVIDENCE_STALE
  | EvidenceState.FUTURE => Status.EVIDENCE_FUTURE
  | EvidenceState.SYNTHETIC_ONLY => Status.EVIDENCE_SYNTHETIC_ONLY
  | EvidenceState.RECONSTRUCTED_NEEDS_REVALIDATION => Status.EVIDENCE_STALE
  | EvidenceState.INVALID => Status.INVALID
  | _ => Status.EVIDENCE_MISSING
  end.

(** * Preparation: the expectation in canonical form, or the refusal *)

Definition expectation_for (i : composition_input) : site_expectation :=
  let e := in_expectation i in
  if bool_decide (se_site e = ""%string)
  then SiteExpectation (in_site i) (se_schema e) (se_minimum_epoch e) (se_members e) (se_reject_unexpected e)
  else e.

Definition prepare (i : composition_input) : result status site_expectation :=
  if negb (is_valid_identifier (in_site i)) then Err Status.INVALID
  else if negb (is_set (in_epoch i)) || negb (is_set (in_generation i)) then Err Status.INVALID
  else if negb (incarnation_valid (in_incarnation i)) then Err Status.INVALID
  else if in_now_ms i <=? 0 then Err Status.INVALID
  else if kMaxMemberDomains <? zlen (in_publications i) then Err Status.LIMIT_EXCEEDED
  else if kMaxMemberDomains <? zlen (in_retirements i) then Err Status.LIMIT_EXCEEDED
  else if kMaxMemberDomains <? zlen (in_revoked i) then Err Status.LIMIT_EXCEEDED
  else
    let e := expectation_for i in
    if negb (bool_decide (se_site e = in_site i)) then Err Status.SITE_MISMATCH
    else
      let '(canonical, e') := expectation_canonicalize e in
      if negb (is_ok canonical) then Err canonical else Ok e'.

(** * One publication per domain *)

Definition attempt_fields (a : publish_attempt) : Z * Z := (pa_sequence a, pa_attempt a).

(** What the choice compares: generation, then attempt, then acceptance sequence. *)
Definition replaces (record incumbent : publication_record) : bool :=
  let g := pub_generation record in let g' := pub_generation incumbent in
  let a := attempt_fields (pub_attempt record) in let a' := attempt_fields (pub_attempt incumbent) in
  (g' <? g)
  || ((g =? g') && ltb a' a)
  || ((g =? g') && bool_decide (a = a')
      && (pub_acceptance_sequence incumbent <? pub_acceptance_sequence record)).

Definition usable (record : publication_record) : bool :=
  mdk_valid (pub_domain record) && is_set (pub_generation record) && negb (digest_is_zero (pub_digest record)).

Definition consider (best : omap_t member_domain_key publication_record) (record : publication_record)
    : omap_t member_domain_key publication_record :=
  if negb (usable record) then best
  else
    match om_find (pub_domain record) best with
    | None => om_set (pub_domain record) record best
    | Some incumbent =>
        if replaces record incumbent then om_set (pub_domain record) record best else best
    end.

Definition best_records (publications : list publication_record)
    : omap_t member_domain_key publication_record := foldl consider [] publications.

(** * The verdict on one publication *)

Definition schema_to_string (s : schema_version) : string := (dec (major s) +:+ "." +:+ dec (minor s))%string.

Definition verdict : Type := member_lifecycle * status * factors.
Definition undecided : verdict := (MemberLifecycle.UNKNOWN, Status.UNKNOWN, no_factors).
Definition verdict_lifecycle (v : verdict) : member_lifecycle := v.1.1.

(** The declaration verifies: is it valid, and what the expectation pins? *)
Definition judge_expected (e : site_expectation) (domain : member_domain_key) (record : publication_record)
    : verdict :=
  let f := no_factors in
  let declared := validate (pub_declaration record) in
  if negb (is_ok declared) then
    (MemberLifecycle.INCOMPATIBLE, declared,
     factors_add_pair "declaration_invalid" (to_string declared) f)
  else
    match expectation_find e domain with
    | Some expected =>
        if em_pinned expected then
          if negb (em_generation expected =? pub_generation record) then
            (MemberLifecycle.CONFLICTING, Status.GENERATION_MISMATCH,
             factors_add_pair "actual_generation" (dec (pub_generation record))
               (factors_add_pair "expected_generation" (dec (em_generation expected)) f))
          else if negb (bool_decide (em_digest expected = pub_digest record)) then
            (MemberLifecycle.CONFLICTING, Status.DIGEST_MISMATCH_DECLARATION,
             factors_add_pair "actual_digest" (short_hex (pub_digest record))
               (factors_add_pair "expected_digest" (short_hex (em_digest expected)) f))
          else undecided
        else undecided
    | None =>
        if se_reject_unexpected e then
          (MemberLifecycle.INCOMPATIBLE, Status.MEMBERSHIP_UNEXPECTED,
           factors_add_pair "unexpected_domain" (mdk_to_string domain) f)
        else undecided
    end.

(** Recovered from disk: stale until the domain reports again. *)
Definition judge_reconstructed (reconstructed : bool) (v : verdict) : verdict :=
  if bool_decide (verdict_lifecycle v = MemberLifecycle.UNKNOWN) && reconstructed then
    (MemberLifecycle.STALE, Status.EVIDENCE_STALE,
     factors_add_pair "source" "recovered" (factors_add_pair "provenance" "RECONSTRUCTED" v.2))
  else v.

Definition judge_evidence (s : evidence_state) (v : verdict) : verdict :=
  if bool_decide (verdict_lifecycle v = MemberLifecycle.UNKNOWN) then
    match s with
    | EvidenceState.FRESH => (MemberLifecycle.CURRENT, Status.CURRENT, v.2)
    | EvidenceState.SYNTHETIC_ONLY =>
        (MemberLifecycle.REPORTED, Status.EVIDENCE_SYNTHETIC_ONLY,
         factors_add_pair "provenance" "SYNTHETIC" v.2)
    | EvidenceState.RECONSTRUCTED_NEEDS_REVALIDATION =>
        (MemberLifecycle.STALE, Status.EVIDENCE_STALE, factors_add_pair "provenance" "RECONSTRUCTED" v.2)
    | _ =>
        (MemberLifecycle.STALE, evidence_to_status s, factors_add_pair "evidence" (to_string s) v.2)
    end
  else v.

Definition note_unexpected (e : site_expectation) (domain : member_domain_key) (v : verdict) : verdict :=
  if negb (bool_decide (is_Some (expectation_find e domain))) && negb (se_reject_unexpected e)
     && bool_decide (verdict_lifecycle v = MemberLifecycle.CURRENT)
  then (v.1, factors_add_pair "unexpected_domain" (mdk_to_string domain) v.2)
  else v.

Definition evidence_of (now_ms : Z) (record : publication_record) : evidence_state :=
  if pub_has_declaration record then evaluate (decl_evidence (pub_declaration record)) now_ms
  else EvidenceState.UNKNOWN.

Definition is_revoked (i : composition_input) (domain : member_domain_key) : bool :=
  bool_decide (domain ∈ in_revoked i).
Definition is_retired (i : composition_input) (domain : member_domain_key) : bool :=
  bool_decide (domain ∈ ret_domain <$> in_retirements i).
Definition is_reconstructed (i : composition_input) (domain : member_domain_key) : bool :=
  bool_decide (domain ∈ in_reconstructed i).

Definition judge (i : composition_input) (e : site_expectation) (domain : member_domain_key)
    (record : publication_record) : verdict :=
  let f := no_factors in
  let declaration := pub_declaration record in
  if is_revoked i domain then
    (MemberLifecycle.REVOKED, Status.LEASE_REVOKED, factors_add_pair "revoked" "true" f)
  else if is_retired i domain then
    (MemberLifecycle.RETIRED, Status.ALREADY_RETIRED, factors_add_pair "retired" "true" f)
  else if negb (bool_decide (pub_site record = in_site i)) then
    (MemberLifecycle.INCOMPATIBLE, Status.SITE_MISMATCH, factors_add_pair "site" (pub_site record) f)
  else if negb (compatible_with (pub_schema record) supported_schema) then
    (MemberLifecycle.INCOMPATIBLE, Status.SCHEMA_INCOMPATIBLE,
     factors_add_pair "schema" (schema_to_string (pub_schema record)) f)
  else if in_epoch i <? pub_observed_epoch record then
    (MemberLifecycle.INCOMPATIBLE, Status.EPOCH_MISMATCH,
     factors_add_pair "site_epoch" (dec (in_epoch i))
       (factors_add_pair "observed_epoch" (dec (pub_observed_epoch record)) f))
  else if negb (pub_has_declaration record) then
    (MemberLifecycle.REPORTED, Status.PARTIAL, factors_add_pair "declaration" "not_retained" f)
  else if negb (bool_decide (decl_digest declaration = pub_digest record)) then
    (MemberLifecycle.CONFLICTING, Status.DIGEST_MISMATCH_DECLARATION,
     factors_add_pair "declaration_digest" (short_hex (decl_digest declaration))
       (factors_add_pair "record_digest" (short_hex (pub_digest record)) f))
  else
    let recomputed := compute_digest declaration in
    if negb (bool_decide (recomputed = pub_digest record)) then
      (MemberLifecycle.CONFLICTING, Status.DIGEST_MISMATCH_DECLARATION,
       factors_add_pair "recomputed" (short_hex recomputed) f)
    else
      note_unexpected e domain
        (judge_evidence (evidence_of (in_now_ms i) record)
           (judge_reconstructed (is_reconstructed i domain) (judge_expected e domain record))).

Definition admission_for (i : composition_input) (e : site_expectation) (domain : member_domain_key)
    (record : publication_record) : admission :=
  let '(lifecycle, st, f) := judge i e domain record in
  let expected := expectation_find e domain in
  Admission domain lifecycle st (evidence_of (in_now_ms i) record)
    (bool_decide (is_Some expected)) (match expected with Some m => em_pinned m | None => false end)
    (pub_source record) f record.

Definition admit_members (i : composition_input) (e : site_expectation)
    : omap_t member_domain_key admission := om_map (admission_for i e) (best_records (in_publications i)).

(** The member state pushed for each admission. *)
Definition member_state (a : admission) : member_domain_state :=
  let r := ad_record a in
  MemberDomainState (ad_domain a) (ad_lifecycle a) (ad_status a) (pub_generation r) (pub_digest r)
    (pub_schema r) (pub_incarnation r) (pub_publisher r) (pub_received_at_ms r) (ad_evidence_state a)
    (ad_expected a) (ad_expectation_pinned a) (ad_source a) (ad_factors a).

(** ** The chosen publication *)

(** What [replaces] orders by. *)
Definition rank (r : publication_record) : Z * (Z * Z * Z) :=
  (pub_generation r, (attempt_fields (pub_attempt r), pub_acceptance_sequence r)).

Lemma cmp_rank a b :
  cmp (rank a) (rank b)
  = then_cmp (pub_generation a ?= pub_generation b)
      (then_cmp (cmp (attempt_fields (pub_attempt a)) (attempt_fields (pub_attempt b)))
         (pub_acceptance_sequence a ?= pub_acceptance_sequence b)).
Proof. reflexivity. Qed.

Lemma replaces_rank a b : replaces a b = ltb (rank b) (rank a).
Proof.
  unfold replaces. unfold ltb at 2. rewrite cmp_rank, (Z.eqb_sym (pub_generation a)).
  destruct (Z.compare_spec (pub_generation b) (pub_generation a)) as [Heq|Hlt|Hgt]; cbn [then_cmp].
  - rewrite Heq, Z.ltb_irrefl, Z.eqb_refl. cbn [andb orb]. unfold ltb, Z.ltb.
    destruct (cmp (attempt_fields (pub_attempt b)) (attempt_fields (pub_attempt a))) eqn:E; cbn [then_cmp].
    + apply cmp_eq_iff in E. by rewrite E, bool_decide_eq_true_2.
    + done.
    + rewrite bool_decide_eq_false_2; [done|]. intros Ha. by rewrite Ha, cmp_refl in E.
  - by rewrite (proj2 (Z.ltb_lt _ _) Hlt).
  - rewrite (proj2 (Z.ltb_ge _ _)) by lia. by rewrite (proj2 (Z.eqb_neq _ _)) by lia.
Qed.

(** A publication that could be chosen for a domain. *)
Definition offers (pubs : list publication_record) (d : member_domain_key) (r : publication_record) : Prop :=
  r ∈ pubs ∧ usable r = true ∧ pub_domain r = d.

Definition chosen (pubs : list publication_record) (d : member_domain_key)
    (o : option publication_record) : Prop :=
  match o with
  | Some r => offers pubs d r ∧ ∀ r', offers pubs d r' → le_key (rank r') (rank r)
  | None => ∀ r, ¬ offers pubs d r
  end.

Lemma consider_chosen pubs best r d :
  (∀ d, chosen pubs d (om_find d best)) → chosen (pubs ++ [r]) d (om_find d (consider best r)).
Proof.
  intros Hb.
  assert (∀ r', offers (pubs ++ [r]) d r' ↔ offers pubs d r' ∨ (r' = r ∧ usable r = true ∧ pub_domain r = d)) as Ho.
  { intros r'. unfold offers. rewrite elem_of_app, list_elem_of_singleton. naive_solver. }
  assert (∀ o, (usable r = true → pub_domain r ≠ d) → chosen pubs d o → chosen (pubs ++ [r]) d o) as Hskip.
  { intros [x|] Hne Hc; simpl in *.
    - destruct Hc as [Hx Hmax]. split; [apply Ho; by left|].
      intros r' [Hr'|(-> & Hu & Hd)]%Ho; [by apply Hmax|by destruct (Hne Hu)].
    - intros r' [Hr'|(-> & Hu & Hd)]%Ho; [by apply (Hc r')|by destruct (Hne Hu)]. }
  unfold consider. destruct (usable r) eqn:Hu; cbn [negb]; [|by apply Hskip].
  destruct (decide (pub_domain r = d)) as [<-|Hne].
  - specialize (Hb (pub_domain r)). destruct (om_find (pub_domain r) best) as [inc|] eqn:Hf.
    + rewrite replaces_rank. destruct Hb as [Hoff Hmax]. destruct (ltb (rank inc) (rank r)) eqn:Hlt.
      * apply ltb_lt in Hlt. rewrite om_find_set_eq. split; [apply Ho; right; done|].
        intros r' [Hr'|(-> & _)]%Ho; [|done]. apply lt_le. eapply le_lt_trans; [by apply Hmax|done].
      * apply ltb_ge in Hlt. rewrite Hf. split; [apply Ho; by left|].
        intros r' [Hr'|(-> & _)]%Ho; [by apply Hmax|done].
    + rewrite om_find_set_eq. split; [apply Ho; right; done|].
      intros r' [Hr'|(-> & _)]%Ho; [by destruct (Hb r')|done].
  - assert (om_find d (om_set (pub_domain r) r best) = om_find d best) as Hset by (by apply om_find_set_ne).
    destruct (om_find (pub_domain r) best) as [inc|]; [destruct (replaces r inc)|];
      rewrite ?Hset; by apply Hskip.
Qed.

Lemma consider_sorted best r : om_sorted best → om_sorted (consider best r).
Proof.
  intros Hs. unfold consider. destruct (negb (usable r)); [done|].
  destruct (om_find _ best); [destruct (replaces _ _); [|done]|]; by apply om_set_sorted.
Qed.

(** The loop over the publications keeps, for every domain that offers one, a usable
    publication of greatest rank. *)
Lemma best_records_spec pubs :
  om_sorted (best_records pubs) ∧ ∀ d, chosen pubs d (om_find d (best_records pubs)).
Proof.
  unfold best_records. induction pubs as [|r pubs [IHs IHc]] using rev_ind; simpl.
  - split; [constructor|]. intros d r (Hr & _). by apply elem_of_nil in Hr.
  - rewrite foldl_app. simpl. split; [by apply consider_sorted|]. intros d. by apply consider_chosen.
Qed.

(** No two usable publications of one domain are equal in generation, attempt and acceptance
    sequence. *)
Definition no_ties (pubs : list publication_record) : Prop :=
  ∀ d r r', offers pubs d r → offers pubs d r' → rank r = rank r' → r = r'.

Lemma best_records_perm pubs pubs' :
  pubs ≡ₚ pubs' → no_ties pubs → best_records pubs = best_records pubs'.
Proof.
  intros Hp Hties. destruct (best_records_spec pubs) as [Hs Hc], (best_records_spec pubs') as [Hs' Hc'].
  assert (∀ d r, offers pubs d r ↔ offers pubs' d r) as Ho by (intros; unfold offers; by rewrite Hp).
  apply om_ext; [done..|]. intros d. specialize (Hc d). specialize (Hc' d).
  destruct (om_find d (best_records pubs)) as [r|], (om_find d (best_records pubs')) as [r'|];
    simpl in Hc, Hc'; [|by destruct (Hc' r); apply Ho; apply Hc|by destruct (Hc r'); apply Ho; apply Hc'|done].
  destruct Hc as [H1 M1], Hc' as [H2 M2]. f_equal. apply (Hties d); [done|by apply Ho|].
  apply le_antisym; [apply M2; by apply Ho|apply M1; by apply Ho].
Qed.

(** ** When a member is current *)

(** Everything a publication must satisfy to be authoritative. *)
Definition authoritative (i : composition_input) (e : site_expectation) (d : member_domain_key)
    (r : publication_record) : Prop :=
  ((d ∉ in_revoked i) ∧ (∀ t, t ∈ in_retirements i → ret_domain t ≠ d) ∧ (d ∉ in_reconstructed i))
  ∧ pub_site r = in_site i ∧ compatible_with (pub_schema r) supported_schema = true
  ∧ pub_observed_epoch r ≤ in_epoch i
  ∧ pub_has_declaration r = true
  ∧ decl_digest (pub_declaration r) = pub_digest r ∧ compute_digest (pub_declaration r) = pub_digest r
  ∧ is_ok (validate (pub_declaration r)) = true
  ∧ match expectation_find e d with
    | Some m => em_pinned m = true → em_generation m = pub_generation r ∧ em_digest m = pub_digest r
    | None => se_reject_unexpected e = false
    end
  ∧ evaluate (decl_evidence (pub_declaration r)) (in_now_ms i) = EvidenceState.FRESH.

Lemma judge_expected_undecided e d r :
  verdict_lifecycle (judge_expected e d r) = MemberLifecycle.UNKNOWN ↔
    is_ok (validate (pub_declaration r)) = true
    ∧ match expectation_find e d with
      | Some m => em_pinned m = true → em_generation m = pub_generation r ∧ em_digest m = pub_digest r
      | None => se_reject_unexpected e = false
      end.
Proof.
  unfold judge_expected. destruct (is_ok (validate _)); simpl; [|split; [done|naive_solver]].
  destruct (expectation_find e d) as [m|].
  - destruct (em_pinned m); [|naive_solver].
    destruct (Z.eqb_spec (em_generation m) (pub_generation r)); simpl; [|split; [done|naive_solver]].
    case_bool_decide; simpl; [naive_solver|split; [done|naive_solver]].
  - destruct (se_reject_unexpected e); naive_solver.
Qed.

Lemma judge_expected_not_current e d r :
  verdict_lifecycle (judge_expected e d r) ≠ MemberLifecycle.CURRENT.
Proof.
  unfold judge_expected. destruct (is_ok (validate _)); simpl; [|done].
  destruct (expectation_find e d) as [m|]; [|by destruct (se_reject_unexpected e)].
  destruct (em_pinned m); [|done]. destruct (negb (_ =? _)); [done|]. by destruct (negb _).
Qed.

Lemma judge_tail_current e d recon s v :
  verdict_lifecycle v ≠ MemberLifecycle.CURRENT →
  verdict_lifecycle (note_unexpected e d (judge_evidence s (judge_reconstructed recon v)))
    = MemberLifecycle.CURRENT ↔
  verdict_lifecycle v = MemberLifecycle.UNKNOWN ∧ recon = false ∧ s = EvidenceState.FRESH.
Proof.
  intros Hv.
  assert (∀ w, verdict_lifecycle (note_unexpected e d w) = verdict_lifecycle w) as ->.
  { intros w. unfold note_unexpected. by destruct (_ && _). }
  unfold judge_reconstructed. case_bool_decide as Hu; simpl.
  - destruct recon; simpl.
    + split; [|naive_solver]. unfold judge_evidence. rewrite bool_decide_eq_false_2 by done. done.
    + unfold judge_evidence. rewrite bool_decide_eq_true_2 by done. destruct s; simpl; naive_solver.
  - unfold judge_evidence. rewrite bool_decide_eq_false_2 by done. naive_solver.
Qed.

Lemma judge_current i e d r :
  verdict_lifecycle (judge i e d r) = MemberLifecycle.CURRENT ↔ authoritative i e d r.
Proof.
  unfold judge, authoritative, is_revoked, is_retired, is_reconstructed.
  assert (d ∉ ret_domain <$> in_retirements i ↔ ∀ t, t ∈ in_retirements i → ret_domain t ≠ d) as Hret.
  { rewrite list_elem_of_fmap. naive_solver. }
  rewrite <- Hret.
  case_bool_decide; [split; [done|naive_solver]|]. case_bool_decide; [split; [done|naive_solver]|].
  case_bool_decide; cbn [negb]; [|split; [done|naive_solver]].
  destruct (compatible_with _ _); cbn [negb]; [|split; [done|naive_solver]].
  destruct (Z.ltb_spec (in_epoch i) (pub_observed_epoch r)); [split; [done|naive_solver lia]|].
  destruct (pub_has_declaration r) eqn:Hd; cbn [negb]; [|split; [done|naive_solver]].
  case_bool_decide; cbn [negb]; [|split; [done|naive_solver]]. cbv zeta.
  case_bool_decide; cbn [negb]; [|split; [done|naive_solver]].
  rewrite judge_tail_current by apply judge_expected_not_current.
  rewrite judge_expected_undecided, bool_decide_eq_false. unfold evidence_of. rewrite Hd. naive_solver.
Qed.

(** C3: admission is exact: a domain is admitted exactly when it has a usable publication, the
    one judged is of greatest generation, attempt and acceptance sequence, and it becomes
    CURRENT exactly when nothing stands against it: neither revoked, retired nor recovered
    from disk, of this site, schema and epoch, with a valid declaration whose two digests
    match, agreeing with what the expectation pins, and with fresh evidence. *)
Theorem admission_exact (i : composition_input) (e : site_expectation) (d : member_domain_key) :
  match om_find d (admit_members i e) with
  | None => ∀ r, ¬ offers (in_publications i) d r
  | Some a =>
      offers (in_publications i) d (ad_record a)
      ∧ (∀ r, offers (in_publications i) d r → le_key (rank r) (rank (ad_record a)))
      ∧ (ad_authoritative a = true ↔ authoritative i e d (ad_record a))
  end.
Proof.
  unfold admit_members. rewrite om_find_map. pose proof (proj2 (best_records_spec (in_publications i)) d) as Hc.
  destruct (om_find d (best_records _)) as [r|]; [|done]. cbn [fmap option_fmap option_map chosen] in *.
  destruct Hc as [Ho Hm].
  assert (ad_record (admission_for i e d r) = r ∧ ad_lifecycle (admission_for i e d r) = verdict_lifecycle (judge i e d r))
    as [-> Hl] by (unfold admission_for; by destruct (judge i e d r) as [[? ?] ?]).
  split_and!; [done|done|]. unfold ad_authoritative. by rewrite bool_decide_eq_true, Hl, judge_current.
Qed.

(** Two inputs that differ in the arrival order of their collections only. *)
Definition same_input (i i' : composition_input) : Prop :=
  in_site i = in_site i' ∧ in_epoch i = in_epoch i' ∧ in_generation i = in_generation i'
  ∧ in_incarnation i = in_incarnation i' ∧ in_now_ms i = in_now_ms i' ∧ in_expectation i = in_expectation i'
  ∧ in_publications i ≡ₚ in_publications i' ∧ in_retirements i ≡ₚ in_retirements i'
  ∧ in_revoked i ≡ₚ in_revoked i' ∧ in_reconstructed i ≡ₚ in_reconstructed i'.

Lemma prepare_same i i' : same_input i i' → prepare i = prepare i'.
Proof.
  destruct i, i'. intros (? & ? & ? & ? & ? & ? & Hp & Ht & Hr & _). simpl in *. subst.
  unfold prepare, expectation_for, zlen. simpl. by rewrite Hp, Ht, Hr.
Qed.

Lemma admit_same i i' e d r : same_input i i' → admission_for i e d r = admission_for i' e d r.
Proof.
  destruct i, i'. intros (? & ? & ? & ? & ? & ? & _ & Ht & Hr & Hc). simpl in *. subst.
  assert (∀ (A : Type) `{EqDecision A} (x : A) l l', l ≡ₚ l' → bool_decide (x ∈ l) = bool_decide (x ∈ l')) as Hin.
  { intros A ? x l l' Hl. apply bool_decide_ext. by rewrite Hl. }
  unfold admission_for, judge, is_revoked, is_retired, is_reconstructed. simpl.
  by rewrite (Hin _ _ d _ _ Hr), (Hin _ _ d _ _ (fmap_Permutation ret_domain _ _ Ht)), (Hin _ _ d _ _ Hc).
Qed.

Lemma admit_members_same i i' e :
  same_input i i' → no_ties (in_publications i) → admit_members i e = admit_members i' e.
Proof.
  intros Hs Ht. unfold admit_members.
  rewrite (best_records_perm (in_publications i) (in_publications i')); [|apply Hs|done].
  apply list_fmap_ext. intros ? [d r] _. simpl. by rewrite (admit_same i i').
Qed.
