(* ===== verification/Attribute.v ===== *)
(** Attribution (compose.cpp, [record_attestation], [resolve_resource] and
    [Composer::attribute_resources]).

    Every claim of every admitted declaration attests its resource. A resource is attributed
    when all its attestors are authoritative and agree on one content. *)

From stdpp Require Import sorting sets.
From S2P Require Import Prelude Ordering Enums Sha256 Identity Canonical Evidence Capacity Claims Canonicalize Forest Site Samples Admit.

Record attestation := Attestation {
  at_source : source_ref;
  at_content : digest;
  at_authoritative : bool;
  at_variant : string;
}.

(** The claims a resource points to; each is the claim of the last member that made one. *)
Record claim_refs := ClaimRefs {
  ref_rack : option rack_claim;
  ref_pod : option pod_claim;
  ref_cluster : option cluster_claim;
  ref_link : option shared_link_claim;
  ref_gateway : option gateway_claim;
  ref_pool : option capacity_contribution;
  ref_domain : option failure_domain_claim;
  ref_zone : option maintenance_zone;
  ref_obligation : option protected_obligation;
}.
Definition no_refs : claim_refs := ClaimRefs None None None None None None None None None.

Record resource_record := ResourceRecord {
  rr_key : resource_key;
  rr_attestations : list attestation;
  rr_distinct_contents : Z;
  rr_consensus : digest;
  rr_status : status;
  rr_factors : factors;
  rr_all_authoritative : bool;
  rr_refs : claim_refs;
}.
Definition new_resource : resource_record :=
  ResourceRecord no_resource [] 0 zero_digest Status.UNKNOWN no_factors true no_refs.

Abbreviation resource_map := (omap_t resource_key resource_record).

Definition rr_sources (r : resource_record) : source_set :=
  foldl (λ s a, ss_insert (at_source a) s) ss_empty (rr_attestations r).
Definition rr_ok (r : resource_record) : bool := bool_decide (rr_status r = Status.OK).

(** * Attesting *)

Definition record_attestation (a : attestation) (r : resource_record) : resource_record :=
  if existsb (λ x, bool_decide (at_source x = at_source a)) (rr_attestations r) then r
  else if kMaxAttestorsPerResource <=? zlen (rr_attestations r)
  then ResourceRecord (rr_key r) (rr_attestations r) (rr_distinct_contents r) (rr_consensus r) (rr_status r)
         (factors_add_pair "attestors_truncated" "true" (rr_factors r)) (rr_all_authoritative r) (rr_refs r)
  else ResourceRecord (rr_key r) (rr_attestations r ++ [a]) (rr_distinct_contents r) (rr_consensus r)
         (rr_status r) (rr_factors r) (rr_all_authoritative r) (rr_refs r).

(** One claim of a declaration, as the attribution loops see it: the resource it is about,
    the digest of its content and the pointer it sets. *)
Record claim_view := ClaimView {
  cv_key : resource_key;
  cv_content : digest;
  cv_point : claim_refs → claim_refs;
}.

Definition view_cluster (c : cluster_claim) : claim_view :=
  ClaimView (ResourceKey ResourceKind.CLUSTER (cluster_id c)) (claim_digest c) (λ s,
    ClaimRefs (ref_rack s) (ref_pod s) (Some c) (ref_link s) (ref_gateway s) (ref_pool s) (ref_domain s)
      (ref_zone s) (ref_obligation s)).
Definition view_pod (c : pod_claim) : claim_view :=
  ClaimView (ResourceKey ResourceKind.POD (pod_id c)) (claim_digest c) (λ s,
    ClaimRefs (ref_rack s) (Some c) (ref_cluster s) (ref_link s) (ref_gateway s) (ref_pool s) (ref_domain s)
      (ref_zone s) (ref_obligation s)).
Definition view_rack (c : rack_claim) : claim_view :=
  ClaimView (ResourceKey ResourceKind.RACK (rack_id c)) (claim_digest c) (λ s,
    ClaimRefs (Some c) (ref_pod s) (ref_cluster s) (ref_link s) (ref_gateway s) (ref_pool s) (ref_domain s)
      (ref_zone s) (ref_obligation s)).
Definition view_link (c : shared_link_claim) : claim_view :=
  ClaimView (ResourceKey ResourceKind.SHARED_LINK (link_id c)) (claim_digest c) (λ s,
    ClaimRefs (ref_rack s) (ref_pod s) (ref_cluster s) (Some c) (ref_gateway s) (ref_pool s) (ref_domain s)
      (ref_zone s) (ref_obligation s)).
Definition view_gateway (c : gateway_claim) : claim_view :=
  ClaimView (ResourceKey ResourceKind.GATEWAY (gateway_id c)) (claim_digest c) (λ s,
    ClaimRefs (ref_rack s) (ref_pod s) (ref_cluster s) (ref_link s) (Some c) (ref_pool s) (ref_domain s)
      (ref_zone s) (ref_obligation s)).
Definition view_contribution (c : capacity_contribution) : claim_view :=
  ClaimView (contrib_owner c) (claim_digest c) (λ s,
    ClaimRefs (ref_rack s) (ref_pod s) (ref_cluster s) (ref_link s) (ref_gateway s) (Some c) (ref_domain s)
      (ref_zone s) (ref_obligation s)).
Definition view_failure_domain (c : failure_domain_claim) : claim_view :=
  ClaimView (ResourceKey ResourceKind.FAILURE_DOMAIN (fd_id c)) (claim_digest c) (λ s,
    ClaimRefs (ref_rack s) (ref_pod s) (ref_cluster s) (ref_link s) (ref_gateway s) (ref_pool s) (Some c)
      (ref_zone s) (ref_obligation s)).
Definition view_zone (c : maintenance_zone) : claim_view :=
  ClaimView (ResourceKey ResourceKind.MAINTENANCE_ZONE (zone_id c)) (claim_digest c) (λ s,
    ClaimRefs (ref_rack s) (ref_pod s) (ref_cluster s) (ref_link s) (ref_gateway s) (ref_pool s) (ref_domain s)
      (Some c) (ref_obligation s)).
Definition view_obligation (c : protected_obligation) : claim_view :=
  ClaimView (ResourceKey ResourceKind.OBLIGATION (ob_id c)) (claim_digest c) (λ s,
    ClaimRefs (ref_rack s) (ref_pod s) (ref_cluster s) (ref_link s) (ref_gateway s) (ref_pool s) (ref_domain s)
      (ref_zone s) (Some c)).

(** The nine loops over one declaration, in their order. *)
Definition views (d : declaration) : list claim_view :=
  (view_cluster <$> decl_clusters d) ++ (view_pod <$> decl_pods d) ++ (view_rack <$> decl_racks d)
  ++ (view_link <$> decl_shared_links d) ++ (view_gateway <$> decl_gateways d)
  ++ (view_contribution <$> decl_capacity d) ++ (view_failure_domain <$> decl_failure_domains d)
  ++ (view_zone <$> decl_maintenance_zones d) ++ (view_obligation <$> decl_obligations d).

Definition attestation_of (a : admission) (c : claim_view) : attestation :=
  Attestation (ad_source a) (cv_content c) (ad_authoritative a) (mdk_to_string (ad_domain a)).

(** [attest], then the pointer. *)
Definition attest (a : admission) (resources : resource_map) (c : claim_view) : resource_map :=
  let record := default new_resource (om_find (cv_key c) resources) in
  let keyed := ResourceRecord (cv_key c) (rr_attestations record) (rr_distinct_contents record)
                 (rr_consensus record) (rr_status record) (rr_factors record) (rr_all_authoritative record)
                 (rr_refs record) in
  let attested := record_attestation (attestation_of a c) keyed in
  om_set (cv_key c)
    (ResourceRecord (rr_key attested) (rr_attestations attested) (rr_distinct_contents attested)
       (rr_consensus attested) (rr_status attested) (rr_factors attested) (rr_all_authoritative attested)
       (cv_point c (rr_refs attested))) resources.

Definition views_of (a : admission) : list claim_view :=
  if pub_has_declaration (ad_record a) then views (pub_declaration (ad_record a)) else [].

Definition attest_member (resources : resource_map) (a : admission) : resource_map :=
  foldl (attest a) resources (views_of a).

Definition attest_all (admissions : omap_t member_domain_key admission) : resource_map :=
  foldl attest_member [] admissions.*2.

(** * Resolving *)

(** The distinct contents, sorted. *)
Definition add_distinct (acc : list digest) (c : digest) : list digest :=
  if decide (c ∈ acc) then acc else acc ++ [c].
Definition distinct_contents (attestations : list attestation) : list digest :=
  sort_by id (foldl add_distinct [] (at_content <$> attestations)).

Definition exclusive (k : resource_kind) : bool :=
  match k with
  | ResourceKind.RACK | ResourceKind.POD | ResourceKind.CLUSTER | ResourceKind.FAILURE_DOMAIN
  | ResourceKind.MAINTENANCE_ZONE | ResourceKind.OBLIGATION => true
  | _ => false
  end.

Definition resolve_resource (r : resource_record) : resource_record :=
  let distinct := distinct_contents (rr_attestations r) in
  let n := zlen distinct in
  let all_authoritative := forallb at_authoritative (rr_attestations r) in
  let resolved consensus st f :=
    ResourceRecord (rr_key r) (rr_attestations r) n consensus st f all_authoritative (rr_refs r) in
  match rr_attestations r with
  | [] => resolved (rr_consensus r) Status.NO_AUTHORITATIVE_SOURCE (factors_add_pair "attestors" "0" (rr_factors r))
  | _ =>
      if 1 <? n then
        let f := factors_add_pair "attestors" (dec (zlen (rr_attestations r)))
                   (factors_add_pair "distinct_contents" (dec n) (rr_factors r)) in
        resolved (rr_consensus r)
          (if exclusive (rk_kind (rr_key r)) then Status.OWNERSHIP_OVERLAP else Status.ACCOUNTING_CONFLICT)
          (foldl (λ f a, factors_add_pair "variant" (short_hex (at_content a)) f) f (rr_attestations r))
      else
        let consensus := default zero_digest (head distinct) in
        if negb all_authoritative
        then resolved consensus Status.NO_AUTHORITATIVE_SOURCE
               (factors_add_pair "non_authoritative_attestor" "true" (rr_factors r))
        else resolved consensus Status.OK (rr_factors r)
  end.

Definition attribution_of (key : resource_key) (r : resource_record) : resource_attribution :=
  ResourceAttribution key (rr_sources r) (rr_consensus r) (rr_distinct_contents r) (rr_status r) (rr_factors r).

(** The conflict a resolved resource raises. *)
Definition note_overlap (now_ms : Z) (n : notes) (p : resource_key * resource_record) : notes :=
  let '(key, r) := p in
  match rr_status r with
  | Status.OWNERSHIP_OVERLAP => add_conflict now_ms Status.OWNERSHIP_OVERLAP key (rr_sources r) [] n
  | Status.ACCOUNTING_CONFLICT => add_conflict now_ms Status.ACCOUNTING_CONFLICT key (rr_sources r) [] n
  | _ => n
  end.

Definition resolve_all (resources : resource_map) : resource_map := om_map (λ _, resolve_resource) resources.

Definition attribute_resources (now_ms : Z) (admissions : omap_t member_domain_key admission) (n : notes)
    : resource_map * list resource_attribution * notes :=
  let resources := resolve_all (attest_all admissions) in
  (resources, (λ p, attribution_of p.1 p.2) <$> resources, foldl (note_overlap now_ms) n resources).

(** ** What a resource's attestations are *)

(** The claim of a member that attests a resource: its first. *)
Definition first_view (a : admission) (key : resource_key) : option claim_view :=
  List.find (λ c, bool_decide (cv_key c = key)) (views_of a).
Definition attestations_of (admissions : list admission) (key : resource_key) : list attestation :=
  omap (λ a, attestation_of a <$> first_view a key) admissions.

(** A resource record in the middle of the loops, with these attestations. *)
Definition attested_as (key : resource_key) (l : list attestation) (o : option resource_record) : Prop :=
  match o with
  | None => l = []
  | Some r => l ≠ [] ∧ rr_key r = key ∧ rr_factors r = no_factors ∧ rr_attestations r = l
  end.

Lemma find_app {A} (f : A → bool) l k :
  List.find f (l ++ k) = match List.find f l with Some x => Some x | None => List.find f k end.
Proof. induction l as [|x l IH]; simpl; [done|]. by destruct (f x). Qed.

Section attest.
Context (a : admission) (prior : resource_key → list attestation).
Hypothesis Hsource : ∀ key x, x ∈ prior key → at_source x ≠ ad_source a.
Hypothesis Hbound : ∀ key, zlen (prior key) < kMaxAttestorsPerResource.

(** The attestations once the claims [vs] of [a] are seen. *)
Definition after_views (vs : list claim_view) (key : resource_key) : list attestation :=
  prior key ++ option_list (attestation_of a <$> List.find (λ c, bool_decide (cv_key c = key)) vs).

Lemma attest_step resources vs c :
  (∀ key, attested_as key (after_views vs key) (om_find key resources)) →
  ∀ key, attested_as key (after_views (vs ++ [c]) key) (om_find key (attest a resources c)).
Proof using All.
  intros Hinv key. specialize (Hinv key). unfold attest.
  destruct (decide (cv_key c = key)) as [<-|Hne].
  2: { rewrite om_find_set_ne by congruence. unfold after_views in *. rewrite find_app. simpl.
       rewrite (bool_decide_eq_false_2 (cv_key c = key)) by done.
       by destruct (List.find _ vs). }
  rewrite om_find_set_eq. unfold after_views in *. rewrite find_app. simpl.
  rewrite (bool_decide_eq_true_2 (cv_key c = cv_key c)) by done.
  set (record := default new_resource (om_find (cv_key c) resources)).
  assert (rr_factors record = no_factors ∧ rr_attestations record = prior (cv_key c) ++
    option_list (attestation_of a <$> List.find (λ c0, bool_decide (cv_key c0 = cv_key c)) vs)) as [Hf Ha].
  { unfold record. destruct (om_find (cv_key c) resources); simpl in *; naive_solver. }
  assert (∀ x, x ∈ prior (cv_key c) → bool_decide (at_source x = ad_source a) = false) as Hold.
  { intros x Hx. apply bool_decide_eq_false. by eapply Hsource. }
  unfold record_attestation. cbn [rr_attestations rr_key rr_factors at_source attestation_of]. rewrite Ha.
  destruct (List.find _ vs) as [c'|] eqn:Hfind; simpl.
  - rewrite existsb_app. simpl. rewrite (bool_decide_eq_true_2 (ad_source a = ad_source a)) by done.
    rewrite orb_true_r. simpl. split_and!; [by destruct (prior (cv_key c))|done|done|done].
  - rewrite app_nil_r.
    assert (existsb (λ x, bool_decide (at_source x = ad_source a)) (prior (cv_key c)) = false) as ->.
    { apply not_true_is_false. rewrite existsb_exists. intros (x & Hx%list_elem_of_In & Heq).
      rewrite Hold in Heq; done. }
    rewrite (proj2 (Z.leb_gt _ _) (Hbound _)). simpl.
    split_and!; [by destruct (prior (cv_key c))|done|done|done].
Qed.

Lemma attest_views resources :
  (∀ key, attested_as key (prior key) (om_find key resources)) →
  ∀ key, attested_as key (after_views (views_of a) key) (om_find key (attest_member resources a)).
Proof using All.
  intros Hinv. unfold attest_member. induction (views_of a) as [|c vs IH] using rev_ind; intros key; simpl.
  - unfold after_views. simpl. rewrite app_nil_r. apply Hinv.
  - rewrite foldl_app. simpl. by apply attest_step.
Qed.
End attest.

Lemma omap_length {A B} (f : A → option B) (l : list A) : zlen (omap f l) ≤ zlen l.
Proof.
  induction l as [|a l IH]; [done|]. cbn [omap list_omap]. unfold zlen in *. destruct (f a); cbn [length].
  - rewrite !Nat2Z.inj_succ. by apply (proj1 (Z.succ_le_mono _ _)).
  - rewrite Nat2Z.inj_succ. etrans; [exact IH|]. lia.
Qed.

Lemma attestations_of_length l key : zlen (attestations_of l key) ≤ zlen l.
Proof. apply omap_length. Qed.

Lemma attestations_of_source l key x : x ∈ attestations_of l key → at_source x ∈ ad_source <$> l.
Proof.
  unfold attestations_of. rewrite list_elem_of_omap. intros (a & Ha & Hx).
  destruct (first_view a key); simplify_eq/=. by apply (list_elem_of_fmap_2 ad_source).
Qed.

Lemma attest_members_spec l :
  NoDup (ad_source <$> l) → zlen l ≤ kMaxAttestorsPerResource →
  ∀ key, attested_as key (attestations_of l key) (om_find key (foldl attest_member [] l)).
Proof.
  induction l as [|a l IH] using rev_ind; intros Hnd Hlen key; [done|].
  rewrite zlen_app in Hlen. change (zlen [a]) with 1 in Hlen.
  rewrite fmap_app in Hnd. apply NoDup_app in Hnd as (Hnd & Hdis & _). rewrite foldl_app. simpl.
  assert (attestations_of (l ++ [a]) key = after_views a (attestations_of l) (views_of a) key) as ->.
  { unfold attestations_of, after_views, first_view. rewrite omap_app. simpl. f_equal. }
  apply attest_views; [| |apply IH; [done|lia]].
  - intros k x Hx%attestations_of_source Heq. rewrite Heq in Hx. apply (Hdis _ Hx). simpl. left.
  - intros k. pose proof (attestations_of_length l k). lia.
Qed.

(** ** Agreement *)

Lemma add_distinct_spec l acc :
  NoDup acc → NoDup (foldl add_distinct acc l) ∧ ∀ x, x ∈ foldl add_distinct acc l ↔ x ∈ acc ∨ x ∈ l.
Proof.
  revert acc. induction l as [|y l IH]; intros acc Hnd; simpl.
  { split; [done|]. intros x. rewrite elem_of_nil. naive_solver. }
  assert (NoDup (add_distinct acc y) ∧ ∀ x, x ∈ add_distinct acc y ↔ x ∈ acc ∨ x = y) as [Hnd' Hin].
  { unfold add_distinct. case_decide; [naive_solver|]. split.
    - apply NoDup_app. split_and!; [done| |apply NoDup_singleton]. set_solver.
    - set_solver. }
  destruct (IH _ Hnd') as [H1 H2]. split; [done|]. intros x. rewrite H2, Hin, elem_of_cons. naive_solver.
Qed.

Lemma distinct_contents_elem l x : x ∈ distinct_contents l ↔ x ∈ at_content <$> l.
Proof.
  unfold distinct_contents. rewrite sort_by_elem.
  rewrite (proj2 (add_distinct_spec _ [] NoDup_nil_2)), elem_of_nil. naive_solver.
Qed.

Lemma distinct_contents_NoDup l : NoDup (distinct_contents l).
Proof. unfold distinct_contents. rewrite sort_by_perm. apply add_distinct_spec, NoDup_nil_2. Qed.

(** All attestors report one content. *)
Definition agreed (l : list attestation) : Prop := ∃ content, ∀ x, x ∈ l → at_content x = content.

Lemma one_distinct l : l ≠ [] → (1 <? zlen (distinct_contents l)) = false ↔ agreed l.
Proof.
  intros Hl. pose proof (distinct_contents_NoDup l) as Hnd. pose proof (distinct_contents_elem l) as Hin.
  rewrite Z.ltb_ge. unfold zlen, agreed. destruct (distinct_contents l) as [|c [|c' rest]].
  - destruct l as [|x l]; [done|]. specialize (Hin (at_content x)). simpl in Hin.
    rewrite elem_of_nil, elem_of_cons in Hin. naive_solver.
  - split; [|simpl; lia]. intros _. exists c. intros x Hx. apply (list_elem_of_fmap_2 at_content) in Hx.
    apply Hin in Hx. by apply list_elem_of_singleton in Hx.
  - split; [simpl; lia|]. intros (d & Hd). exfalso. apply NoDup_cons in Hnd as [Hnd _].
    assert (∀ y, y ∈ c :: c' :: rest → y = d) as Hall.
    { intros y Hy%Hin. apply list_elem_of_fmap in Hy as (x & -> & Hx). by apply Hd. }
    apply Hnd. rewrite (Hall c), (Hall c'); [left|right; left|left].
Qed.

(** What resolution decides, from the attestations. *)
Lemma resolve_resource_spec r :
  rr_attestations r ≠ [] →
  let r' := resolve_resource r in
  rr_attestations r' = rr_attestations r ∧ rr_key r' = rr_key r ∧ rr_refs r' = rr_refs r
  ∧ (rr_status r' = Status.OK ↔ agreed (rr_attestations r) ∧ Forall (λ x, at_authoritative x = true) (rr_attestations r))
  ∧ (rr_status r' = Status.NO_AUTHORITATIVE_SOURCE ↔
       agreed (rr_attestations r) ∧ ¬ Forall (λ x, at_authoritative x = true) (rr_attestations r))
  ∧ (rr_status r' = (if exclusive (rk_kind (rr_key r)) then Status.OWNERSHIP_OVERLAP else Status.ACCOUNTING_CONFLICT)
     ↔ ¬ agreed (rr_attestations r)).
Proof.
  intros Hne. cbv zeta. pose proof (one_distinct _ Hne) as Hone.
  assert (forallb at_authoritative (rr_attestations r) = true ↔ Forall (λ x, at_authoritative x = true) (rr_attestations r)) as Hall.
  { rewrite forallb_forall, Forall_forall. by setoid_rewrite list_elem_of_In. }
  unfold resolve_resource. destruct (rr_attestations r) as [|x l] eqn:Hr; [done|]. rewrite <- Hr in *.
  rewrite <- Hone, <- Hall. destruct (1 <? _); [|destruct (forallb _ _)]; cbn;
    destruct (exclusive _); naive_solver.
Qed.

(** ** Attribution of a composition's admissions *)

Lemma om_set_length `{Ord K} {V} (k : K) (v : V) m : zlen (om_set k v m) ≤ 1 + zlen m.
Proof.
  induction m as [|[k' v'] m IH]; simpl; [unfold zlen; simpl; lia|].
  destruct (cmp k k'); autorewrite with fabric in *; lia.
Qed.

Lemma best_records_length pubs : zlen (best_records pubs) ≤ zlen pubs.
Proof.
  unfold best_records. induction pubs as [|r pubs IH] using rev_ind; [done|].
  rewrite foldl_app, zlen_app. change (zlen [r]) with 1. cbn [foldl]. unfold consider at 1.
  destruct (negb (usable r)); [lia|].
  pose proof (om_set_length (pub_domain r) r (foldl consider [] pubs)).
  destruct (om_find _ _); [destruct (replaces _ _)|]; lia.
Qed.

(** What the later stages rely on: one admission per domain, from its own publication. *)
Lemma admit_members_sources i e :
  NoDup (ad_source <$> (admit_members i e).*2) ∧ zlen (admit_members i e).*2 ≤ zlen (in_publications i).
Proof.
  unfold admit_members. split.
  - destruct (best_records_spec (in_publications i)) as [Hs Hc].
    assert (Forall (λ p, pub_domain p.2 = p.1) (best_records (in_publications i))) as Hdom.
    { apply Forall_forall. intros [d r] Hin. apply om_find_elem in Hin; [|done].
      specialize (Hc d). rewrite Hin in Hc. apply Hc. }
    apply (NoDup_fmap_1 sr_domain).
    assert (sr_domain <$> (ad_source <$> (om_map (admission_for i e) (best_records (in_publications i))).*2)
            = (best_records (in_publications i)).*1) as ->; [|by apply lt_sorted_NoDup].
    unfold om_map. rewrite <- !list_fmap_compose. apply list_fmap_ext. intros k [d r] Hk. simpl.
    rewrite Forall_lookup in Hdom. specialize (Hdom _ _ Hk). simpl in Hdom. rewrite <- Hdom at 2.
    unfold admission_for. by destruct (judge i e d r) as [[? ?] ?].
  - unfold om_map, zlen. rewrite !length_fmap. apply best_records_length.
Qed.

(** C4: attribution is exact: in a composition of at most 4096 publications, a resource is
    recorded exactly when an admitted declaration claims it; its attestors are exactly the
    members claiming it, in order, each with the digest of its first claim; and it is
    attributed (OK) exactly when they agree on one content and are all authoritative, lacks
    an authoritative source when they agree but are not, and is in conflict - an ownership
    overlap or an accounting conflict by its kind - exactly when two contents differ. *)
Theorem attribution_exact (i : composition_input) (e : site_expectation) (n : notes) (key : resource_key) :
  zlen (in_publications i) ≤ kMaxMemberDomains →
  let members := (admit_members i e).*2 in
  let l := attestations_of members key in
  let '(resources, ownership, _) := attribute_resources (in_now_ms i) (admit_members i e) n in
  ra_key <$> ownership = resources.*1 ∧
  match om_find key resources with
  | None => l = []
  | Some r =>
      l ≠ [] ∧ rr_attestations r = l
      ∧ (rr_status r = Status.OK ↔ agreed l ∧ Forall (λ x, at_authoritative x = true) l)
      ∧ (rr_status r = Status.NO_AUTHORITATIVE_SOURCE ↔ agreed l ∧ ¬ Forall (λ x, at_authoritative x = true) l)
      ∧ (rr_status r = (if exclusive (rk_kind key) then Status.OWNERSHIP_OVERLAP else Status.ACCOUNTING_CONFLICT)
         ↔ ¬ agreed l)
  end.
Proof.
  intros Hlen. cbv zeta. unfold attribute_resources. cbn [fst snd].
  destruct (admit_members_sources i e) as [Hnd Hmem].
  pose proof (attest_members_spec _ Hnd ltac:(unfold kMaxAttestorsPerResource, kMaxMemberDomains in *; lia) key) as Hspec.
  split.
  { rewrite <- list_fmap_compose. by apply list_fmap_ext. }
  unfold resolve_all, attest_all. rewrite om_find_map.
  destruct (om_find key _) as [r|]; [|done]. cbn [fmap option_fmap option_map].
  destruct Hspec as (Hne & Hkey & _ & Hatt). rewrite <- Hatt in Hne.
  destruct (resolve_resource_spec r Hne) as (H1 & _ & _ & H2 & H3 & H4).
  rewrite Hkey in H4. rewrite H1, H2, H3, H4, Hatt. rewrite Hatt in Hne. done.
Qed.

Lemma attribution_exact_witness :
  let i := Scenario.maintained MaintenanceState.ACTIVE in
  match prepare i with
  | Ok e =>
      let '(resources, ownership, _) := attribute_resources (in_now_ms i) (admit_members i e) no_notes in
      zlen ownership = 4 ∧ ra_key <$> ownership = resources.*1
  | Err _ => False
  end.
Proof.
  cbv zeta. set (i := Scenario.maintained MaintenanceState.ACTIVE).
  assert (match prepare i with
          | Ok e => let '(_, ownership, _) := attribute_resources (in_now_ms i) (admit_members i e) no_notes in
                    zlen ownership = 4
          | Err _ => False end) as H by (vm_compute; reflexivity).
  destruct (prepare i) as [e|]; [|destruct H].
  pose proof (attribution_exact i e no_notes no_resource ltac:(vm_compute; by intros [=])) as Hx. cbv zeta in Hx.
  destruct (attribute_resources _ _ _) as [[resources ownership] n]. exact (conj H (proj1 Hx)).
Defined.
