(* ===== verification/Domains.v ===== *)
(** The composed failure domains (compose.cpp, [Composer::build_failure_domains]).

    One node per resource of kind FAILURE_DOMAIN, its members the union of what every
    attestor claims; the forest is then resolved ([Forest]) and its status decided. *)

From stdpp Require Import sorting sets.
From S2P Require Import Prelude Ordering Enums Sha256 Identity Canonical Evidence Capacity Claims Canonicalize Forest Site Admit Attribute.

Definition is_kind (k : resource_kind) (p : resource_key * resource_record) : bool :=
  bool_decide (rk_kind p.1 = k).

Definition domain_key (id : string) : resource_key := ResourceKey ResourceKind.FAILURE_DOMAIN id.
(** The records the first loop keeps. They come in the order of their ids, which is the order
    of the two maps the source files them under. *)
Definition domain_records (resources : resource_map) : resource_map :=
  List.filter (is_kind ResourceKind.FAILURE_DOMAIN) resources.

(** The members one attestor's declaration claims for a domain. *)
Definition claimed_members (admissions : omap_t member_domain_key admission) (id : string)
    (x : attestation) : list resource_key :=
  match om_find (sr_domain (at_source x)) admissions with
  | None => []
  | Some a =>
      if pub_has_declaration (ad_record a) then
        c ← decl_failure_domains (pub_declaration (ad_record a));
        if bool_decide (fd_id c = id) then fd_members c else []
      else []
  end.

Definition union_members (admissions : omap_t member_domain_key admission) (id : string)
    (r : resource_record) : list resource_key :=
  sort_unique (x ← rr_attestations r; claimed_members admissions id x).

(** The node of one domain after the first two loops. *)
Definition domain_node (admissions : omap_t member_domain_key admission)
    (p : resource_key * resource_record) : failure_domain_node :=
  let '(key, r) := p in
  let id := rk_id key in
  let '(cls, parent) :=
    match ref_domain (rr_refs r) with
    | Some c => (fd_domain_class c, fd_parent c)
    | None => (FailureDomainClass.UNKNOWN, None)
    end in
  let members := union_members admissions id r in
  let over := kMaxResourceMembers <? zlen members in
  FailureDomainNode id cls parent
    (if over then take (Z.to_nat kMaxResourceMembers) members else members) [] [] 0 (rr_sources r)
    (if over then Status.LIMIT_EXCEEDED else rr_status r).

Definition node_with_status (s : status) (n : failure_domain_node) : failure_domain_node :=
  FailureDomainNode (fdn_id n) (fdn_domain_class n) (fdn_parent n) (fdn_members n) (fdn_children n)
    (fdn_ancestors n) (fdn_depth n) (fdn_attestors n) s.

Definition adjusted_status (s : status) : status :=
  match s with
  | Status.UNKNOWN => Status.OK
  | Status.OWNERSHIP_OVERLAP => Status.FAILURE_DOMAIN_CONFLICT
  | _ => s
  end.

(** One step of the loop that fills the forest. *)
Definition push_node (ids : list string) (st : failure_domain_forest * notes) (n : failure_domain_node)
    : failure_domain_forest * notes :=
  let '(f, notes) := st in
  let s := adjusted_status (fdn_status n) in
  let f_factors :=
    if bool_decide (s = Status.NO_AUTHORITATIVE_SOURCE)
    then factors_add_pair "unsourced_domain" (fdn_id n) (ff_factors f) else ff_factors f in
  let '(s, dangling, notes) :=
    match fdn_parent n with
    | Some parent =>
        if bool_decide (parent ∈ ids) then (s, ff_dangling f, notes)
        else (Status.FAILURE_DOMAIN_DANGLING_PARENT, ff_dangling f ++ [fdn_id n],
              add_deficit Status.FAILURE_DOMAIN_DANGLING_PARENT no_domain
                ("parent=" +:+ parent) notes)
    | None => (s, ff_dangling f, notes)
    end in
  let s := if bool_decide (fdn_domain_class n = FailureDomainClass.UNKNOWN)
           then Status.FAILURE_DOMAIN_CONFLICT else s in
  (FailureDomainForest (ff_nodes f ++ [node_with_status s n]) (ff_cyclic f) dangling (ff_status f) f_factors,
   notes).

Definition no_forest : failure_domain_forest := FailureDomainForest [] [] [] Status.UNKNOWN no_factors.

Definition sort_nodes (f : failure_domain_forest) : failure_domain_forest :=
  FailureDomainForest (sort_by fdn_id (ff_nodes f)) (ff_cyclic f) (ff_dangling f) (ff_status f) (ff_factors f).

Definition with_forest_status (s : status) (fs : factors) (f : failure_domain_forest) : failure_domain_forest :=
  FailureDomainForest (ff_nodes f) (ff_cyclic f) (ff_dangling f) s fs.

Definition has_status (s : status) (n : failure_domain_node) : bool := bool_decide (fdn_status n = s).

(** The status of the resolved forest. *)
Definition judge_forest (now_ms : Z) (f : failure_domain_forest) (n : notes) : failure_domain_forest * notes :=
  if negb (bool_decide (ff_cyclic f = [])) then
    (with_forest_status Status.FAILURE_DOMAIN_CYCLE
       (factors_add_pair "cyclic_domains" (dec (zlen (ff_cyclic f))) (ff_factors f)) f,
     add_conflict now_ms Status.FAILURE_DOMAIN_CYCLE no_resource ss_empty (ff_cyclic f) n)
  else if negb (bool_decide (ff_dangling f = [])) then
    (with_forest_status Status.FAILURE_DOMAIN_DANGLING_PARENT
       (factors_add_pair "dangling_domains" (dec (zlen (ff_dangling f))) (ff_factors f)) f, n)
  else if existsb (has_status Status.FAILURE_DOMAIN_CONFLICT) (ff_nodes f)
  then (with_forest_status Status.FAILURE_DOMAIN_CONFLICT (ff_factors f) f, n)
  else if existsb (has_status Status.NO_AUTHORITATIVE_SOURCE) (ff_nodes f)
  then (with_forest_status Status.NO_AUTHORITATIVE_SOURCE (ff_factors f) f, n)
  else (with_forest_status Status.OK (ff_factors f) f, n).

Definition note_domain_conflict (now_ms : Z) (resources : resource_map) (n : notes)
    (node : failure_domain_node) : notes :=
  if has_status Status.FAILURE_DOMAIN_CONFLICT node then
    match om_find (domain_key (fdn_id node)) resources with
    | Some r => add_conflict now_ms Status.FAILURE_DOMAIN_CONFLICT (domain_key (fdn_id node)) (rr_sources r) [] n
    | None => n
    end
  else n.

(** The forest, the members of every domain ([domain_members_]) and the notes. *)
Definition build_failure_domains (now_ms : Z) (admissions : omap_t member_domain_key admission)
    (resources : resource_map) (n : notes)
    : failure_domain_forest * omap_t string (list resource_key) * notes :=
  let nodes := domain_node admissions <$> domain_records resources in
  let domain_members := (λ m, (fdn_id m, fdn_members m)) <$> nodes in
  let '(f, n) := foldl (push_node (fdn_id <$> nodes)) (no_forest, n) nodes in
  let '(f, n) := judge_forest now_ms (resolve_ancestry (sort_nodes f)) n in
  (f, domain_members, foldl (note_domain_conflict now_ms resources) n (ff_nodes f)).
