(* ===== verification/Maintenance.v ===== *)
(** Maintenance (compose.cpp, [collect_zone_scope], [obligation_overlaps_zone] and the first
    half of [Composer::build_maintenance]).

    A zone's scope is its resources and the members of its domains and their descendants. A
    zone over a protected obligation is refused; a zone of unknown state is held out; an
    active zone excludes its scope. *)

From stdpp Require Import sorting sets.
From S2P Require Import Prelude Ordering Enums Sha256 Identity Canonical Evidence Capacity Claims Canonicalize Forest Site Admit Attribute Domains.

Section zones.
Context (now_ms : Z) (resources : resource_map) (forest : failure_domain_forest)
  (domain_members : omap_t string (list resource_key)).

(** * Scopes *)

Definition collect_zone_scope (z : maintenance_zone) : list resource_key :=
  sort_unique (zone_resources z ++
    (d ← zone_domains z;
     default [] (om_find d domain_members)
     ++ (n ← ff_nodes forest; if ancestor_of n d then fdn_members n else []))).

(** The zones among the resources, with their records. *)
Definition zones : list (resource_key * resource_record * maintenance_zone) :=
  omap (λ p, if is_kind ResourceKind.MAINTENANCE_ZONE p
             then z ← ref_zone (rr_refs p.2); Some (p.1, p.2, z) else None) resources.

(** [zone_scope_]. *)
Definition zone_scopes : omap_t string (list resource_key) :=
  foldl (λ m '(_, r, z), om_set (zone_id z) (if rr_ok r then collect_zone_scope z else []) m) [] zones.

Definition scope_of (id : string) : list resource_key := default [] (om_find id zone_scopes).

Definition obligation_overlaps_zone (o : protected_obligation) (z : maintenance_zone) : bool :=
  if negb (ob_protected_from_maintenance o) then false
  else
    match ob_scope_resource o with
    | Some r => bool_decide (r ∈ scope_of (zone_id z))
    | None => false
    end
    || match ob_scope_domain o with
       | Some d =>
           bool_decide (d ∈ zone_domains z)
           || existsb (λ k, bool_decide (rk_kind k = ResourceKind.FAILURE_DOMAIN) && bool_decide (rk_id k = d))
                (scope_of (zone_id z))
           || match forest_find d forest with
              | Some n => existsb (ancestor_of n) (zone_domains z)
              | None => false
              end
       | None => false
       end.

(** The obligations that stand: attributed and pointed to. *)
Definition standing_obligations : list protected_obligation :=
  omap (λ p, if is_kind ResourceKind.OBLIGATION p && rr_ok p.2 then ref_obligation (rr_refs p.2) else None)
    resources.

Definition overlapping (z : maintenance_zone) : list string :=
  sort_unique (ob_id <$> List.filter (λ o, obligation_overlaps_zone o z) standing_obligations).

(** * Effects *)

Definition zone_effect (z : maintenance_zone) (excluded : list resource_key) (overlaps : list string)
    (s : status) (f : factors) : maintenance_effect :=
  MaintenanceEffect (zone_id z) (zone_state z) excluded [] overlaps all_unknown s f.

Definition apply_zone (st : list maintenance_effect * notes)
    (p : resource_key * resource_record * maintenance_zone) : list maintenance_effect * notes :=
  let '(effects, n) := st in
  let '(key, r, z) := p in
  if negb (rr_ok r) then
    (effects ++ [zone_effect z [] [] (rr_status r)
                   (factors_add_pair "zone_attribution" (to_string (rr_status r)) no_factors)], n)
  else
    let keys := scope_of (zone_id z) in
    let overlaps := overlapping z in
    if negb (bool_decide (overlaps = [])) then
      (effects ++ [zone_effect z [] overlaps Status.MAINTENANCE_CONFLICT
                     (factors_add_pair "overlapping_obligations" (dec (zlen overlaps)) no_factors)],
       add_conflict now_ms Status.MAINTENANCE_CONFLICT (ResourceKey ResourceKind.MAINTENANCE_ZONE (zone_id z))
         (rr_sources r) [] n)
    else if bool_decide (zone_state z = MaintenanceState.UNKNOWN) then
      (effects ++ [zone_effect z keys [] Status.MAINTENANCE_UNKNOWN (factors_add_pair "state" "UNKNOWN" no_factors)],
       n)
    else
      let f := if negb (window_contains z now_ms) && bool_decide (zone_state z = MaintenanceState.ACTIVE)
               then factors_add_pair "window" "does_not_contain_now" no_factors else no_factors in
      (effects ++ [zone_effect z (if excludes_capacity (zone_state z) then keys else []) [] Status.OK f], n).

Definition zone_effects (n : notes) : list maintenance_effect * notes :=
  let '(effects, n) := foldl apply_zone ([], n) zones in (sort_by me_id effects, n).

End zones.

(** * What maintenance takes out *)

Definition effect_excludes (e : maintenance_effect) : bool :=
  negb (bool_decide (me_status e = Status.MAINTENANCE_CONFLICT))
  && (excludes_capacity (me_state e) || bool_decide (me_status e = Status.MAINTENANCE_UNKNOWN)).

Definition excluded_keys (effects : list maintenance_effect) : list resource_key :=
  e ← effects; if effect_excludes e then me_excluded e else [].

(** [maintenance_indeterminate_]. *)
Definition maintenance_unknown (effects : list maintenance_effect) : bool :=
  existsb (λ e, bool_decide (me_status e = Status.MAINTENANCE_UNKNOWN)) effects.
