(* ===== verification/Ledger.v ===== *)
(** The capacity ledger (compose.cpp, [mask_for], [add_aggregate], [collect_ledger_builds] and
    the second half of [Composer::build_maintenance]).

    Racks, links, gateways and pools contribute their capacity to the channels their scope
    feeds. Counted entries form the total; entries maintenance excludes are subtracted from
    it; the rest must add up to what is available, which the ledger checks. *)

From Stdlib Require Import Btauto.
From stdpp Require Import sorting sets.
From S2P Require Import Prelude Ordering Enums Sha256 Identity Canonical Evidence Capacity Claims Canonicalize Forest Site Admit Attribute Domains Maintenance.

(** * Channel routing *)

Record channel_mask := ChannelMask { mask_ingress : bool; mask_egress : bool; mask_internal : bool }.

Definition mask_for (scope : capacity_scope) (external : bool) : channel_mask :=
  match scope with
  | CapacityScope.SITE_INGRESS => ChannelMask true false false
  | CapacityScope.SITE_EGRESS => ChannelMask false true false
  | CapacityScope.SITE_INTERNAL | CapacityScope.RACK_LOCAL | CapacityScope.POD_LOCAL
  | CapacityScope.CLUSTER_LOCAL => ChannelMask false false true
  | CapacityScope.SHARED_LINK =>
      if external then ChannelMask true true false else ChannelMask false false true
  | CapacityScope.GATEWAY => ChannelMask true true false
  | _ => ChannelMask false false false
  end.

(** [scope_for]; no caller in the source. *)
Definition scope_for (kind : resource_kind) : capacity_scope :=
  match kind with
  | ResourceKind.RACK => CapacityScope.RACK_LOCAL
  | ResourceKind.POD => CapacityScope.POD_LOCAL
  | ResourceKind.CLUSTER => CapacityScope.CLUSTER_LOCAL
  | ResourceKind.SHARED_LINK => CapacityScope.SHARED_LINK
  | ResourceKind.GATEWAY => CapacityScope.GATEWAY
  | _ => CapacityScope.UNKNOWN
  end.

Record ledger_build := LedgerBuild {
  lb_owner : resource_key;
  lb_scope : capacity_scope;
  lb_mask : channel_mask;
  lb_external : bool;
  lb_capacity : capacity_vector;
  lb_attestors : source_set;
  lb_status : status;
  lb_counted : bool;
  lb_factors : factors;
}.

(** What a resource contributes: its scope, mask, externality and capacity. *)
Definition contribution (r : claim_refs) : option (capacity_scope * channel_mask * bool * capacity_vector) :=
  match ref_rack r, ref_link r, ref_gateway r, ref_pool r with
  | Some c, _, _, _ =>
      Some (CapacityScope.RACK_LOCAL, mask_for CapacityScope.RACK_LOCAL false, false, rack_local_capacity c)
  | None, Some c, _, _ =>
      Some (CapacityScope.SHARED_LINK, mask_for CapacityScope.SHARED_LINK (link_external c), link_external c,
            link_capacity c)
  | None, None, Some c, _ =>
      Some (CapacityScope.GATEWAY, mask_for CapacityScope.GATEWAY true, false, gateway_capacity c)
  | None, None, None, Some c =>
      Some (contrib_scope c, mask_for (contrib_scope c) false, false, contrib_capacity c)
  | None, None, None, None => None
  end.

Definition no_mask (m : channel_mask) : bool :=
  negb (mask_ingress m) && negb (mask_egress m) && negb (mask_internal m).

Definition channel_unknown (m : channel_mask) (c : capacity_vector) : bool :=
  (mask_ingress m && negb (cv_known (ingress c))) || (mask_egress m && negb (cv_known (egress c)))
  || (mask_internal m && negb (cv_known (internal c))).

Definition ledger_build_of (p : resource_key * resource_record) : option ledger_build :=
  let '(key, r) := p in
  match contribution (rr_refs r) with
  | None => None
  | Some (scope, mask, external, capacity) =>
      let build := LedgerBuild key scope mask external capacity (rr_sources r) in
      Some (if negb (rr_ok r) then
              build (match rr_status r with Status.UNKNOWN => Status.NO_AUTHORITATIVE_SOURCE | s => s end)
                false (rr_factors r)
            else if no_mask mask then
              build Status.UNSUPPORTED false
                (factors_add_pair "scope" "does_not_feed_site_total" (rr_factors r))
            else
              build (if channel_unknown mask capacity then Status.CAPACITY_UNKNOWN else Status.OK) true
                (rr_factors r))
  end.

Definition collect_ledger_builds (resources : resource_map) : list ledger_build := omap ledger_build_of resources.

(** * Aggregation *)

Definition add_masked (on : bool) (channel : capacity_channel) (v : capacity_value)
    (a : capacity_aggregate) : capacity_aggregate := if on then (add_channel a channel v).2 else a.

(** [add_aggregate]. *)
Definition add_aggregate (a : capacity_aggregate) (b : ledger_build) : capacity_aggregate :=
  add_masked (mask_internal (lb_mask b)) CapacityChannel.INTERNAL (internal (lb_capacity b))
    (add_masked (mask_egress (lb_mask b)) CapacityChannel.EGRESS (egress (lb_capacity b))
       (add_masked (mask_ingress (lb_mask b)) CapacityChannel.INGRESS (ingress (lb_capacity b))
          (count_entry a))).

Record ledger_sums := LedgerSums {
  sum_total_ : capacity_aggregate;
  sum_available : capacity_aggregate;
  sum_excluded : capacity_aggregate;
  sum_indeterminate : capacity_aggregate;
}.
Definition no_sums : ledger_sums := LedgerSums no_aggregate no_aggregate no_aggregate no_aggregate.

Definition entry_of (b : ledger_build) (counted : bool) (f : factors) : capacity_ledger_entry :=
  CapacityLedgerEntry (lb_owner b) (lb_scope b) (lb_capacity b) (lb_attestors b) (lb_status b) counted f.

(** One step of the loop over the builds. *)
Definition post_build (excluded : list resource_key) (st : ledger_sums * list capacity_ledger_entry)
    (b : ledger_build) : ledger_sums * list capacity_ledger_entry :=
  let '(s, entries) := st in
  if negb (lb_counted b) then
    (LedgerSums (sum_total_ s) (sum_available s) (sum_excluded s) (add_aggregate (sum_indeterminate s) b),
     entries ++ [entry_of b false (lb_factors b)])
  else
    let total := add_aggregate (sum_total_ s) b in
    if bool_decide (lb_owner b ∈ excluded) then
      (LedgerSums total (sum_available s) (add_aggregate (sum_excluded s) b) (sum_indeterminate s),
       entries ++ [entry_of b false (factors_add_pair "maintenance" "excluded" (lb_factors b))])
    else
      (LedgerSums total (add_aggregate (sum_available s) b) (sum_excluded s) (sum_indeterminate s),
       entries ++ [entry_of b true (lb_factors b)]).

Definition post_builds (excluded : list resource_key) (builds : list ledger_build)
    : ledger_sums * list capacity_ledger_entry := foldl (post_build excluded) (no_sums, []) builds.

(** * The closing identity *)

(** A channel the total knows and nothing excluded is excluded by zero. *)
Definition zero_fill (s : ledger_sums) (channel : capacity_channel) (v : capacity_value) : capacity_value :=
  if negb (channel_seen (sum_excluded s) channel) && channel_known (sum_total_ s) channel
  then known_bps 0 else v.

Definition excluded_value (s : ledger_sums) : capacity_vector :=
  let v := aggregate_total (sum_excluded s) in
  CapacityVector (zero_fill s CapacityChannel.INGRESS (ingress v))
    (zero_fill s CapacityChannel.EGRESS (egress v)) (zero_fill s CapacityChannel.INTERNAL (internal v)).

(** One check: [closes] falls and a factor is added. *)
Definition require_closing (ok : bool) (prefix value : string) (st : bool * factors) : bool * factors :=
  if ok then st else (false, factors_add_pair prefix value st.2).

Definition agrees_channel (recombined total : capacity_value) : bool :=
  negb (cv_known recombined) || negb (cv_known total) || (cv_bps recombined =? cv_bps total).

(** The recombination: it starts from a vector that knows no channel. *)
Definition recombine_check (total available excluded : capacity_vector) (st : bool * factors) : bool * factors :=
  match add_capacity all_unknown available ≫= (λ first, add_capacity first excluded) with
  | Err _ => (false, factors_add_pair "recombine" "overflow" st.2)
  | Ok recombined =>
      require_closing
        (agrees_channel (ingress recombined) (ingress total)
         && agrees_channel (egress recombined) (egress total)
         && agrees_channel (internal recombined) (internal total))
        "available_plus_excluded" "does_not_equal_total" st
  end.

Definition disagrees (left right : capacity_value) : bool :=
  if negb (Bool.eqb (cv_known left) (cv_known right)) then true
  else cv_known left && negb (cv_bps left =? cv_bps right).

Definition sums_match (recomputed available : capacity_vector) : bool :=
  negb (disagrees (ingress recomputed) (ingress available)
        || disagrees (egress recomputed) (egress available)
        || disagrees (internal recomputed) (internal available)).

Definition close_ledger (s : ledger_sums) (entries : list capacity_ledger_entry) : capacity_ledger :=
  let total := aggregate_total (sum_total_ s) in
  let excluded := excluded_value s in
  let '(available, closes, f) :=
    match subtract_capacity total excluded with
    | Ok available => (available, true, no_factors)
    | Err st => (all_unknown, false, factors_add_pair "available" (to_string st) no_factors)
    end in
  let st := (closes, f) in
  let st := require_closing
    (negb (aggregate_overflowed (sum_total_ s) || aggregate_overflowed (sum_excluded s)
           || aggregate_overflowed (sum_available s) || aggregate_overflowed (sum_indeterminate s)))
    "overflow" "true" st in
  let st := require_closing (capacity_leq excluded total) "excluded_exceeds_total" "true" st in
  let st := require_closing (capacity_leq available total) "available_exceeds_total" "true" st in
  let st := recombine_check total available excluded st in
  let st := require_closing (sums_match (aggregate_total (sum_available s)) available)
    "available" "does_not_match_sum_of_entries" st in
  let total_status := aggregate_status (sum_total_ s) in
  let '(ledger_status, f) :=
    if is_ok total_status then (Status.OK, st.2)
    else (total_status, factors_add_pair "aggregate" (to_string total_status) st.2) in
  CapacityLedger entries total available excluded (aggregate_total (sum_indeterminate s)) st.1 ledger_status f.

Definition build_ledger (resources : resource_map) (excluded : list resource_key) : capacity_ledger :=
  let '(s, entries) := post_builds excluded (collect_ledger_builds resources) in close_ledger s entries.

(** [Composer::build_maintenance]: the effects, the ledger and whether a zone's state is
    unknown. *)
Definition build_maintenance (now_ms : Z) (resources : resource_map) (forest : failure_domain_forest)
    (domain_members : omap_t string (list resource_key)) (n : notes)
    : list maintenance_effect * capacity_ledger * bool * notes :=
  let '(effects, n) := zone_effects now_ms resources forest domain_members n in
  (effects, build_ledger resources (excluded_keys effects), maintenance_unknown effects, n).

(** ** The ledger, channel by channel *)

(** The values a list of builds feeds into one channel. *)
Definition mask_on (m : channel_mask) (channel : capacity_channel) : bool :=
  match channel with
  | CapacityChannel.INGRESS => mask_ingress m
  | CapacityChannel.EGRESS => mask_egress m
  | CapacityChannel.INTERNAL => mask_internal m
  | _ => false
  end.
Definition feeding (channel : capacity_channel) (bs : list ledger_build) : list capacity_value :=
  (λ b, channel_value (lb_capacity b) channel) <$> List.filter (λ b, mask_on (lb_mask b) channel) bs.

(** The three dispositions of a build. *)
Definition counted (bs : list ledger_build) : list ledger_build := List.filter lb_counted bs.
Definition excluded_by (excluded : list resource_key) (bs : list ledger_build) : list ledger_build :=
  List.filter (λ b, bool_decide (lb_owner b ∈ excluded)) (counted bs).
Definition remaining (excluded : list resource_key) (bs : list ledger_build) : list ledger_build :=
  List.filter (λ b, negb (bool_decide (lb_owner b ∈ excluded))) (counted bs).
Definition uncounted (bs : list ledger_build) : list ledger_build := List.filter (λ b, negb (lb_counted b)) bs.

Definition channel_of (a : capacity_aggregate) (channel : capacity_channel) : channel_state :=
  match channel with
  | CapacityChannel.INGRESS => ca_ingress a
  | CapacityChannel.EGRESS => ca_egress a
  | CapacityChannel.INTERNAL => ca_internal a
  | _ => no_channel
  end.

Definition fold_aggregate (bs : list ledger_build) : capacity_aggregate := foldl add_aggregate no_aggregate bs.

Lemma add_channel_fields a v :
  (add_channel a CapacityChannel.INGRESS v).2
    = CapacityAggregate (channel_add (ca_ingress a) v).2 (ca_egress a) (ca_internal a) (ca_contributions a)
  ∧ (add_channel a CapacityChannel.EGRESS v).2
    = CapacityAggregate (ca_ingress a) (channel_add (ca_egress a) v).2 (ca_internal a) (ca_contributions a)
  ∧ (add_channel a CapacityChannel.INTERNAL v).2
    = CapacityAggregate (ca_ingress a) (ca_egress a) (channel_add (ca_internal a) v).2 (ca_contributions a).
Proof.
  unfold add_channel. destruct (channel_add (ca_ingress a) v), (channel_add (ca_egress a) v),
    (channel_add (ca_internal a) v). done.
Qed.

Lemma add_aggregate_channel a b channel :
  channel_of (add_aggregate a b) channel =
  if mask_on (lb_mask b) channel
  then (channel_add (channel_of a channel) (channel_value (lb_capacity b) channel)).2
  else channel_of a channel.
Proof.
  unfold add_aggregate, add_masked.
  destruct (mask_ingress (lb_mask b)) eqn:E1, (mask_egress (lb_mask b)) eqn:E2, (mask_internal (lb_mask b)) eqn:E3;
    repeat (destruct (add_channel_fields (count_entry a) (ingress (lb_capacity b))) as (-> & _ & _)
      || rewrite (proj1 (proj2 (add_channel_fields _ _))) || rewrite (proj2 (proj2 (add_channel_fields _ _))));
    destruct channel; cbn; by rewrite ?E1, ?E2, ?E3.
Qed.

Lemma fold_aggregate_channel bs channel :
  channel_of (fold_aggregate bs) channel = channel_add_all no_channel (feeding channel bs).
Proof.
  unfold fold_aggregate, feeding, channel_add_all. induction bs as [|b bs IH] using rev_ind; [by destruct channel|].
  rewrite foldl_app, List.filter_app, fmap_app, foldl_app. cbn [foldl]. rewrite add_aggregate_channel, IH.
  cbn [List.filter]. by destruct (mask_on (lb_mask b) channel).
Qed.

Lemma post_builds_sums excluded bs :
  (post_builds excluded bs).1
  = LedgerSums (fold_aggregate (counted bs)) (fold_aggregate (remaining excluded bs))
      (fold_aggregate (excluded_by excluded bs)) (fold_aggregate (uncounted bs)).
Proof.
  unfold post_builds. induction bs as [|b bs IH] using rev_ind; [done|].
  rewrite foldl_app. cbn [foldl]. unfold post_build at 1.
  destruct (foldl (post_build excluded) (no_sums, []) bs) as [s entries]. cbn [fst] in IH. subst s.
  unfold remaining, excluded_by, uncounted, counted, fold_aggregate.
  rewrite !List.filter_app, !foldl_app. cbn [List.filter]. destruct (lb_counted b); cbn [negb List.filter foldl].
  - destruct (bool_decide (lb_owner b ∈ excluded)); cbn [negb]; by rewrite ?app_nil_r.
  - by rewrite ?app_nil_r.
Qed.

Definition builds_wf (bs : list ledger_build) : Prop := Forall (λ b, capacity_wf (lb_capacity b)) bs.

Lemma feeding_wf channel bs : builds_wf bs → Forall cv_wf (feeding channel bs).
Proof.
  unfold builds_wf, feeding. intros Hwf. apply Forall_fmap. apply Forall_forall. intros b Hb.
  apply list_elem_of_In, List.filter_In in Hb as [Hb%list_elem_of_In _].
  rewrite Forall_forall in Hwf. destruct (Hwf _ Hb) as (H1 & H2 & H3).
  unfold channel_value. by destruct channel.
Qed.

Lemma feeding_app channel a b : feeding channel (a ++ b) = feeding channel a ++ feeding channel b.
Proof. unfold feeding. by rewrite List.filter_app, fmap_app. Qed.

Lemma feeding_unknown bs : feeding CapacityChannel.UNKNOWN bs = [].
Proof. unfold feeding. simpl. by rewrite List.filter_false. Qed.

Lemma filter_split {A} (f : A → bool) l : l ≡ₚ List.filter f l ++ List.filter (λ x, negb (f x)) l.
Proof.
  induction l as [|x l IH]; simpl; [done|]. destruct (f x); simpl; [by rewrite <- IH|].
  rewrite <- Permutation_middle. by rewrite <- IH.
Qed.

Lemma feeding_perm channel a b : a ≡ₚ b → feeding channel a ≡ₚ feeding channel b.
Proof.
  induction 1 as [|x a b _ IH|x y a|a b c _ IH1 _ IH2]; [done| | |by rewrite IH1].
  - change (feeding channel ([x] ++ a) ≡ₚ feeding channel ([x] ++ b)). rewrite !feeding_app. by rewrite IH.
  - change (feeding channel ([y] ++ [x] ++ a) ≡ₚ feeding channel ([x] ++ [y] ++ a)).
    rewrite !feeding_app, !app_assoc. by rewrite (Permutation_app_comm (feeding channel [y])).
Qed.

Lemma value_sum_app l k : value_sum (l ++ k) = value_sum l + value_sum k.
Proof. induction l as [|x l IH]; simpl; lia. Qed.

(** The values of a channel: all counted ones, those maintenance excludes, the rest. *)
Lemma feeding_split channel excluded bs :
  feeding channel (counted bs)
    ≡ₚ feeding channel (excluded_by excluded bs) ++ feeding channel (remaining excluded bs).
Proof.
  rewrite <- feeding_app. apply feeding_perm. unfold excluded_by, remaining. apply filter_split.
Qed.

(** The three numbers of one channel, as values. *)
Definition split_excluded (counted out : list capacity_value) : capacity_value :=
  if bool_decide (out = []) && cv_known (sum_total counted) then known_bps 0 else sum_total out.
Definition split_available (counted rest : list capacity_value) : capacity_value :=
  if cv_known (sum_total counted) then known_bps (value_sum rest) else cv_unknown.

Lemma sum_total_known l :
  cv_known (sum_total l) = true ↔ forallb cv_known l = true ∧ l ≠ [] ∧ value_sum l ≤ kMaxCapacityBps.
Proof.
  unfold sum_total. destruct (_ && _) eqn:E; simpl.
  - rewrite !andb_true_iff, negb_true_iff, bool_decide_eq_false, Z.leb_le in E. naive_solver.
  - split; [done|]. intros (H1 & H2 & H3). rewrite H1, bool_decide_eq_false_2 in E by done. simpl in E.
    apply Z.leb_gt in E. lia.
Qed.

Lemma sum_total_value l : cv_known (sum_total l) = true → sum_total l = known_bps (value_sum l).
Proof. unfold sum_total. by destruct (_ && _). Qed.

Lemma forallb_perm {A} (f : A → bool) l k : l ≡ₚ k → forallb f l = forallb f k.
Proof. induction 1; simpl; [done | congruence | btauto | congruence]. Qed.

Section split.
Context (all out rest : list capacity_value).
Hypothesis Hsplit : all ≡ₚ out ++ rest.
Hypothesis Hwf : Forall cv_wf all.

Lemma split_sums : value_sum all = value_sum out + value_sum rest ∧ 0 ≤ value_sum out ∧ 0 ≤ value_sum rest.
Proof using All.
  rewrite (value_sum_perm _ _ Hsplit), value_sum_app. rewrite Hsplit in Hwf. apply Forall_app in Hwf as [H1 H2].
  split_and!; [done|by apply value_sum_nonneg..].
Qed.

Lemma split_known :
  cv_known (sum_total all) = true →
  forallb cv_known out = true ∧ forallb cv_known rest = true
  ∧ value_sum out + value_sum rest ≤ kMaxCapacityBps ∧ split_excluded all out = known_bps (value_sum out).
Proof using All.
  intros Hk. pose proof split_sums as (Hs & Ho & Hr). pose proof Hk as (Hall & Hne & Hle)%sum_total_known.
  assert (forallb cv_known out && forallb cv_known rest = true) as Hb.
  { rewrite <- forallb_app. by rewrite <- (forallb_perm cv_known _ _ Hsplit). }
  apply andb_true_iff in Hb as [Hbo Hbr]. split_and!; [done|done|lia|].
  unfold split_excluded. rewrite Hk. case_bool_decide as Hout; simpl; [by rewrite Hout|].
  apply sum_total_value, sum_total_known. split_and!; [done|done|lia].
Qed.

Lemma split_subtract :
  subtract_channel (sum_total all) (split_excluded all out) = Ok (split_available all rest).
Proof using All.
  unfold split_available. destruct (cv_known (sum_total all)) eqn:Hk.
  - destruct (split_known Hk) as (_ & _ & Hle & ->). pose proof split_sums as (Hs & Ho & Hr).
    rewrite (sum_total_value _ Hk). unfold subtract_channel. simpl.
    rewrite (proj2 (Z.ltb_ge _ _)) by lia. do 2 f_equal. rewrite wrap_small; [lia|].
    unfold in_u, kMaxCapacityBps in *. lia.
  - unfold subtract_channel. by rewrite Hk.
Qed.

Lemma split_leq :
  leq_value (split_excluded all out) (sum_total all) = true
  ∧ leq_value (split_available all rest) (sum_total all) = true.
Proof using All.
  unfold leq_value, split_available. destruct (cv_known (sum_total all)) eqn:Hk.
  - destruct (split_known Hk) as (_ & _ & Hle & ->). pose proof split_sums as (Hs & Ho & Hr).
    rewrite (sum_total_value _ Hk). simpl.
    split; apply negb_true_iff, Z.ltb_ge; lia.
  - by rewrite !andb_false_r.
Qed.

Lemma split_disagrees :
  disagrees (sum_total rest) (split_available all rest)
  = negb (Bool.eqb (cv_known (sum_total rest)) (cv_known (sum_total all))).
Proof using All.
  unfold disagrees, split_available. destruct (cv_known (sum_total all)) eqn:Hk; simpl.
  - destruct (cv_known (sum_total rest)) eqn:Hr; simpl; [|done].
    by rewrite (sum_total_value _ Hr), Z.eqb_refl.
  - by destruct (cv_known (sum_total rest)).
Qed.
End split.

(** ** The closed ledger *)

Section ledger.
Context (excluded : list resource_key) (bs : list ledger_build).
Hypothesis Hwf : builds_wf bs.

Local Abbreviation all ch := (feeding ch (counted bs)).
Local Abbreviation out ch := (feeding ch (excluded_by excluded bs)).
Local Abbreviation rest ch := (feeding ch (remaining excluded bs)).

Lemma filter_wf (f : ledger_build → bool) l : builds_wf l → builds_wf (List.filter f l).
Proof using Type.
  unfold builds_wf. rewrite !Forall_forall. intros H b Hb.
  apply list_elem_of_In, List.filter_In in Hb as [Hb%list_elem_of_In _]. by apply H.
Qed.

Lemma groups_wf : builds_wf (counted bs) ∧ builds_wf (excluded_by excluded bs) ∧ builds_wf (remaining excluded bs)
  ∧ builds_wf (uncounted bs).
Proof using Hwf. split_and!; repeat apply filter_wf; exact Hwf. Qed.

Lemma aggregate_channel l ch :
  builds_wf l → channel_value (aggregate_total (fold_aggregate l)) ch = sum_total (feeding ch l).
Proof using Type.
  intros Hl. rewrite <- (channel_total_spec _ (feeding_wf ch l Hl)), <- fold_aggregate_channel.
  unfold aggregate_total. by destruct ch.
Qed.

Lemma aggregate_seen l ch : builds_wf l → channel_seen (fold_aggregate l) ch = negb (bool_decide (feeding ch l = [])).
Proof using Type.
  intros Hl. destruct (channel_add_all_inv _ (feeding_wf ch l Hl)) as (<- & _).
  rewrite <- fold_aggregate_channel. by destruct ch.
Qed.

Lemma aggregate_known l ch : builds_wf l → channel_known (fold_aggregate l) ch = cv_known (sum_total (feeding ch l)).
Proof using Type.
  intros Hl. rewrite <- (channel_total_spec _ (feeding_wf ch l Hl)), <- fold_aggregate_channel.
  unfold channel_total. destruct ch; simpl; try done; by destruct (channel_is_known _).
Qed.

(** No channel of a group of builds adds up past the bound. *)
Definition fits (l : list ledger_build) : Prop := ∀ ch, value_sum (feeding ch l) ≤ kMaxCapacityBps.

Lemma aggregate_overflow l : builds_wf l → aggregate_overflowed (fold_aggregate l) = false ↔ fits l.
Proof using Type.
  intros Hl. assert (∀ ch, ch_overflowed (channel_of (fold_aggregate l) ch) = false ↔ value_sum (feeding ch l) ≤ kMaxCapacityBps) as Hch.
  { intros ch. destruct (channel_add_all_inv _ (feeding_wf ch l Hl)) as (_ & _ & Ho & _).
    rewrite fold_aggregate_channel, Ho. apply Z.ltb_ge. }
  unfold aggregate_overflowed, fits. rewrite !orb_false_iff.
  rewrite (Hch CapacityChannel.INGRESS), (Hch CapacityChannel.EGRESS), (Hch CapacityChannel.INTERNAL).
  split; [|naive_solver]. intros [[? ?] ?] []; try done. by rewrite feeding_unknown.
Qed.

Definition available_vector : capacity_vector :=
  CapacityVector (split_available (all CapacityChannel.INGRESS) (rest CapacityChannel.INGRESS))
    (split_available (all CapacityChannel.EGRESS) (rest CapacityChannel.EGRESS))
    (split_available (all CapacityChannel.INTERNAL) (rest CapacityChannel.INTERNAL)).

Local Abbreviation sums := (post_builds excluded bs).1.

Lemma excluded_channel ch : channel_value (excluded_value sums) ch = split_excluded (all ch) (out ch).
Proof using Hwf.
  destruct groups_wf as (H1 & H2 & _). rewrite post_builds_sums. unfold split_excluded.
  rewrite <- (aggregate_channel _ ch H2). rewrite <- (aggregate_known _ ch H1).
  rewrite <- (negb_involutive (bool_decide _)), <- (aggregate_seen _ ch H2).
  unfold excluded_value, zero_fill. by destruct ch.
Qed.

Lemma ledger_subtract :
  subtract_capacity (aggregate_total (sum_total_ sums)) (excluded_value sums) = Ok available_vector.
Proof using Hwf.
  destruct groups_wf as (H1 & H2 & _).
  assert (∀ ch, subtract_channel (channel_value (aggregate_total (sum_total_ sums)) ch)
    (channel_value (excluded_value sums) ch) = Ok (split_available (all ch) (rest ch))) as Hch.
  { intros ch. rewrite excluded_channel, post_builds_sums. simpl. rewrite (aggregate_channel _ ch H1).
    apply split_subtract; [apply feeding_split|by apply feeding_wf]. }
  unfold subtract_capacity.
  rewrite (Hch CapacityChannel.INGRESS : subtract_channel (ingress _) (ingress _) = _).
  cbn [mbind result_bind]. rewrite (Hch CapacityChannel.EGRESS : subtract_channel (egress _) (egress _) = _).
  cbn [mbind result_bind]. rewrite (Hch CapacityChannel.INTERNAL : subtract_channel (internal _) (internal _) = _).
  done.
Qed.

Lemma ledger_leq :
  capacity_leq (excluded_value sums) (aggregate_total (sum_total_ sums)) = true
  ∧ capacity_leq available_vector (aggregate_total (sum_total_ sums)) = true.
Proof using Hwf.
  destruct groups_wf as (H1 & H2 & _).
  assert (∀ ch, leq_value (channel_value (excluded_value sums) ch) (channel_value (aggregate_total (sum_total_ sums)) ch) = true
    ∧ leq_value (split_available (all ch) (rest ch)) (channel_value (aggregate_total (sum_total_ sums)) ch) = true) as Hch.
  { intros ch. rewrite excluded_channel, post_builds_sums. simpl. rewrite (aggregate_channel _ ch H1).
    apply split_leq; [apply feeding_split|by apply feeding_wf]. }
  unfold capacity_leq. simpl.
  destruct (Hch CapacityChannel.INGRESS) as [A1 A2], (Hch CapacityChannel.EGRESS) as [B1 B2],
    (Hch CapacityChannel.INTERNAL) as [C1 C2]. simpl in *. by rewrite A1, A2, B1, B2, C1, C2.
Qed.

(** The recombination starts from unknown channels, so it never disagrees. *)
Lemma recombine_vacuous total available e st : recombine_check total available e st = st.
Proof using Type.
  assert (∀ v, add_value cv_unknown v = Ok cv_unknown) as Hv.
  { intros v. unfold add_value. simpl. by rewrite orb_true_r. }
  assert (∀ v, add_capacity all_unknown v = Ok all_unknown) as Hc.
  { intros v. unfold add_capacity. cbn [ingress egress internal all_unknown]. by rewrite !Hv. }
  unfold recombine_check. rewrite Hc. cbn [mbind result_bind]. by rewrite Hc.
Qed.

Lemma ledger_sums_match :
  sums_match (aggregate_total (sum_available sums)) available_vector = true ↔
  ∀ ch, cv_known (sum_total (all ch)) = cv_known (sum_total (rest ch)).
Proof using Hwf.
  destruct groups_wf as (H1 & H2 & H3 & _).
  assert (∀ ch, disagrees (channel_value (aggregate_total (sum_available sums)) ch) (split_available (all ch) (rest ch)) = false
    ↔ cv_known (sum_total (all ch)) = cv_known (sum_total (rest ch))) as Hch.
  { intros ch. rewrite post_builds_sums. simpl. rewrite (aggregate_channel _ ch H3).
    rewrite (split_disagrees _ _ _ (feeding_split ch excluded bs)), negb_false_iff, eqb_true_iff; [done|].
    by apply feeding_wf. }
  unfold sums_match. rewrite negb_true_iff, !orb_false_iff.
  rewrite (Hch CapacityChannel.INGRESS : disagrees (ingress _) (ingress available_vector) = false ↔ _).
  rewrite (Hch CapacityChannel.EGRESS : disagrees (egress _) (egress available_vector) = false ↔ _).
  rewrite (Hch CapacityChannel.INTERNAL : disagrees (internal _) (internal available_vector) = false ↔ _).
  split; [|naive_solver]. intros [[? ?] ?] []; try done. by rewrite !feeding_unknown.
Qed.
End ledger.

(** The ledger as its parts. *)
Lemma build_ledger_fields resources excluded :
  let bs := collect_ledger_builds resources in
  builds_wf bs →
  let l := build_ledger resources excluded in
  let s := (post_builds excluded bs).1 in
  cl_entries l = (post_builds excluded bs).2 ∧ cl_total l = aggregate_total (sum_total_ s)
  ∧ cl_excluded_by_maintenance l = excluded_value s ∧ cl_available l = available_vector excluded bs
  ∧ (cl_closes_exactly l = true ↔
       aggregate_overflowed (sum_total_ s) = false ∧ aggregate_overflowed (sum_excluded s) = false
       ∧ aggregate_overflowed (sum_available s) = false ∧ aggregate_overflowed (sum_indeterminate s) = false
       ∧ sums_match (aggregate_total (sum_available s)) (available_vector excluded bs) = true).
Proof.
  intros bs Hwf. cbv zeta. unfold build_ledger. fold bs.
  pose proof (ledger_subtract excluded bs Hwf) as Hsub. pose proof (ledger_leq excluded bs Hwf) as [Hl1 Hl2].
  destruct (post_builds excluded bs) as [s entries]. cbn [fst snd] in *.
  unfold close_ledger. rewrite Hsub. cbv zeta. rewrite Hl1, Hl2, recombine_vacuous.
  unfold require_closing.
  destruct (is_ok (aggregate_status (sum_total_ s))),
    (aggregate_overflowed (sum_total_ s)), (aggregate_overflowed (sum_excluded s)),
    (aggregate_overflowed (sum_available s)), (aggregate_overflowed (sum_indeterminate s)),
    (sums_match (aggregate_total (sum_available s)) (available_vector excluded bs));
    cbn; split_and!; try done; naive_solver.
Qed.

(** The line of the ledger for a build. *)
Definition line_of (excluded : list resource_key) (b : ledger_build) : capacity_ledger_entry :=
  if lb_counted b && bool_decide (lb_owner b ∈ excluded)
  then entry_of b false (factors_add_pair "maintenance" "excluded" (lb_factors b))
  else entry_of b (lb_counted b) (lb_factors b).

Lemma post_builds_lines excluded bs : (post_builds excluded bs).2 = line_of excluded <$> bs.
Proof.
  unfold post_builds. induction bs as [|b bs IH] using rev_ind; [done|].
  rewrite foldl_app, fmap_app, <- IH. cbn [foldl]. unfold post_build at 1.
  destruct (foldl (post_build excluded) (no_sums, []) bs) as [s entries]. cbn [snd]. cbn [fmap list_fmap].
  unfold line_of. destruct (lb_counted b), (bool_decide (lb_owner b ∈ excluded)); done.
Qed.

Lemma build_ledger_indeterminate resources excluded :
  cl_indeterminate (build_ledger resources excluded)
  = aggregate_total (sum_indeterminate (post_builds excluded (collect_ledger_builds resources)).1).
Proof.
  unfold build_ledger. destruct (post_builds _ _) as [s entries]. unfold close_ledger.
  destruct (subtract_capacity _ _); by destruct (is_ok _).
Qed.

(** C5: the ledger is exact, channel by channel. The total is the sum of every attributed entry
    that feeds the channel, and the indeterminate capacity that of every other entry; a sum
    without entries, with one that is unknown or above the largest capacity is unknown. What maintenance excludes is the
    sum of the excluded entries, or zero when no entry of a channel with a known total is
    excluded. When the total is known, the excluded and the available capacity are the sums of
    the excluded and of the remaining entries and add up to it, so no capacity is invented or
    lost; when it is unknown, so is what is available. Every contribution has its line, in
    order, with its owner, scope, capacity, attestors and status; it is marked as counted in
    the total exactly when it is attributed and not excluded - although excluded entries are
    part of the total. *)
Theorem ledger_exact (resources : resource_map) (excluded : list resource_key) (ch : capacity_channel) :
  let bs := collect_ledger_builds resources in
  builds_wf bs →
  let l := build_ledger resources excluded in
  let all := feeding ch (counted bs) in
  let out := feeding ch (excluded_by excluded bs) in
  let rest := feeding ch (remaining excluded bs) in
  channel_value (cl_total l) ch = sum_total all
  ∧ channel_value (cl_indeterminate l) ch = sum_total (feeding ch (uncounted bs))
  ∧ channel_value (cl_excluded_by_maintenance l) ch
      = (if bool_decide (out = []) && cv_known (sum_total all) then known_bps 0 else sum_total out)
  ∧ (cv_known (sum_total all) = true →
       channel_value (cl_excluded_by_maintenance l) ch = known_bps (value_sum out)
       ∧ channel_value (cl_available l) ch = known_bps (value_sum rest)
       ∧ value_sum out + value_sum rest = value_sum all)
  ∧ (cv_known (sum_total all) = false → channel_value (cl_available l) ch = cv_unknown)
  ∧ cl_entries l = line_of excluded <$> bs.
Proof.
  intros bs Hwf. cbv zeta. rewrite build_ledger_indeterminate.
  destruct (build_ledger_fields resources excluded Hwf) as (-> & -> & -> & -> & _). fold bs.
  destruct (groups_wf excluded bs Hwf) as (H1 & _ & _ & H4). rewrite post_builds_lines.
  rewrite (excluded_channel excluded bs Hwf), post_builds_sums. cbn [sum_total_ sum_indeterminate].
  rewrite (aggregate_channel _ ch H1), (aggregate_channel _ ch H4).
  assert (channel_value (available_vector excluded bs) ch
    = split_available (feeding ch (counted bs)) (feeding ch (remaining excluded bs))) as ->.
  { destruct ch; try done. unfold split_available. by rewrite feeding_unknown. }
  pose proof (split_known _ _ _ (feeding_split ch excluded bs) (feeding_wf ch _ H1)) as Hk.
  pose proof (split_sums _ _ _ (feeding_split ch excluded bs) (feeding_wf ch _ H1)) as (Hs & _).
  unfold split_available. split_and!; [done|done|done| |by intros ->|done].
  intros Hkn. destruct (Hk Hkn) as (_ & _ & _ & ->). by rewrite Hkn.
Qed.

(** C6: when the ledger says it closes: [closes_exactly] holds exactly when no group of entries
    (counted, excluded, remaining, not attributed) overflows a channel, and every channel is
    known in the total exactly when the entries left after maintenance make it known. *)
Theorem ledger_closes_iff (resources : resource_map) (excluded : list resource_key) :
  let bs := collect_ledger_builds resources in
  builds_wf bs →
  cl_closes_exactly (build_ledger resources excluded) = true ↔
    (fits (counted bs) ∧ fits (excluded_by excluded bs) ∧ fits (remaining excluded bs) ∧ fits (uncounted bs))
    ∧ ∀ ch, cv_known (sum_total (feeding ch (counted bs)))
            = cv_known (sum_total (feeding ch (remaining excluded bs))).
Proof.
  intros bs Hwf. destruct (build_ledger_fields resources excluded Hwf) as (_ & _ & _ & _ & ->). fold bs.
  rewrite (ledger_sums_match excluded bs Hwf), post_builds_sums. cbn.
  destruct (groups_wf excluded bs Hwf) as (H1 & H2 & H3 & H4).
  rewrite !aggregate_overflow by done. naive_solver.
Qed.

(** A channel taken out whole breaks the check: when every entry of a known channel is under
    maintenance, the available capacity is zero and the excluded one is the total - the
    identity holds - yet the ledger is reported as not closing. *)
Theorem full_exclusion_does_not_close (resources : resource_map) (excluded : list resource_key)
    (ch : capacity_channel) :
  let bs := collect_ledger_builds resources in
  builds_wf bs → cv_known (sum_total (feeding ch (counted bs))) = true →
  feeding ch (remaining excluded bs) = [] →
  let l := build_ledger resources excluded in
  channel_value (cl_available l) ch = known_bps 0
  ∧ channel_value (cl_excluded_by_maintenance l) ch = channel_value (cl_total l) ch
  ∧ cl_closes_exactly l = false.
Proof.
  intros bs Hwf Hk Hrest. cbv zeta.
  destruct (build_ledger_fields resources excluded Hwf) as (_ & -> & -> & -> & Hc). fold bs in Hc |- *.
  rewrite (ledger_sums_match excluded bs Hwf) in Hc.
  destruct (groups_wf excluded bs Hwf) as (H1 & _).
  pose proof (split_known _ _ _ (feeding_split ch excluded bs) (feeding_wf ch _ H1) Hk) as (_ & _ & _ & He).
  pose proof (split_sums _ _ _ (feeding_split ch excluded bs) (feeding_wf ch _ H1)) as (Hs & _).
  split_and!.
  - assert (channel_value (available_vector excluded bs) ch
      = split_available (feeding ch (counted bs)) (feeding ch (remaining excluded bs))) as ->.
    { destruct ch; try done. unfold split_available. by rewrite feeding_unknown. }
    unfold split_available. by rewrite Hk, Hrest.
  - rewrite (excluded_channel excluded bs Hwf), He, post_builds_sums. cbn [sum_total_].
    rewrite (aggregate_channel _ ch H1), (sum_total_value _ Hk), Hs, Hrest. simpl. by rewrite Z.add_0_r.
  - apply not_true_is_false. rewrite Hc. intros (_ & _ & _ & _ & Hall). specialize (Hall ch).
    rewrite Hk, Hrest in Hall. discriminate.
Qed.

(** ** A sample: two attributed racks, the second under maintenance *)

Definition sample_rack (id : string) (bps : Z) : resource_key * resource_record :=
  (ResourceKey ResourceKind.RACK id,
   ResourceRecord (ResourceKey ResourceKind.RACK id) [] 1 zero_digest Status.OK no_factors true
     (ClaimRefs (Some (RackClaim id 1 zero_digest (uniform bps) ConnectivityState.UP no_evidence))
        None None None None None None None None)).
Definition sample_racks : resource_map := [sample_rack "rack-1" 100; sample_rack "rack-2" 40].
Definition sample_out : list resource_key := [ResourceKey ResourceKind.RACK "rack-2"].

Lemma sample_racks_wf : builds_wf (collect_ledger_builds sample_racks).
Proof. repeat constructor; done || (vm_compute; intros; discriminate). Qed.

Lemma ledger_exact_witness :
  channel_value (cl_available (build_ledger sample_racks sample_out)) CapacityChannel.INTERNAL = known_bps 100.
Proof.
  destruct (ledger_exact sample_racks sample_out CapacityChannel.INTERNAL sample_racks_wf) as (_ & _ & _ & H & _).
  destruct H as (_ & H & _); [vm_compute; reflexivity|]. rewrite H. vm_compute. reflexivity.
Defined.

Lemma ledger_closes_iff_witness : cl_closes_exactly (build_ledger sample_racks sample_out) = true.
Proof.
  apply (ledger_closes_iff sample_racks sample_out sample_racks_wf). split.
  - split_and!; intros []; vm_compute; by intros [=].
  - intros []; vm_compute; reflexivity.
Defined.

Lemma full_exclusion_does_not_close_witness :
  cl_closes_exactly (build_ledger sample_racks (sample_racks.*1)) = false.
Proof.
  apply (full_exclusion_does_not_close sample_racks (sample_racks.*1) CapacityChannel.INTERNAL sample_racks_wf);
    vm_compute; reflexivity.
Defined.
