(* ===== verification/Verdicts.v ===== *)
(** Connectivity and obligations (compose.cpp, [Composer::build_connectivity] and
    [Composer::build_obligations]).

    Links and gateways are counted by state. Every attributed obligation is measured against
    what is available, counting only what is known; a shortfall with unknown members is
    indeterminate rather than violated. The source reads the link or gateway claim of a
    resource through a pointer that can be null: [None] below is that dereference. *)

From stdpp Require Import sorting sets.
From S2P Require Import Prelude Ordering Enums Sha256 Identity Canonical Evidence Capacity Claims Canonicalize Forest Site Samples Admit Attribute Domains Maintenance Ledger.

(** * Connectivity *)

Record tally := Tally { t_total : Z; t_up : Z; t_down : Z; t_degraded : Z; t_unknown : Z }.
Definition no_tally : tally := Tally 0 0 0 0 0.

(** One link or gateway counted: [None] when it is not attributed. *)
Definition count_state (s : option connectivity_state) (t : tally) : tally :=
  match s with
  | Some ConnectivityState.UP => Tally (t_total t + 1) (t_up t + 1) (t_down t) (t_degraded t) (t_unknown t)
  | Some ConnectivityState.DOWN => Tally (t_total t + 1) (t_up t) (t_down t + 1) (t_degraded t) (t_unknown t)
  | Some ConnectivityState.DEGRADED =>
      Tally (t_total t + 1) (t_up t) (t_down t) (t_degraded t + 1) (t_unknown t)
  | _ => Tally (t_total t + 1) (t_up t) (t_down t) (t_degraded t) (t_unknown t + 1)
  end.

Definition state_known (s : option connectivity_state) : bool :=
  match s with
  | Some ConnectivityState.UP | Some ConnectivityState.DOWN | Some ConnectivityState.DEGRADED => true
  | _ => false
  end.

Record connectivity_loop := ConnectivityLoop {
  loop_links : tally;
  loop_external : Z;
  loop_internal : Z;
  loop_gateways : tally;
  loop_unknown : list resource_key;
  loop_sources : source_set;
}.

Definition attributed_state (r : resource_record) (s : connectivity_state) : option connectivity_state :=
  if rr_ok r then Some s else None.

Definition connectivity_step (l : connectivity_loop) (p : resource_key * resource_record) : connectivity_loop :=
  let '(key, r) := p in
  let seen s := if state_known s then loop_unknown l else loop_unknown l ++ [key] in
  match rk_kind key, ref_link (rr_refs r), ref_gateway (rr_refs r) with
  | ResourceKind.SHARED_LINK, Some c, _ =>
      let s := attributed_state r (link_state c) in
      ConnectivityLoop (count_state s (loop_links l))
        (if link_external c then loop_external l + 1 else loop_external l)
        (if link_external c then loop_internal l else loop_internal l + 1)
        (loop_gateways l) (seen s) (ss_union (loop_sources l) (rr_sources r))
  | ResourceKind.GATEWAY, _, Some c =>
      let s := attributed_state r (gateway_state c) in
      ConnectivityLoop (loop_links l) (loop_external l) (loop_internal l) (count_state s (loop_gateways l))
        (seen s) (ss_union (loop_sources l) (rr_sources r))
  | _, _, _ => l
  end.

Definition connectivity_verdict (links gateways : tally) : status :=
  if (t_total links =? 0) && (t_total gateways =? 0) then Status.CONNECTIVITY_UNKNOWN
  else if negb (t_unknown links + t_unknown gateways =? 0) then Status.CONNECTIVITY_UNKNOWN
  else if negb (t_down links + t_down gateways =? 0) then Status.CONNECTIVITY_DOWN
  else if negb (t_degraded links + t_degraded gateways =? 0) then Status.CONNECTIVITY_DEGRADED
  else if (t_up links =? 0) && (t_up gateways =? 0) then Status.CONNECTIVITY_UNKNOWN
  else Status.OK.

Definition build_connectivity (resources : resource_map) : connectivity_summary :=
  let l := foldl connectivity_step (ConnectivityLoop no_tally 0 0 no_tally [] ss_empty) resources in
  let links := loop_links l in
  let gateways := loop_gateways l in
  ConnectivitySummary (t_total links) (t_up links) (t_down links) (t_degraded links) (t_unknown links)
    (loop_external l) (loop_internal l)
    (t_total gateways) (t_up gateways) (t_down gateways) (t_degraded gateways) (t_unknown gateways)
    (sort_unique (loop_unknown l)) (loop_sources l) (connectivity_verdict links gateways).

(** * Obligations *)

Section obligations.
Context (resources : resource_map) (forest : failure_domain_forest) (available : capacity_vector).

(** The domains holding a resource of the site. *)
Definition populated_domains : list string :=
  fdn_id <$> List.filter (λ n, existsb (λ m, bool_decide (is_Some (om_find m resources))) (fdn_members n))
    (ff_nodes forest).
Definition is_populated (id : string) : bool := bool_decide (id ∈ populated_domains).

(** The state of a resource read through its claim; [None] dereferences a null pointer. *)
Definition state_of (wanted : resource_kind) (r : resource_record) : option connectivity_state :=
  match wanted with
  | ResourceKind.SHARED_LINK => link_state <$> ref_link (rr_refs r)
  | _ => gateway_state <$> ref_gateway (rr_refs r)
  end.

(** One step of the loop that counts the links or gateways that are up. *)
Definition count_up (wanted : resource_kind) (scope : option resource_key) (acc : option (Z * bool))
    (p : resource_key * resource_record) : option (Z * bool) :=
  let '(key, r) := p in
  '(observed, any_unknown) ← acc;
  if negb (bool_decide (rk_kind key = wanted)) then Some (observed, any_unknown)
  else if match scope with Some s => negb (bool_decide (s = key)) | None => false end
  then Some (observed, any_unknown)
  else if negb (rr_ok r) then Some (observed, true)
  else
    s ← state_of wanted r;
    Some (match s with
          | ConnectivityState.UP => (observed + 1, any_unknown)
          | ConnectivityState.UNKNOWN => (observed, true)
          | _ => (observed, any_unknown)
          end).

Definition observe_up (wanted : resource_kind) (scope : option resource_key) : option (Z * bool) :=
  foldl (count_up wanted scope) (Some (0, false)) resources.

Definition observe_domains (scope : option string) : Z * bool :=
  let broken := negb (bool_decide (ff_cyclic forest = [])) || negb (bool_decide (ff_dangling forest = [])) in
  match scope with
  | None => (zlen (sort_unique populated_domains), broken)
  | Some d =>
      match forest_find d forest with
      | None => (0, true)
      | Some s =>
          (zlen (List.filter (λ n, (bool_decide (fdn_id n = fdn_id s) || ancestor_of n (fdn_id s))
                                   && is_populated (fdn_id n)) (ff_nodes forest)),
           broken)
      end
  end.

(** Distinct descendants of the scope that still hold resources. *)
Definition observe_survivors (scope : option string) : Z * bool :=
  match (d ← scope; forest_find d forest) with
  | None => (0, true)
  | Some s =>
      (zlen (List.filter (λ n, negb (bool_decide (fdn_id n = fdn_id s)) && ancestor_of n (fdn_id s)
                               && is_populated (fdn_id n)) (ff_nodes forest)),
       bool_decide (fdn_id s ∈ ff_cyclic forest))
  end.

Definition observe (o : protected_obligation) : option (Z * bool) :=
  match ob_kind o with
  | ObligationKind.MIN_UP_SHARED_LINKS => observe_up ResourceKind.SHARED_LINK (ob_scope_resource o)
  | ObligationKind.MIN_UP_GATEWAYS => observe_up ResourceKind.GATEWAY (ob_scope_resource o)
  | ObligationKind.MIN_DISTINCT_FAILURE_DOMAINS => Some (observe_domains (ob_scope_domain o))
  | _ => Some (observe_survivors (ob_scope_domain o))
  end.

Definition verdict_of (o : protected_obligation) (r : resource_record) (s : status) (observed : Z)
    (known : bool) (f : factors) : obligation_verdict :=
  ObligationVerdict (ob_id o) (ob_kind o) s (ob_required o) observed known (rr_sources r) f.

Definition count_verdict (o : protected_obligation) (r : resource_record) (observed : Z) (any_unknown : bool)
    : obligation_verdict :=
  if ob_required o <=? observed then verdict_of o r Status.OK observed true no_factors
  else if any_unknown then
    verdict_of o r Status.OBLIGATION_INDETERMINATE observed false
      (factors_add_pair "unknown_members" "true" no_factors)
  else verdict_of o r Status.OBLIGATION_VIOLATED observed true no_factors.

Definition capacity_verdict (o : protected_obligation) (r : resource_record) : obligation_verdict :=
  let channel := obligation_channel (ob_kind o) in
  if bool_decide (channel = CapacityChannel.UNKNOWN) then
    verdict_of o r Status.OBLIGATION_INDETERMINATE 0 false (factors_add_pair "kind" "unsupported" no_factors)
  else
    let value := channel_value available channel in
    if negb (cv_known value) then
      verdict_of o r Status.OBLIGATION_INDETERMINATE 0 false
        (factors_add_pair "available" "UNKNOWN" (factors_add_pair "channel" (to_string channel) no_factors))
    else
      verdict_of o r (if ob_required o <=? cv_bps value then Status.OK else Status.OBLIGATION_VIOLATED)
        (cv_bps value) true no_factors.

Definition judge_obligation (o : protected_obligation) (r : resource_record) : option obligation_verdict :=
  if negb (rr_ok r) then
    Some (verdict_of o r Status.OBLIGATION_INDETERMINATE 0 false
            (factors_add_pair "attribution" (to_string (rr_status r)) no_factors))
  else if obligation_is_count (ob_kind o) then
    '(observed, any_unknown) ← observe o; Some (count_verdict o r observed any_unknown)
  else Some (capacity_verdict o r).

Definition obligation_records : list (protected_obligation * resource_record) :=
  omap (λ p, if is_kind ResourceKind.OBLIGATION p then o ← ref_obligation (rr_refs p.2); Some (o, p.2) else None)
    resources.

Definition build_obligations : option (list obligation_verdict) :=
  verdicts ← mapM (λ p, judge_obligation p.1 p.2) obligation_records; Some (sort_by ov_id verdicts).
End obligations.

(** ** What the count of links and gateways is *)

Section counting.
Context (wanted : resource_kind) (scope : option resource_key).

(** The resources the count is about. *)
Definition measured (p : resource_key * resource_record) : bool :=
  is_kind wanted p && match scope with Some s => bool_decide (s = p.1) | None => true end.
Definition reads_up (p : resource_key * resource_record) : bool :=
  measured p && rr_ok p.2 && bool_decide (state_of wanted p.2 = Some ConnectivityState.UP).
Definition reads_unknown (p : resource_key * resource_record) : bool :=
  measured p && (negb (rr_ok p.2) || bool_decide (state_of wanted p.2 = Some ConnectivityState.UNKNOWN)).
(** The null pointer is read. *)
Definition dangles (p : resource_key * resource_record) : bool :=
  measured p && rr_ok p.2 && bool_decide (state_of wanted p.2 = None).

Lemma count_up_step p n u :
  count_up wanted scope (Some (n, u)) p =
  if dangles p then None else Some (if reads_up p then n + 1 else n, u || reads_unknown p).
Proof using Type.
  destruct p as [key r]. unfold count_up, dangles, reads_up, reads_unknown, measured, is_kind. cbn [mbind option_bind fst snd].
  case_bool_decide; cbn [negb andb]; [|by rewrite orb_false_r].
  assert (match scope with Some s => negb (bool_decide (s = key)) | None => false end
    = negb (match scope with Some s => bool_decide (s = key) | None => true end)) as -> by (by destruct scope).
  destruct (match scope with Some s => bool_decide (s = key) | None => true end); cbn [negb andb];
    [|by rewrite orb_false_r].
  destruct (rr_ok r); cbn [negb andb orb]; [|by rewrite orb_true_r].
  destruct (state_of wanted r) as [[]|]; cbn; by rewrite ?orb_false_r, ?orb_true_r.
Qed.

Lemma count_up_none l : foldl (count_up wanted scope) None l = None.
Proof using Type. induction l as [|p l IH]; [done|]. simpl. unfold count_up at 2. by destruct p. Qed.

Lemma observe_up_spec (l : resource_map) :
  observe_up l wanted scope =
  if existsb dangles l then None else Some (zlen (List.filter reads_up l), existsb reads_unknown l).
Proof using Type.
  unfold observe_up.
  assert (∀ n u, foldl (count_up wanted scope) (Some (n, u)) l
    = if existsb dangles l then None else Some (n + zlen (List.filter reads_up l), u || existsb reads_unknown l)) as ->;
    [|done].
  induction l as [|p l IH]; intros n u; cbn [foldl existsb List.filter].
  { unfold zlen. simpl. by rewrite Z.add_0_r, orb_false_r. }
  rewrite count_up_step. destruct (dangles p); cbn [orb]; [apply count_up_none|]. rewrite IH.
  destruct (existsb dangles l); [done|]. rewrite orb_assoc.
  destruct (reads_up p); autorewrite with fabric; do 2 f_equal; lia.
Qed.
End counting.

(** The kind of resource an obligation counts, if it counts links or gateways. *)
Definition counted_kind (k : obligation_kind) : option resource_kind :=
  match k with
  | ObligationKind.MIN_UP_SHARED_LINKS => Some ResourceKind.SHARED_LINK
  | ObligationKind.MIN_UP_GATEWAYS => Some ResourceKind.GATEWAY
  | _ => None
  end.

(** An obligation is judged on what is known: a verdict is satisfied, violated or
    indeterminate; it is satisfied or violated only on an attributed obligation, with a known
    observation at or above, respectively below, what is required; for the capacity kinds the
    observation is the known available capacity of the channel; for links and gateways it is
    the number of attributed ones in scope that are up, and a violation says that none in
    scope is unattributed or of unknown state. *)
Theorem obligation_verdict_sound (resources : resource_map) (forest : failure_domain_forest)
    (available : capacity_vector) (o : protected_obligation) (r : resource_record) (v : obligation_verdict) :
  judge_obligation resources forest available o r = Some v →
  ov_status v ∈ [Status.OK; Status.OBLIGATION_VIOLATED; Status.OBLIGATION_INDETERMINATE]
  ∧ (ov_status v = Status.OK →
       rr_status r = Status.OK ∧ ov_observed_known v = true ∧ ob_required o ≤ ov_observed v)
  ∧ (ov_status v = Status.OBLIGATION_VIOLATED →
       rr_status r = Status.OK ∧ ov_observed_known v = true ∧ ov_observed v < ob_required o)
  ∧ (ov_observed_known v = true → obligation_is_count (ob_kind o) = false →
       cv_known (channel_value available (obligation_channel (ob_kind o))) = true
       ∧ ov_observed v = cv_bps (channel_value available (obligation_channel (ob_kind o))))
  ∧ (∀ k, counted_kind (ob_kind o) = Some k → ov_observed_known v = true →
       ov_observed v = zlen (List.filter (reads_up k (ob_scope_resource o)) resources)
       ∧ (ov_status v = Status.OBLIGATION_VIOLATED →
          existsb (reads_unknown k (ob_scope_resource o)) resources = false)).
Proof.
  unfold judge_obligation. destruct (rr_ok r) eqn:Hr; cbn [negb].
  2: { intros [= <-]. cbn. split_and!; [set_solver|done..]. }
  apply bool_decide_eq_true in Hr. destruct (obligation_is_count (ob_kind o)) eqn:Hk.
  - destruct (observe resources forest o) as [[n u]|] eqn:Ho; [|done]. cbn [mbind option_bind]. intros [= <-].
    assert (∀ k, counted_kind (ob_kind o) = Some k →
      n = zlen (List.filter (reads_up k (ob_scope_resource o)) resources)
      ∧ u = existsb (reads_unknown k (ob_scope_resource o)) resources) as Hcount.
    { unfold observe in Ho. destruct (ob_kind o); intros k [= <-]; rewrite observe_up_spec in Ho;
        destruct (existsb (dangles _ _) _); by simplify_eq. }
    unfold count_verdict. destruct (Z.leb_spec (ob_required o) n); [|destruct u]; cbn; split_and!;
      try set_solver; try done; intros k Hkk; destruct (Hcount k Hkk); naive_solver.
  - intros [= <-]. unfold capacity_verdict.
    assert (counted_kind (ob_kind o) = None) as -> by (by destruct (ob_kind o)).
    case_bool_decide; [cbn; split_and!; [set_solver|done..]|].
    destruct (cv_known _) eqn:Hkn; cbn [negb]; [|cbn; split_and!; [set_solver|done..]].
    destruct (Z.leb_spec (ob_required o) (cv_bps (channel_value available (obligation_channel (ob_kind o)))));
      cbn; split_and!; try set_solver; try done; by intros.
Qed.

(** One gateway is up where two are required. *)
Lemma obligation_verdict_sound_witness :
  let o := Scenario.obligation "ob-1" ObligationKind.MIN_UP_GATEWAYS 2 in
  let key := ResourceKey ResourceKind.GATEWAY "gw-1" in
  let admitted content := ResourceRecord key [] 1 zero_digest Status.OK no_factors true content in
  let gateway := admitted (cv_point (view_gateway Scenario.gateway) no_refs) in
  let r := admitted (cv_point (view_obligation o) no_refs) in
  ∃ v, judge_obligation [(key, gateway)] sample_forest all_unknown o r = Some v
       ∧ ov_status v = Status.OBLIGATION_VIOLATED
       ∧ ov_observed v < ob_required o
       ∧ existsb (reads_unknown ResourceKind.GATEWAY (ob_scope_resource o)) [(key, gateway)] = false.
Proof.
  cbv zeta. eexists. split; [vm_compute; reflexivity|].
  set (o := Scenario.obligation "ob-1" _ 2). set (v := ObligationVerdict _ _ _ _ _ _ _ _).
  set (rs := [(_, _)]). 
  set (r := ResourceRecord (ResourceKey ResourceKind.GATEWAY "gw-1") [] 1 zero_digest Status.OK no_factors true
    (cv_point (view_obligation o) no_refs)).
  assert (judge_obligation rs sample_forest all_unknown o r = Some v) as E by (vm_compute; reflexivity).
  destruct (obligation_verdict_sound rs sample_forest all_unknown o r v E) as (_ & _ & H & _ & Hk).
  split; [reflexivity|]. split; [exact (proj2 (proj2 (H eq_refl)))|].
  exact (proj2 (Hk ResourceKind.GATEWAY eq_refl eq_refl) eq_refl).
Defined.
