(* ===== verification/Compose.v ===== *)
(** Composition (compose.cpp, [Composer::build_membership], [build_lifecycle],
    [build_decisions], [run] and [SiteComposer::compose]).

    The stages of [Composer::run] in their order, each given what the earlier ones produced.
    Two sorts of the source compare by less than the whole element (conflicts by code and
    subject, deficits by domain and code); [std::sort] leaves the order of equals open, and
    the model keeps them in the order they were added. *)

From stdpp Require Import sorting sets.
From S2P Require Import Prelude Ordering Enums Sha256 Identity Canonical Evidence Capacity Claims Codec Canonicalize Forest Site Samples Admit Attribute Domains Maintenance Ledger Verdicts.

(** * Membership *)

Definition note_departed (n : notes) (p : member_domain_key * admission) : notes :=
  match ad_lifecycle p.2 with
  | MemberLifecycle.REVOKED => add_deficit Status.LEASE_REVOKED p.1 "authority revoked" n
  | MemberLifecycle.RETIRED => add_deficit Status.ALREADY_RETIRED p.1 "retired" n
  | _ => n
  end.

(** The state of an expected member that never reported. *)
Definition absent_state (m : expected_member) : member_domain_state :=
  MemberDomainState (em_domain m) MemberLifecycle.ABSENT Status.MEMBERSHIP_MISSING 0 zero_digest
    (SchemaVersion 0 0) (Incarnation 0 "") "" 0 EvidenceState.UNKNOWN true (em_pinned m) no_source_ref
    (factors_add_pair "reported" "false" (factors_add_pair "expected" "true" no_factors)).

Definition expected_deficit (a : admission) (d : member_domain_key) (n : notes) : notes :=
  match ad_lifecycle a with
  | MemberLifecycle.CURRENT => n
  | MemberLifecycle.REPORTED => add_deficit (ad_status a) d "declaration not authoritative" n
  | MemberLifecycle.STALE => add_deficit Status.EVIDENCE_STALE d "evidence expired" n
  | MemberLifecycle.CONFLICTING => add_deficit (ad_status a) d "declaration conflicts" n
  | MemberLifecycle.INCOMPATIBLE => add_deficit (ad_status a) d "declaration incompatible" n
  | MemberLifecycle.RETIRED => add_deficit Status.ALREADY_RETIRED d "retired" n
  | MemberLifecycle.REVOKED => add_deficit Status.LEASE_REVOKED d "authority revoked" n
  | _ => add_deficit Status.UNKNOWN d "lifecycle unknown" n
  end.

Definition check_expected (admissions : omap_t member_domain_key admission)
    (st : list member_domain_state * notes) (m : expected_member) : list member_domain_state * notes :=
  let '(members, n) := st in
  match om_find (em_domain m) admissions with
  | None =>
      (members ++ [absent_state m],
       add_deficit Status.MEMBERSHIP_MISSING (em_domain m) "no publication received" n)
  | Some a => (members, expected_deficit a (em_domain m) n)
  end.

(** [std::unique] by domain. *)
Fixpoint unique_members_from (last : member_domain_key) (l : list member_domain_state)
    : list member_domain_state :=
  match l with
  | [] => []
  | m :: l' =>
      if bool_decide (ms_domain m = last) then unique_members_from last l'
      else m :: unique_members_from (ms_domain m) l'
  end.
Definition unique_members (l : list member_domain_state) : list member_domain_state :=
  match l with [] => [] | m :: l' => m :: unique_members_from (ms_domain m) l' end.

Definition is_current (o : option member_domain_state) : bool :=
  match o with Some m => bool_decide (ms_lifecycle m = MemberLifecycle.CURRENT) | None => false end.

Definition members_complete (e : site_expectation) (members : list member_domain_state) : bool :=
  negb (bool_decide (se_members e = []))
  && forallb (λ m, negb (em_required m) || is_current (find_in members (em_domain m))) (se_members e).

Definition evidence_all_fresh (members : list member_domain_state) : bool :=
  forallb (λ m, bool_decide (ms_evidence_state m = EvidenceState.FRESH)) members.

(** A conflicting member is a conflict of the site. *)
Definition note_conflicting (now_ms : Z) (n : notes) (m : member_domain_state) : notes :=
  if bool_decide (ms_lifecycle m = MemberLifecycle.CONFLICTING) then
    let parties := if sr_valid (ms_source m) then ss_insert (ms_source m) ss_empty else ss_empty in
    add_conflict now_ms (ms_status m) no_resource parties [factors_join "," (ms_factors m)] n
  else n.

Definition conflict_key (c : site_conflict) : status * resource_key := (sc_code c, sc_subject c).
Definition deficit_key (d : site_deficit) : member_domain_key * status := (sd_domain d, sd_code d).

Definition sort_notes (n : notes) : notes :=
  Notes (sort_by conflict_key (note_conflicts n)) (sort_by deficit_key (note_deficits n)) (note_factors n).

Definition build_membership (now_ms : Z) (e : site_expectation)
    (admissions : omap_t member_domain_key admission) (n : notes) : list member_domain_state * notes :=
  let n := foldl note_departed n admissions in
  let '(members, n) := foldl (check_expected admissions) (member_state <$> admissions.*2, n) (se_members e) in
  let members := unique_members (sort_by ms_domain members) in
  let n := if bool_decide (se_members e = []) then note_factor "expectation" "empty" n else n in
  (members, sort_notes (foldl (note_conflicting now_ms) n members)).

(** * Lifecycle *)

(** What the verdict on the site is decided from. *)
Record site_findings := SiteFindings {
  sf_conflict : bool;
  sf_all_required_absent : bool;
  sf_any_required_missing : bool;
  sf_indeterminate : bool;
  sf_degraded : bool;
}.

Definition not_current (m : member_domain_state) : bool :=
  negb (bool_decide (ms_lifecycle m = MemberLifecycle.CURRENT)).
Definition present_not_current (m : member_domain_state) : bool :=
  not_current m && negb (bool_decide (ms_lifecycle m = MemberLifecycle.ABSENT)).

(** The loop over the required members: [(all_required_absent, any_required_missing)]. *)
Definition check_required (members : list member_domain_state) (st : bool * bool) (m : expected_member)
    : bool * bool :=
  let '(all_absent, any_missing) := st in
  if negb (em_required m) then (all_absent, any_missing)
  else
    let s := find_in members (em_domain m) in
    if negb (is_current s) then
      (match s with
       | Some x => if bool_decide (ms_lifecycle x = MemberLifecycle.ABSENT) then all_absent else false
       | None => all_absent
       end, true)
    else (false, any_missing).

Definition required_findings (e : site_expectation) (members : list member_domain_state) : bool * bool :=
  let all_absent := negb (bool_decide (se_members e = [])) && negb (existsb present_not_current members) in
  let '(all_absent, any_missing) := foldl (check_required members) (all_absent, false) (se_members e) in
  if bool_decide (se_members e = []) then (false, true) else (all_absent, any_missing).

Definition find_site (e : site_expectation) (members : list member_domain_state)
    (obligations : list obligation_verdict) (connectivity : connectivity_summary)
    (capacity : capacity_ledger) (forest : failure_domain_forest) (maintenance_indeterminate any_conflict : bool)
    : site_findings :=
  let '(all_absent, any_missing) := required_findings e members in
  SiteFindings any_conflict all_absent any_missing
    (bool_decide (cl_status capacity = Status.CAPACITY_UNKNOWN)
     || (bool_decide (ff_status forest = Status.FAILURE_DOMAIN_DANGLING_PARENT)
         || bool_decide (ff_status forest = Status.NO_AUTHORITATIVE_SOURCE)
         || negb (bool_decide (ff_cyclic forest = [])))
     || bool_decide (cs_status connectivity = Status.CONNECTIVITY_UNKNOWN)
     || existsb (λ v, bool_decide (ov_status v = Status.OBLIGATION_INDETERMINATE)) obligations
     || existsb not_current members
     || maintenance_indeterminate)
    (existsb (λ v, bool_decide (ov_status v = Status.OBLIGATION_VIOLATED)) obligations
     || (negb (cs_shared_links_down connectivity =? 0) || negb (cs_gateways_down connectivity =? 0))
     || (negb (cs_shared_links_degraded connectivity =? 0) || negb (cs_gateways_degraded connectivity =? 0))).

Definition lifecycle_of (f : site_findings) : site_lifecycle :=
  if sf_conflict f then SiteLifecycle.CONFLICTING
  else if sf_all_required_absent f then SiteLifecycle.PARTITIONED
  else if sf_any_required_missing f then SiteLifecycle.INCOMPLETE
  else if sf_indeterminate f then SiteLifecycle.INDETERMINATE
  else if sf_degraded f then SiteLifecycle.DEGRADED
  else SiteLifecycle.CURRENT.

Definition lifecycle_status (l : site_lifecycle) : status :=
  match l with
  | SiteLifecycle.CURRENT => Status.CURRENT
  | SiteLifecycle.DEGRADED => Status.DEGRADED
  | SiteLifecycle.PARTITIONED => Status.PARTITIONED
  | SiteLifecycle.INCOMPLETE => Status.INCOMPLETE
  | SiteLifecycle.CONFLICTING => Status.CONFLICTING
  | SiteLifecycle.INDETERMINATE => Status.INDETERMINATE
  | _ => Status.NOT_STARTED
  end.

Definition lifecycle_factors (l : site_lifecycle) (members : list member_domain_state) (capacity : capacity_ledger)
    (n : notes) : notes :=
  note_factor "capacity" (to_string (cl_status capacity))
    (note_factor "deficits" (dec (zlen (note_deficits n)))
       (note_factor "conflicts" (dec (zlen (note_conflicts n)))
          (note_factor "members" (dec (zlen members)) (note_factor "lifecycle" (to_string l) n)))).

(** * Decisions *)

Definition decisions_so_far : Type := list site_decision * factors.

Definition add_decision (kind : decision_kind) (subject : resource_key) (s : status) (sources : source_set)
    (f : factors) (d : decisions_so_far) : decisions_so_far :=
  if kMaxDecisions <=? zlen d.1 then (d.1, factors_add_pair "decisions_truncated" "true" d.2)
  else
    let id := DecisionId kind subject in
    (d.1 ++ [SiteDecision id s sources (decision_value_digest id s f) f], d.2).

Definition site_decision_on (kind : decision_kind) (s : status) (sources : source_set) (f : factors) :=
  add_decision kind no_resource s sources f.

(** The sources gathered while the ownership decisions are added. *)
Record gathered := Gathered {
  g_racks : source_set;
  g_links : source_set;
  g_accounting : source_set;
  g_forest : source_set;
}.

Definition gather (g : gathered) (a : resource_attribution) : gathered :=
  let s := ra_attestors a in
  match rk_kind (ra_key a) with
  | ResourceKind.RACK => Gathered (ss_union (g_racks g) s) (g_links g) (g_accounting g) (g_forest g)
  | ResourceKind.SHARED_LINK | ResourceKind.GATEWAY =>
      Gathered (g_racks g) (ss_union (g_links g) s) (ss_union (g_accounting g) s) (g_forest g)
  | ResourceKind.CAPACITY_POOL =>
      Gathered (g_racks g) (g_links g) (ss_union (g_accounting g) s) (g_forest g)
  | ResourceKind.FAILURE_DOMAIN => Gathered (g_racks g) (g_links g) (g_accounting g) (ss_union (g_forest g) s)
  | _ => g
  end.

Definition decide_ownership (st : gathered * decisions_so_far) (a : resource_attribution)
    : gathered * decisions_so_far :=
  (gather st.1 a,
   add_decision DecisionKind.OWNERSHIP_MAP (ra_key a) (ra_status a) (ra_attestors a) (ra_factors a) st.2).

Definition zone_key (id : string) : resource_key := ResourceKey ResourceKind.MAINTENANCE_ZONE id.

Definition effect_sources (resources : resource_map) (e : maintenance_effect) : source_set :=
  let include s key := match om_find key resources with Some r => ss_union s (rr_sources r) | None => s end in
  foldl include (include ss_empty (zone_key (me_id e))) (me_excluded e).

Definition decide_maintenance (resources : resource_map) (d : decisions_so_far) (e : maintenance_effect)
    : decisions_so_far :=
  add_decision DecisionKind.MAINTENANCE_EXCLUSION (zone_key (me_id e)) (me_status e) (effect_sources resources e)
    (me_factors e) d.

Definition decide_obligation (d : decisions_so_far) (v : obligation_verdict) : decisions_so_far :=
  add_decision DecisionKind.OBLIGATION_VERDICT (ResourceKey ResourceKind.OBLIGATION (ov_id v)) (ov_status v)
    (ov_sources v) (ov_factors v) d.

Definition membership_sources (admissions : omap_t member_domain_key admission) : source_set :=
  foldl (λ s p, ss_insert (ad_source p.2) s) ss_empty admissions.

Definition capacity_sources (l : capacity_ledger) : source_set :=
  foldl (λ s x, if le_counted_in_total x then ss_union s (le_attestors x) else s) ss_empty (cl_entries l).

Definition build_decisions (admissions : omap_t member_domain_key admission) (resources : resource_map)
    (complete : bool) (ownership : list resource_attribution) (capacity : capacity_ledger)
    (connectivity : connectivity_summary) (forest : failure_domain_forest)
    (maintenance : list maintenance_effect) (obligations : list obligation_verdict) (site_status : status)
    (f : factors) : decisions_so_far :=
  let sources := membership_sources admissions in
  let d := site_decision_on DecisionKind.MEMBERSHIP_COMPLETENESS
             (if complete then Status.OK else Status.INCOMPLETE) sources no_factors ([], f) in
  let d := site_decision_on DecisionKind.SITE_EPOCH Status.OK sources no_factors d in
  let '(g, d) := foldl decide_ownership (Gathered ss_empty ss_empty ss_empty ss_empty, d) ownership in
  let cap := capacity_sources capacity in
  let d := site_decision_on DecisionKind.RACK_TOPOLOGY Status.OK (g_racks g) no_factors d in
  let d := site_decision_on DecisionKind.FAILURE_DOMAIN_FOREST (ff_status forest) (g_forest g) (ff_factors forest) d in
  let d := site_decision_on DecisionKind.CONNECTIVITY_SUMMARY (cs_status connectivity) (g_links g) no_factors d in
  let d := site_decision_on DecisionKind.SHARED_RESOURCE_ACCOUNTING Status.OK (g_accounting g) no_factors d in
  let d := site_decision_on DecisionKind.CAPACITY_TOTAL (cl_status capacity) cap (cl_factors capacity) d in
  let d := site_decision_on DecisionKind.CAPACITY_AVAILABLE (cl_status capacity) cap (cl_factors capacity) d in
  let d := foldl (decide_maintenance resources) d maintenance in
  let d := foldl decide_obligation d obligations in
  let all := foldl (λ s x, ss_union s (dec_sources x)) ss_empty d.1 in
  let d := site_decision_on DecisionKind.SITE_LIFECYCLE site_status all no_factors d in
  (sort_by dec_id d.1, d.2).

(** * The composition *)

(** How a composition ends: a site, a refusal, or the null dereference. *)
Inductive composition : Type :=
| Composed (site : composed_site)
| Refused (s : status)
| Crashed.

Definition run (i : composition_input) : composition :=
  match prepare i with
  | Err s => Refused s
  | Ok e =>
      let now := in_now_ms i in
      let admissions := admit_members i e in
      let '(resources, ownership, n) := attribute_resources now admissions no_notes in
      let '(forest, domain_members, n) := build_failure_domains now admissions resources n in
      let '(effects, capacity, indeterminate, n) := build_maintenance now resources forest domain_members n in
      let connectivity := build_connectivity resources in
      match build_obligations resources forest (cl_available capacity) with
      | None => Crashed
      | Some obligations =>
          let '(members, n) := build_membership now e admissions n in
          let complete := members_complete e members in
          let any_conflict := negb (bool_decide (note_conflicts n = [])) in
          let lifecycle :=
            lifecycle_of (find_site e members obligations connectivity capacity forest indeterminate any_conflict) in
          let st := lifecycle_status lifecycle in
          let n := lifecycle_factors lifecycle members capacity n in
          let '(decisions, f) :=
            build_decisions admissions resources complete ownership capacity connectivity forest effects
              obligations st (note_factors n) in
          Composed (ComposedSite (in_site i) (in_epoch i) (in_generation i) (in_incarnation i) now lifecycle st
            complete (evidence_all_fresh members) any_conflict
            (bool_decide (cl_status capacity = Status.CAPACITY_UNKNOWN)) members ownership capacity connectivity
            forest effects obligations (note_conflicts n) (note_deficits n) decisions f)
      end
  end.

(** [SiteComposer::compose]: [out] is written when a site was composed. *)
Definition compose (i : composition_input) (out : composed_site) : option (status * composed_site) :=
  match run i with
  | Composed s => Some (Status.COMPOSED, s)
  | Refused s => Some (s, out)
  | Crashed => None
  end.

Definition work_units (s : composed_site) : Z :=
  zlen (site_members s) + zlen (site_ownership s) + zlen (cl_entries (site_capacity s)) + zlen (site_decisions s).

(** ** Arrival order *)

(** C1: composition is a function of what was received, not of the order it arrived in:
    reordering publications, retirements, revocations and recovered domains changes nothing in
    the composed site, as long as no two usable publications of one domain agree in generation,
    attempt and acceptance sequence. *)
Theorem composition_order_independent (i i' : composition_input) :
  same_input i i' → no_ties (in_publications i) → run i = run i'.
Proof.
  intros Hs Ht. unfold run. rewrite <- (prepare_same i i' Hs).
  destruct (prepare i) as [e|s]; [|done]. cbv zeta. rewrite <- (admit_members_same i i' e Hs Ht).
  destruct i, i'. destruct Hs as (? & ? & ? & ? & ? & _). simpl in *. by subst.
Qed.

Lemma composition_order_independent_witness :
  run (Scenario.maintained MaintenanceState.ACTIVE)
  = run (Scenario.input ["rack-1"; "rack-2"]
           [Scenario.published (Scenario.second_member MaintenanceState.ACTIVE);
            Scenario.published Scenario.first_member]).
Proof.
  apply composition_order_independent.
  - split_and!; try reflexivity. apply Permutation_swap.
  - intros d r r' (Hr & _ & Hd) (Hr' & _ & Hd') _.
    assert (pub_domain (Scenario.published Scenario.first_member)
      ≠ pub_domain (Scenario.published (Scenario.second_member MaintenanceState.ACTIVE))) as Hne
      by (vm_compute; by intros [=]).
    apply elem_of_cons in Hr as [-> | ->%list_elem_of_singleton];
      apply elem_of_cons in Hr' as [-> | ->%list_elem_of_singleton]; congruence.
Defined.

(** ** When the site is current *)

Lemma required_findings_spec e members :
  let '(all_absent, any_missing) := required_findings e members in
  (any_missing = false ↔ members_complete e members = true)
  ∧ (any_missing = false → all_absent = true ↔ Forall (λ m, em_required m = false) (se_members e)
       ∧ existsb present_not_current members = false).
Proof.
  unfold required_findings, members_complete.
  assert (∀ l b, let '(a, m) := foldl (check_required members) (b, false) l in
    (m = false ↔ forallb (λ m, negb (em_required m) || is_current (find_in members (em_domain m))) l = true)
    ∧ (m = false → a = true ↔ b = true ∧ Forall (λ m, em_required m = false) l)) as Hfold.
  { intros l b.
    assert (∀ l a, (foldl (check_required members) (a, true) l).2 = true) as Hstuck.
    { clear. induction l as [|m l IH]; intros a; [done|]. simpl.
      destruct (negb (em_required m)); [apply IH|]. destruct (negb (is_current _)); apply IH. }
    revert b. induction l as [|m l IH]; intros b; cbn [foldl forallb].
    { split; [done|]. intros _. split; [intros ->; split; [done|constructor]|by intros [? _]]. }
    unfold check_required at 2. destruct (em_required m) eqn:Hreq; cbn [negb orb].
    - destruct (is_current _) eqn:Hc; cbn [negb andb].
      + specialize (IH false). destruct (foldl _ (false, false) l) as [a x]. destruct IH as [H1 H2].
        split; [done|]. intros Hx. rewrite (H2 Hx). split; [by intros [? _]|].
        intros [_ Hf]. apply Forall_cons in Hf as [? _]. congruence.
      + match goal with |- context [foldl _ (?a, true) l] => pose proof (Hstuck l a) as Hs;
          destruct (foldl _ (a, true) l) as [a' x] end. simpl in Hs. subst x. split; [done|]. done.
    - specialize (IH b). destruct (foldl _ (b, false) l) as [a x]. destruct IH as [H1 H2].
      split; [done|]. intros Hx. rewrite (H2 Hx), Forall_cons. naive_solver. }
  specialize (Hfold (se_members e) (negb (bool_decide (se_members e = [])) && negb (existsb present_not_current members))).
  destruct (foldl _ _ _) as [a x]. destruct Hfold as [H1 H2].
  case_bool_decide as He; cbn [negb andb] in *; [split; [done|done]|].
  split; [done|]. intros Hx. rewrite (H2 Hx), negb_true_iff. naive_solver.
Qed.

Definition quiet (f : site_findings) : Prop :=
  sf_conflict f = false ∧ sf_all_required_absent f = false ∧ sf_any_required_missing f = false
  ∧ sf_indeterminate f = false ∧ sf_degraded f = false.

Lemma lifecycle_of_current f : lifecycle_of f = SiteLifecycle.CURRENT ↔ quiet f.
Proof.
  unfold lifecycle_of, quiet. destruct f as [[] [] [] [] []]; simpl; naive_solver.
Qed.

(** ** Where the members of a site come from *)

Lemma unique_members_Forall P l : Forall P l → Forall P (unique_members l).
Proof.
  assert (∀ last, Forall P l → Forall P (unique_members_from last l)) as Hfrom.
  { induction l as [|m l IH]; intros last Hl; cbn; [done|]. apply Forall_cons in Hl as [Hm Hl].
    destruct (bool_decide _); [by apply IH|]. constructor; [done|by apply IH]. }
  destruct l as [|m l]; [done|]. intros Hl. specialize (Hfrom (ms_domain m) Hl). cbn in *.
  rewrite bool_decide_eq_true_2 in Hfrom by done. apply Forall_cons in Hl as [Hm _]. by constructor.
Qed.

Lemma membership_members (P : member_domain_state → Prop) now e admissions n :
  Forall (λ p, P (member_state p.2)) admissions → Forall (λ m, P (absent_state m)) (se_members e) →
  Forall P (build_membership now e admissions n).1.
Proof.
  intros Ha He. unfold build_membership.
  assert (∀ l members n, Forall (λ m, P (absent_state m)) l → Forall P members →
    Forall P (foldl (check_expected admissions) (members, n) l).1) as Hfold.
  { induction l as [|m l IH]; intros members k Hl Hm; cbn [foldl]; [done|]. apply Forall_cons in Hl as [Hx Hl].
    unfold check_expected at 2. destruct (om_find _ _); apply IH; try done. apply Forall_app. split; [done|by repeat constructor]. }
  specialize (Hfold (se_members e) (member_state <$> admissions.*2) (foldl note_departed n admissions) He).
  destruct (foldl (check_expected admissions) _ _) as [members n']. cbn [fst] in *. apply unique_members_Forall.
  rewrite sort_by_perm. apply Hfold. by rewrite !Forall_fmap.
Qed.

Lemma run_members (P : member_domain_state → Prop) i s :
  run i = Composed s →
  (∀ e p, prepare i = Ok e → p ∈ admit_members i e → P (member_state p.2)) → (∀ m, P (absent_state m)) →
  Forall P (site_members s).
Proof.
  unfold run. destruct (prepare i) as [e|]; [|done]. cbv zeta.
  destruct (attribute_resources _ _ _) as [[resources ownership] n1]. destruct (build_failure_domains _ _ _ _) as [[forest dm] n2].
  destruct (build_maintenance _ _ _ _ _) as [[[effects capacity] indeterminate] n3].
  destruct (build_obligations _ _ _) as [obligations|]; [|done].
  pose proof (membership_members P (in_now_ms i) e (admit_members i e) n3) as Hm.
  destruct (build_membership _ _ _ _) as [members n4]. destruct (build_decisions _ _ _ _ _ _ _ _ _ _ _) as [decisions f].
  intros Hs Ha Hx. injection Hs as <-. apply Hm; [|by apply Forall_true]. apply Forall_forall. intros p. by apply Ha.
Qed.

(** A member that is CURRENT was admitted on an authoritative publication. *)
Lemma current_member i s m :
  run i = Composed s → m ∈ site_members s → ms_lifecycle m = MemberLifecycle.CURRENT →
  ∃ e r, prepare i = Ok e ∧ r ∈ in_publications i ∧ authoritative i e (ms_domain m) r.
Proof.
  intros Hs Hm Hc. pose proof (run_members (λ m, ms_lifecycle m = MemberLifecycle.CURRENT →
    ∃ e r, prepare i = Ok e ∧ r ∈ in_publications i ∧ authoritative i e (ms_domain m) r) i s Hs) as H.
  rewrite Forall_forall in H. apply H; [|done|done|done]. clear m Hm Hc H. intros e [d a] He Ha Hc. apply list_elem_of_fmap in Ha as ([d' r] & Heq & Ha). cbn in Heq. injection Heq as -> ->.
  cbn [snd] in *. destruct (best_records_spec (in_publications i)) as [Hsort Hspec].
  apply (om_find_elem _ _ _ Hsort) in Ha. specialize (Hspec d'). rewrite Ha in Hspec. destruct Hspec as [(Hr & _) _].
  exists e, r. unfold admission_for in *. split_and!; [done|done|].
  pose proof (judge_current i e d' r) as Hj. destruct (judge i e d' r) as [[l st] f]. cbn in *. by apply Hj.
Qed.

(** The header of a composed site, and what its input must have been. *)
Lemma run_header i s :
  run i = Composed s →
  site_id s = in_site i ∧ site_epoch s = in_epoch i ∧ site_generation s = in_generation i
  ∧ site_incarnation s = in_incarnation i
  ∧ is_valid_identifier (in_site i) = true ∧ in_epoch i ≠ 0 ∧ in_generation i ≠ 0
  ∧ incarnation_valid (in_incarnation i) = true ∧ 0 < in_now_ms i ∧ site_composed_at_ms s = in_now_ms i.
Proof.
  unfold run. destruct (prepare i) as [e|] eqn:Hp; [|done]. cbv zeta.
  destruct (attribute_resources _ _ _) as [[resources ownership] n1].
  destruct (build_failure_domains _ _ _ _) as [[forest dm] n2].
  destruct (build_maintenance _ _ _ _ _) as [[[effects capacity] indeterminate] n3].
  destruct (build_obligations _ _ _) as [obligations|]; [|done].
  destruct (build_membership _ _ _ _) as [members n4].
  destruct (build_decisions _ _ _ _ _ _ _ _ _ _ _) as [decisions f].
  intros [= <-]. cbn [site_id site_epoch site_generation site_incarnation site_composed_at_ms].
  unfold prepare, is_set in Hp. destruct (is_valid_identifier (in_site i)); [|done].
  destruct (Z.eqb_spec (in_epoch i) 0); [done|]. destruct (Z.eqb_spec (in_generation i) 0); [done|].
  destruct (incarnation_valid (in_incarnation i)); [|done]. destruct (Z.leb_spec (in_now_ms i) 0); [done|]. done.
Qed.

(** The parts of a composed site. *)
Lemma run_composed i s :
  run i = Composed s →
  ∃ e n, prepare i = Ok e
  ∧ (site_conflicts s = note_conflicts n)
  ∧ site_any_conflict s = negb (bool_decide (note_conflicts n = []))
  ∧ site_membership_complete s = members_complete e (site_members s)
  ∧ site_lifecycle_state s
    = lifecycle_of (find_site e (site_members s) (site_obligations s) (site_connectivity s) (site_capacity s)
        (site_failure_domains s) (maintenance_unknown (site_maintenance s)) (site_any_conflict s))
  ∧ site_status s = lifecycle_status (site_lifecycle_state s).
Proof.
  unfold run. destruct (prepare i) as [e|]; [|done]. cbv zeta.
  destruct (attribute_resources _ _ _) as [[resources ownership] n1].
  destruct (build_failure_domains _ _ _ _) as [[forest dm] n2].
  unfold build_maintenance. destruct (zone_effects _ _ _ _ _) as [effects n3].
  destruct (build_obligations _ _ _) as [obligations|]; [|done].
  destruct (build_membership _ _ _ _) as [members n4].
  destruct (build_decisions _ _ _ _ _ _ _ _ _ _ _) as [decisions f].
  intros [= <-]. exists e, n4. cbn. done.
Qed.

Lemma existsb_false {A} (f : A → bool) l : existsb f l = false ↔ Forall (λ x, f x = false) l.
Proof.
  induction l as [|x l IH]; simpl; [split; [constructor|done]|].
  rewrite orb_false_iff, Forall_cons. by rewrite IH.
Qed.

Lemma bool_decide_false_iff (P : Prop) `{Decision P} : bool_decide P = false ↔ ¬ P.
Proof. apply bool_decide_eq_false. Qed.

Lemma prepare_members i e : prepare i = Ok e → se_members e ≡ₚ se_members (in_expectation i).
Proof.
  unfold prepare. do 7 (match goal with |- (if ?b then _ else _) = _ → _ => destruct b; [done|] end). cbv zeta. destruct (negb (bool_decide _)); [done|].
  destruct (expectation_canonicalize (expectation_for i)) as [st e'] eqn:Hc.
  destruct (negb (is_ok st)) eqn:Hok; [done|]. intros [= <-].
  assert (se_members (expectation_for i) = se_members (in_expectation i)) as <-
    by (unfold expectation_for; by case_bool_decide).
  unfold expectation_canonicalize in Hc.
  do 3 (match type of Hc with (if ?b then _ else _) = _ => destruct b; [by simplify_eq|] end).
  cbv zeta in Hc. destruct (adjacent_duplicate _); simplify_eq; apply sort_by_perm.
Qed.

Lemma all_current_iff members :
  existsb not_current members = false ↔ Forall (λ m, ms_lifecycle m = MemberLifecycle.CURRENT) members.
Proof.
  rewrite existsb_false. apply Forall_iff. intros m. unfold not_current.
  by rewrite negb_false_iff, bool_decide_eq_true.
Qed.

Lemma all_current_present members :
  existsb not_current members = false → existsb present_not_current members = false.
Proof.
  rewrite !existsb_false. intros Hall. eapply Forall_impl; [exact Hall|]. intros m H.
  unfold present_not_current. by rewrite H.
Qed.

Lemma find_site_quiet e members obligations connectivity capacity forest indeterminate conflict :
  quiet (find_site e members obligations connectivity capacity forest indeterminate conflict) ↔
    (conflict = false ∧ members_complete e members = true
     ∧ Forall (λ m, ms_lifecycle m = MemberLifecycle.CURRENT) members
     ∧ ¬ Forall (λ m, em_required m = false) (se_members e))
    ∧ (cl_status capacity ≠ Status.CAPACITY_UNKNOWN
       ∧ cs_status connectivity ≠ Status.CONNECTIVITY_UNKNOWN
       ∧ ff_status forest ≠ Status.FAILURE_DOMAIN_DANGLING_PARENT
       ∧ ff_status forest ≠ Status.NO_AUTHORITATIVE_SOURCE
       ∧ ff_cyclic forest = []
       ∧ indeterminate = false)
    ∧ (cs_shared_links_down connectivity = 0 ∧ cs_gateways_down connectivity = 0
       ∧ cs_shared_links_degraded connectivity = 0 ∧ cs_gateways_degraded connectivity = 0)
    ∧ Forall (λ v, ov_status v ≠ Status.OBLIGATION_VIOLATED ∧ ov_status v ≠ Status.OBLIGATION_INDETERMINATE)
        obligations.
Proof.
  assert (Forall (λ v, ov_status v ≠ Status.OBLIGATION_VIOLATED ∧ ov_status v ≠ Status.OBLIGATION_INDETERMINATE)
    obligations ↔
    existsb (λ v, bool_decide (ov_status v = Status.OBLIGATION_VIOLATED)) obligations = false
    ∧ existsb (λ v, bool_decide (ov_status v = Status.OBLIGATION_INDETERMINATE)) obligations = false) as ->.
  { rewrite !existsb_false, <- Forall_and. apply Forall_iff. intros v. by rewrite !bool_decide_false_iff. }
  unfold find_site. pose proof (required_findings_spec e members) as Hreq.
  destruct (required_findings e members) as [absent missing]. destruct Hreq as [H1 H2].
  unfold quiet. cbn [sf_conflict sf_all_required_absent sf_any_required_missing sf_indeterminate sf_degraded].
  rewrite !orb_false_iff, !negb_false_iff, !bool_decide_eq_true, !bool_decide_false_iff, !Z.eqb_eq, all_current_iff.
  rewrite <- H1. split.
  - intros (Hc & Ha & Hm & Hi & Hd). specialize (H2 Hm).
    assert (¬ Forall (λ m, em_required m = false) (se_members e)); [|naive_solver].
    intros Hopt. assert (absent = true); [|congruence]. apply H2. split; [done|].
    apply all_current_present. apply all_current_iff. naive_solver.
  - intros ((Hc & Hm & Hcur & Hopt) & Hi & Hd & Ho1 & Ho2). specialize (H2 Hm).
    assert (absent = false) as ->; [|naive_solver].
    apply not_true_is_false. intros Ht. apply Hopt. by apply H2.
Qed.

(** A site is not current on nothing: some member is. *)
Lemma current_site_member i s :
  run i = Composed s → site_lifecycle_state s = SiteLifecycle.CURRENT →
  ∃ m, m ∈ site_members s ∧ ms_lifecycle m = MemberLifecycle.CURRENT.
Proof.
  intros Hrun. destruct (run_composed i s Hrun) as (e & n & _ & _ & _ & Hcomp & -> & _).
  rewrite lifecycle_of_current, find_site_quiet. intros ((_ & Hc & _ & Hreq) & _).
  destruct (List.find em_required (se_members e)) as [x|] eqn:Hx.
  - apply List.find_some in Hx as [Hin Hr]. unfold members_complete in Hc. apply andb_true_iff in Hc as [_ Hc].
    rewrite forallb_forall in Hc. specialize (Hc x Hin). rewrite Hr in Hc. cbn in Hc.
    destruct (find_in _ _) as [m|] eqn:Hm; [|done]. apply List.find_some in Hm as [Hm _].
    exists m. split; [by apply list_elem_of_In|]. by apply bool_decide_eq_true in Hc.
  - destruct Hreq. apply Forall_forall. intros x Hin. by apply (List.find_none _ _ Hx), list_elem_of_In.
Qed.



(** An expectation of optional members only is never current: with nothing in conflict and
    every optional member present and current, the site is reported as PARTITIONED. *)
Theorem optional_members_partitioned (i : composition_input) (s : composed_site) :
  run i = Composed s → site_conflicts s = [] → se_members (in_expectation i) ≠ [] →
  Forall (λ m, em_required m = false) (se_members (in_expectation i)) →
  Forall (λ m, ms_lifecycle m = MemberLifecycle.CURRENT) (site_members s) →
  site_lifecycle_state s = SiteLifecycle.PARTITIONED ∧ site_membership_complete s = true.
Proof.
  intros Hrun Hconf Hne Hopt Hcur.
  destruct (run_composed i s Hrun) as (e & n & He & Hcf & Hany & Hcomp & -> & _).
  rewrite Hcomp, Hany, <- Hcf, Hconf.
  assert (se_members e ≠ []) as Hne'.
  { intros Hnil. pose proof (prepare_members i e He) as Hp. rewrite Hnil in Hp. by apply Permutation_nil_l in Hp. }
  rewrite <- (prepare_members i e He) in Hopt.
  assert (members_complete e (site_members s) = true) as Hc.
  { unfold members_complete. rewrite bool_decide_eq_false_2 by done. simpl. apply forallb_forall.
    intros m Hm%list_elem_of_In. rewrite Forall_forall in Hopt. by rewrite (Hopt m Hm). }
  split; [|done]. pose proof (required_findings_spec e (site_members s)) as Hreq.
  unfold find_site. destruct (required_findings e (site_members s)) as [absent missing].
  destruct Hreq as [H1 H2]. assert (missing = false) as Hm by (by apply H1). specialize (H2 Hm).
  assert (absent = true) as ->.
  { apply H2. split; [done|]. apply all_current_present. by apply all_current_iff. }
  done.
Qed.

Lemma optional_members_partitioned_witness :
  ∃ s, run (CompositionInput "site-a" 1 1 (Incarnation 1 "boot-1") 2000
              (SiteExpectation "site-a" supported_schema 0
                 [ExpectedMember (MemberDomainKey MemberDomainKind.RACK "rack-1") false 0 zero_digest false] false)
              [Scenario.published Scenario.first_member] [] [] []) = Composed s
       ∧ site_lifecycle_state s = SiteLifecycle.PARTITIONED.
Proof.
  set (i := CompositionInput _ _ _ _ _ _ _ _ _ _).
  assert (match run i with
          | Composed s => site_conflicts s = []
              ∧ forallb (λ m, bool_decide (ms_lifecycle m = MemberLifecycle.CURRENT)) (site_members s) = true
          | _ => False end) as H by (vm_compute; split; reflexivity).
  destruct (run i) as [s| |] eqn:E; [|destruct H..]. destruct H as [Hc Hm].
  exists s. split; [reflexivity|].
  refine (proj1 (optional_members_partitioned i s E Hc _ _ _)).
  - by intros [=].
  - by repeat constructor.
  - apply Forall_forall. intros m Hin%list_elem_of_In. rewrite forallb_forall in Hm.
    exact (bool_decide_eq_true_1 _ (Hm m Hin)).
Defined.

(** ** The null dereference *)

(** A valid publication crashes the composer: a capacity pool owned by a shared link that no
    member describes, together with an obligation on links, is accepted by validation and
    makes the composition read the missing link. *)
Theorem pool_on_undescribed_link_crashes :
  let d := Scenario.declared "rack-1" [] []
             [Sample.contribution ResourceKind.SHARED_LINK "link-1" CapacityScope.SITE_INGRESS 10] []
             [Scenario.obligation "ob-1" ObligationKind.MIN_UP_SHARED_LINKS 1] in
  (seal d).1 = Status.OK ∧ run (Scenario.input ["rack-1"] [Scenario.published d]) = Crashed.
Proof. vm_compute. split; reflexivity. Qed.

(** A view never drops a pointer, and a link or gateway it is about is pointed to unless it is
    a pool. *)
Definition points_well (c : claim_view) : Prop :=
  (∀ s, is_Some (ref_link s) → is_Some (ref_link (cv_point c s)))
  ∧ (∀ s, is_Some (ref_gateway s) → is_Some (ref_gateway (cv_point c s)))
  ∧ (rk_kind (cv_key c) = ResourceKind.SHARED_LINK → ∀ s, is_Some (ref_link (cv_point c s)))
  ∧ (rk_kind (cv_key c) = ResourceKind.GATEWAY → ∀ s, is_Some (ref_gateway (cv_point c s))).

(** No pool of the declaration is owned by a link or a gateway. *)
Definition pools_elsewhere (d : declaration) : Prop :=
  ∀ c, c ∈ decl_capacity d →
    rk_kind (contrib_owner c) ≠ ResourceKind.SHARED_LINK ∧ rk_kind (contrib_owner c) ≠ ResourceKind.GATEWAY.

Lemma views_point_well d : pools_elsewhere d → Forall points_well (views d).
Proof.
  intros Hp. unfold views. rewrite !Forall_app, !Forall_fmap.
  split_and!; apply Forall_forall; intros c Hc;
    try (unfold points_well; cbn; split_and!; try done; naive_solver).
  destruct (Hp c Hc). unfold points_well. cbn. split_and!; try done; naive_solver.
Qed.

Definition refs_good (resources : resource_map) : Prop :=
  ∀ key r, om_find key resources = Some r →
    (rk_kind key = ResourceKind.SHARED_LINK → is_Some (ref_link (rr_refs r)))
    ∧ (rk_kind key = ResourceKind.GATEWAY → is_Some (ref_gateway (rr_refs r))).

Lemma record_attestation_refs a r : rr_refs (record_attestation a r) = rr_refs r.
Proof. unfold record_attestation. destruct (existsb _ _); [done|]. by destruct (_ <=? _). Qed.

Lemma refs_good_attest a resources c : points_well c → refs_good resources → refs_good (attest a resources c).
Proof.
  intros (_ & _ & Hl & Hg) Hr key r. unfold attest. destruct (decide (cv_key c = key)) as [<-|Hne].
  - rewrite om_find_set_eq. intros [= <-]. cbn. rewrite record_attestation_refs. naive_solver.
  - rewrite om_find_set_ne by congruence. apply Hr.
Qed.

Lemma refs_good_members (l : list admission) resources :
  Forall (λ a, pools_elsewhere (pub_declaration (ad_record a))) l → refs_good resources →
  refs_good (foldl attest_member resources l).
Proof.
  intros Hl. revert resources. induction Hl as [|a l Ha _ IH]; intros resources Hr; [done|]. simpl. apply IH.
  unfold attest_member, views_of. destruct (pub_has_declaration _); [|done].
  pose proof (views_point_well _ Ha) as Hv. revert resources Hr.
  induction Hv as [|c cs Hc _ IHv]; intros resources Hr; [done|]. simpl. apply IHv. by apply refs_good_attest.
Qed.

Lemma refs_good_resolved resources : refs_good resources → refs_good (resolve_all resources).
Proof.
  intros Hr key r. unfold resolve_all. rewrite om_find_map. destruct (om_find key resources) as [r0|] eqn:E; [|done].
  intros [= <-]. destruct (Hr key r0 E) as [H1 H2].
  assert (rr_refs (resolve_resource r0) = rr_refs r0) as ->; [|done].
  unfold resolve_resource. destruct (rr_attestations r0); [done|]. destruct (1 <? _); [done|].
  by destruct (negb _).
Qed.

Lemma refs_good_no_dangling resources k scope :
  om_sorted resources → refs_good resources → k = ResourceKind.SHARED_LINK ∨ k = ResourceKind.GATEWAY →
  existsb (dangles k scope) resources = false.
Proof.
  intros Hs Hr Hk. apply existsb_false, Forall_forall. intros [key r] Hin. apply om_find_elem in Hin; [|done].
  destruct (Hr key r Hin) as [H1 H2]. unfold dangles, measured, is_kind. cbn [fst snd].
  case_bool_decide as Hkind; [|done]. destruct (match scope with Some _ => _ | None => _ end); [|done].
  destruct (rr_ok r); [|done]. simpl. apply bool_decide_eq_false. unfold state_of.
  destruct Hk as [-> | ->]; [destruct (H1 Hkind) as [x ->] | destruct (H2 Hkind) as [x ->]]; done.
Qed.

Lemma om_sorted_attest_all adm : om_sorted (attest_all adm).
Proof.
  unfold attest_all. assert (∀ l r, om_sorted r → om_sorted (foldl attest_member r l)) as Hgen.
  { induction l as [|a l IH]; intros r Hr; [done|]. simpl. apply IH. unfold attest_member.
    revert r Hr. induction (views_of a) as [|c cs IHc]; intros r Hr; [done|]. simpl. apply IHc.
    unfold attest. by apply om_set_sorted. }
  apply Hgen. constructor.
Qed.

(** C33: composition ends: unless a published declaration gives a capacity pool to a shared
    link or a gateway, every prepared input yields a composed site and every other one is
    refused with the status of its preparation. *)
Theorem composition_total (i : composition_input) :
  (∀ r, r ∈ in_publications i → pools_elsewhere (pub_declaration r)) →
  match prepare i with
  | Ok _ => ∃ s, run i = Composed s
  | Err st => run i = Refused st
  end.
Proof.
  intros Hp. unfold run. destruct (prepare i) as [e|]; [|done]. cbv zeta.
  assert (refs_good (resolve_all (attest_all (admit_members i e)))
          ∧ om_sorted (resolve_all (attest_all (admit_members i e)))) as [Hgood Hsorted].
  { split.
    - apply refs_good_resolved, refs_good_members; [|done]. apply Forall_forall. intros a Ha.
      apply Hp. apply list_elem_of_fmap in Ha as ([d a'] & -> & Hin). cbn [snd].
      pose proof (proj2 (best_records_spec (in_publications i)) d) as Hc.
      assert (om_find d (admit_members i e) = Some a') as Hf.
      { apply om_find_elem; [|done]. unfold om_sorted, admit_members. rewrite om_map_keys.
        apply (best_records_spec (in_publications i)). }
      unfold admit_members in Hf. rewrite om_find_map in Hf.
      destruct (om_find d (best_records (in_publications i))) as [r|]; [|done]. injection Hf as <-.
      replace (ad_record (admission_for i e d r)) with r
        by (unfold admission_for; by destruct (judge i e d r) as [[? ?] ?]). apply Hc.
    - unfold om_sorted, resolve_all. rewrite om_map_keys. apply om_sorted_attest_all. }
  unfold attribute_resources. destruct (build_failure_domains _ _ _ _) as [[forest dm] n2].
  destruct (build_maintenance _ _ _ _ _) as [[[effects capacity] ind] n3].
  set (resources := resolve_all _) in *.
  assert (∃ obligations, build_obligations resources forest (cl_available capacity) = Some obligations) as [obls ->].
  { unfold build_obligations.
    assert (∀ l, ∃ vs, mapM (λ p, judge_obligation resources forest (cl_available capacity) p.1 p.2) l = Some vs) as Hm.
    { induction l as [|[o r] l [vs IH]]; [by exists []|]. cbn [mapM]. cbn [fst snd].
      assert (∃ v, judge_obligation resources forest (cl_available capacity) o r = Some v) as [v ->].
      { unfold judge_obligation. destruct (negb (rr_ok r)); [by eexists|].
        destruct (obligation_is_count _); [|by eexists].
        assert (∃ x, observe resources forest o = Some x) as [[n u] ->]; [|by eexists].
        unfold observe. destruct (ob_kind o); try (by eexists);
          rewrite observe_up_spec, refs_good_no_dangling; auto; by eexists. }
      cbn [mbind option_bind]. rewrite IH. by eexists. }
    destruct (Hm (obligation_records resources)) as [vs ->]. by eexists. }
  destruct (build_membership _ _ _ _) as [members n4].
  destruct (build_decisions _ _ _ _ _ _ _ _ _ _ _) as [decisions f]. by eexists.
Qed.

Lemma composition_total_witness :
  match prepare (Scenario.maintained MaintenanceState.ACTIVE) with
  | Ok _ => ∃ s, run (Scenario.maintained MaintenanceState.ACTIVE) = Composed s
  | Err st => run (Scenario.maintained MaintenanceState.ACTIVE) = Refused st
  end.
Proof.
  apply composition_total. intros r Hr c Hc. exfalso.
  apply elem_of_cons in Hr as [-> | ->%list_elem_of_singleton]; vm_compute in Hc; by apply elem_of_nil in Hc.
Defined.
