(* ===== verification/Encodable.v ===== *)
(** What the composer produces, the codec can carry (compose.cpp against codec.cpp).

    The snapshot format bounds every list, text and number, and the reader refuses what is
    beyond. Here every stage of the composer is shown to keep within the format, from
    publications that are: identifiers, references, capacities, factors, conflicts, deficits and
    decisions always fit; the lists the composer does not bound are named ([sizes_fit]). *)

From stdpp Require Import sorting sets.
From S2P Require Import Prelude Ordering Enums Sha256 Identity Canonical Evidence Capacity Claims Codec Canonicalize Forest Site SiteCodec Samples Admit Attribute Domains Maintenance Ledger Verdicts Compose.

(** * Texts *)

Lemma length_append (a b : string) : String.length (a +:+ b) = (String.length a + String.length b)%nat.
Proof. induction a as [|x a IH]; simpl; [done|]. by rewrite IH. Qed.

Lemma pretty_length k : ∀ x s, (x < 10 ^ N.of_nat k)%N → (String.length (pretty_N_go x s) ≤ String.length s + k)%nat.
Proof.
  induction k as [|k IH]; intros x s Hx.
  - assert (x = 0%N) as -> by (cbn in Hx; lia). rewrite pretty_N_go_0. lia.
  - destruct (decide (x = 0%N)) as [->|]; [rewrite pretty_N_go_0; lia|]. rewrite pretty_N_go_step by lia.
    assert (x `div` 10 < 10 ^ N.of_nat k)%N as Hd.
    { apply N.Div0.div_lt_upper_bound. rewrite Nat2N.inj_succ, N.pow_succ_r' in Hx. lia. }
    specialize (IH _ (String (pretty_N_char (x mod 10)) s) Hd). cbn [String.length] in IH. lia.
Qed.

Lemma dec_length z : in_u 64 z → (String.length (dec z) ≤ 20)%nat.
Proof.
  intros Hz. unfold dec, pretty, pretty_N. case_decide; [cbn; lia|].
  etransitivity; [apply (pretty_length 20)|cbn; lia]. unfold in_u in Hz. lia.
Qed.

Lemma text_length s : (String.length s ≤ 4096)%nat → text_ok s.
Proof. intros H. split; [|done]. unfold zlen. rewrite length_string_bytes. unfold kMaxTextBytes. lia. Qed.

Lemma id_length s : id_ok s → (String.length s ≤ 192)%nat.
Proof. intros [Hs _]%identifier_fits. unfold zlen in Hs. rewrite length_string_bytes in Hs. unfold kMaxIdentifierBytes in Hs. lia. Qed.

Lemma substring_length s : ∀ m n, (String.length (String.substring m n s) ≤ n)%nat.
Proof. induction s as [|x s IH]; intros [|m] [|n]; simpl; try lia; [specialize (IH 0%nat n); lia|apply IH..]. Qed.

Lemma short_hex_length d : (String.length (short_hex d) ≤ 16)%nat.
Proof. apply substring_length. Qed.

Lemma status_length (s : status) : (String.length (to_string s) ≤ 48)%nat.
Proof. destruct s; vm_compute; lia. Qed.
Lemma evidence_state_length (s : evidence_state) : (String.length (to_string s) ≤ 48)%nat.
Proof. destruct s; vm_compute; lia. Qed.
Lemma site_lifecycle_length (s : site_lifecycle) : (String.length (to_string s) ≤ 48)%nat.
Proof. destruct s; vm_compute; lia. Qed.
Lemma channel_length (s : capacity_channel) : (String.length (to_string s) ≤ 48)%nat.
Proof. destruct s; vm_compute; lia. Qed.
Lemma domain_kind_length (s : member_domain_kind) : (String.length (to_string s) ≤ 48)%nat.
Proof. destruct s; vm_compute; lia. Qed.

Lemma domain_id_length d : domain_ok d → (String.length (mdk_id d) ≤ 192)%nat.
Proof. intros [->|H]; [cbn; lia|]. apply andb_true_iff in H as [_ H]. by apply id_length. Qed.

Lemma mdk_length d : domain_ok d → (String.length (mdk_to_string d) ≤ 241)%nat.
Proof.
  intros Hd%domain_id_length. unfold mdk_to_string. rewrite !length_append. pose proof (domain_kind_length (mdk_kind d)).
  cbn [String.length]. lia.
Qed.

Create HintDb texts.
#[export] Hint Resolve short_hex_length status_length evidence_state_length site_lifecycle_length channel_length mdk_length dec_length id_length : texts.

(** * Lists *)

Lemma Forall_snoc {A} (P : A → Prop) l x : Forall P l → P x → Forall P (l ++ [x]).
Proof. intros Hl Hx. apply Forall_app. split; [done|]. apply Forall_cons. by split; [|constructor]. Qed.

Lemma foldl_ok {A B} (P : A → Prop) (Q : B → Prop) (f : A → B → A) l a :
  (∀ a b, P a → Q b → P (f a b)) → Forall Q l → P a → P (foldl f a l).
Proof. intros Hf Hl. revert a. induction Hl as [|b l Hb _ IH]; intros a Ha; [done|]. by apply IH, Hf. Qed.

(** * Factors *)

Lemma no_factors_ok : factors_ok no_factors.
Proof. by split; [|constructor]. Qed.

Lemma factors_add_ok x f : text_ok x → factors_ok f → factors_ok (factors_add x f).
Proof.
  intros Hx [Hl Hf]. unfold factors_add. destruct (Z.leb_spec kMaxFactors (zlen (fac_items f))); [done|].
  split; cbn [fac_items]; [rewrite zlen_app; change (zlen [x]) with 1; lia|]. by apply Forall_snoc.
Qed.

Lemma pair_ok n prefix value f :
  (String.length value ≤ n)%nat → (String.length prefix + n < 4096)%nat → factors_ok f →
  factors_ok (factors_add_pair prefix value f).
Proof.
  intros Hn H Hf. apply factors_add_ok; [|done]. apply text_length. rewrite !length_append. cbn [String.length]. lia.
Qed.

(** A factor of known texts. *)
Ltac factor :=
  match goal with
  | |- factors_ok no_factors => exact no_factors_ok
  | |- factors_ok (factors_add_pair _ (short_hex _) _) => apply (pair_ok 16); [apply short_hex_length|cbn; lia|factor]
  | |- factors_ok (factors_add_pair _ (to_string _) _) => apply (pair_ok 48); [auto with texts|cbn; lia|factor]
  | |- factors_ok (factors_add_pair _ (dec _) _) => apply (pair_ok 20); [apply dec_length|cbn; lia|factor]
  | |- factors_ok (factors_add_pair _ _ _) => apply (pair_ok 512); [try (cbn; lia)|cbn; lia|factor]
  | |- factors_ok _ => try assumption
  end.

(** * Source sets *)

Definition sources_ok (s : source_set) : Prop := ss_wf s ∧ Forall source_ref_wf (ss_items s).

Lemma sources_ok_set s : sources_ok s → source_set_ok s.
Proof. intros [(? & ? & _) ?]. by split_and!. Qed.

Lemma ss_empty_ok : sources_ok ss_empty.
Proof. split; [apply ss_wf_empty|constructor]. Qed.

Lemma ss_insert_ok r s : source_ref_wf r → sources_ok s → sources_ok (ss_insert r s).
Proof.
  intros Hr [Hw Hs]. split; [by apply ss_insert_wf|]. unfold ss_insert.
  pose proof (lower_bound_split r (ss_items s)) as Hsplit. destruct (lower_bound r (ss_items s)) as [before after].
  destruct (at_position r after); [done|]. destruct (_ <=? _); [done|]. cbn [ss_items fst snd] in *.
  rewrite <- Hsplit in Hs. apply Forall_app in Hs as [? ?]. apply Forall_app. split; [done|by constructor].
Qed.

Lemma ss_union_any s k : sources_ok s → source_set_ok k → sources_ok (ss_union s k).
Proof.
  intros Hs (_ & _ & Hk). split; [apply ss_union_wf, Hs|].
  assert (sources_ok (foldl (λ acc ref, ss_insert ref acc) s (ss_items k))) as [_ H].
  { revert s Hs. induction Hk as [|r l Hr _ IH]; intros s Hs; [done|]. by apply IH, ss_insert_ok. }
  unfold ss_union. by destruct (ss_truncated k).
Qed.

Lemma ss_union_ok s k : sources_ok s → sources_ok k → sources_ok (ss_union s k).
Proof. intros Hs Hk. by apply ss_union_any, sources_ok_set. Qed.

Lemma union_all_ok {A} (f : A → source_set) l s :
  Forall (λ x, source_set_ok (f x)) l → sources_ok s → sources_ok (foldl (λ s x, ss_union s (f x)) s l).
Proof. apply foldl_ok. intros a b Ha Hb. by apply ss_union_any. Qed.

(** * The input, and what is admitted *)

Definition input_ok (i : composition_input) : Prop :=
  in_u 64 (in_epoch i) ∧ in_u 64 (in_generation i) ∧ incarnation_wf (in_incarnation i) ∧ in_i64 (in_now_ms i)
  ∧ Forall publication_ok (in_publications i) ∧ Forall expected_ok (se_members (in_expectation i)).

(** A list of factors short enough for its join to be one text. *)
Definition brief (f : factors) : Prop :=
  fac_dropped f = 0 ∧ (length (fac_items f) ≤ 2)%nat ∧ Forall (λ x, (String.length x ≤ 100)%nat) (fac_items f).

Lemma brief_join f : brief f → text_ok (factors_join "," f).
Proof.
  intros (Hd & Hl & Hf). apply text_length. unfold factors_join. rewrite Hd. cbn [Z.eqb].
  destruct (fac_items f) as [|a [|b [|c l]]]; cbn [join_from length] in *; [cbn; lia| | |lia];
    repeat (apply Forall_cons in Hf as [? Hf]); rewrite ?length_append; cbn [String.length]; lia.
Qed.

Lemma brief_none : brief no_factors.
Proof. split_and!; [done|cbn; lia|constructor]. Qed.

Lemma brief_pair prefix value n f :
  (String.length value ≤ n)%nat → (String.length prefix + n < 100)%nat → (length (fac_items f) ≤ 1)%nat → brief f →
  brief (factors_add_pair prefix value f).
Proof.
  intros Hv Hn H1 (Hd & Hl & Hf). unfold factors_add_pair, factors_add.
  rewrite (proj2 (Z.leb_gt _ _)) by (unfold zlen, kMaxFactors; lia). split_and!; cbn [fac_dropped fac_items]; [done| |].
  - rewrite length_app. cbn. lia.
  - apply Forall_snoc; [done|]. rewrite !length_append. cbn. lia.
Qed.

Definition verdict_fits (v : verdict) : Prop := factors_ok v.2 ∧ (v.1.1 = MemberLifecycle.CONFLICTING → brief v.2).

Lemma verdict_fits_intro l st f : l ≠ MemberLifecycle.CONFLICTING → factors_ok f → verdict_fits (l, st, f).
Proof. intros Hl Hf. split; [done|]. intros He. by destruct Hl. Qed.

Lemma verdict_conflicting st p1 v1 p2 v2 :
  (String.length v1 ≤ 20)%nat → (String.length v2 ≤ 20)%nat → (String.length p1 ≤ 40)%nat → (String.length p2 ≤ 40)%nat →
  verdict_fits (MemberLifecycle.CONFLICTING, st, factors_add_pair p1 v1 (factors_add_pair p2 v2 no_factors)).
Proof.
  intros H1 H2 H3 H4. split; cbn [snd].
  - apply (pair_ok 20); [done|lia|]. apply (pair_ok 20); [done|lia|]. apply no_factors_ok.
  - intros _. apply (brief_pair _ _ 20); [done|lia| |]; [|apply (brief_pair _ _ 20); [done|lia|cbn; lia|apply brief_none]].
    by vm_compute.
Qed.

Lemma found_ok e d m : Forall expected_ok (se_members e) → expectation_find e d = Some m → expected_ok m.
Proof.
  intros He H. unfold expectation_find in H. apply List.find_some in H as [Hin _].
  rewrite Forall_forall in He. apply He. by apply list_elem_of_In.
Qed.

Lemma digest_text_length d : (String.length (short_hex d) ≤ 20)%nat.
Proof. pose proof (short_hex_length d). lia. Qed.

Lemma judge_expected_fits e d r :
  Forall expected_ok (se_members e) → publication_ok r → domain_ok d → verdict_fits (judge_expected e d r).
Proof.
  intros He Hr Hd. unfold judge_expected. destruct (is_ok (validate (pub_declaration r))); cbn [negb].
  2:{ apply verdict_fits_intro; [done|]. factor. }
  destruct (expectation_find e d) as [m|] eqn:Hm.
  - destruct (found_ok _ _ _ He Hm) as (_ & Hg & _). destruct Hr as (_ & Hg' & _).
    destruct (em_pinned m); [|by apply verdict_fits_intro; [|apply no_factors_ok]].
    destruct (_ =? _); cbn [negb].
    + destruct (bool_decide _); cbn [negb]; [by apply verdict_fits_intro; [|apply no_factors_ok]|].
      apply verdict_conflicting; [apply digest_text_length..|cbn; lia|cbn; lia].
    + apply verdict_conflicting; [by apply dec_length..|cbn; lia|cbn; lia].
  - destruct (se_reject_unexpected e); [|by apply verdict_fits_intro; [|apply no_factors_ok]].
    apply verdict_fits_intro; [done|]. factor. pose proof (mdk_length d Hd). lia.
Qed.

Lemma judge_reconstructed_fits b v : verdict_fits v → verdict_fits (judge_reconstructed b v).
Proof.
  intros Hv. unfold judge_reconstructed. destruct (_ && _); [|done]. apply verdict_fits_intro; [done|].
  destruct Hv as [Hv _]. factor.
Qed.

Lemma judge_evidence_fits x v : verdict_fits v → verdict_fits (judge_evidence x v).
Proof.
  intros Hv. unfold judge_evidence. destruct (bool_decide _); [|done]. destruct Hv as [Hv _].
  destruct x; apply verdict_fits_intro; try done; factor.
Qed.

Lemma note_unexpected_fits e d v : domain_ok d → verdict_fits v → verdict_fits (note_unexpected e d v).
Proof.
  intros Hd Hv. unfold note_unexpected.
  destruct (negb (bool_decide (is_Some (expectation_find e d))) && negb (se_reject_unexpected e)); [|done].
  cbn [andb]. destruct (bool_decide_reflect (verdict_lifecycle v = MemberLifecycle.CURRENT)) as [Hc|]; [|done].
  destruct v as [[l st] f]. cbn in Hc. subst l. apply verdict_fits_intro; [done|]. destruct Hv as [Hv _]. cbn [fst snd] in *. factor.
  pose proof (mdk_length d Hd). lia.
Qed.

Lemma schema_length x : schema_wf x → (String.length (schema_to_string x) ≤ 41)%nat.
Proof.
  intros [Hm Hn]. unfold schema_to_string. rewrite !length_append.
  assert (∀ z, in_u 32 z → in_u 64 z) as Hw by (unfold in_u; lia).
  pose proof (dec_length _ (Hw _ Hm)). pose proof (dec_length _ (Hw _ Hn)). cbn [String.length]. lia.
Qed.

Lemma judge_fits i e d r :
  in_u 64 (in_epoch i) → Forall expected_ok (se_members e) → publication_ok r → domain_ok d →
  verdict_fits (judge i e d r).
Proof.
  intros Hi He Hr Hd. pose proof Hr as (_ & Hg & Hdig & Hsch & Hsite & Hobs & _). unfold judge.
  destruct (is_revoked i d); [apply verdict_fits_intro; [done|factor]|].
  destruct (is_retired i d); [apply verdict_fits_intro; [done|factor]|].
  destruct (negb _). { apply verdict_fits_intro; [done|]. factor. apply id_length in Hsite. lia. }
  destruct (negb _). { apply verdict_fits_intro; [done|]. factor. pose proof (schema_length _ Hsch). lia. }
  destruct (_ <? _); [apply verdict_fits_intro; [done|factor]; done|].
  destruct (negb _); [apply verdict_fits_intro; [done|factor]|].
  destruct (negb _). { apply verdict_conflicting; [apply digest_text_length..|cbn; lia|cbn; lia]. }
  destruct (negb _).
  { split; cbn [snd]; [factor|]. intros _. apply (brief_pair _ _ 20); [apply digest_text_length|cbn; lia|cbn; lia|apply brief_none]. }
  apply note_unexpected_fits; [done|]. apply judge_evidence_fits, judge_reconstructed_fits. by apply judge_expected_fits.
Qed.

Definition admission_fits (a : admission) : Prop :=
  mdk_valid (ad_domain a) = true ∧ publication_ok (ad_record a) ∧ source_ref_wf (ad_source a)
  ∧ verdict_fits (ad_lifecycle a, ad_status a, ad_factors a).

Lemma best_records_usable pubs d r : (d, r) ∈ best_records pubs → r ∈ pubs ∧ usable r = true ∧ pub_domain r = d.
Proof.
  destruct (best_records_spec pubs) as [Hs Hc]. intros Hin. apply (om_find_elem _ _ _ Hs) in Hin. specialize (Hc d). rewrite Hin in Hc. apply Hc.
Qed.

Lemma admitted_fit i e :
  input_ok i → Forall expected_ok (se_members e) → Forall (λ p, admission_fits p.2 ∧ ad_domain p.2 = p.1) (admit_members i e).
Proof.
  intros (Hep & _ & _ & _ & Hpubs & _) He. apply Forall_forall. intros [d a] Hin. unfold admit_members, om_map in Hin.
  apply list_elem_of_fmap in Hin as ([d' r] & [= -> ->] & Hin). apply best_records_usable in Hin as (Hr & Hu & Hd).
  rewrite Forall_forall in Hpubs. specialize (Hpubs r Hr). cbn [fst snd].
  unfold usable in Hu. apply andb_true_iff in Hu as [[Hv _]%andb_true_iff _]. rewrite Hd in Hv.
  pose proof (judge_fits i e d' r Hep He Hpubs (or_intror Hv)) as Hj. unfold admission_for.
  destruct (judge i e d' r) as [[l st] f]. split; [|done]. split_and!; [done|done| |done].
  right. destruct Hpubs as (_ & Hg & Hdig & _). cbn. by rewrite Hd.
Qed.

(** * Resources *)

Definition refs_fit (r : claim_refs) : Prop :=
  opt_ok rack_ok (ref_rack r) ∧ opt_ok link_ok (ref_link r) ∧ opt_ok gateway_ok (ref_gateway r)
  ∧ opt_ok contribution_ok (ref_pool r) ∧ opt_ok failure_domain_ok (ref_domain r) ∧ opt_ok zone_ok (ref_zone r)
  ∧ opt_ok obligation_ok (ref_obligation r).

Definition attestation_fits (x : attestation) : Prop := source_ref_wf (at_source x) ∧ digest_wf (at_content x).

Definition record_fits (r : resource_record) : Prop :=
  resource_ok (rr_key r) ∧ zlen (rr_attestations r) ≤ kMaxAttestorsPerResource
  ∧ Forall attestation_fits (rr_attestations r) ∧ factors_ok (rr_factors r) ∧ digest_wf (rr_consensus r)
  ∧ 0 ≤ rr_distinct_contents r ≤ kMaxAttestorsPerResource ∧ refs_fit (rr_refs r).
Definition resource_fits (p : resource_key * resource_record) : Prop := resource_ok p.1 ∧ record_fits p.2.

Ltac fields := unfold record_fits; cbn [rr_key rr_attestations rr_factors rr_consensus rr_distinct_contents rr_refs]; split_and!; try first [assumption|lia].

Definition view_fits (c : claim_view) : Prop :=
  resource_ok (cv_key c) ∧ digest_wf (cv_content c) ∧ ∀ s, refs_fit s → refs_fit (cv_point c s).

Lemma keyed_ok k id : valid_resource_kind k = true → id_ok id → resource_ok (ResourceKey k id).
Proof. intros Hk Hid. right. unfold rk_valid. cbn. by rewrite Hk, Hid. Qed.

Lemma views_fit d : decl_ok d → Forall view_fits (views d).
Proof.
  intros (_ & _ & _ & _ & _ & _ & [_ Hc] & [_ Hp] & [_ Hr] & [_ Hl] & [_ Hg] & [_ Hk] & [_ Hf] & [_ Hz] & [_ Ho]).
  unfold views. rewrite !Forall_app, !Forall_fmap.
  assert (∀ (A : Type) (c : Claim A) (x : A), digest_wf (claim_digest x)) as Hd by (intros; apply digest_bytes_length).
  split_and!; (eapply Forall_impl; [eassumption|]); intros x Hx; (split; [|split; [apply Hd|]]);
    try (apply keyed_ok; [done|apply Hx]); try apply Hx; intros s (? & ? & ? & ? & ? & ? & ?); unfold refs_fit; split_and!; first [assumption|exact Hx].
Qed.

Lemma Forall_om_set `{Ord K} {V} (P : K * V → Prop) k v (m : omap_t K V) : P (k, v) → Forall P m → Forall P (om_set k v m).
Proof.
  intros Hp. induction 1 as [|[k' v'] m Hx Hm IH]; simpl; [by constructor|]. destruct (cmp k k'); by repeat constructor.
Qed.

Lemma om_find_Forall `{Ord K} {V} (P : K * V → Prop) k v (m : omap_t K V) : Forall P m → om_find k m = Some v → P (k, v).
Proof.
  induction 1 as [|[k' v'] m Hx Hm IH]; simpl; [done|]. destruct (cmp k k') eqn:E; [|by apply IH..].
  intros [= <-]. apply cmp_eq_iff in E. by subst.
Qed.

Lemma new_record_fits key : resource_ok key → record_fits (ResourceRecord key [] 0 zero_digest Status.UNKNOWN no_factors true no_refs).
Proof. intros Hk. unfold record_fits. split_and!; first [done|constructor|apply no_factors_ok|by vm_compute]. Qed.

Lemma keyed_fits key r : resource_ok key → record_fits r →
  record_fits (ResourceRecord key (rr_attestations r) (rr_distinct_contents r) (rr_consensus r) (rr_status r) (rr_factors r)
                 (rr_all_authoritative r) (rr_refs r)).
Proof. intros Hk (? & ? & ? & ? & ? & ? & ?). fields. Qed.

Lemma attest_fits a resources c :
  admission_fits a → view_fits c → Forall resource_fits resources → Forall resource_fits (attest a resources c).
Proof.
  intros (_ & _ & Hs & _) (Hk & Hd & Hpt) Hr. unfold attest. apply Forall_om_set; [|done]. split; [done|]. cbn [snd].
  set (record := default new_resource (om_find (cv_key c) resources)).
  assert (record_fits (ResourceRecord (cv_key c) (rr_attestations record) (rr_distinct_contents record)
                 (rr_consensus record) (rr_status record) (rr_factors record) (rr_all_authoritative record)
                 (rr_refs record))) as (H1 & H2 & H3 & H4 & H5 & H6 & H7).
  { unfold record. destruct (om_find (cv_key c) resources) as [r|] eqn:E.
    - apply keyed_fits; [done|]. by apply (om_find_Forall resource_fits) in E as [_ E].
    - by apply new_record_fits. }
  cbn [rr_key rr_attestations rr_factors rr_consensus rr_distinct_contents rr_refs] in *.
  unfold record_attestation. cbn [rr_attestations rr_key rr_factors rr_consensus rr_distinct_contents rr_refs rr_status rr_all_authoritative].
  destruct (existsb _ _); [fields; auto|].
  destruct (Z.leb_spec kMaxAttestorsPerResource (zlen (rr_attestations record))); (fields; auto).
  - factor.
  - rewrite zlen_app. change (zlen [_]) with 1. lia.
  - by apply Forall_snoc.
Qed.

Lemma attest_all_fits admissions :
  Forall (λ p, admission_fits p.2) admissions → Forall resource_fits (attest_all admissions).
Proof.
  intros Ha. unfold attest_all. apply (foldl_ok _ admission_fits); [|by apply Forall_fmap|constructor].
  intros m a Hm Hfa. unfold attest_member. apply (foldl_ok _ view_fits); [intros; by apply attest_fits| |done].
  unfold views_of. destruct (pub_has_declaration (ad_record a)) eqn:E; [|constructor].
  apply views_fit. destruct Hfa as (_ & (_ & _ & _ & _ & _ & _ & _ & _ & _ & _ & _ & _ & Hd) & _). by apply Hd.
Qed.

Lemma distinct_length l : zlen (distinct_contents l) ≤ zlen l.
Proof.
  unfold distinct_contents, zlen. rewrite sort_by_length.
  assert (∀ k acc, (length (foldl add_distinct acc k) ≤ length acc + length k)%nat) as H.
  { induction k as [|x k IH]; intros acc; cbn [foldl length]; [lia|]. specialize (IH (add_distinct acc x)).
    unfold add_distinct in *. case_decide; [lia|]. rewrite length_app in IH. cbn in IH. lia. }
  specialize (H (at_content <$> l) []). rewrite length_fmap in H. cbn in H. lia.
Qed.

Lemma small_u64 z : 0 ≤ z ≤ kMaxFrameBytes → in_u 64 z.
Proof. unfold in_u, kMaxFrameBytes. lia. Qed.

Lemma resolve_fits r : record_fits r → record_fits (resolve_resource r).
Proof.
  intros (H1 & H2 & H3 & H4 & H5 & H6 & H7). unfold resolve_resource.
  pose proof (distinct_length (rr_attestations r)) as Hd. pose proof (zlen_nonneg (distinct_contents (rr_attestations r))).
  assert (in_u 64 (zlen (distinct_contents (rr_attestations r))) ∧ in_u 64 (zlen (rr_attestations r))) as [Hu1 Hu2].
  { split; apply small_u64; unfold kMaxAttestorsPerResource, kMaxFrameBytes in *; lia. }
  destruct (rr_attestations r) as [|x l] eqn:E.
  { fields. factor. }
  remember (x :: l) as k eqn:Ek. clear Ek E. destruct (1 <? zlen (distinct_contents k)).
  - fields. apply (foldl_ok _ (λ _, True)); [intros f y Hf _; factor|by apply Forall_true|factor; done].
  - assert (digest_wf (default zero_digest (head (distinct_contents k)))) as Hw.
    { destruct (distinct_contents k) as [|y m] eqn:Em; [done|]. cbn.
      assert (y ∈ distinct_contents k) as Hy by (rewrite Em; left).
      apply distinct_contents_elem in Hy. apply list_elem_of_fmap in Hy as (z & -> & Hz).
      rewrite Forall_forall in H3. apply (H3 z Hz). }
    destruct (negb _); fields. factor.
Qed.

Lemma resolve_all_fits resources : Forall resource_fits resources → Forall resource_fits (resolve_all resources).
Proof.
  intros H. unfold resolve_all, om_map. apply Forall_fmap. eapply Forall_impl; [exact H|].
  intros [k r] [Hk Hr]. split; [done|]. by apply resolve_fits.
Qed.

Lemma rr_sources_ok r : Forall attestation_fits (rr_attestations r) → sources_ok (rr_sources r).
Proof.
  intros H. unfold rr_sources. apply (foldl_ok _ attestation_fits); [|done|apply ss_empty_ok].
  intros s x Hs [Hx _]. by apply ss_insert_ok.
Qed.

Lemma record_sources_ok r : record_fits r → sources_ok (rr_sources r).
Proof. intros (_ & _ & H & _). by apply rr_sources_ok. Qed.

Lemma ownership_fits p : resource_fits p → ownership_ok (attribution_of p.1 p.2).
Proof.
  intros [Hk Hr]. pose proof (record_sources_ok _ Hr) as Hs. destruct Hr as (_ & _ & _ & Hf & Hd & Hn & _).
  split; [done|]. split; [by apply sources_ok_set|]. split; [done|]. split; [|done].
  apply small_u64. unfold kMaxAttestorsPerResource, kMaxFrameBytes in *. cbn. lia.
Qed.

(** * Notes *)

Definition notes_fit (n : notes) : Prop :=
  zlen (note_conflicts n) ≤ kMaxConflicts ∧ Forall conflict_ok (note_conflicts n)
  ∧ zlen (note_deficits n) ≤ kMaxDeficits ∧ Forall deficit_ok (note_deficits n) ∧ factors_ok (note_factors n).

Lemma no_notes_fit : notes_fit no_notes.
Proof. split; [done|]. split; [constructor|]. split; [done|]. split; [constructor|apply no_factors_ok]. Qed.

Lemma add_conflict_fits now code subject parties variants n :
  in_i64 now → resource_ok subject → sources_ok parties → list_ok kMaxAttestorsPerResource text_ok variants →
  notes_fit n → notes_fit (add_conflict now code subject parties variants n).
Proof.
  intros Hnow Hs Hp Hv (H1 & H2 & H3 & H4 & H5). unfold add_conflict.
  destruct (Z.leb_spec kMaxConflicts (zlen (note_conflicts n))); unfold notes_fit; cbn [note_conflicts note_deficits note_factors].
  - split_and!; try done. factor.
  - split_and!; try done; [rewrite zlen_app; change (zlen [_]) with 1; lia|].
    apply Forall_snoc; [done|]. split; [done|]. split; [by apply sources_ok_set|]. by split.
Qed.

Lemma no_variants_ok : list_ok kMaxAttestorsPerResource text_ok [].
Proof. split; [done|constructor]. Qed.

Lemma add_deficit_fits code d detail n :
  domain_ok d → (String.length detail ≤ 4096)%nat → notes_fit n → notes_fit (add_deficit code d detail n).
Proof.
  intros Hd Hx (H1 & H2 & H3 & H4 & H5). unfold add_deficit.
  destruct (Z.leb_spec kMaxDeficits (zlen (note_deficits n))); unfold notes_fit; cbn [note_conflicts note_deficits note_factors].
  - split_and!; try done. factor.
  - split_and!; try done; [rewrite zlen_app; change (zlen [_]) with 1; lia|].
    apply Forall_snoc; [done|]. split; [done|by apply text_length].
Qed.

Lemma note_factor_fits prefix value n :
  (String.length value ≤ 512)%nat → (String.length prefix ≤ 512)%nat → notes_fit n → notes_fit (note_factor prefix value n).
Proof.
  intros Hv Hp (H1 & H2 & H3 & H4 & H5). unfold note_factor, notes_fit. cbn [note_conflicts note_deficits note_factors].
  split_and!; try done. apply (pair_ok 512); [done|lia|done].
Qed.

Lemma note_overlaps_fit now resources n :
  in_i64 now → Forall resource_fits resources → notes_fit n → notes_fit (foldl (note_overlap now) n resources).
Proof.
  intros Hnow Hr. apply (foldl_ok _ resource_fits); [|done]. intros m [k r] Hm [Hk Hrec]. unfold note_overlap.
  pose proof (record_sources_ok _ Hrec). destruct (rr_status r); try done; by apply add_conflict_fits; [|..|apply no_variants_ok|].
Qed.

(** * The failure domains *)

Definition node_fits (n : failure_domain_node) : Prop :=
  id_ok (fdn_id n) ∧ opt_ok id_ok (fdn_parent n) ∧ list_ok kMaxResourceMembers resource_ok (fdn_members n)
  ∧ source_set_ok (fdn_attestors n).

Lemma claimed_members_ok admissions id x :
  Forall (λ p, admission_fits p.2) admissions → Forall resource_ok (claimed_members admissions id x).
Proof.
  intros Ha. unfold claimed_members. destruct (om_find _ _) as [a|] eqn:E; [|constructor].
  apply (om_find_Forall (λ p, admission_fits p.2)) in E; [|done]. cbn [snd] in E.
  destruct (pub_has_declaration (ad_record a)) eqn:Hd; [|constructor].
  destruct E as (_ & (_ & _ & _ & _ & _ & _ & _ & _ & _ & _ & _ & _ & Hdecl) & _).
  destruct (Hdecl Hd) as (_ & _ & _ & _ & _ & _ & _ & _ & _ & _ & _ & _ & [_ Hf] & _).
  apply Forall_forall. intros k (c & Hk & Hc)%list_elem_of_bind. rewrite Forall_forall in Hf.
  destruct (Hf c Hc) as (_ & _ & [_ Hm] & _). destruct (bool_decide _); [|by apply elem_of_nil in Hk].
  rewrite Forall_forall in Hm. by apply Hm.
Qed.

Lemma domain_node_fits admissions p :
  Forall (λ p, admission_fits p.2) admissions → resource_fits p → is_kind ResourceKind.FAILURE_DOMAIN p = true →
  node_fits (domain_node admissions p).
Proof.
  intros Ha [Hk Hr] Hkind. destruct p as [key r]. cbn [fst snd] in *. unfold is_kind in Hkind. apply bool_decide_eq_true in Hkind.
  cbn [fst] in Hkind. pose proof (record_sources_ok _ Hr) as Hs. destruct Hr as (_ & _ & _ & _ & _ & _ & Href).
  destruct Href as (_ & _ & _ & _ & Hdom & _). unfold domain_node.
  assert (id_ok (rk_id key)) as Hid.
  { destruct Hk as [->|Hk]; [done|]. by apply andb_true_iff in Hk as [_ Hk]. }
  assert (Forall resource_ok (union_members admissions (rk_id key) r)) as Hm.
  { apply Forall_forall. intros k Hin. unfold union_members in Hin. rewrite sort_unique_elem in Hin.
    apply list_elem_of_bind in Hin as (x & Hin & _).
    pose proof (claimed_members_ok admissions (rk_id key) x Ha) as Hc. rewrite Forall_forall in Hc. by apply Hc. }
  assert (list_ok kMaxResourceMembers resource_ok
    (if kMaxResourceMembers <? zlen (union_members admissions (rk_id key) r)
     then take (Z.to_nat kMaxResourceMembers) (union_members admissions (rk_id key) r)
     else union_members admissions (rk_id key) r)) as Hl.
  { destruct (Z.ltb_spec kMaxResourceMembers (zlen (union_members admissions (rk_id key) r))).
    - split; [unfold zlen; rewrite length_take; unfold kMaxResourceMembers; lia|by apply Forall_take].
    - split; [lia|done]. }
  destruct (ref_domain (rr_refs r)) as [c|]; split; [done|split; [apply Hdom|]|done|split; [done|]]; split; try done; by apply sources_ok_set.
Qed.

Lemma set_status_fits s n : node_fits n → node_fits (node_with_status s n).
Proof. done. Qed.

(** The forest while its loop fills it. *)
Definition filling_fits (f : failure_domain_forest) : Prop :=
  Forall node_fits (ff_nodes f) ∧ ff_cyclic f = [] ∧ Forall id_ok (ff_dangling f)
  ∧ (length (ff_dangling f) ≤ length (ff_nodes f))%nat ∧ factors_ok (ff_factors f).

Lemma push_node_fits ids f n node :
  filling_fits f → notes_fit n → node_fits node →
  let '(f', n') := push_node ids (f, n) node in filling_fits f' ∧ notes_fit n'.
Proof.
  intros (H1 & H2 & H3 & H4 & H5) Hn Hnode. pose proof Hnode as (Hid & Hpar & _). unfold push_node.
  set (st := adjusted_status (fdn_status node)).
  assert (factors_ok (if bool_decide (st = Status.NO_AUTHORITATIVE_SOURCE)
    then factors_add_pair "unsourced_domain" (fdn_id node) (ff_factors f) else ff_factors f)) as Hf.
  { destruct (bool_decide _); [|done]. factor. apply id_length in Hid. lia. }
  assert (∀ s dangling n', notes_fit n' → Forall id_ok dangling → (length dangling ≤ S (length (ff_nodes f)))%nat →
    filling_fits (FailureDomainForest (ff_nodes f ++ [node_with_status s node]) (ff_cyclic f) dangling (ff_status f)
      (if bool_decide (st = Status.NO_AUTHORITATIVE_SOURCE)
       then factors_add_pair "unsourced_domain" (fdn_id node) (ff_factors f) else ff_factors f)) ∧ notes_fit n') as Hall.
  { intros s dangling n' Hn' Hd Hl. split; [|done]. unfold filling_fits. cbn [ff_nodes ff_cyclic ff_dangling ff_factors].
    split_and!; try done.
    - by apply Forall_snoc.
    - rewrite length_app. cbn. lia. }
  destruct (fdn_parent node) as [parent|]; [|apply Hall; [done..|lia]].
  destruct (bool_decide (parent ∈ ids)); [apply Hall; [done..|lia]|]. apply Hall.
  - apply add_deficit_fits; [by left| |done]. rewrite length_append. cbn in Hpar. apply id_length in Hpar. cbn. lia.
  - by apply Forall_snoc.
  - rewrite length_app. cbn. lia.
Qed.

Lemma climb_fits ns budget : Forall node_fits ns → ∀ self parent seen ancestors depth l d,
  opt_ok id_ok parent → Forall id_ok ancestors → 0 ≤ depth →
  climb budget ns self parent seen ancestors depth = Some (l, d) →
  Forall id_ok l ∧ (length l ≤ length ancestors + budget)%nat ∧ 0 ≤ d ≤ depth + Z.of_nat budget.
Proof.
  intros Hns. induction budget as [|budget IH]; intros self parent seen ancestors depth l d Hp Ha Hd; cbn [climb];
    (destruct parent as [p|]; [|intros [= <- <-]; split_and!; [done|lia..]]); (destruct (_ || _); [done|]); [done|].
  destruct (node_of ns p) as [cursor|] eqn:E; [|intros [= <- <-]; split_and!; [done|lia..]].
  apply node_of_id in E as [_ Hin]. rewrite Forall_forall in Hns. destruct (Hns cursor Hin) as (_ & Hpar & _). intros H.
  apply IH in H as (H1 & H2 & H3); [|done|by apply Forall_snoc|lia]. rewrite length_app in H2. cbn in H2. split_and!; [done|lia..].
Qed.

(** A node of the resolved forest, with at most [k] children. *)
Definition resolved_fits (k : nat) (n : failure_domain_node) : Prop :=
  node_fits n ∧ list_ok kMaxFailureDomainDepth id_ok (fdn_ancestors n) ∧ 0 ≤ fdn_depth n ≤ kMaxFailureDomainDepth
  ∧ Forall id_ok (fdn_children n) ∧ (length (fdn_children n) ≤ k)%nat.

Lemma resolve_node_fits ns n : Forall node_fits ns → node_fits n →
  resolved_fits 0 (with_children [] (resolve_node ns n)).
Proof.
  intros Hns Hn. unfold resolve_node. destruct (climb_from ns n) as [[l d]|] eqn:E.
  - unfold climb_from in E. pose proof Hn as (_ & Hp & _). apply climb_fits in E as (H1 & H2 & H3); [|done|done|constructor|lia].
    cbn [length] in H2. split; [done|]. split; [split; [|done]|split; [|split; [constructor|cbn; lia]]].
    + cbn. unfold zlen, kMaxFailureDomainDepth in *. lia.
    + cbn. unfold kMaxFailureDomainDepth in *. lia.
  - split; [done|]. split; [split; [done|constructor]|split; [done|split; [constructor|cbn; lia]]].
Qed.

Lemma add_child_fits k ns m : id_ok (fdn_id m) → Forall (resolved_fits k) ns → Forall (resolved_fits (S k)) (add_child ns m).
Proof.
  intros Hm Hns.
  assert (∀ n, resolved_fits k n → resolved_fits (S k) n) as Hup by (intros n (? & ? & ? & ? & ?); split_and!; auto; lia).
  assert (Forall (resolved_fits (S k)) ns) as Hall by (by eapply Forall_impl).
  unfold add_child. destruct (fdn_parent m) as [p|]; [|done]. destruct (index_of ns p) as [i|]; [|done].
  assert (∀ n, resolved_fits k n → resolved_fits (S k) (with_child (fdn_id m) n)) as Hone.
  { intros n (H1 & H2 & H3 & H4 & H5). unfold with_child. case_decide; [split_and!; auto; lia|].
    split; [done|]. split; [done|]. split; [done|]. cbn [with_children fdn_children]. split; [by apply Forall_snoc|].
    rewrite length_app. cbn. lia. }
  clear Hall. revert i. induction Hns as [|n ns Hn Hns IH]; intros i; [done|]. destruct i as [|i]; apply Forall_cons.
  - split; [by apply Hone|]. by eapply Forall_impl.
  - split; [by apply Hup|]. apply IH.
Qed.

Lemma add_children_fits todo : ∀ k ns, Forall (λ n, id_ok (fdn_id n)) todo → Forall (resolved_fits k) ns →
  Forall (resolved_fits (k + length todo)) (foldl add_child ns todo).
Proof.
  induction todo as [|m todo IH]; intros k ns Ht Hns; cbn [foldl length]; [by rewrite Nat.add_0_r|].
  apply Forall_cons in Ht as [Hm Ht]. replace (k + S (length todo))%nat with (S k + length todo)%nat by lia.
  apply IH; [done|]. by apply add_child_fits.
Qed.

Definition forest_fits (f : failure_domain_forest) : Prop :=
  Forall (resolved_fits (length (ff_nodes f))) (ff_nodes f)
  ∧ (Forall id_ok (ff_cyclic f) ∧ (length (ff_cyclic f) ≤ length (ff_nodes f))%nat)
  ∧ (Forall id_ok (ff_dangling f) ∧ (length (ff_dangling f) ≤ length (ff_nodes f))%nat) ∧ factors_ok (ff_factors f).

Lemma note_cyclic_fits ns todo cyc : Forall node_fits todo → Forall id_ok cyc →
  Forall id_ok (foldl (note_cyclic ns) cyc todo) ∧ (length (foldl (note_cyclic ns) cyc todo) ≤ length cyc + length todo)%nat.
Proof.
  intros Ht. revert cyc. induction Ht as [|n todo Hn _ IH]; intros cyc Hc; cbn [foldl length]; [split; [done|lia]|].
  assert (Forall id_ok (note_cyclic ns cyc n) ∧ (length (note_cyclic ns cyc n) ≤ S (length cyc))%nat) as [H1 H2].
  { unfold note_cyclic. destruct (climb_from ns n); [split; [done|lia]|]. case_decide; [split; [done|lia]|].
    split; [apply Forall_snoc; [done|apply Hn]|]. rewrite length_app. cbn. lia. }
  destruct (IH _ H1) as [H3 H4]. split; [done|lia].
Qed.

Lemma resolve_ancestry_fits f :
  Forall node_fits (ff_nodes f) → ff_cyclic f = [] → Forall id_ok (ff_dangling f) →
  (length (ff_dangling f) ≤ length (ff_nodes f))%nat → factors_ok (ff_factors f) → forest_fits (resolve_ancestry f).
Proof.
  intros Hn Hc Hd Hl Hf. set (ns := ff_nodes f) in *.
  assert (length (link_children (resolve_node ns <$> ns)) = length ns) as Hlen by (by rewrite link_children_length, length_fmap).
  unfold forest_fits. cbn [resolve_ancestry ff_nodes ff_cyclic ff_dangling ff_factors]. fold ns. rewrite Hlen. split_and!.
  - unfold link_children. set (cleared := with_children [] <$> (resolve_node ns <$> ns)).
    assert (Forall (resolved_fits 0) cleared) as H0.
    { unfold cleared. rewrite !Forall_fmap. eapply Forall_impl; [exact Hn|]. intros n Hnode. by apply resolve_node_fits. }
    apply Forall_fmap. eapply Forall_impl; [apply (add_children_fits cleared 0 cleared); [|done]|].
    + eapply Forall_impl; [exact H0|]. intros n Hnode. apply Hnode.
    + intros n (H1 & H2 & H3 & H4 & H5). split; [done|]. split; [done|]. split; [done|]. cbn [with_children fdn_children].
      split; [by rewrite sort_by_perm|]. rewrite sort_by_length. unfold cleared in H5. rewrite !length_fmap in H5. cbn in H5. lia.
  - rewrite sort_by_perm. apply note_cyclic_fits; [done|]. by rewrite Hc.
  - rewrite sort_by_length. pose proof (proj2 (note_cyclic_fits ns ns (ff_cyclic f) Hn ltac:(by rewrite Hc))) as H.
    rewrite Hc in H |- *. cbn in H. lia.
  - by rewrite sort_by_perm.
  - by rewrite sort_by_length.
  - done.
Qed.

(** The lists of a forest the format bounds and the composer does not. *)
Definition forest_sizes (f : failure_domain_forest) : Prop :=
  zlen (ff_nodes f) ≤ kMaxDistinctFailureDomains + 1 ∧ zlen (ff_cyclic f) ≤ kMaxAttestorsPerResource + 1.

Lemma ids_are_texts l : Forall id_ok l → Forall text_ok l.
Proof. intros H. eapply Forall_impl; [exact H|]. intros x Hx%id_length. apply text_length. lia. Qed.

Lemma judge_forest_fits now f n :
  in_i64 now → forest_fits f → notes_fit n → forest_sizes f →
  let '(f', n') := judge_forest now f n in
  forest_fits f' ∧ notes_fit n' ∧ ff_nodes f' = ff_nodes f ∧ ff_cyclic f' = ff_cyclic f.
Proof.
  intros Hnow (H1 & [H2 H2'] & [H3 H3'] & H4) Hn [Hs1 Hs2].
  assert (in_u 64 (zlen (ff_cyclic f)) ∧ in_u 64 (zlen (ff_dangling f))) as [Hu1 Hu2].
  { unfold in_u, zlen, kMaxDistinctFailureDomains, kMaxAttestorsPerResource in *. lia. }
  assert (∀ s fs, factors_ok fs → forest_fits (with_forest_status s fs f)) as Hw by (intros s fs Hfs; by split_and!).
  unfold judge_forest. destruct (negb _); [|destruct (negb _); [|destruct (existsb _ _); [|destruct (existsb _ _)]]].
  - split_and!; try done; [apply Hw; factor; done|]. apply add_conflict_fits; [done|by left|apply ss_empty_ok| |done].
    split; [done|by apply ids_are_texts].
  - split_and!; try done; apply Hw; factor; done.
  - split_and!; try done; by apply Hw.
  - split_and!; try done; by apply Hw.
  - split_and!; try done; by apply Hw.
Qed.

Lemma note_domain_conflicts_fit now resources nodes n :
  in_i64 now → Forall resource_fits resources → Forall node_fits nodes → notes_fit n →
  notes_fit (foldl (note_domain_conflict now resources) n nodes).
Proof.
  intros Hnow Hr Hnodes. apply (foldl_ok _ node_fits); [|done]. intros m node Hm (Hid & _). unfold note_domain_conflict.
  destruct (has_status _ _); [|done]. destruct (om_find _ _) as [r|] eqn:E; [|done].
  apply (om_find_Forall resource_fits) in E as [_ E]; [|done].
  apply add_conflict_fits; [done|by apply keyed_ok|by apply record_sources_ok|apply no_variants_ok|done].
Qed.

Lemma push_nodes_fit ids nodes : ∀ f n, filling_fits f → notes_fit n → Forall node_fits nodes →
  let '(f', n') := foldl (push_node ids) (f, n) nodes in filling_fits f' ∧ notes_fit n'.
Proof.
  induction nodes as [|node nodes IH]; intros f n Hf Hn Hnodes; cbn [foldl]; [done|].
  apply Forall_cons in Hnodes as [Hnode Hnodes]. pose proof (push_node_fits ids f n node Hf Hn Hnode) as H.
  destruct (push_node ids (f, n) node) as [f' n']. destruct H. by apply IH.
Qed.

Lemma build_failure_domains_fit now admissions resources n :
  in_i64 now → Forall (λ p, admission_fits p.2) admissions → Forall resource_fits resources → notes_fit n →
  forest_sizes (build_failure_domains now admissions resources n).1.1 →
  let '(f, members, n') := build_failure_domains now admissions resources n in
  forest_fits f ∧ Forall (λ p, Forall resource_ok p.2) members ∧ notes_fit n'.
Proof.
  intros Hnow Ha Hr Hn. unfold build_failure_domains. set (nodes := domain_node admissions <$> domain_records resources).
  assert (Forall node_fits nodes) as Hnodes.
  { unfold nodes, domain_records. apply Forall_fmap. apply Forall_forall. intros p Hp.
    apply list_elem_of_In, List.filter_In in Hp as [Hp%list_elem_of_In Hkind].
    rewrite Forall_forall in Hr. by apply domain_node_fits; [|apply Hr|]. }
  assert (filling_fits no_forest) as H0 by (split_and!; [constructor|done|constructor|done|apply no_factors_ok]).
  pose proof (push_nodes_fit (fdn_id <$> nodes) nodes no_forest n H0 Hn Hnodes) as Hpush.
  destruct (foldl _ _ _) as [f1 n1]. destruct Hpush as [(F1 & F2 & F3 & F4 & F5) Hn1].
  assert (forest_fits (resolve_ancestry (sort_nodes f1))) as Hres.
  { apply resolve_ancestry_fits; cbn; [by rewrite sort_by_perm|done|done|by rewrite sort_by_length|done]. }
  pose proof (judge_forest_fits now _ n1 Hnow Hres Hn1) as Hj.
  destruct (judge_forest now (resolve_ancestry (sort_nodes f1)) n1) as [f2 n2] eqn:Ej. cbn [fst]. intros Hs.
  assert (ff_nodes f2 = ff_nodes (resolve_ancestry (sort_nodes f1)) ∧ ff_cyclic f2 = ff_cyclic (resolve_ancestry (sort_nodes f1))) as [E1 E2].
  { unfold judge_forest in Ej. destruct (negb _); [|destruct (negb _); [|destruct (existsb _ _); [|destruct (existsb _ _)]]];
      by injection Ej as <- _. }
  destruct Hj as (Hf2 & Hn2 & _); [by unfold forest_sizes in *; rewrite <- E1, <- E2|].
  split_and!; [done| |].
  - apply Forall_fmap. eapply Forall_impl; [exact Hnodes|]. intros x (_ & _ & [_ Hm] & _). done.
  - apply note_domain_conflicts_fit; [done..| |done]. eapply Forall_impl; [apply Hf2|]. intros x Hx. apply Hx.
Qed.

(** * Maintenance *)

Lemma Forall_sort_unique `{Ord A, !EqDecision A} (P : A → Prop) l : Forall P l → Forall P (sort_unique l).
Proof. rewrite !Forall_forall. intros Hl x Hx. rewrite sort_unique_elem in Hx. by apply Hl. Qed.

Lemma zlen_sort_unique `{Ord A, !EqDecision A} (l : list A) : zlen (sort_unique l) ≤ zlen l.
Proof. pose proof (sort_unique_length l). unfold zlen. lia. Qed.

Section zones.
Context (now_ms : Z) (resources : resource_map) (forest : failure_domain_forest)
  (domain_members : omap_t string (list resource_key)) (bound : Z).
Hypothesis Hnow : in_i64 now_ms.
Hypothesis Hresources : Forall resource_fits resources.
Hypothesis Hforest : forest_fits forest.
Hypothesis Hmembers : Forall (λ p, Forall resource_ok p.2) domain_members.
Hypothesis Hbound : zlen (standing_obligations resources) ≤ bound ∧ bound ≤ kMaxDistinctObligations + 1.

Lemma zone_scope_ok z : zone_ok z → Forall resource_ok (collect_zone_scope forest domain_members z).
Proof using All.
  intros (_ & _ & _ & _ & [_ Hr] & _). unfold collect_zone_scope. apply Forall_sort_unique, Forall_app. split; [done|].
  apply Forall_forall. intros k (d & Hk & _)%list_elem_of_bind. apply elem_of_app in Hk as [Hk|Hk].
  - destruct (om_find d domain_members) as [l|] eqn:E; [|by apply elem_of_nil in Hk].
    apply (om_find_Forall (λ p, Forall resource_ok p.2)) in E; [|done]. cbn in E. rewrite Forall_forall in E. by apply E.
  - apply list_elem_of_bind in Hk as (n & Hk & Hn). destruct (ancestor_of n d); [|by apply elem_of_nil in Hk].
    destruct Hforest as [Hnodes _]. rewrite Forall_forall in Hnodes. destruct (Hnodes n Hn) as [(_ & _ & [_ Hm] & _) _].
    rewrite Forall_forall in Hm. by apply Hm.
Qed.

Lemma zones_fit : Forall (λ q, resource_fits q.1 ∧ zone_ok q.2) (zones resources).
Proof using Hresources.
  apply Forall_forall. intros q (p & Hp & Hq)%list_elem_of_omap. rewrite Forall_forall in Hresources.
  destruct (is_kind _ p); [|done]. destruct (ref_zone (rr_refs p.2)) as [z|] eqn:E; [|done]. cbn in Hq. injection Hq as <-.
  split; [destruct p; by apply Hresources|]. cbn [snd]. destruct (Hresources p Hp) as [_ (_ & _ & _ & _ & _ & _ & Href)].
  destruct Href as (_ & _ & _ & _ & _ & Hz & _). by rewrite E in Hz.
Qed.

Lemma zone_scopes_ok : Forall (λ p, Forall resource_ok p.2) (zone_scopes resources forest domain_members).
Proof using All.
  unfold zone_scopes. apply (foldl_ok _ (λ q, resource_fits q.1 ∧ zone_ok q.2)); [|apply zones_fit|constructor].
  intros m [[k r] z] Hm [_ Hz]. apply Forall_om_set; [|done]. cbn [snd] in *. destruct (rr_ok r); [|constructor].
  by apply zone_scope_ok.
Qed.

Lemma scope_of_ok id : Forall resource_ok (scope_of resources forest domain_members id).
Proof using All.
  unfold scope_of. destruct (om_find _ _) as [l|] eqn:E; [|constructor].
  by apply (om_find_Forall (λ p, Forall resource_ok p.2)) in E; [|apply zone_scopes_ok].
Qed.

Lemma standing_ok : Forall obligation_ok (standing_obligations resources).
Proof using Hresources.
  apply Forall_forall. intros o (p & Hp & Ho)%list_elem_of_omap. rewrite Forall_forall in Hresources.
  destruct (_ && _); [|done]. destruct (Hresources p Hp) as [_ (_ & _ & _ & _ & _ & _ & Href)].
  destruct Href as (_ & _ & _ & _ & _ & _ & Hobl). by rewrite Ho in Hobl.
Qed.

Lemma overlapping_ok z :
  Forall id_ok (overlapping resources forest domain_members z)
  ∧ zlen (overlapping resources forest domain_members z) ≤ bound.
Proof using All.
  unfold overlapping. split.
  - apply Forall_sort_unique, Forall_fmap, Forall_forall. intros o Ho.
    apply list_elem_of_In, List.filter_In in Ho as [Ho%list_elem_of_In _].
    pose proof standing_ok as H. rewrite Forall_forall in H. apply (H o Ho).
  - etransitivity; [apply zlen_sort_unique|]. etransitivity; [|apply Hbound]. unfold zlen. rewrite length_fmap.
    pose proof (List.filter_length_le (λ o, obligation_overlaps_zone resources forest domain_members o z) (standing_obligations resources)). lia.
Qed.

(** An effect, but for the length of its scope. *)
Definition effect_fits (e : maintenance_effect) : Prop :=
  id_ok (me_id e) ∧ Forall resource_ok (me_excluded e) ∧ me_indeterminate e = []
  ∧ list_ok kMaxDistinctObligations id_ok (me_overlapping_obligations e)
  ∧ capacity_ok (me_excluded_capacity e) ∧ factors_ok (me_factors e).

Lemma unknown_ok : capacity_ok all_unknown.
Proof using. by repeat split. Qed.

Lemma zone_effect_fits z excluded overlaps s f :
  zone_ok z → Forall resource_ok excluded → list_ok kMaxDistinctObligations id_ok overlaps → factors_ok f →
  effect_fits (zone_effect z excluded overlaps s f).
Proof using. intros (Hz & _) ???. split; [done|]. split; [done|]. split; [done|]. split; [done|]. split; [apply unknown_ok|done]. Qed.

Lemma apply_zone_fits effects n q :
  Forall effect_fits effects → notes_fit n → resource_fits q.1 ∧ zone_ok q.2 →
  let '(effects', n') := apply_zone now_ms resources forest domain_members (effects, n) q in
  Forall effect_fits effects' ∧ notes_fit n'.
Proof using All.
  destruct q as [[key r] z]. cbn [fst snd]. intros He Hn [[_ Hr] Hz]. unfold apply_zone.
  assert (list_ok kMaxDistinctObligations id_ok []) as Hnil by (split; [done|constructor]).
  pose proof (overlapping_ok z) as [Ho1 Ho2]. pose proof (zlen_nonneg (overlapping resources forest domain_members z)).
  destruct (negb (rr_ok r)).
  { split; [|done]. apply Forall_snoc; [done|]. apply zone_effect_fits; [done|constructor|done|factor]. }
  destruct (negb (bool_decide _)).
  { split.
    - apply Forall_snoc; [done|]. apply zone_effect_fits; [done|constructor|split; [lia|done]|].
      factor. unfold in_u, kMaxDistinctObligations in *. lia.
    - apply add_conflict_fits; [done|by apply keyed_ok; [|apply Hz]|by apply record_sources_ok|apply no_variants_ok|done]. }
  destruct (bool_decide _).
  { split; [|done]. apply Forall_snoc; [done|]. apply zone_effect_fits; [done|apply scope_of_ok|done|factor]. }
  split; [|done]. apply Forall_snoc; [done|]. apply zone_effect_fits; [done| |done|].
  - destruct (excludes_capacity _); [apply scope_of_ok|constructor].
  - destruct (_ && _); factor.
Qed.

Lemma zone_effects_fit n : notes_fit n →
  let '(effects, n') := zone_effects now_ms resources forest domain_members n in
  Forall effect_fits effects ∧ notes_fit n'.
Proof using All.
  intros Hn. unfold zone_effects.
  assert (∀ l effects n, Forall (λ q, resource_fits q.1 ∧ zone_ok q.2) l → Forall effect_fits effects → notes_fit n →
    let '(effects', n') := foldl (apply_zone now_ms resources forest domain_members) (effects, n) l in
    Forall effect_fits effects' ∧ notes_fit n') as Hfold.
  { induction l as [|q l IH]; intros effects m Hl He Hm; cbn [foldl]; [done|]. apply Forall_cons in Hl as [Hq Hl].
    pose proof (apply_zone_fits effects m q He Hm Hq) as Ha. destruct (apply_zone _ _ _ _ _ _) as [e' m']. destruct Ha. by apply IH. }
  specialize (Hfold (zones resources) [] n zones_fit ltac:(constructor) Hn).
  destruct (foldl _ _ _) as [effects n']. destruct Hfold. split; [by rewrite sort_by_perm|done].
Qed.
End zones.

(** * The capacity ledger *)

Lemma known_value_ok z : 0 ≤ z ≤ kMaxCapacityBps → value_ok (known_bps z).
Proof. intros H. split; [split; [unfold in_u, kMaxCapacityBps in *; cbn; lia|done]|apply H]. Qed.

Lemma unknown_value_ok : value_ok cv_unknown.
Proof. by repeat split. Qed.

Definition channel_fits (c : channel_state) : Prop := 0 ≤ ch_accumulator c ≤ kMaxCapacityBps.

Lemma channel_add_fits c v : channel_fits c → value_ok v → channel_fits (channel_add c v).2.
Proof.
  unfold channel_fits. intros Hc [[Hv _] _]. unfold channel_add. destruct (cv_known v), (ch_overflowed c); cbn [negb]; try done.
  rewrite add_known_spec by (unfold in_u in *; lia). destruct (Z.leb_spec (ch_accumulator c + cv_bps v) kMaxCapacityBps); [|done].
  unfold in_u in *. cbn. lia.
Qed.

Lemma channel_total_ok c : channel_fits c → value_ok (channel_total c).
Proof. unfold channel_total. destruct (channel_is_known c); [apply known_value_ok|intros _; apply unknown_value_ok]. Qed.

Definition aggregate_fits (a : capacity_aggregate) : Prop :=
  channel_fits (ca_ingress a) ∧ channel_fits (ca_egress a) ∧ channel_fits (ca_internal a).

Lemma aggregate_total_ok a : aggregate_fits a → capacity_ok (aggregate_total a).
Proof. intros (? & ? & ?). split_and!; by apply channel_total_ok. Qed.

Lemma add_masked_fits on ch v a : value_ok v → aggregate_fits a → aggregate_fits (add_masked on ch v a).
Proof.
  intros Hv (H1 & H2 & H3). unfold add_masked. destruct on; [|done]. pose proof (add_channel_fields a v) as (E1 & E2 & E3).
  destruct ch; rewrite ?E1, ?E2, ?E3; try done; (split_and!; cbn; [..|]; first [assumption|by apply channel_add_fits]).
Qed.

Lemma add_aggregate_fits a b : capacity_ok (lb_capacity b) → aggregate_fits a → aggregate_fits (add_aggregate a b).
Proof. intros (? & ? & ?) Ha. by repeat apply add_masked_fits. Qed.

Definition build_fits (b : ledger_build) : Prop :=
  resource_ok (lb_owner b) ∧ capacity_ok (lb_capacity b) ∧ source_set_ok (lb_attestors b) ∧ factors_ok (lb_factors b).

Lemma contribution_fits r scope mask external capacity :
  refs_fit r → contribution r = Some (scope, mask, external, capacity) → capacity_ok capacity.
Proof.
  intros (Hr & Hl & Hg & Hp & _). unfold contribution.
  destruct (ref_rack r), (ref_link r), (ref_gateway r), (ref_pool r); intros Heq; try done; injection Heq as <- <- <- <-;
    first [apply Hr|apply Hl|apply Hg|apply Hp].
Qed.

Lemma builds_fit resources : Forall resource_fits resources → Forall build_fits (collect_ledger_builds resources).
Proof.
  intros H. apply Forall_forall. intros b ([key r] & Hp & Hb)%list_elem_of_omap. rewrite Forall_forall in H.
  destruct (H _ Hp) as [Hk Hr]. cbn [fst snd] in *. pose proof (sources_ok_set _ (record_sources_ok _ Hr)) as Hs.
  destruct Hr as (_ & _ & _ & Hf & _ & _ & Href). unfold ledger_build_of in Hb.
  destruct (contribution (rr_refs r)) as [[[[scope mask] external] capacity]|] eqn:E; [|done].
  apply contribution_fits in E; [|done]. injection Hb as <-.
  destruct (negb (rr_ok r)); [|destruct (no_mask mask)]; split_and!; try done.
  cbn [lb_factors]. by apply (pair_ok 512); [cbn; lia|cbn; lia|].
Qed.

Definition sums_fit (s : ledger_sums) : Prop :=
  aggregate_fits (sum_total_ s) ∧ aggregate_fits (sum_available s) ∧ aggregate_fits (sum_excluded s)
  ∧ aggregate_fits (sum_indeterminate s).

Lemma post_builds_fit excluded builds : Forall build_fits builds →
  sums_fit (post_builds excluded builds).1 ∧ Forall ledger_entry_ok (post_builds excluded builds).2.
Proof.
  intros Hb. unfold post_builds. apply (foldl_ok (λ st : ledger_sums * list capacity_ledger_entry, sums_fit st.1 ∧ Forall ledger_entry_ok st.2) build_fits); [|done|].
  - intros [s entries] b [(H1 & H2 & H3 & H4) He] (Ho & Hc & Hs & Hf). unfold post_build. cbn [fst snd] in *.
    pose proof (add_aggregate_fits (sum_total_ s) b Hc H1). pose proof (add_aggregate_fits (sum_available s) b Hc H2).
    pose proof (add_aggregate_fits (sum_excluded s) b Hc H3). pose proof (add_aggregate_fits (sum_indeterminate s) b Hc H4).
    destruct (negb (lb_counted b)); [|destruct (bool_decide _)]; (split; [by split_and!|]); apply Forall_snoc; try done; split_and!; try done.
    cbn [entry_of le_factors]. apply (pair_ok 512); [cbn; lia|cbn; lia|done].
  - split; [|constructor]. by vm_compute.
Qed.

Lemma zero_fill_ok s ch v : value_ok v → value_ok (zero_fill s ch v).
Proof. intros Hv. unfold zero_fill. destruct (_ && _); [by apply known_value_ok|done]. Qed.

Lemma excluded_value_ok s : sums_fit s → capacity_ok (excluded_value s).
Proof. intros (_ & _ & (? & ? & ?) & _). split_and!; by apply zero_fill_ok, channel_total_ok. Qed.

Lemma subtract_channel_ok w p v : value_ok w → value_ok p → subtract_channel w p = Ok v → value_ok v.
Proof.
  intros [Hw Hb] [Hp _] Hv. pose proof (subtract_channel_spec w p v Hw Hp Hv) as [Hle Heq]. unfold leq_value in Hle.
  destruct (cv_known w), (cv_known p); cbn [andb negb] in *; subst v; try apply unknown_value_ok.
  apply negb_true_iff, Z.ltb_ge in Hle. apply known_value_ok. destruct Hp as [Hp _]. unfold in_u in *. lia.
Qed.

Lemma subtract_capacity_ok w p v : capacity_ok w → capacity_ok p → subtract_capacity w p = Ok v → capacity_ok v.
Proof.
  intros (W1 & W2 & W3) (P1 & P2 & P3) (i & E1 & (e & E2 & (n & E3 & [= <-])%result_bind_Ok)%result_bind_Ok)%result_bind_Ok.
  split_and!; cbn; (eapply subtract_channel_ok; [| |eassumption]; assumption).
Qed.

Lemma require_closing_fits ok prefix value st :
  (String.length prefix ≤ 512)%nat → (String.length value ≤ 512)%nat → factors_ok st.2 →
  factors_ok (require_closing ok prefix value st).2.
Proof. intros. unfold require_closing. destruct ok; [done|]. apply (pair_ok 512); [done|lia|done]. Qed.

Lemma recombine_check_fits total available excluded st : factors_ok st.2 → factors_ok (recombine_check total available excluded st).2.
Proof.
  intros H. unfold recombine_check. destruct (_ ≫= _).
  - apply require_closing_fits; [cbn; lia|cbn; lia|done].
  - apply (pair_ok 512); [cbn; lia|cbn; lia|done].
Qed.

Lemma close_ledger_fits s entries :
  sums_fit s → Forall ledger_entry_ok entries → zlen entries ≤ kMaxDistinctResources + 1 → ledger_ok (close_ledger s entries).
Proof.
  intros Hs He Hl. pose proof Hs as (H1 & _ & _ & H4). unfold close_ledger. cbv zeta.
  pose proof (aggregate_total_ok _ H1) as Ht. pose proof (excluded_value_ok _ Hs) as Hx.
  assert (∀ available, (∃ st, subtract_capacity (aggregate_total (sum_total_ s)) (excluded_value s) = Ok st ∧ st = available)
    ∨ available = all_unknown → capacity_ok available) as Ha.
  { intros available [(st & E & <-)| ->]; [(eapply subtract_capacity_ok; [| |exact E]; done)|apply unknown_ok]. }
  destruct (subtract_capacity _ _) as [available|st] eqn:E;
    (match goal with |- context [if is_ok _ then (_, ?g) else _] => assert (factors_ok g) as Hg end;
     [apply require_closing_fits; [cbn; lia|cbn; lia|]; apply recombine_check_fits;
      repeat (apply require_closing_fits; [cbn; lia|cbn; lia|]); cbn [snd]; factor|]);
    destruct (is_ok _); (split; [by split|]); (split; [done|]); (split; [by eauto|]); (split; [done|]);
      (split; [by apply aggregate_total_ok|]); first [exact Hg|apply (pair_ok 48); [apply status_length|cbn; lia|exact Hg]].
Qed.

Lemma post_builds_length excluded builds : length (post_builds excluded builds).2 = length builds.
Proof. by rewrite post_builds_lines, length_fmap. Qed.

Lemma build_ledger_fits resources excluded :
  Forall resource_fits resources → zlen resources ≤ kMaxDistinctResources + 1 → ledger_ok (build_ledger resources excluded).
Proof.
  intros Hr Hl. unfold build_ledger. pose proof (post_builds_fit excluded _ (builds_fit _ Hr)) as [Hs He].
  pose proof (post_builds_length excluded (collect_ledger_builds resources)) as Hn.
  destruct (post_builds excluded _) as [s entries]. cbn [fst snd] in *. apply close_ledger_fits; [done|done|].
  unfold collect_ledger_builds in Hn. pose proof (omap_length ledger_build_of resources). unfold zlen in *. lia.
Qed.

(** * Connectivity *)

Definition tally_fits (k : Z) (t : tally) : Prop :=
  (0 ≤ t_total t ≤ k) ∧ (0 ≤ t_up t ≤ k) ∧ (0 ≤ t_down t ≤ k) ∧ (0 ≤ t_degraded t ≤ k) ∧ (0 ≤ t_unknown t ≤ k).

Lemma tally_more k t : tally_fits k t → tally_fits (k + 1) t.
Proof. intros (? & ? & ? & ? & ?). split_and!; lia. Qed.

Lemma count_state_fits k s t : tally_fits k t → tally_fits (k + 1) (count_state s t).
Proof. intros (? & ? & ? & ? & ?). destruct s as [[]|]; (split_and!; cbn; lia). Qed.

Definition loop_fits (k : Z) (l : connectivity_loop) : Prop :=
  tally_fits k (loop_links l) ∧ (0 ≤ loop_external l ≤ k) ∧ (0 ≤ loop_internal l ≤ k) ∧ tally_fits k (loop_gateways l)
  ∧ zlen (loop_unknown l) ≤ k ∧ Forall resource_ok (loop_unknown l) ∧ sources_ok (loop_sources l).

Lemma connectivity_step_fits k l p : resource_fits p → loop_fits k l → loop_fits (k + 1) (connectivity_step l p).
Proof.
  intros [Hk Hr] (H1 & H2 & H3 & H4 & H5 & H6 & H7). destruct p as [key r]. cbn [fst snd] in *.
  pose proof (tally_more _ _ H1) as T1. pose proof (tally_more _ _ H4) as T4.
  pose proof (ss_union_ok _ _ H7 (record_sources_ok _ Hr)) as Hs.
  assert (∀ b : bool, zlen (if b then loop_unknown l else loop_unknown l ++ [key]) ≤ k + 1
    ∧ Forall resource_ok (if b then loop_unknown l else loop_unknown l ++ [key])) as Hu.
  { intros []; [split; [lia|done]|]. split; [rewrite zlen_app; change (zlen [key]) with 1; lia|by apply Forall_snoc]. }
  assert (loop_fits (k + 1) l) as Hsame by (split_and!; first [done|lia]).
  unfold connectivity_step. destruct (rk_kind key); try exact Hsame.
  - destruct (ref_link (rr_refs r)) as [c|]; [|exact Hsame]. split_and!; try apply Hu; try done; [by apply count_state_fits|..];
      cbn; destruct (link_external c); lia.
  - assert (∀ c, loop_fits (k + 1) (ConnectivityLoop (loop_links l) (loop_external l) (loop_internal l)
      (count_state (attributed_state r (gateway_state c)) (loop_gateways l))
      (if state_known (attributed_state r (gateway_state c)) then loop_unknown l else loop_unknown l ++ [key])
      (ss_union (loop_sources l) (rr_sources r)))) as Hg.
    { intros c. split_and!; try apply Hu; try done; cbn; try lia. by apply count_state_fits. }
    destruct (ref_gateway (rr_refs r)); [|by destruct (ref_link (rr_refs r))]. destruct (ref_link (rr_refs r)); apply Hg.
Qed.

Lemma connectivity_loop_fits resources : Forall resource_fits resources →
  ∀ k l, loop_fits k l → loop_fits (k + zlen resources) (foldl connectivity_step l resources).
Proof.
  induction 1 as [|p resources Hp _ IH]; intros k l Hl; cbn [foldl]; [by rewrite Z.add_0_r|].
  replace (k + zlen (p :: resources)) with (k + 1 + zlen resources) by (unfold zlen; cbn [length]; lia).
  by apply IH, connectivity_step_fits.
Qed.

Lemma build_connectivity_fits resources :
  Forall resource_fits resources → zlen resources ≤ kMaxDistinctResources + 1 → connectivity_ok (build_connectivity resources).
Proof.
  intros Hr Hl. unfold build_connectivity.
  pose proof (connectivity_loop_fits _ Hr 0 (ConnectivityLoop no_tally 0 0 no_tally [] ss_empty)) as H.
  destruct H as ((? & ? & ? & ? & ?) & ? & ? & (? & ? & ? & ? & ?) & Hn & Hu & Hs).
  { split_and!; first [done|by constructor|apply ss_empty_ok]. }
  set (l := foldl _ _ _) in *. pose proof (zlen_sort_unique (loop_unknown l)).
  assert (∀ z, 0 ≤ z ≤ 0 + zlen resources → in_u 64 z) as Hz by (intros z Hz; apply small_u64; unfold kMaxDistinctResources, kMaxFrameBytes in *; lia).
  unfold connectivity_ok. cbn [cs_shared_links cs_shared_links_up cs_shared_links_down cs_shared_links_degraded cs_shared_links_unknown
    cs_external_links cs_internal_links cs_gateways cs_gateways_up cs_gateways_down cs_gateways_degraded cs_gateways_unknown
    cs_unknown_state cs_sources]. split_and!; try (by apply Hz).
  - split; [lia|]. by apply Forall_sort_unique.
  - by apply sources_ok_set.
Qed.

(** * Obligations *)

Section obligations.
Context (resources : resource_map) (forest : failure_domain_forest) (available : capacity_vector).
Hypothesis Hresources : Forall resource_fits resources.
Hypothesis Hcount : zlen resources ≤ kMaxDistinctResources + 1.
Hypothesis Hforest : zlen (ff_nodes forest) ≤ kMaxDistinctFailureDomains + 1.
Hypothesis Havailable : capacity_ok available.

Lemma count_up_bound wanted scope l : ∀ observed u o u',
  foldl (count_up wanted scope) (Some (observed, u)) l = Some (o, u') → observed ≤ o ≤ observed + zlen l.
Proof using.
  assert (∀ l, foldl (count_up wanted scope) None l = None) as Hnone by (induction l0 as [|[k r] l0 IH]; [done|apply IH]).
  induction l as [|[key r] l IH]; intros observed u o u'; cbn [foldl].
  { intros [= -> ->]. unfold zlen; cbn; lia. }
  replace (zlen ((key, r) :: l)) with (1 + zlen l) by (unfold zlen; cbn [length]; lia).
  unfold count_up at 2. cbn [mbind option_bind].
  destruct (negb (bool_decide _)); [intros H%IH; lia|]. destruct (match scope with Some _ => _ | None => _ end); [intros H%IH; lia|].
  destruct (negb (rr_ok r)); [intros H%IH; lia|]. destruct (state_of wanted r) as [s|]; cbn [mbind option_bind]; [|by rewrite Hnone].
  destruct s; intros H%IH; lia.
Qed.

Lemma filter_zlen {A} (f : A → bool) l : 0 ≤ zlen (List.filter f l) ≤ zlen l.
Proof using. pose proof (List.filter_length_le f l). unfold zlen. lia. Qed.

Lemma populated_length : zlen (populated_domains resources forest) ≤ zlen (ff_nodes forest).
Proof using.
  unfold populated_domains. match goal with |- context [List.filter ?f ?l] => pose proof (filter_zlen f l) as H end.
  unfold zlen in *. rewrite length_fmap. lia.
Qed.

Lemma observe_bound o observed u :
  observe resources forest o = Some (observed, u) → 0 ≤ observed ≤ zlen resources + zlen (ff_nodes forest).
Proof using.
  pose proof (zlen_nonneg resources). pose proof (zlen_nonneg (ff_nodes forest)). pose proof populated_length.
  unfold observe, observe_up, observe_domains, observe_survivors. destruct (ob_kind o).
  all: try (intros Hu%count_up_bound; lia).
  all: intros Heq; apply (inj Some) in Heq.
  all: destruct (ob_scope_domain o) as [d|]; cbn [mbind option_bind] in Heq.
  all: try destruct (forest_find d forest) as [s|]; injection Heq as <- _; try lia.
  all: try (pose proof (zlen_sort_unique (populated_domains resources forest)); pose proof (zlen_nonneg (sort_unique (populated_domains resources forest))); lia).
  all: match goal with |- context [List.filter ?f ?l] => pose proof (filter_zlen f l); lia end.
Qed.

Lemma record_of_obligation p : p ∈ obligation_records resources → obligation_ok p.1 ∧ record_fits p.2.
Proof using Hresources.
  intros (q & Hq & Hp)%list_elem_of_omap. rewrite Forall_forall in Hresources. destruct (Hresources q Hq) as [_ Hr].
  destruct (is_kind _ q); [|done]. destruct (ref_obligation (rr_refs q.2)) as [o|] eqn:E; [|done]. injection Hp as <-.
  split; [|done]. destruct Hr as (_ & _ & _ & _ & _ & _ & Href). destruct Href as (_ & _ & _ & _ & _ & _ & Ho). by rewrite E in Ho.
Qed.

Lemma verdict_of_ok o r s observed known f :
  obligation_ok o → record_fits r → in_u 64 observed → factors_ok f → verdict_ok (verdict_of o r s observed known f).
Proof using.
  intros (Hi & _ & _ & Hr & _) Hrec Ho Hf. split_and!; [done|done|done| |done]. by apply sources_ok_set, record_sources_ok.
Qed.

Lemma channel_value_ok ch : value_ok (channel_value available ch).
Proof using Havailable. destruct Havailable as (? & ? & ?). destruct ch; first [done|apply unknown_value_ok]. Qed.

Lemma judge_obligation_ok p v :
  p ∈ obligation_records resources → judge_obligation resources forest available p.1 p.2 = Some v → verdict_ok v.
Proof using All.
  intros [Ho Hr]%record_of_obligation. unfold judge_obligation.
  assert (in_u 64 0) as H0 by done.
  destruct (negb (rr_ok p.2)). { intros [= <-]. apply verdict_of_ok; try done. factor. }
  destruct (obligation_is_count _).
  - destruct (observe resources forest p.1) as [[observed u]|] eqn:E; [|done]. intros Hv. injection Hv as <-.
    apply observe_bound in E. assert (in_u 64 observed) as Hu.
    { apply small_u64. unfold kMaxDistinctResources, kMaxDistinctFailureDomains, kMaxFrameBytes in *. lia. }
    unfold count_verdict. destruct (_ <=? _); [|destruct u]; (apply verdict_of_ok; try done; factor).
  - intros [= <-]. unfold capacity_verdict. destruct (bool_decide _); [apply verdict_of_ok; try done; factor|].
    pose proof (channel_value_ok (obligation_channel (ob_kind p.1))) as [[Hv _] _].
    destruct (negb _); [apply verdict_of_ok; try done; factor|]. by apply verdict_of_ok; [..|apply no_factors_ok].
Qed.

Lemma mapM_Forall {A B} (f : A → option B) (P : B → Prop) l vs :
  (∀ x v, x ∈ l → f x = Some v → P v) → mapM f l = Some vs → Forall P vs ∧ length vs = length l.
Proof using.
  intros Hf Hm. apply mapM_Some in Hm. split; [|by eapply Forall2_length in Hm].
  induction Hm as [|x v l vs Hx _ IH]; constructor; [apply (Hf x); [left|done]|]. apply IH. intros y w Hy. apply Hf. by right.
Qed.

Lemma build_obligations_ok vs : build_obligations resources forest available = Some vs →
  Forall verdict_ok vs ∧ zlen (standing_obligations resources) ≤ zlen vs.
Proof using All.
  unfold build_obligations. destruct (mapM _ _) as [ws|] eqn:E; [|done]. cbn. intros Hv. injection Hv as <-.
  apply (mapM_Forall _ verdict_ok) in E as [H1 H2]; [|intros x v Hx Hv; by eapply judge_obligation_ok].
  split; [by rewrite sort_by_perm|]. unfold zlen. rewrite sort_by_length, H2. apply inj_le. clear.
  unfold standing_obligations, obligation_records. induction resources as [|p l IH]; cbn; [done|].
  destruct (is_kind _ p), (rr_ok p.2), (ref_obligation (rr_refs p.2)); cbn; lia.
Qed.
End obligations.

(** * Membership *)

Definition member_fits (m : member_domain_state) : Prop :=
  member_state_ok m ∧ (ms_lifecycle m = MemberLifecycle.CONFLICTING → brief (ms_factors m)).

Lemma member_state_fits a : admission_fits a → member_fits (member_state a).
Proof.
  intros (Hd & Hr & Hs & [Hf Hb]). split; [|exact Hb].
  destruct Hr as (_ & H1 & H2 & H3 & _ & _ & H4 & H5 & _ & _ & H6 & _). unfold member_state_ok, member_state.
  cbn [ms_domain ms_generation ms_digest ms_schema ms_incarnation ms_publisher ms_received_at_ms ms_source ms_factors].
  split_and!; try done; by right.
Qed.

Lemma absent_state_fits m : expected_ok m → member_fits (absent_state m).
Proof.
  intros (Hd & _). split; [|done]. unfold absent_state, member_state_ok.
  cbn [ms_domain ms_generation ms_digest ms_schema ms_incarnation ms_publisher ms_received_at_ms ms_source ms_factors].
  split_and!; try done; try (by left). factor.
Qed.

Lemma note_departed_fits n p : domain_ok p.1 → notes_fit n → notes_fit (note_departed n p).
Proof. intros Hd Hn. unfold note_departed. destruct (ad_lifecycle p.2); try done; (apply add_deficit_fits; [done|cbn; lia|done]). Qed.

Lemma expected_deficit_fits a d n : domain_ok d → notes_fit n → notes_fit (expected_deficit a d n).
Proof. intros Hd Hn. unfold expected_deficit. destruct (ad_lifecycle a); try done; (apply add_deficit_fits; [done|cbn; lia|done]). Qed.

Definition members_fit (st : list member_domain_state * notes) : Prop := Forall member_fits st.1 ∧ notes_fit st.2.

Lemma check_expected_fits admissions st m : expected_ok m → members_fit st → members_fit (check_expected admissions st m).
Proof.
  intros Hm [H1 H2]. destruct st as [members n]. cbn [fst snd] in *. pose proof Hm as (Hd & _). unfold check_expected.
  destruct (om_find _ _) as [a|]; split; cbn [fst snd]; try done; [by apply expected_deficit_fits| |].
  - apply Forall_snoc; [done|]. by apply absent_state_fits.
  - apply add_deficit_fits; [done|cbn; lia|done].
Qed.

Lemma note_conflicting_fits now n m : in_i64 now → member_fits m → notes_fit n → notes_fit (note_conflicting now n m).
Proof.
  intros Hnow [Hm Hb] Hn. unfold note_conflicting. destruct (bool_decide_reflect (ms_lifecycle m = MemberLifecycle.CONFLICTING)); [|done].
  apply add_conflict_fits; [done|by left| | |done].
  - destruct (sr_valid _); [|apply ss_empty_ok]. apply ss_insert_ok; [apply Hm|apply ss_empty_ok].
  - split; [done|]. constructor; [|constructor]. by apply brief_join, Hb.
Qed.

Lemma sort_notes_fit n : notes_fit n → notes_fit (sort_notes n).
Proof.
  intros (H1 & H2 & H3 & H4 & H5). unfold notes_fit, sort_notes, zlen in *. cbn. rewrite !sort_by_length, !sort_by_perm. by split_and!.
Qed.

Lemma build_membership_fits now e admissions n :
  in_i64 now → Forall expected_ok (se_members e) → Forall (λ p, admission_fits p.2 ∧ ad_domain p.2 = p.1) admissions →
  notes_fit n → members_fit (build_membership now e admissions n).
Proof.
  intros Hnow He Ha Hn. unfold build_membership.
  assert (notes_fit (foldl note_departed n admissions)) as H1.
  { apply (foldl_ok _ (λ p, admission_fits p.2 ∧ ad_domain p.2 = p.1)); [|done|done].
    intros m p Hm [(Hd & _) Heq]. apply note_departed_fits; [|done]. right. by rewrite <- Heq. }
  pose proof (foldl_ok members_fit expected_ok (check_expected admissions) (se_members e)
    (member_state <$> admissions.*2, foldl note_departed n admissions)
    (λ st m Hst Hm, check_expected_fits admissions st m Hm Hst) He) as Hfold.
  destruct (foldl (check_expected admissions) _ _) as [members n2]. destruct Hfold as [H2 H3].
  { split; [|done]. cbn [fst]. rewrite !Forall_fmap. eapply Forall_impl; [exact Ha|]. intros p [Hp _]. by apply member_state_fits. }
  cbn [fst snd] in *.
  assert (Forall member_fits (unique_members (sort_by ms_domain members))) as H4 by (apply unique_members_Forall; by rewrite sort_by_perm).
  split; [done|]. cbn [snd]. apply sort_notes_fit. apply (foldl_ok _ member_fits); [|done|].
  - intros m x Hm Hx. by apply note_conflicting_fits.
  - destruct (bool_decide _); [|done]. apply note_factor_fits; [cbn; lia..|done].
Qed.

Lemma lifecycle_factors_fit l members capacity n :
  in_u 64 (zlen members) → notes_fit n → notes_fit (lifecycle_factors l members capacity n).
Proof.
  intros Hm Hn. pose proof Hn as (Hc & _ & Hd & _). unfold lifecycle_factors.
  assert (∀ z, in_u 64 z → (String.length (dec z) ≤ 512)%nat) as Hz by (intros z Hz; pose proof (dec_length z Hz); lia).
  assert (∀ s : status, (String.length (to_string s) ≤ 512)%nat) as Hst by (intros s; pose proof (status_length s); lia).
  apply note_factor_fits; [apply Hst|cbn; lia|]. apply note_factor_fits; [apply Hz|cbn; lia|].
  { apply small_u64. unfold kMaxDeficits, kMaxFrameBytes in *. pose proof (zlen_nonneg (note_deficits n)). cbn. lia. }
  apply note_factor_fits; [apply Hz|cbn; lia|].
  { apply small_u64. unfold kMaxConflicts, kMaxFrameBytes in *. pose proof (zlen_nonneg (note_conflicts n)). cbn. lia. }
  apply note_factor_fits; [by apply Hz|cbn; lia|]. apply note_factor_fits; [|cbn; lia|done].
  pose proof (site_lifecycle_length l). lia.
Qed.

(** * Decisions *)

Definition decisions_fit (d : decisions_so_far) : Prop :=
  zlen d.1 ≤ kMaxDecisions ∧ Forall decision_ok d.1 ∧ factors_ok d.2.

Lemma add_decision_fits kind subject s sources f d :
  resource_ok subject → source_set_ok sources → factors_ok f → decisions_fit d →
  decisions_fit (add_decision kind subject s sources f d).
Proof.
  intros Hk Hs Hf (H1 & H2 & H3). unfold add_decision. destruct (Z.leb_spec kMaxDecisions (zlen d.1)).
  - split; [done|]. split; [done|]. cbn [snd]. factor.
  - split; [cbn [fst]; rewrite zlen_app; change (zlen [_]) with 1; lia|]. split; [|done].
    apply Forall_snoc; [done|]. split; [done|]. split; [done|]. split; [apply digest_bytes_length|done].
Qed.

Lemma site_decision_fits kind s sources f d :
  sources_ok sources → factors_ok f → decisions_fit d → decisions_fit (site_decision_on kind s sources f d).
Proof. intros Hs Hf Hd. apply add_decision_fits; [by left|by apply sources_ok_set|done|done]. Qed.

Definition gathered_ok (g : gathered) : Prop :=
  sources_ok (g_racks g) ∧ sources_ok (g_links g) ∧ sources_ok (g_accounting g) ∧ sources_ok (g_forest g).

Lemma gather_ok g a : source_set_ok (ra_attestors a) → gathered_ok g → gathered_ok (gather g a).
Proof. intros Ha (? & ? & ? & ?). unfold gather. destruct (rk_kind (ra_key a)); split_and!; cbn; first [done|by apply ss_union_any]. Qed.

Lemma decide_ownership_fits st a :
  gathered_ok st.1 ∧ decisions_fit st.2 → ownership_ok a →
  gathered_ok (decide_ownership st a).1 ∧ decisions_fit (decide_ownership st a).2.
Proof. intros [Hg Hd] (Hk & Hs & _ & _ & Hf). split; [by apply gather_ok|by apply add_decision_fits]. Qed.

Lemma zone_key_ok id : id_ok id → resource_ok (zone_key id).
Proof. intros Hid. by apply keyed_ok. Qed.

Lemma effect_sources_ok resources e : Forall resource_fits resources → sources_ok (effect_sources resources e).
Proof.
  intros Hr. unfold effect_sources.
  assert (∀ s key, sources_ok s →
    sources_ok (match om_find key resources with Some r => ss_union s (rr_sources r) | None => s end)) as Hinc.
  { intros s key Hs. destruct (om_find key resources) as [r|] eqn:E; [|done].
    apply (om_find_Forall resource_fits) in E as [_ E]; [|done]. by apply ss_union_ok, record_sources_ok. }
  apply (foldl_ok sources_ok (λ _, True)); [intros; by apply Hinc|by apply Forall_true|apply Hinc, ss_empty_ok].
Qed.

Section decisions.
Context (admissions : omap_t member_domain_key admission) (resources : resource_map).
Hypothesis Hadmissions : Forall (λ p, admission_fits p.2) admissions.
Hypothesis Hresources : Forall resource_fits resources.

Lemma membership_sources_ok : sources_ok (membership_sources admissions).
Proof using Hadmissions.
  apply (foldl_ok _ (λ p, admission_fits p.2)); [|done|apply ss_empty_ok].
  intros s p Hs (_ & _ & Hp & _). by apply ss_insert_ok.
Qed.

Lemma capacity_sources_ok l : ledger_ok l → sources_ok (capacity_sources l).
Proof using.
  intros [[_ He] _]. apply (foldl_ok _ ledger_entry_ok); [|done|apply ss_empty_ok].
  intros s x Hs (_ & _ & Hx & _). destruct (le_counted_in_total x); [by apply ss_union_any|done].
Qed.

Lemma build_decisions_fit complete ownership capacity connectivity forest maintenance obligations st f :
  Forall ownership_ok ownership → ledger_ok capacity → factors_ok (ff_factors forest) →
  Forall effect_fits maintenance → Forall verdict_ok obligations → factors_ok f →
  decisions_fit (build_decisions admissions resources complete ownership capacity connectivity forest maintenance
                   obligations st f).
Proof using All.
  intros Ho Hc Hff Hm Hob Hf. unfold build_decisions. pose proof membership_sources_ok as Hs.
  pose proof (capacity_sources_ok _ Hc) as Hcs. assert (factors_ok (cl_factors capacity)) as Hcf by apply Hc.
  set (d2 := site_decision_on DecisionKind.SITE_EPOCH _ _ _ _).
  assert (decisions_fit d2) as H2.
  { do 2 (apply site_decision_fits; [done|apply no_factors_ok|]). split; [done|]. split; [constructor|done]. }
  pose proof (foldl_ok (λ st, gathered_ok st.1 ∧ decisions_fit st.2) ownership_ok decide_ownership ownership
    (Gathered ss_empty ss_empty ss_empty ss_empty, d2) decide_ownership_fits Ho) as Hown.
  destruct (foldl decide_ownership _ _) as [g d3]. destruct Hown as [(G1 & G2 & G3 & G4) H3].
  { split; [|done]. split_and!; apply ss_empty_ok. }
  cbn [fst snd] in *. cbv zeta.
  set (d4 := foldl decide_obligation _ obligations).
  assert (decisions_fit d4) as H4.
  { apply (foldl_ok _ verdict_ok); [|done|].
    { intros d v Hd (Hid & _ & _ & Hvs & Hvf). apply add_decision_fits; [by apply keyed_ok|done..]. }
    apply (foldl_ok _ effect_fits); [|done|].
    { intros d e Hd (Hid & _ & _ & _ & _ & Hef). apply add_decision_fits; [by apply zone_key_ok| |done|done].
      by apply sources_ok_set, effect_sources_ok. }
    repeat (apply site_decision_fits; [done|first [done|apply no_factors_ok]|]). done. }
  set (d5 := site_decision_on _ _ _ _ d4). assert (decisions_fit d5) as (D1 & D2 & D3).
  { apply site_decision_fits; [|apply no_factors_ok|done]. apply union_all_ok; [|apply ss_empty_ok].
    destruct H4 as (_ & H4 & _). eapply Forall_impl; [exact H4|]. intros x Hx. apply Hx. }
  unfold decisions_fit, zlen in *. cbn [fst snd]. rewrite sort_by_length, sort_by_perm. by split_and!.
Qed.
End decisions.

(** * The composed site *)

(** The lists the format bounds and the composer does not. *)
Definition sizes_fit (s : composed_site) : Prop :=
  zlen (site_members s) ≤ kMaxMemberDomains + 1 ∧ zlen (site_ownership s) ≤ kMaxDistinctResources + 1
  ∧ forest_sizes (site_failure_domains s) ∧ zlen (site_maintenance s) ≤ kMaxDistinctMaintenanceZones + 1
  ∧ Forall (λ e, zlen (me_excluded e) ≤ kMaxDistinctResources + 1) (site_maintenance s)
  ∧ zlen (site_obligations s) ≤ kMaxDistinctObligations + 1.

#[export] Instance forest_sizes_dec f : Decision (forest_sizes f).
Proof. unfold forest_sizes. apply _. Defined.
#[export] Instance sizes_fit_dec s : Decision (sizes_fit s).
Proof. unfold sizes_fit. apply _. Defined.

Lemma forest_is_ok f : forest_fits f → forest_sizes f → forest_ok f.
Proof.
  intros (Hn & [Hc Hc'] & [Hd Hd'] & Hf) [Hs _]. unfold zlen in *. split_and!; try done; (try (split; [unfold zlen; lia|done])).
  split; [unfold zlen; lia|]. eapply Forall_impl; [exact Hn|]. intros n ((H1 & H2 & H3 & H4) & H5 & H6 & H7 & H8).
  split_and!; try done; try apply H6. split; [unfold zlen; lia|done].
Qed.

Lemma effect_is_ok e : effect_fits e → zlen (me_excluded e) ≤ kMaxDistinctResources + 1 → maintenance_ok e.
Proof.
  intros (H1 & H2 & H3 & H4 & H5 & H6) Hl. split_and!; try done. rewrite H3. split; [done|constructor].
Qed.

Lemma attribute_fits now admissions n :
  in_i64 now → Forall (λ p, admission_fits p.2) admissions → notes_fit n →
  let '(resources, ownership, n') := attribute_resources now admissions n in
  Forall resource_fits resources ∧ ownership = (λ p, attribution_of p.1 p.2) <$> resources
  ∧ Forall ownership_ok ownership ∧ notes_fit n'.
Proof.
  intros Hnow Ha Hn. unfold attribute_resources. pose proof (resolve_all_fits _ (attest_all_fits _ Ha)) as Hr.
  split_and!; [done|done| |by apply note_overlaps_fit]. apply Forall_fmap. eapply Forall_impl; [exact Hr|]. apply ownership_fits.
Qed.

(** The parts of a site, each within the format. *)
Definition parts_fit (s : composed_site) : Prop :=
  Forall member_fits (site_members s) ∧ Forall ownership_ok (site_ownership s) ∧ ledger_ok (site_capacity s)
  ∧ connectivity_ok (site_connectivity s) ∧ forest_fits (site_failure_domains s) ∧ Forall effect_fits (site_maintenance s)
  ∧ Forall verdict_ok (site_obligations s) ∧ notes_fit (Notes (site_conflicts s) (site_deficits s) no_factors)
  ∧ decisions_fit (site_decisions s, site_factors s).

Lemma parts_ok s :
  id_ok (site_id s) → in_u 64 (site_epoch s) → in_u 64 (site_generation s) → incarnation_wf (site_incarnation s) →
  in_i64 (site_composed_at_ms s) → parts_fit s → sizes_fit s → site_ok s.
Proof.
  intros ????? (P1 & P2 & P3 & P4 & P5 & P6 & P7 & (C1 & C2 & C3 & C4 & _) & (D1 & D2 & D3)) (S1 & S2 & S3 & S4 & S5 & S6).
  cbn [note_conflicts note_deficits fst snd] in *. unfold site_ok. do 5 (split; [done|]).
  split; [split; [done|]; eapply Forall_impl; [exact P1|]; intros m [Hm _]; exact Hm|]. split; [by split|]. split; [done|].
  split; [done|]. split; [by apply forest_is_ok|].
  split. { split; [done|]. rewrite !Forall_forall in *. intros x Hx. apply effect_is_ok; auto. }
  split; [by split|]. split; [split; [lia|done]|]. split; [split; [lia|done]|]. split; [split; [lia|done]|done].
Qed.

Lemma composed_parts i s : input_ok i → run i = Composed s → sizes_fit s → parts_fit s.
Proof.
  intros Hi. pose proof Hi as (_ & _ & _ & Hnow & _ & Hexp). unfold run. destruct (prepare i) as [e|st] eqn:Hp; [|done].
  assert (Forall expected_ok (se_members e)) as He by (by rewrite (prepare_members _ _ Hp)).
  pose proof (admitted_fit i e Hi He) as Hadm. set (admissions := admit_members i e) in *.
  assert (Forall (λ p, admission_fits p.2) admissions) as Ha by (eapply Forall_impl; [exact Hadm|]; intros p [Hp' _]; exact Hp').
  pose proof (attribute_fits _ _ _ Hnow Ha no_notes_fit) as Hat.
  destruct (attribute_resources _ _ _) as [[resources ownership] n1]. destruct Hat as (Hr & Hown & Ho & Hn1).
  pose proof (build_failure_domains_fit _ _ _ _ Hnow Ha Hr Hn1) as Hfd.
  destruct (build_failure_domains _ _ _ _) as [[forest members] n2].
  destruct (build_maintenance _ _ _ _ _) as [[[effects capacity] indeterminate] n3] eqn:Hmaint. cbv zeta.
  destruct (build_obligations _ _ _) as [obligations|] eqn:Hob; [|done].
  destruct (build_membership _ _ _ _) as [states n4] eqn:Hmem.
  destruct (build_decisions _ _ _ _ _ _ _ _ _ _ _) as [decisions f] eqn:Hdec. intros Hs. injection Hs as <-.
  intros (S1 & S2 & S3 & S4 & S5 & S6). unfold parts_fit.
  cbn [site_members site_ownership site_capacity site_connectivity site_failure_domains site_maintenance site_obligations
    site_conflicts site_deficits site_decisions site_factors] in *.
  destruct Hfd as (Hf & Hmembers & Hn2); [exact S3|].
  assert (zlen resources ≤ kMaxDistinctResources + 1) as Hlen by (subst ownership; unfold zlen in *; by rewrite length_fmap in S2).
  pose proof (λ b Hb, zone_effects_fit (in_now_ms i) resources forest members b Hnow Hr Hf Hmembers Hb n2 Hn2) as Hz.
  unfold build_maintenance in Hmaint. destruct (zone_effects _ _ _ _ _) as [effects' n3']. injection Hmaint as -> <- _ ->.
  pose proof (build_ledger_fits resources (excluded_keys effects) Hr Hlen) as Hcap.
  apply build_obligations_ok in Hob as [Hv Hst]; [|done|done|apply S3|apply Hcap].
  destruct (Hz (zlen obligations)) as [Heff Hn3]; [done|].
  pose proof (build_membership_fits _ _ _ _ Hnow He Hadm Hn3) as Hm. rewrite Hmem in Hm. destruct Hm as [Hstates Hn4].
  assert (in_u 64 (zlen states)) as Hu.
  { apply small_u64. pose proof (zlen_nonneg states). unfold kMaxMemberDomains, kMaxFrameBytes in *. lia. }
  split; [done|]. split; [done|]. split; [done|]. split; [by apply build_connectivity_fits|]. do 3 (split; [done|]).
  split. { destruct Hn4 as (? & ? & ? & ? & _). by split_and!. }
  rewrite <- Hdec. apply (build_decisions_fit admissions resources Ha Hr); try done; [apply Hf|]. by apply lifecycle_factors_fit.
Qed.

Lemma composed_site_ok i s : input_ok i → run i = Composed s → sizes_fit s → site_ok s.
Proof.
  intros Hi Hs Hsz. pose proof Hi as (? & ? & ? & ? & _). destruct (run_header i s Hs) as (E1 & E2 & E3 & E4 & Hid & _ & _ & _ & _ & E5).
  apply parts_ok; rewrite ?E1, ?E2, ?E3, ?E4, ?E5; try done. by eapply composed_parts.
Qed.

(** Every composed site fits the snapshot format and is read back, with every field the format carries, as
    long as the six lists that the composer itself does not bound are within the format's bounds: whatever the
    publications hold, the identifiers, references, capacities, factors, conflicts, deficits and decisions of the
    site are within what the reader accepts. *)
Theorem composed_site_carried (i : composition_input) (s : composed_site) (rest : bytes) :
  input_ok i → run i = Composed s → sizes_fit s →
  site_ok s ∧ read_composed_site (write_composed_site s ++ rest) = Ok (on_wire s, rest).
Proof.
  intros Hi Hs Hsz. pose proof (composed_site_ok i s Hi Hs Hsz) as Hok. split; [done|]. by apply decodes_composed_site.
Qed.

(** The sample declaration, published as it is. *)
Definition sample_publication : publication_record :=
  MemberPublicationRecord (decl_domain Sample.declaration) (decl_generation Sample.declaration) zero_digest
    supported_schema "site-a" 1 (Incarnation 1 "boot-1") "member-1" (PublishAttempt 1 1) 1500 1 true Sample.declaration.
Definition sample_input : composition_input := Scenario.input ["rack-1"; "rack-9"] [sample_publication].

Lemma sample_publication_ok : publication_ok sample_publication.
Proof.
  do 12 (split; [first [right; reflexivity|by vm_compute|split; by vm_compute]|]). intros _. apply sample_declaration_ok.
Qed.

Lemma sample_input_ok : input_ok sample_input.
Proof.
  do 4 (split; [first [by vm_compute|split; by vm_compute]|]).
  split; [constructor; [apply sample_publication_ok|constructor]|].
  repeat constructor; by vm_compute.
Qed.

Lemma composed_site_carried_witness :
  ∃ s, run sample_input = Composed s ∧ read_composed_site (write_composed_site s ++ [x00]) = Ok (on_wire s, [x00]).
Proof.
  assert (match run sample_input with Composed s => bool_decide (sizes_fit s) | _ => false end = true) as H by (vm_compute; reflexivity).
  pose proof sample_input_ok as Hok. revert H Hok. generalize sample_input. intros i H Hok.
  destruct (run i) as [s| |] eqn:E; [|discriminate H..]. exists s. split; [reflexivity|].
  apply bool_decide_eq_true in H. exact (proj2 (composed_site_carried i s [x00] Hok E H)).
Defined.
