(* ===== verification/Decoded.v ===== *)
(** What a reader returns (src/core/codec.cpp, the readers of src/protocol/protocol.cpp).

    The converse of the round trips: whatever bytes arrive, a reader that accepts them returns
    a value the format can carry. [yields P r] states it of one reader; it is closed under the
    reader's own combinators, so that every reader follows its own text. A decoded value can
    then be written, kept and sent again, and what is read back from it is what was decoded. *)

From stdpp Require Import sorting.
From S2P Require Import Prelude Ordering Enums Sha256 Identity Canonical Evidence Capacity Claims Codec Authority Forest Site SiteCodec Protocol Samples Admit Attribute Domains Maintenance Ledger Verdicts Compose Encodable.

(** Every value [r] returns satisfies [P], whatever it reads. *)
Definition yields {A} (P : A → Prop) (r : reader A) : Prop :=
  ∀ data x rest, r data = Ok (x, rest) → P x.

(** * The combinators *)

Lemma yields_ret {A} (P : A → Prop) x : P x → yields P (mret x).
Proof. by intros Hx data y rest [= <- _]. Qed.

Lemma yields_fail {A} (P : A → Prop) s : yields P (fail s).
Proof. intros data x rest H. discriminate H. Qed.

Lemma yields_bind {A B} (Q : A → Prop) (P : B → Prop) (r : reader A) (k : A → reader B) :
  yields Q r → (∀ x, Q x → yields P (k x)) → yields P (r ≫= k).
Proof.
  intros Hr Hk data y rest H. unfold mbind, reader_bind in H. destruct (r data) as [[x rest']|s] eqn:E; [|discriminate H].
  eapply (Hk x); [by eapply Hr|exact H].
Qed.

Lemma yields_then {A B} (P : B → Prop) (r : reader A) (k : A → reader B) :
  (∀ x, yields P (k x)) → yields P (r ≫= k).
Proof. intros Hk. apply (yields_bind (λ _, True)); [done|]. intros x _. apply Hk. Qed.

Lemma yields_require {A} (P : A → Prop) (c : bool) s (k : reader A) :
  (c = true → yields P k) → yields P (require c s;; k).
Proof. destruct c; intros Hk; [apply yields_then; auto|]. intros data x rest H. discriminate H. Qed.

Lemma yields_impl {A} (P Q : A → Prop) r : yields P r → (∀ x, P x → Q x) → yields Q r.
Proof. intros Hr HPQ data x rest H. by eapply HPQ, Hr. Qed.

(** A fixed-size field returns exactly its size. *)
Lemma yields_block {A} (P : A → Prop) n (k : bytes → reader A) :
  0 ≤ n → (∀ block, zlen block = n → yields P (k block)) → yields P (need n;; block ← advance n; k block).
Proof.
  intros Hn Hk data x rest H. unfold mbind, reader_bind, need, advance in H.
  destruct (Z.ltb_spec (zlen data) n); [done|]. eapply Hk; [|exact H]. unfold zlen in *. rewrite length_take. lia.
Qed.

Lemma yields_items {A} (P : A → Prop) r n : yields P r → yields (λ l, length l = n ∧ Forall P l) (r_items r n).
Proof.
  intros Hr. induction n as [|n IH]; cbn [r_items]; [by apply yields_ret|].
  eapply yields_bind; [exact Hr|]. intros x Hx. eapply yields_bind; [exact IH|]. intros l [<- Hl].
  apply yields_ret. by split; [|constructor].
Qed.

(** * Primitive readers *)

Create HintDb yields.

Lemma read_u32_at_range data o : in_u 32 (read_u32_at data o).
Proof.
  unfold read_u32_at, byte_at, in_u. set (a := nth o _ _). set (b := nth (o + 1) _ _). set (c := nth (o + 2) _ _).
  set (d := nth (o + 3) _ _). pose proof (byte_val_range a). pose proof (byte_val_range b).
  pose proof (byte_val_range c). pose proof (byte_val_range d).
  rewrite (lor_shiftl_add _ _ 8), (lor_shiftl_add _ _ 16), (lor_shiftl_add _ _ 24) by lia. lia.
Qed.

Lemma yields_u8 : yields (in_u 8) r_u8.
Proof. apply yields_block; [done|]. intros block _. apply yields_ret, byte_val_range. Qed.

Lemma yields_u32 : yields (in_u 32) r_u32.
Proof. apply yields_block; [done|]. intros block _. apply yields_ret, read_u32_at_range. Qed.

Lemma yields_u64 : yields (in_u 64) r_u64.
Proof.
  apply yields_block; [done|]. intros block _. apply yields_ret.
  pose proof (read_u32_at_range block 0) as H0. pose proof (read_u32_at_range block 4) as H4. unfold in_u in *.
  rewrite lor_shiftl_add by lia. lia.
Qed.

Lemma yields_i64 : yields in_i64 r_i64.
Proof.
  eapply yields_bind; [apply yields_u64|]. intros z Hz. apply yields_ret. unfold in_u, in_i64, i64_of_u64 in *.
  destruct (Z.ltb_spec z (2 ^ 63)); lia.
Qed.

Lemma bytes_string_bytes b : string_bytes (bytes_string b) = b.
Proof. apply String.list_byte_of_string_of_list_byte. Qed.

Lemma yields_text max : max < 2 ^ 32 → yields (text_fits max) (r_text max).
Proof.
  intros Hmax. eapply yields_bind; [apply yields_u32|]. intros n Hn. apply yields_require. intros Hle%Z.leb_le.
  apply yields_block; [unfold in_u in Hn; lia|]. intros block Hb. apply yields_ret. split; [|done].
  rewrite bytes_string_bytes. lia.
Qed.

Lemma yields_digest : yields digest_wf r_digest.
Proof.
  intros data x rest H. unfold r_digest, mbind, reader_bind, need, advance in H.
  destruct (Z.ltb_spec (zlen data) 32); [done|]. injection H as <- _. unfold digest_wf, zlen in *.
  rewrite length_take. lia.
Qed.

Lemma yields_flag (P : bool → Prop) : P true → P false → yields P r_flag.
Proof. intros Ht Hf data [] rest _; done. Qed.

Lemma yields_list {A} bound (P : A → Prop) (r : reader A) : yields P r → yields (list_ok bound P) (r_list (bound + 1) r).
Proof.
  intros Hr. apply (yields_bind (λ n, 0 ≤ n ≤ bound + 1)).
  - eapply yields_bind; [apply yields_u32|]. intros n Hn. apply yields_require. intros Hle%Z.leb_le.
    apply yields_ret. unfold in_u in Hn. lia.
  - intros n Hn. eapply yields_impl; [by apply yields_items|]. intros l [Hl Hall]. split; [unfold zlen; lia|done].
Qed.

Lemma yields_opt {A} (P : A → Prop) (r : reader A) : yields P r → yields (opt_ok P) (r_opt r).
Proof.
  intros Hr. apply yields_then. intros []; [|by apply yields_ret].
  eapply yields_bind; [exact Hr|]. intros x Hx. by apply yields_ret.
Qed.

#[export] Hint Resolve yields_u8 yields_u32 yields_u64 yields_i64 yields_digest yields_list yields_opt : yields.
#[export] Hint Extern 2 (yields _ (r_text _)) => by apply yields_text : yields.
#[export] Hint Extern 1 (yields _ r_generation) => apply yields_u64 : yields.
#[export] Hint Extern 1 (yields _ r_epoch) => apply yields_u64 : yields.

(** One field after the other: what is known of a field is found, or nothing is. At the end
    the record's own predicate is split into its fields. *)
Ltac yield_field :=
  lazymatch goal with
  | |- yields _ (mret _) => apply yields_ret
  | |- yields _ (fail _) => apply yields_fail
  | |- yields _ (require _ _;; _) => apply yields_require; intros ?
  | |- yields _ (_ ≫= _) =>
      first [ eapply yields_bind; [solve [eauto 3 with yields]|intros ? ?] | apply yields_then; intros ? ]
  end.
Ltac fields := repeat match goal with |- _ ∧ _ => split end; try assumption.
Ltac yield := repeat yield_field; try assumption; hnf; fields.

(** ** Identity types *)

Lemma yields_schema : yields schema_wf r_schema.
Proof. unfold r_schema. yield. Qed.

Lemma yields_incarnation : yields incarnation_wf r_incarnation.
Proof. unfold r_incarnation. yield. Qed.

Lemma yields_identifier : yields id_ok read_identifier.
Proof. unfold read_identifier. yield. Qed.

Lemma yields_strong_id : yields id_ok read_strong_id.
Proof. apply yields_identifier. Qed.

Lemma yields_optional_identifier : yields optional_id_ok read_optional_identifier.
Proof.
  unfold read_optional_identifier. do 3 yield_field. unfold optional_id_ok, id_ok.
  match goal with H : _ || _ = true |- _ => apply orb_true_iff in H as [H%bool_decide_eq_true|H] end; auto.
Qed.

Lemma yields_key {E K} `{Enum E} (valid_kind : E → bool) (mk : E → string → K) (absent : K) (P : K → Prop) :
  P absent → (∀ e id, valid_kind e = true → id_ok id → P (mk e id)) → yields P (read_key valid_kind mk absent).
Proof.
  intros Ha Hp. unfold read_key. yield_field. destruct (_ =? 0); [by do 2 yield_field|].
  destruct (enum_of_code _); [|yield_field]. yield_field. eapply yields_bind; [apply yields_identifier|].
  intros id Hid. apply yields_ret. by apply Hp.
Qed.

Lemma yields_domain_key : yields domain_ok read_member_domain_key.
Proof.
  apply yields_key; [by left|]. intros e id He Hid. right. unfold mdk_valid. cbn [mdk_kind mdk_id]. by rewrite He.
Qed.

Lemma yields_resource_key : yields resource_ok read_resource_key.
Proof.
  apply yields_key; [by left|]. intros e id He Hid. right. unfold rk_valid. cbn [rk_kind rk_id]. by rewrite He.
Qed.

Lemma yields_source_ref : yields source_ref_wf r_source_ref.
Proof.
  unfold r_source_ref. repeat (yield_field; cbv zeta).
  match goal with |- yields _ (if ?c then _ else _) => destruct c eqn:Hc end; apply yields_ret; [by left|right].
  match goal with H : in_u 8 ?k |- _ => set (kind := k) in * end. apply Z.eqb_neq in Hc.
  split; [|done]. unfold mdk_valid. cbn [sr_domain mdk_kind mdk_id]. apply andb_true_iff. split; [|done].
  match goal with H : (kind <=? _) = true |- _ => apply Z.leb_le in H; rename H into Hle end.
  match goal with H : in_u 8 kind |- _ => rename H into Hk end. unfold in_u in Hk.
  change (enum_code MemberDomainKind.SHARED_RESOURCE) with 4 in Hle.
  assert (kind = 1 ∨ kind = 2 ∨ kind = 3 ∨ kind = 4) as Hcases by lia.
  destruct Hcases as [->|[->|[->| ->]]]; reflexivity.
Qed.

#[export] Hint Resolve yields_schema yields_incarnation yields_identifier yields_strong_id
  yields_optional_identifier yields_domain_key yields_resource_key yields_source_ref : yields.

(** ** Values *)

Lemma yields_capacity_value : yields value_ok read_capacity_value.
Proof.
  unfold read_capacity_value. apply yields_then. intros known. do 3 yield_field. apply yields_ret.
  repeat match goal with H : negb _ = true |- _ => apply negb_true_iff in H end.
  unfold value_ok, cv_wf, in_u in *. cbn [cv_known cv_bps]. unfold kMaxCapacityBps in *. destruct known; cbn [negb andb] in *.
  - match goal with H : (_ <? _) = false |- _ => apply Z.ltb_ge in H end. done.
  - match goal with H : negb (_ =? 0) = false |- _ => apply negb_false_iff, Z.eqb_eq in H; subst end. done.
Qed.

Lemma yields_capacity : yields capacity_ok read_capacity.
Proof. pose proof yields_capacity_value. unfold read_capacity. yield. Qed.

Lemma yields_evidence : yields evidence_ok read_evidence.
Proof.
  unfold read_evidence. yield; cbn [ev_ttl_ms].
  all: repeat match goal with H : negb _ = true |- _ => apply negb_true_iff, Z.ltb_ge in H end; unfold in_u in *; lia.
Qed.

Lemma yields_factors : yields factors_ok read_factors.
Proof.
  unfold read_factors. apply (yields_bind (list_ok kMaxFactors text_ok)); [by apply yields_list, yields_text|].
  intros l [_ Hl]. apply yields_ret, (foldl_ok _ text_ok); [|done|apply no_factors_ok].
  intros f x Hf Hx. by apply factors_add_ok.
Qed.

Lemma yields_source_set : yields source_set_ok read_source_set.
Proof.
  unfold read_source_set. eapply yields_bind; [by eauto with yields|]. intros l [_ Hl].
  apply yields_ret, sources_ok_set. eapply (foldl_ok sources_ok); [|exact Hl|apply ss_empty_ok].
  intros s r Hs Hr. by apply ss_insert_ok.
Qed.

#[export] Hint Resolve yields_capacity yields_evidence yields_factors yields_source_set : yields.

(** * Claims and declarations *)

Lemma yields_rack : yields rack_ok read_rack_claim. Proof. unfold read_rack_claim. yield. Qed.
Lemma yields_pod : yields pod_ok read_pod_claim. Proof. unfold read_pod_claim. yield. Qed.
Lemma yields_cluster : yields cluster_ok read_cluster_claim. Proof. unfold read_cluster_claim. yield. Qed.
Lemma yields_link : yields link_ok read_shared_link_claim. Proof. unfold read_shared_link_claim. yield. Qed.
Lemma yields_gateway : yields gateway_ok read_gateway_claim. Proof. unfold read_gateway_claim. yield. Qed.
Lemma yields_contribution : yields contribution_ok read_capacity_contribution.
Proof. unfold read_capacity_contribution. yield. Qed.
Lemma yields_failure_domain : yields failure_domain_ok read_failure_domain_claim.
Proof. unfold read_failure_domain_claim. yield. Qed.
Lemma yields_zone : yields zone_ok read_maintenance_zone. Proof. unfold read_maintenance_zone. yield. Qed.
Lemma yields_obligation : yields obligation_ok read_protected_obligation.
Proof. unfold read_protected_obligation. yield. Qed.

#[export] Hint Resolve yields_rack yields_pod yields_cluster yields_link yields_gateway yields_contribution
  yields_failure_domain yields_zone yields_obligation : yields.

Lemma yields_declaration : yields decl_ok read_declaration.
Proof. unfold read_declaration. yield. Qed.

#[export] Hint Resolve yields_declaration : yields.

(** * Records *)

Lemma yields_expected : yields expected_ok read_expected_member.
Proof. unfold read_expected_member. yield. Qed.
#[export] Hint Resolve yields_expected : yields.

Lemma yields_expectation : yields expectation_ok read_expectation.
Proof. unfold read_expectation. yield. Qed.

Lemma yields_publication : yields publication_ok read_publication_record.
Proof.
  unfold read_publication_record. do 12 yield_field. apply yields_then. intros [].
  - yield_field. yield. intros _. assumption.
  - yield. discriminate.
Qed.

Lemma yields_retirement : yields retirement_ok read_retirement_record.
Proof. unfold read_retirement_record. yield. Qed.

Lemma yields_token : yields token_ok read_authority_token.
Proof. unfold read_authority_token. yield. Qed.

#[export] Hint Resolve yields_expectation yields_publication yields_retirement yields_token : yields.

(** * Composed sites and snapshots *)

Lemma yields_member_state : yields member_state_ok read_member_state. Proof. unfold read_member_state. yield. Qed.
Lemma yields_ownership : yields ownership_ok read_ownership. Proof. unfold read_ownership. yield. Qed.
Lemma yields_ledger_entry : yields ledger_entry_ok read_ledger_entry. Proof. unfold read_ledger_entry. yield. Qed.
Lemma yields_forest_node : yields forest_node_ok read_forest_node.
Proof.
  unfold read_forest_node. yield; cbn [fdn_depth]; unfold in_u in *.
  - lia.
  - by apply Z.leb_le.
Qed.
Lemma yields_maintenance : yields maintenance_ok read_maintenance_effect.
Proof. unfold read_maintenance_effect. yield. Qed.
Lemma yields_verdict : yields verdict_ok read_verdict. Proof. unfold read_verdict. yield. Qed.
Lemma yields_conflict : yields conflict_ok read_conflict. Proof. unfold read_conflict. yield. Qed.
Lemma yields_deficit : yields deficit_ok read_deficit. Proof. unfold read_deficit. yield. Qed.
Lemma yields_decision : yields decision_ok read_decision. Proof. unfold read_decision. yield. Qed.
Lemma yields_connectivity : yields connectivity_ok read_connectivity. Proof. unfold read_connectivity. yield. Qed.
#[export] Hint Resolve yields_member_state yields_ownership yields_ledger_entry yields_forest_node yields_maintenance
  yields_verdict yields_conflict yields_deficit yields_decision yields_connectivity : yields.
Lemma yields_ledger : yields ledger_ok read_ledger. Proof. unfold read_ledger. yield. Qed.
Lemma yields_forest : yields forest_ok read_forest. Proof. unfold read_forest. yield. Qed.
#[export] Hint Resolve yields_ledger yields_forest : yields.

Lemma yields_composed_site : yields site_ok read_composed_site.
Proof. unfold read_composed_site. yield. Qed.
#[export] Hint Resolve yields_composed_site : yields.

Lemma yields_snapshot : yields snapshot_ok read_snapshot_body.
Proof. unfold read_snapshot_body. yield. Qed.
#[export] Hint Resolve yields_snapshot : yields.

(** * Messages *)

(** The message types whose reader keeps to what their writer accepts. *)
Class Sound (A : Type) `{Message A} := { yields_message : yields message_ok (read_message (A:=A)) }.

#[export] Instance hello_request_sound : Sound hello_request.
Proof. constructor. cbn [read_message hello_request_message]. unfold read_hello_request. yield. Qed.
#[export] Instance hello_response_sound : Sound hello_response.
Proof. constructor. cbn [read_message hello_response_message]. unfold read_hello_response. yield. Qed.
#[export] Instance publish_response_sound : Sound publish_response.
Proof. constructor. cbn [read_message publish_response_message]. unfold read_publish_response. yield. Qed.
#[export] Instance retire_request_sound : Sound retire_request.
Proof. constructor. cbn [read_message retire_request_message]. unfold read_retire_request. yield. Qed.
#[export] Instance retire_response_sound : Sound retire_response.
Proof. constructor. cbn [read_message retire_response_message]. unfold read_retire_response. yield. Qed.
#[export] Instance fetch_site_request_sound : Sound fetch_site_request.
Proof. constructor. cbn [read_message fetch_site_request_message]. unfold read_fetch_site_request. yield. Qed.
#[export] Instance heartbeat_response_sound : Sound heartbeat_response.
Proof. constructor. cbn [read_message heartbeat_response_message]. unfold read_heartbeat_response, read_domain_list. yield. Qed.
#[export] Instance invalidate_notice_sound : Sound invalidate_notice.
Proof. constructor. cbn [read_message invalidate_notice_message]. unfold read_invalidate_notice. yield. Qed.
#[export] Instance revoke_notice_sound : Sound revoke_notice.
Proof. constructor. cbn [read_message revoke_notice_message]. unfold read_revoke_notice. yield. Qed.
#[export] Instance error_response_sound : Sound error_response.
Proof. constructor. cbn [read_message error_response_message]. unfold read_error_response. yield. Qed.
#[export] Instance shutdown_request_sound : Sound shutdown_request.
Proof. constructor. cbn [read_message shutdown_request_message]. unfold read_shutdown_request. yield. Qed.
#[export] Instance shutdown_response_sound : Sound shutdown_response.
Proof. constructor. cbn [read_message shutdown_response_message]. unfold read_shutdown_response. yield. Qed.
#[export] Instance ping_message_sound : Sound ping_message.
Proof. constructor. cbn [read_message ping_message_message]. unfold read_ping_message. yield. Qed.
#[export] Instance publish_request_sound : Sound publish_request.
Proof. constructor. cbn [read_message publish_request_message]. unfold read_publish_request. yield. Qed.
#[export] Instance heartbeat_request_sound : Sound heartbeat_request.
Proof. constructor. cbn [read_message heartbeat_request_message]. unfold read_heartbeat_request. yield. Qed.
#[export] Instance fetch_site_response_sound : Sound fetch_site_response.
Proof.
  constructor. cbn [read_message fetch_site_response_message]. unfold read_fetch_site_response. apply yields_then. intros st.
  apply yields_then. intros has. apply (yields_bind (λ o, if has then ∃ s, o = Some s ∧ snapshot_ok s else True)).
  - destruct has; [|by apply yields_ret]. eapply yields_bind; [apply yields_snapshot|].
    intros s Hs. apply yields_ret. eauto.
  - intros o Ho. eapply yields_bind; [apply yields_factors|]. intros f Hf. apply yields_ret. by split.
Qed.

Lemma yields_decode {A} `{Message A} (P : A → Prop) (payload : bytes) (m : A) :
  yields P (read_message (A:=A)) → decode_message payload = Ok m → P m.
Proof.
  intros Hr. rewrite decode_message_inv. destruct (read_message payload) as [[m' [|b rest]]|s] eqn:E; try discriminate.
  intros [= <-]. by eapply Hr.
Qed.

Lemma decode_message_ok {A} `{Sound A} (payload : bytes) (m : A) : decode_message payload = Ok m → message_ok m.
Proof. apply yields_decode, yields_message. Qed.

(** What is decoded can be sent on, and arrives. *)
Lemma decode_message_again {A} `{Sound A} (payload : bytes) (m : A) :
  decode_message payload = Ok m → decode_message (encode_message m) = Ok (on_wire m).
Proof. intros Hm%decode_message_ok. by apply decode_encode_message. Qed.

(** * Declarations come back unchanged *)

(** A claim's reader leaves unset what the format does not carry. *)
Definition stable {A} `{OnWire A} (a : A) : Prop := on_wire a = a.

Lemma yields_evidence_stable : yields (λ e, evidence_on_wire e = e) read_evidence.
Proof. unfold read_evidence. do 5 yield_field. by apply yields_ret. Qed.

(** The only field to look at is the evidence. *)
Ltac stable_claim rd :=
  unfold rd;
  repeat lazymatch goal with
  | |- yields _ (read_evidence ≫= _) => eapply yields_bind; [apply yields_evidence_stable|intros ? ?]
  | |- yields _ (_ ≫= _) => apply yields_then; intros ?
  end;
  apply yields_ret; unfold stable; cbn; congruence.

Lemma stable_rack : yields stable read_rack_claim. Proof. stable_claim read_rack_claim. Qed.
Lemma stable_pod : yields stable read_pod_claim. Proof. stable_claim read_pod_claim. Qed.
Lemma stable_cluster : yields stable read_cluster_claim. Proof. stable_claim read_cluster_claim. Qed.
Lemma stable_link : yields stable read_shared_link_claim. Proof. stable_claim read_shared_link_claim. Qed.
Lemma stable_gateway : yields stable read_gateway_claim. Proof. stable_claim read_gateway_claim. Qed.
Lemma stable_contribution : yields stable read_capacity_contribution. Proof. stable_claim read_capacity_contribution. Qed.
Lemma stable_failure_domain : yields stable read_failure_domain_claim. Proof. stable_claim read_failure_domain_claim. Qed.
Lemma stable_zone : yields stable read_maintenance_zone. Proof. stable_claim read_maintenance_zone. Qed.
Lemma stable_obligation : yields stable read_protected_obligation. Proof. stable_claim read_protected_obligation. Qed.

Lemma stable_list {A} `{OnWire A} bound (r : reader A) :
  yields stable r → yields (λ l, on_wire <$> l = l) (r_list (bound + 1) r).
Proof.
  intros Hr. eapply yields_impl; [by apply yields_list|]. intros l [_ Hl].
  transitivity (id <$> l); [|apply list_fmap_id]. apply list_fmap_ext. intros i x Hx.
  rewrite Forall_forall in Hl. by apply Hl, list_elem_of_lookup_2 with i.
Qed.

Lemma stable_declaration : yields (λ d, decl_on_wire d = d) read_declaration.
Proof.
  unfold read_declaration. do 5 (apply yields_then; intros ?).
  eapply yields_bind; [apply yields_evidence_stable|intros ? ?].
  eapply yields_bind; [apply stable_list, stable_cluster|intros ? ?].
  eapply yields_bind; [apply stable_list, stable_pod|intros ? ?].
  eapply yields_bind; [apply stable_list, stable_rack|intros ? ?].
  eapply yields_bind; [apply stable_list, stable_link|intros ? ?].
  eapply yields_bind; [apply stable_list, stable_gateway|intros ? ?].
  eapply yields_bind; [apply stable_list, stable_contribution|intros ? ?].
  eapply yields_bind; [apply stable_list, stable_failure_domain|intros ? ?].
  eapply yields_bind; [apply stable_list, stable_zone|intros ? ?].
  eapply yields_bind; [apply stable_list, stable_obligation|intros ? ?].
  cbv zeta. apply yields_ret. unfold decl_on_wire, decl_content_on_wire. cbn [set_digest decl_domain decl_site decl_generation decl_schema decl_observed_epoch
    decl_clusters decl_pods decl_racks decl_shared_links decl_gateways decl_capacity decl_failure_domains
    decl_maintenance_zones decl_obligations decl_evidence decl_digest].
  cbv beta in *. repeat match goal with H : _ = _ |- _ => rewrite H; clear H end. reflexivity.
Qed.

(** C18: whatever bytes arrive in a publish request, what is decoded from them is a declaration the format can carry:
    its identifiers are valid, its numbers fit their width, its lists are within their bounds; its digest is the one
    of its content, whatever the sender computed; and it is sent on unchanged: encoded again it decodes to itself. *)
Theorem decoded_publish_request (payload : bytes) (m : publish_request) :
  decode_message payload = Ok m →
  message_ok m
  ∧ decl_digest (pq_declaration m) = compute_digest (pq_declaration m)
  ∧ decode_message (encode_message m) = Ok m.
Proof.
  intros Hm. assert (decl_on_wire (pq_declaration m) = pq_declaration m) as Hd.
  { revert Hm. apply (yields_decode (λ m, decl_on_wire (pq_declaration m) = pq_declaration m)).
    cbn [read_message publish_request_message]. unfold read_publish_request.
    eapply yields_bind; [apply stable_declaration|]. intros d Hd. do 2 (apply yields_then; intros ?). by apply yields_ret. }
  split; [by eapply decode_message_ok|]. split; [by rewrite <- Hd at 1|].
  rewrite (decode_message_again payload m Hm). destruct m as [d a]. cbn [on_wire publish_request_on_wire pq_declaration pq_attempt] in *.
  by rewrite Hd.
Qed.

Definition sample_request : publish_request := PublishRequest Sample.declaration (PublishAttempt 1 1).

Lemma decoded_publish_request_witness :
  match decode_message (encode_message sample_request) with
  | Ok m => message_ok m ∧ decl_digest (pq_declaration m) = compute_digest (pq_declaration m)
  | Err _ => False
  end.
Proof.
  assert (message_ok sample_request) as Hok by (split; [apply sample_declaration_ok|split; split; by vm_compute]).
  pose proof (proj1 (decode_encode_message sample_request Hok)) as Hd. rewrite Hd.
  destruct (decoded_publish_request _ _ Hd) as (H1 & H2 & _). exact (conj H1 H2).
Defined.
