(* ===== verification/Synthetic.v ===== *)
(** The scenario generator (synthetic.hpp, src/synthetic/synthetic.cpp).

    A site is generated from a configuration and a seed alone. Its declarations are emitted one
    after the other, each drawing from one stream of random numbers and sealed before the next;
    the first that cannot be sealed ends the generation. *)

From stdpp Require Import sorting sets.
From S2P Require Import Prelude Ordering Enums Sha256 Identity Canonical Evidence Capacity Claims Codec Canonicalize Forest Site Admit Attribute Domains Maintenance Ledger Verdicts Compose.

(** * splitmix64 *)

Definition golden : Z := 0x9E3779B97F4A7C15.

(** The output for a state that has advanced. *)
Definition mix (state : Z) : Z :=
  let value := wrap 64 (Z.lxor state (Z.shiftr state 30) * 0xBF58476D1CE4E5B9) in
  let value := wrap 64 (Z.lxor value (Z.shiftr value 27) * 0x94D049BB133111EB) in
  Z.lxor value (Z.shiftr value 31).

(** Every draw returns its value and the state it leaves. *)
Definition next_u64 (state : Z) : Z * Z :=
  let state := wrap 64 (state + golden) in (mix state, state).
Definition next_u32 (state : Z) : Z * Z := let '(v, state) := next_u64 state in (Z.shiftr v 32, state).
Definition bounded (bound state : Z) : Z * Z :=
  if bound =? 0 then (0, state) else let '(v, state) := next_u64 state in (v mod bound, state).

(** The difference is signed in the source: the bounds are less than 2^63 apart. *)
Definition range (low high state : Z) : Z * Z :=
  if high <=? low then (low, state)
  else
    let span := u64_of_i64 (high - low) in
    let '(v, state) := bounded (wrap 64 (span + 1)) state in (low + i64_of_u64 v, state).
Definition chance (numerator denominator state : Z) : bool * Z :=
  if denominator =? 0 then (false, state)
  else let '(v, state) := bounded denominator state in (v <? numerator, state).

Definition kDigits : string := "0123456789abcdef".
Definition hex_character (v : Z) : string := String.substring (Z.to_nat (Z.land v 0x0F)) 1 kDigits.
Fixpoint token_from (out : string) (width : nat) (state : Z) : string * Z :=
  match width with
  | O => (out, state)
  | S width => let '(v, state) := next_u64 state in token_from (out +:+ hex_character v) width state
  end.
Definition random_token (prefix : string) (width : nat) (state : Z) : string * Z := token_from prefix width state.

(** * Configuration and result *)

Record synthetic_config := SyntheticConfig {
  sy_seed : Z;
  sy_site : string;
  sy_clusters : Z;
  sy_pods_per_cluster : Z;
  sy_racks_per_pod : Z;
  sy_shared_links : Z;
  sy_gateways : Z;
  sy_failure_domains : Z;
  sy_maintenance_zones : Z;
  sy_obligations : Z;
  sy_base_link_bps : Z;
  sy_base_local_bps : Z;
  sy_provenance : provenance;
  sy_now_ms : Z;
  sy_ttl_ms : Z;
  sy_epoch : epoch;
  sy_generation : generation;
  sy_share_links_across_clusters : bool;
  sy_duplicate_ownership : bool;
  sy_conflicting_shared_link : bool;
  sy_missing_member : bool;
  sy_stale_member : bool;
  sy_unknown_capacity : bool;
  sy_cycle_failure_domains : bool;
  sy_dangling_parent : bool;
  sy_active_maintenance : bool;
  sy_unknown_maintenance : bool;
  sy_impossible_obligation : bool;
  sy_corrupt_digest : bool;
  sy_generation_mismatch : bool;
  sy_site_mismatch : bool;
  sy_schema_mismatch : bool;
}.

Record synthetic_site := SyntheticSite {
  syn_expectation : site_expectation;
  syn_declarations : list declaration;
  syn_input : composition_input;
  syn_rack_ids : list string;
  syn_cluster_ids : list string;
  syn_pod_ids : list string;
  syn_link_ids : list string;
  syn_gateway_ids : list string;
  syn_failure_domain_ids : list string;
}.

Definition no_expectation : site_expectation := SiteExpectation "" supported_schema 0 [] false.
Definition no_input : composition_input := CompositionInput "" 0 0 (Incarnation 0 "") 0 no_expectation [] [] [] [].
Definition no_site : synthetic_site := SyntheticSite no_expectation [] no_input [] [] [] [] [] [].

Definition distinct_rack_count (s : synthetic_site) : Z := zlen (sort_unique (syn_rack_ids s)).
Definition distinct_link_count (s : synthetic_site) : Z := zlen (sort_unique (syn_link_ids s)).

(** * Ready-made expectations and inputs *)

Definition expectation_from_declarations (site : string) (ds : list declaration) (pinned required : bool)
    : site_expectation :=
  SiteExpectation site supported_schema 1
    ((λ d, ExpectedMember (decl_domain d) pinned (decl_generation d) (decl_digest d) required) <$> ds) false.

Definition fixture : incarnation := Incarnation 1 "fixture".

(** The publication of the declaration at a position; the sequence starts at one. *)
Definition record_from (now_ms : Z) (index : nat) (d : declaration) : publication_record :=
  let sequence := Z.of_nat index + 1 in
  MemberPublicationRecord (decl_domain d) (decl_generation d) (decl_digest d) (decl_schema d) (decl_site d)
    (decl_observed_epoch d) fixture ("fixture-" +:+ mdk_id (decl_domain d)) (PublishAttempt sequence 1) now_ms
    sequence true d.

Definition composition_input_from (site : string) (ep : epoch) (gen : generation) (now_ms : Z)
    (ds : list declaration) : composition_input :=
  CompositionInput site ep gen fixture now_ms (expectation_from_declarations site ds false true)
    (imap (record_from now_ms) ds) [] [] [].

(** * Emitting declarations *)

(** The stream's state and the declarations so far; a failure keeps them. *)
Definition progress : Type := Z * list declaration.
Definition gen (A : Type) : Type := progress → result status A * progress.
#[export] Instance gen_ret : MRet gen := λ A a p, (Ok a, p).
#[export] Instance gen_bind : MBind gen := λ A B k m p,
  let '(r, p) := m p in match r with Ok a => k a p | Err s => (Err s, p) end.

Definition draw (bound : Z) : gen Z := λ '(state, ds), let '(v, state) := bounded bound state in (Ok v, (state, ds)).

(** Seals a declaration and adds it, changed by [after]. *)
Definition emit (after : declaration → declaration) (d : declaration) : gen () := λ '(state, ds),
  let '(sealed, d) := seal d in
  if is_ok sealed then (Ok tt, (state, ds ++ [after d])) else (Err sealed, (state, ds)).

Definition each_index {A} (count : Z) (f : Z → gen A) : gen (list A) := mapM f (seqZ 0 count).

Definition make_capacity (i e n : Z) : capacity_vector := CapacityVector (known_bps i) (known_bps e) (known_bps n).

(** [total_pods], in the width of size_t. *)
Definition total_pods (cfg : synthetic_config) : Z := wrap 64 (sy_clusters cfg * sy_pods_per_cluster cfg).

(** * Names *)

Section generator.
Context (cfg : synthetic_config).
Local Open Scope string_scope.

Definition per_cluster {A} (f : Z → list A) : list A := c ← seqZ 0 (sy_clusters cfg); f c.
Definition per_pod {A} (f : Z → Z → list A) : list A := per_cluster (λ c, p ← seqZ 0 (sy_pods_per_cluster cfg); f c p).
Definition cluster_ids : list string := per_cluster (λ c, ["cluster-" +:+ dec c]).
Definition pod_ids : list string := per_pod (λ c p, ["pod-" +:+ dec c +:+ "-" +:+ dec p]).
Definition rack_ids : list string :=
  per_pod (λ c p, (λ r, "rack-" +:+ dec c +:+ "-" +:+ dec p +:+ "-" +:+ dec r) <$> seqZ 0 (sy_racks_per_pod cfg)).
Definition link_ids : list string := (λ i, "link-" +:+ dec i) <$> seqZ 0 (sy_shared_links cfg).
Definition gateway_ids : list string := (λ i, "gw-" +:+ dec i) <$> seqZ 0 (sy_gateways cfg).
Definition failure_domain_ids : list string := (λ i, "fd-" +:+ dec i) <$> seqZ 0 (sy_failure_domains cfg).

(** An element of one of these vectors; the index is within it wherever the code reads one. *)
Definition id_at (ids : list string) (index : Z) : string := default "" (ids !! Z.to_nat index).

Definition rack_index (c p r : Z) : Z := (c * sy_pods_per_cluster cfg + p) * sy_racks_per_pod cfg + r.
Definition pod_index (c p : Z) : Z := c * sy_pods_per_cluster cfg + p.
Definition pod_racks_of (c p : Z) : list string :=
  (λ r, id_at rack_ids (rack_index c p r)) <$> seqZ 0 (sy_racks_per_pod cfg).

(** ** Links *)

(** The pods that use a link, in order. *)
Definition link_users (index : Z) : list Z :=
  let total := total_pods cfg in
  let first := index mod total in
  let second := wrap 64 (index + 1) mod total in
  sort_by id (if sy_share_links_across_clusters cfg && (1 <? total)%Z && negb (second =? first)%Z
              then [first; second] else [first]).

Definition draw_rate (_ : Z) : gen Z :=
  jitter ← draw (sy_base_link_bps cfg `div` 8 + 1); mret (wrap 64 (sy_base_link_bps cfg + jitter)).

Definition evidence_for (observed : Z) : evidence :=
  Evidence (sy_provenance cfg) observed (sy_ttl_ms cfg) no_source_ref zero_digest.

(** ** Cluster members *)

Definition declared_by (k : member_domain_key) (observed : Z) : declaration :=
  MemberDomainDeclaration k (sy_site cfg) 1 supported_schema zero_digest (sy_epoch cfg)
    [] [] [] [] [] [] [] [] [] (evidence_for observed).

Definition pod_claim_for (observed c p : Z) : pod_claim :=
  PodClaim (id_at pod_ids (pod_index c p)) 1 zero_digest (pod_racks_of c p) (evidence_for observed).

Definition cluster_claim_for (observed c : Z) : cluster_claim :=
  ClusterClaim (id_at cluster_ids c) 1 zero_digest
    ((λ p, id_at pod_ids (pod_index c p)) <$> seqZ 0 (sy_pods_per_cluster cfg))
    (p ← seqZ 0 (sy_pods_per_cluster cfg); pod_racks_of c p) (evidence_for observed).

Definition cluster_pool (observed c : Z) : capacity_contribution :=
  CapacityContribution (ResourceKey ResourceKind.CAPACITY_POOL ("pool-cluster-" +:+ dec c))
    CapacityScope.CLUSTER_LOCAL 1 zero_digest
    (make_capacity 0 0 (wrap 64 (sy_base_local_bps cfg * sy_racks_per_pod cfg))) (evidence_for observed).

Definition domain_parent (c : Z) : option string :=
  if sy_cycle_failure_domains cfg && (2 <=? sy_failure_domains cfg)%Z then
    let other := (c + 1) mod sy_failure_domains cfg in
    if (other =? c)%Z then None else Some (id_at failure_domain_ids other)
  else if sy_dangling_parent cfg && (c =? 0)%Z then Some "fd-absent"
  else if (0 <? c)%Z && (c <? sy_failure_domains cfg)%Z then Some (id_at failure_domain_ids 0)
  else None.

Definition cluster_domain (observed c : Z) : failure_domain_claim :=
  FailureDomainClaim (id_at failure_domain_ids c)
    (if (c mod 2 =? 0)%Z then FailureDomainClass.PHYSICAL else FailureDomainClass.ADMINISTRATIVE) (domain_parent c)
    (ResourceKey ResourceKind.CLUSTER (id_at cluster_ids c)
     :: (p ← seqZ 0 (sy_pods_per_cluster cfg);
         ResourceKey ResourceKind.POD (id_at pod_ids (pod_index c p))
         :: (ResourceKey ResourceKind.RACK <$> pod_racks_of c p)))
    1 zero_digest (evidence_for observed).

Definition cluster_zone (observed c : Z) : maintenance_zone :=
  MaintenanceZone ("mz-" +:+ dec c)
    (if sy_active_maintenance cfg then MaintenanceState.ACTIVE
     else if sy_unknown_maintenance cfg then MaintenanceState.UNKNOWN else MaintenanceState.SCHEDULED)
    (sy_now_ms cfg - 1000) (sy_now_ms cfg + 3600 * 1000)
    [if bool_decide (failure_domain_ids = []) then "fd-0" else id_at failure_domain_ids (c mod sy_failure_domains cfg)]
    [] 1 zero_digest (evidence_for observed).

(** The instant a cluster was observed at: the first one can be stale. *)
Definition cluster_observed (c : Z) : Z :=
  if sy_stale_member cfg && (c =? 0)%Z then sy_now_ms cfg - 10 * i64_of_u64 (sy_ttl_ms cfg) else sy_now_ms cfg.

Definition cluster_declaration (c : Z) : declaration :=
  let observed := cluster_observed c in
  let d := declared_by (MemberDomainKey MemberDomainKind.CLUSTER (id_at cluster_ids c)) observed in
  let first := (c =? 0)%Z in
  MemberDomainDeclaration (decl_domain d) (if sy_site_mismatch cfg && first then "site-elsewhere" else decl_site d)
    (decl_generation d)
    (if sy_schema_mismatch cfg && first then SchemaVersion (kModelSchemaMajor + 1) 0 else decl_schema d)
    (decl_digest d) (decl_observed_epoch d)
    [cluster_claim_for observed c] (pod_claim_for observed c <$> seqZ 0 (sy_pods_per_cluster cfg)) [] [] []
    [cluster_pool observed c]
    (if (c <? sy_failure_domains cfg)%Z then [cluster_domain observed c] else [])
    (if (c <? sy_maintenance_zones cfg)%Z then [cluster_zone observed c] else []) [] (decl_evidence d).

(** The first byte of the digest, inverted. *)
Definition corrupt (d : declaration) : declaration :=
  set_digest (match decl_digest d with b :: l => to_byte (Z.lxor (byte_val b) 0xFF) :: l | [] => [] end) d.

Definition emit_cluster (c : Z) : gen () :=
  emit (λ d, if sy_corrupt_digest cfg && (c =? 0)%Z then corrupt d else d) (cluster_declaration c).

(** ** Pod members *)

Definition draw_rack (c p r : Z) : gen rack_claim :=
  jitter ← draw (sy_base_local_bps cfg `div` 10);
  mret (RackClaim (id_at rack_ids (rack_index c p r)) 1 zero_digest
          (make_capacity 0 0 (wrap 64 (sy_base_local_bps cfg + jitter))) ConnectivityState.UP
          (evidence_for (sy_now_ms cfg))).

(** The first rack of the first pod, claimed by the second pod too, with another capacity. *)
Definition overlapping_rack (c p : Z) : list rack_claim :=
  if sy_duplicate_ownership cfg && (c =? 0)%Z && (p =? 1)%Z && (1 <? sy_pods_per_cluster cfg)%Z then
    [RackClaim (id_at rack_ids (rack_index 0 0 0)) 1 zero_digest (make_capacity 0 0 (wrap 64 (sy_base_local_bps cfg * 3)))
       ConnectivityState.DEGRADED (evidence_for (sy_now_ms cfg))]
  else [].

Definition link_claim_for (rates : list Z) (index link : Z) : shared_link_claim :=
  let users := link_users link in
  let external := (link mod 2 =? 0)%Z in
  let rate := default 0%Z (rates !! Z.to_nat link) in
  let rate := if sy_conflicting_shared_link cfg && (link =? 0)%Z && (1 <? zlen users)%Z
                 && negb (default 0%Z (head users) =? index)%Z then (rate `div` 2)%Z else rate in
  let capacity := if external then make_capacity rate rate 0 else make_capacity 0 0 rate in
  let capacity := if sy_unknown_capacity cfg && (link =? 0)%Z
                  then CapacityVector (ingress capacity) cv_unknown (internal capacity) else capacity in
  SharedLinkClaim (id_at link_ids link) external 1 zero_digest capacity ConnectivityState.UP
    (evidence_for (sy_now_ms cfg)).

Definition pod_links (rates : list Z) (index : Z) : list shared_link_claim :=
  link_claim_for rates index <$> List.filter (λ link, bool_decide (index ∈ link_users link)) (seqZ 0 (sy_shared_links cfg)).

Definition emit_pod (rates : list Z) (c p : Z) : gen () :=
  let index := pod_index c p in
  let d := declared_by (MemberDomainKey MemberDomainKind.POD (id_at pod_ids index)) (sy_now_ms cfg) in
  racks ← each_index (sy_racks_per_pod cfg) (draw_rack c p);
  emit id (set_lists d [] [pod_claim_for (sy_now_ms cfg) c p] (racks ++ overlapping_rack c p) (pod_links rates index)
             [] [] [] [] []).

(** ** The member of what is shared *)

Definition draw_gateway (index : Z) : gen gateway_claim :=
  jitter ← draw (sy_base_link_bps cfg);
  let rate := wrap 64 (sy_base_link_bps cfg * 2 + jitter) in
  mret (GatewayClaim (id_at gateway_ids index) 1 zero_digest (make_capacity rate rate 0) ConnectivityState.UP
          (evidence_for (sy_now_ms cfg))).

Definition site_pool (id : string) (scope : capacity_scope) (capacity : capacity_vector) : capacity_contribution :=
  CapacityContribution (ResourceKey ResourceKind.CAPACITY_POOL id) scope 1 zero_digest capacity
    (evidence_for (sy_now_ms cfg)).

Definition site_pools : list capacity_contribution :=
  let rate := wrap 64 (sy_base_link_bps cfg * 4) in
  [site_pool "pool-site-ingress" CapacityScope.SITE_INGRESS (make_capacity rate 0 0);
   site_pool "pool-site-egress" CapacityScope.SITE_EGRESS (make_capacity 0 rate 0)].

Definition synthetic_obligation (index : Z) : protected_obligation :=
  let '(kind, required) :=
    match (index mod 3)%Z with
    | 0 => (ObligationKind.MIN_UP_SHARED_LINKS, if sy_impossible_obligation cfg then sy_shared_links cfg + 100 else 1)
    | 1 => (ObligationKind.MIN_INTERNAL_CAPACITY,
            if sy_impossible_obligation cfg then kMaxCapacityBps else sy_base_local_bps cfg)
    | _ => (ObligationKind.MIN_UP_GATEWAYS, if (sy_gateways cfg =? 0)%Z then 0 else 1)
    end%Z in
  ProtectedObligation ("ob-" +:+ dec index) kind None None required true 1 zero_digest (evidence_for (sy_now_ms cfg)).

Definition emit_shared : gen () :=
  let d := declared_by (MemberDomainKey MemberDomainKind.SHARED_RESOURCE "fabric-shared") (sy_now_ms cfg) in
  gateways ← each_index (sy_gateways cfg) draw_gateway;
  emit id (set_lists d [] [] [] [] gateways site_pools [] [] (synthetic_obligation <$> seqZ 0 (sy_obligations cfg))).

(** Every draw and every declaration, in the order of the code. *)
Definition emit_declarations : gen () :=
  rates ← each_index (sy_shared_links cfg) draw_rate;
  _ ← each_index (sy_clusters cfg) emit_cluster;
  _ ← each_index (sy_clusters cfg) (λ c, each_index (sy_pods_per_cluster cfg) (emit_pod rates c));
  emit_shared.

(** ** The whole generator *)

Definition check_config : status :=
  if (sy_clusters cfg =? 0)%Z || (sy_pods_per_cluster cfg =? 0)%Z || (sy_racks_per_pod cfg =? 0)%Z then Status.INVALID
  else if (kMaxMemberDomains `div` 4 <? total_pods cfg)%Z
          || (kMaxClaimLists <? wrap 64 (total_pods cfg * sy_racks_per_pod cfg))%Z then Status.LIMIT_EXCEEDED
  else if (kMaxDistinctResources <? sy_shared_links cfg)%Z then Status.LIMIT_EXCEEDED
  else if negb (is_set (sy_epoch cfg)) || negb (is_set (sy_generation cfg)) then Status.INVALID
  else Status.OK.

Definition named_site (e : site_expectation) (ds : list declaration) (i : composition_input) : synthetic_site :=
  SyntheticSite e ds i rack_ids cluster_ids pod_ids link_ids gateway_ids failure_domain_ids.

(** The expectation, with what the two flags put into it. *)
Definition synthetic_expectation (ds : list declaration) : site_expectation :=
  let e := expectation_from_declarations (sy_site cfg) ds false (sy_missing_member cfg || sy_generation_mismatch cfg) in
  let absent := ExpectedMember (MemberDomainKey MemberDomainKind.RACK "rack-absent") false 0 zero_digest true in
  let e := if sy_missing_member cfg then expectation_set_members e (se_members e ++ [absent]) else e in
  match se_members e with
  | m :: ms =>
      if sy_generation_mismatch cfg
      then expectation_set_members e (ExpectedMember (em_domain m) true 7 zero_digest (em_required m) :: ms) else e
  | [] => e
  end.

(** [None] where the code divides by the number of pods and their product wrapped to zero. *)
Definition generate_synthetic_site : option (status * synthetic_site) :=
  if negb (is_ok check_config) then Some (check_config, no_site)
  else if (total_pods cfg =? 0)%Z && (0 <? sy_shared_links cfg)%Z then None
  else
    let '(r, (_, ds)) := emit_declarations (sy_seed cfg, []) in
    match r with
    | Err st => Some (st, named_site no_expectation ds no_input)
    | Ok _ =>
        let '(canonical, e) := expectation_canonicalize (synthetic_expectation ds) in
        if negb (is_ok canonical) then Some (canonical, named_site e ds no_input)
        else
          Some (Status.OK,
                named_site e ds (composition_input_from (sy_site cfg) (sy_epoch cfg) (sy_generation cfg) (sy_now_ms cfg) ds))
    end.
End generator.

(** * The random stream *)

Lemma xorshift_inj k x y : 0 < k → 0 ≤ x → 0 ≤ y → Z.lxor x (Z.shiftr x k) = Z.lxor y (Z.shiftr y k) → x = y.
Proof.
  intros Hk Hx Hy Heq. apply Z.lxor_eq. assert (0 ≤ Z.lxor x y) as Hd by (apply Z.lxor_nonneg; lia).
  assert (Z.shiftr (Z.lxor x y) k = Z.lxor x y) as Hfix.
  { rewrite Z.shiftr_lxor. apply Z.bits_inj'. intros n Hn. apply (f_equal (λ z, Z.testbit z n)) in Heq.
    rewrite !Z.lxor_spec in *. by destruct (Z.testbit x n), (Z.testbit y n), (Z.testbit (Z.shiftr x k) n), (Z.testbit (Z.shiftr y k) n). }
  destruct (Z.eq_dec (Z.lxor x y) 0) as [|Hne]; [done|]. exfalso.
  rewrite Z.shiftr_div_pow2 in Hfix by lia. pose proof (proj1 (Z.pow_gt_1 2 k ltac:(lia)) Hk).
  pose proof (Z.div_lt (Z.lxor x y) (2 ^ k) ltac:(lia) ltac:(lia)). lia.
Qed.

Lemma in_u_lxor w x y : 0 ≤ w → in_u w x → in_u w y → in_u w (Z.lxor x y).
Proof.
  intros Hw Hx Hy. assert (Z.lxor x y = wrap w (Z.lxor x y)) as ->; [|by apply wrap_range].
  apply Z.bits_inj'. intros n Hn. unfold wrap. destruct (Z.lt_ge_cases n w) as [Hlt|Hge].
  - by rewrite Z.mod_pow2_bits_low.
  - rewrite Z.mod_pow2_bits_high by lia. rewrite <- (wrap_small w x Hx), <- (wrap_small w y Hy). unfold wrap.
    by rewrite Z.lxor_spec, !Z.mod_pow2_bits_high by lia.
Qed.

Lemma in_u_shiftr w x k : 0 ≤ k → in_u w x → in_u w (Z.shiftr x k).
Proof.
  unfold in_u. intros Hk Hx. rewrite Z.shiftr_div_pow2 by lia. pose proof (Z.pow_pos_nonneg 2 k ltac:(lia) Hk).
  split; [apply Z.div_pos; lia|]. eapply Z.le_lt_trans; [|apply Hx]. apply Z.div_le_upper_bound; nia.
Qed.

Lemma multiply_inj c d x y : wrap 64 (c * d) = 1 → in_u 64 x → in_u 64 y → wrap 64 (x * c) = wrap 64 (y * c) → x = y.
Proof.
  intros Hcd Hx Hy Heq.
  assert (∀ z, in_u 64 z → z = wrap 64 (wrap 64 (z * c) * d)) as Hinv.
  { intros z Hz. rewrite <- (wrap_small 64 z Hz) at 1. unfold wrap in *.
    rewrite Z.mul_mod_idemp_l, <- Z.mul_assoc, <- (Z.mul_mod_idemp_r z), Hcd by lia. by rewrite Z.mul_1_r. }
  rewrite (Hinv x Hx), (Hinv y Hy). by rewrite Heq.
Qed.

(** The mixing of the state loses nothing. *)
Lemma mix_inj x y : in_u 64 x → in_u 64 y → mix x = mix y → x = y.
Proof.
  intros Hx Hy.
  assert (∀ z k, 0 ≤ k → in_u 64 z → in_u 64 (Z.lxor z (Z.shiftr z k))) as Hl.
  { intros z k Hk Hz. apply in_u_lxor; [lia|done|by apply in_u_shiftr]. }
  assert (∀ z, in_u 64 (wrap 64 z)) as Hw by (intros; apply wrap_range; lia).
  unfold mix. intros H.
  apply xorshift_inj in H; [|lia|apply Hw..]. apply (multiply_inj _ 0x319642B2D24D8EC3) in H; [|done|by apply Hl..].
  apply xorshift_inj in H; [|lia|apply Hw..]. apply (multiply_inj _ 0x96DE1B173F119089) in H; [|done|by apply Hl..].
  by apply xorshift_inj in H; [|lia|apply Hx|apply Hy].
Qed.

(** The state after a number of draws. *)
Definition state_after (seed : Z) (n : Z) : Z := wrap 64 (seed + n * golden).

Lemma next_u64_state seed n : 0 ≤ n → next_u64 (state_after seed n) = (mix (state_after seed (n + 1)), state_after seed (n + 1)).
Proof.
  intros Hn. unfold next_u64, state_after. assert (wrap 64 (wrap 64 (seed + n * golden) + golden) = wrap 64 (seed + (n + 1) * golden)) as ->; [|done].
  unfold wrap. rewrite Z.add_mod_idemp_l by lia. f_equal. lia.
Qed.

(** No output of the stream repeats before all 2^64 have been drawn. *)
Lemma draws_distinct seed n k : 0 ≤ n < 2 ^ 64 → 0 ≤ k < 2 ^ 64 →
  (next_u64 (state_after seed n)).1 = (next_u64 (state_after seed k)).1 → n = k.
Proof.
  intros Hn Hk. rewrite !next_u64_state by lia. cbn [fst]. intros H. apply mix_inj in H; [|apply wrap_range; lia..].
  unfold state_after, wrap in H.
  assert (((n - k) * golden) mod 2 ^ 64 = 0) as Hz.
  { replace ((n - k) * golden) with ((seed + (n + 1) * golden) - (seed + (k + 1) * golden)) by lia.
    by rewrite Zminus_mod, H, Z.sub_diag. }
  assert ((n - k) mod 2 ^ 64 = 0) as Hnk.
  { assert ((n - k) mod 2 ^ 64 = ((n - k) * golden mod 2 ^ 64 * 0xF1DE83E19937733D) mod 2 ^ 64) as ->; [|by rewrite Hz].
    rewrite Z.mul_mod_idemp_l, <- Z.mul_assoc, <- (Z.mul_mod_idemp_r (n - k)) by lia.
    change (golden * 0xF1DE83E19937733D mod 2 ^ 64) with 1. by rewrite Z.mul_1_r. }
  apply Z.mod_divide in Hnk as [q Hq]; [|lia]. assert (q = 0) by nia. lia.
Qed.

(** * What a generation leaves *)

Lemma gen_bind_ok {A B} (m : gen A) (k : A → gen B) p b p' :
  (m ≫= k) p = (Ok b, p') → ∃ a p1, m p = (Ok a, p1) ∧ k a p1 = (Ok b, p').
Proof. unfold mbind, gen_bind. destruct (m p) as [[a|s] p1]; [eauto|done]. Qed.

Lemma emit_ok after d state ds u p' :
  emit after d (state, ds) = (Ok u, p') → ∃ d', seal d = (Status.OK, d') ∧ p' = (state, ds ++ [after d']).
Proof.
  unfold emit, seal. destruct (canonicalize d) as [st d']. destruct (is_ok st) eqn:E.
  - intros [= _ <-]. by eexists.
  - cbn. rewrite E. done.
Qed.

(** A part of the generator that adds only declarations with a property, and fails with a failure. *)
Definition adds {A} (P : declaration → Prop) (m : gen A) : Prop :=
  ∀ p, match m p with
       | (Ok _, p') => Forall P p.2 → Forall P p'.2
       | (Err s, _) => is_ok s = false
       end.

Lemma adds_ret {A} P (a : A) : adds P (mret a : gen A).
Proof. intros p. cbn. auto. Qed.

Lemma adds_bind {A B} P (m : gen A) (k : A → gen B) : adds P m → (∀ a, adds P (k a)) → adds P (m ≫= k).
Proof.
  intros Hm Hk p. unfold mbind, gen_bind. specialize (Hm p). destruct (m p) as [[a|s] p1]; [|done].
  specialize (Hk a p1). destruct (k a p1) as [[b|s] p2]; auto.
Qed.

Lemma adds_draw P bound : adds P (draw bound).
Proof. intros [state ds]. unfold draw. by destruct (bounded bound state). Qed.

Lemma adds_emit (P : declaration → Prop) after d : (∀ d', seal d = (Status.OK, d') → P (after d')) → adds P (emit after d).
Proof.
  intros HP [state ds]. unfold emit. unfold seal in *. destruct (canonicalize d) as [st d']. destruct (is_ok st) eqn:E; [|by rewrite E].
  intros Hds. apply Forall_app. split; [done|]. repeat constructor. by apply HP.
Qed.

Lemma adds_each {A} P count (f : Z → gen A) : (∀ x, adds P (f x)) → adds P (each_index count f).
Proof.
  intros Hf. unfold each_index. induction (seqZ 0 count) as [|x l IH]; cbn [mapM]; [apply adds_ret|].
  apply adds_bind; [done|]. intros a. apply adds_bind; [done|]. intros k. apply adds_ret.
Qed.

Create HintDb generator.
#[export] Hint Resolve adds_ret adds_bind adds_draw adds_each : generator.

Section generated.
Context (cfg : synthetic_config).

(** Everything that is emitted is one of these, sealed. *)
Inductive offered : declaration → Prop :=
| offered_cluster c : offered (cluster_declaration cfg c)
| offered_pod d racks links index : offered (set_lists (declared_by cfg d (sy_now_ms cfg)) [] [pod_claim_for cfg (sy_now_ms cfg) index.1 index.2] racks links [] [] [] [] [])
| offered_shared gateways obligations : offered (set_lists (declared_by cfg (MemberDomainKey MemberDomainKind.SHARED_RESOURCE "fabric-shared") (sy_now_ms cfg)) [] [] [] [] gateways (site_pools cfg) [] [] obligations).

Lemma adds_declarations (P : declaration → Prop) :
  (∀ d d', offered d → seal d = (Status.OK, d') → P d' ∧ (sy_corrupt_digest cfg = true → P (corrupt d'))) →
  adds P (emit_declarations cfg).
Proof.
  intros HP. unfold emit_declarations. apply adds_bind; [unfold draw_rate; auto with generator|]. intros rates.
  apply adds_bind.
  { apply adds_each. intros c. apply adds_emit. intros d' Hs. destruct (HP _ _ (offered_cluster c) Hs) as [H1 H2].
    destruct (sy_corrupt_digest cfg); [|done]. destruct (_ && _); [by apply H2|done]. }
  intros _. apply adds_bind.
  { apply adds_each. intros c. apply adds_each. intros p. apply adds_bind; [unfold draw_rack; auto with generator|].
    intros racks. apply adds_emit. intros d' Hs. by eapply HP, Hs; apply (offered_pod _ _ _ (c, p)). }
  intros _. apply adds_bind; [unfold draw_gateway; auto with generator|].
  intros gateways. apply adds_emit. intros d' Hs. by eapply HP, Hs; apply offered_shared.
Qed.

(** A generation that succeeds. *)
Lemma generated_parts out :
  generate_synthetic_site cfg = Some (Status.OK, out) →
  is_ok (check_config cfg) = true ∧ (∃ u state, emit_declarations cfg (sy_seed cfg, []) = (Ok u, (state, syn_declarations out)))
  ∧ is_ok (expectation_canonicalize (synthetic_expectation cfg (syn_declarations out))).1 = true
  ∧ syn_input out
    = composition_input_from (sy_site cfg) (sy_epoch cfg) (sy_generation cfg) (sy_now_ms cfg) (syn_declarations out).
Proof.
  unfold generate_synthetic_site. destruct (is_ok (check_config cfg)) eqn:Hc; cbn [negb].
  2:{ intros Heq. injection Heq as Hs _. rewrite Hs in Hc. done. }
  destruct (_ && _); [done|]. destruct (emit_declarations cfg _) as [[u|st] [state ds]] eqn:He; cbn [fst snd].
  2:{ intros Heq. injection Heq as -> _. exfalso.
    assert (adds (λ _, True) (emit_declarations cfg)) as Hadds by by apply adds_declarations.
    specialize (Hadds (sy_seed cfg, [])). by rewrite He in Hadds. }
  destruct (expectation_canonicalize _) as [st e] eqn:Hx. destruct (is_ok st) eqn:Hst; cbn [negb].
  - intros Heq. injection Heq as <-. cbn. rewrite Hx. split_and!; eauto.
  - intros Heq. injection Heq as -> _. done.
Qed.

Lemma sealed_evidence d d' : seal d = (Status.OK, d') → decl_evidence d' = decl_evidence d.
Proof.
  unfold seal. pose proof (canonicalize_keeps decl_evidence ltac:(done) d) as Hk. destruct (canonicalize d) as [st d1].
  destruct (is_ok st) eqn:E; intros Heq; [|by injection Heq as -> _]. injection Heq as <-. exact Hk.
Qed.

Lemma offered_evidence d : offered d → ev_provenance (decl_evidence d) = sy_provenance cfg.
Proof. by destruct 1. Qed.

Lemma generated_evidence out :
  generate_synthetic_site cfg = Some (Status.OK, out) →
  Forall (λ d, ev_provenance (decl_evidence d) = sy_provenance cfg) (syn_declarations out).
Proof.
  intros (_ & (u & state & He) & _)%generated_parts.
  pose proof (adds_declarations (λ d, ev_provenance (decl_evidence d) = sy_provenance cfg)) as H. unfold adds in H.
  specialize (λ Hp, H Hp (sy_seed cfg, [])). rewrite He in H. apply H; [|constructor].
  intros d d' Hd Hs. rewrite <- (offered_evidence d Hd), <- (sealed_evidence d d' Hs). done.
Qed.
End generated.

(** C34: what the generator declares as synthetic is never taken for a site: when its provenance is SYNTHETIC, no member
    of the site composed from its input is CURRENT, and neither is the site. *)
Theorem synthetic_never_current (cfg : synthetic_config) (out : synthetic_site) (s : composed_site) :
  generate_synthetic_site cfg = Some (Status.OK, out) → sy_provenance cfg = Provenance.SYNTHETIC →
  run (syn_input out) = Composed s →
  site_lifecycle_state s ≠ SiteLifecycle.CURRENT
  ∧ Forall (λ m, ms_lifecycle m ≠ MemberLifecycle.CURRENT) (site_members s).
Proof.
  intros Hgen Hp Hrun. pose proof (generated_evidence cfg out Hgen) as Hev. rewrite Hp, Forall_forall in Hev.
  assert (Forall (λ m, ms_lifecycle m ≠ MemberLifecycle.CURRENT) (site_members s)) as Hm.
  { apply Forall_forall. intros m Hin Hc. destruct (current_member _ _ _ Hrun Hin Hc) as (e & r & _ & Hr & Hauth).
    destruct Hauth as (_ & _ & _ & _ & _ & _ & _ & _ & _ & Hfresh).
    destruct (generated_parts cfg out Hgen) as (_ & _ & _ & ->) in Hr. cbn [composition_input_from in_publications] in Hr.
    apply elem_of_lookup_imap in Hr as (k & d & -> & Hd). apply list_elem_of_lookup_2, Hev in Hd.
    cbn [record_from pub_declaration] in Hfresh. unfold evaluate in Hfresh. rewrite Hd in Hfresh. cbn in Hfresh.
    destruct (_ || _); [done|]. by destruct (_ <? _). }
  split; [|done]. intros Hc. destruct (current_site_member _ _ Hrun Hc) as (m & Hin & Hcur).
  rewrite Forall_forall in Hm. by apply (Hm m).
Qed.

(** ** What the flags do *)

Lemma seal_header d d' : seal d = (Status.OK, d') → canonical_declaration d' ∧ is_ok (check_envelope d) = true.
Proof.
  unfold seal. destruct (canonicalize d) as [st c] eqn:Hc. destruct (is_ok st) eqn:Hok; intros Heq; injection Heq.
  2:{ intros _ ->. done. }
  intros <-. assert (accepts canonicalize d c) as Ha by by exists st.
  split; [by apply canonical_set_digest, (canonicalize_canonical_form d)|]. by apply canonicalize_accepts in Ha as [He _].
Qed.

Lemma check_members_refuses l m :
  m ∈ l → em_pinned m = true → digest_is_zero (em_digest m) = true → is_ok (check_members l) = false.
Proof.
  intros Hm Hp Hd. induction l as [|x l IH]; [by apply elem_of_nil in Hm|]. cbn [check_members]. destruct (mdk_valid _); [|done].
  apply elem_of_cons in Hm as [<-|Hm]; cbn [negb]; [by rewrite Hp, Hd, orb_true_r|]. destruct (_ && _); [done|by apply IH].
Qed.

Lemma expectation_refuses e m :
  m ∈ se_members e → em_pinned m = true → digest_is_zero (em_digest m) = true → is_ok (expectation_canonicalize e).1 = false.
Proof.
  intros Hm Hp Hd. unfold expectation_canonicalize.
  do 3 (match goal with |- context [if ?b then _ else _] => destruct b; [done|] end). cbv zeta.
  destruct (adjacent_duplicate _); [done|]. apply (check_members_refuses _ m); [|done|done]. by apply sort_by_elem.
Qed.

Section flags.
Context (cfg : synthetic_config) (out : synthetic_site).
Hypothesis Hclusters : 0 ≤ sy_clusters cfg.
Hypothesis Hgen : generate_synthetic_site cfg = Some (Status.OK, out).

Lemma clusters_positive : 0 < sy_clusters cfg.
Proof using All.
  destruct (generated_parts cfg out Hgen) as (Hc & _). unfold check_config in Hc.
  destruct (Z.eqb_spec (sy_clusters cfg) 0) as [E|]; [done|lia].
Qed.

(** The first declaration is that of the first cluster. *)
Lemma first_cluster_sealed : ∃ d, seal (cluster_declaration cfg 0) = (Status.OK, d).
Proof using All.
  destruct (generated_parts cfg out Hgen) as (_ & (u & state & He) & _). unfold emit_declarations in He.
  apply gen_bind_ok in He as (rates & p1 & _ & He). apply gen_bind_ok in He as (us & p2 & He & _).
  unfold each_index in He. pose proof clusters_positive. rewrite seqZ_cons in He by lia. cbn [mapM] in He.
  apply gen_bind_ok in He as (v & [state' ds'] & He & _). destruct p1 as [state1 ds1].
  apply emit_ok in He as (d & Hd & _). by exists d.
Qed.

Lemma schema_supported : sy_schema_mismatch cfg = false.
Proof using All.
  destruct first_cluster_sealed as [d (_ & H)%seal_header]. destruct (sy_schema_mismatch cfg) eqn:E; [|done].
  exfalso. revert H. unfold check_envelope, check_header, cluster_declaration. rewrite E. cbn [decl_domain decl_site decl_generation decl_schema].
  change (compatible_with (if true && (0 =? 0) then SchemaVersion (kModelSchemaMajor + 1) 0 else _) supported_schema) with false.
  destruct (negb (mdk_valid _)); [done|]. destruct (negb (is_valid_identifier _)); [done|]. by destruct (negb (is_set _)).
Qed.

Lemma declarations_nonempty : syn_declarations out ≠ [].
Proof using Hgen.
  destruct (generated_parts cfg out Hgen) as (_ & (u & state & He) & _). unfold emit_declarations in He.
  do 3 (apply gen_bind_ok in He as (? & ? & _ & He)). apply gen_bind_ok in He as (gateways & [state' ds'] & _ & He).
  apply emit_ok in He as (d & _ & Heq). injection Heq as _ ->. by destruct ds'.
Qed.

Lemma generation_matched : sy_generation_mismatch cfg = false.
Proof using Hgen.
  destruct (generated_parts cfg out Hgen) as (_ & _ & He & _). destruct (sy_generation_mismatch cfg) eqn:E; [|done]. exfalso.
  destruct (se_members (synthetic_expectation cfg (syn_declarations out))) as [|m ms] eqn:Hms.
  - pose proof declarations_nonempty as Hne. unfold synthetic_expectation in Hms. rewrite E in Hms.
    destruct (syn_declarations out); [done|]. by destruct (sy_missing_member cfg).
  - rewrite (expectation_refuses _ m) in He; [done|rewrite Hms; left|..];
      unfold synthetic_expectation in Hms; rewrite E in Hms; destruct (sy_missing_member cfg), (syn_declarations out);
      cbn in Hms; by simplify_eq.
Qed.

Lemma declarations_sealed : sy_corrupt_digest cfg = false →
  Forall (λ d, canonical_declaration d ∧ decl_digest d = compute_digest d) (syn_declarations out).
Proof using Hgen.
  intros Hc. destruct (generated_parts cfg out Hgen) as (_ & (u & state & He) & _).
  pose proof (adds_declarations cfg (λ d, canonical_declaration d ∧ decl_digest d = compute_digest d)) as H. unfold adds in H.
  specialize (λ Hp, H Hp (sy_seed cfg, [])). rewrite He in H. apply H; [|constructor].
  intros d d' _ Hs. split; [|by rewrite Hc]. split; [by apply (seal_header d)|]. unfold seal in Hs.
  destruct (canonicalize d) as [st c]. destruct (is_ok st) eqn:Hok; injection Hs; [by intros <-|]. intros _ ->. done.
Qed.
End flags.

(** A generation that succeeds offers a sound input: every declaration is canonical and carries the digest of its
    content unless one was to be corrupted, each is published once, and just what is published is expected, so that
    the flag for a missing member never reaches the input; and it never succeeds with the flag for an unsupported
    schema or for a wrong generation, whose declaration or expectation the library itself refuses. *)
Theorem generated_input_sound (cfg : synthetic_config) (out : synthetic_site) :
  0 ≤ sy_clusters cfg → generate_synthetic_site cfg = Some (Status.OK, out) →
  (sy_corrupt_digest cfg = false →
     Forall (λ d, canonical_declaration d ∧ decl_digest d = compute_digest d) (syn_declarations out))
  ∧ pub_declaration <$> in_publications (syn_input out) = syn_declarations out
  ∧ em_domain <$> se_members (in_expectation (syn_input out)) = pub_domain <$> in_publications (syn_input out)
  ∧ sy_schema_mismatch cfg = false ∧ sy_generation_mismatch cfg = false.
Proof.
  intros Hc Hgen. destruct (generated_parts cfg out Hgen) as (_ & _ & _ & ->).
  split; [by apply (declarations_sealed cfg)|]. cbn [composition_input_from in_publications in_expectation expectation_from_declarations se_members].
  split; [|split; [|split; [by eapply schema_supported|by eapply generation_matched]]].
  - rewrite fmap_imap. transitivity (id <$> syn_declarations out); [|apply list_fmap_id]. rewrite <- imap_const. by apply imap_ext.
  - rewrite fmap_imap, <- list_fmap_compose, <- imap_const. by apply imap_ext.
Qed.

(** * A small site *)

Definition small_site (p : provenance) : synthetic_config :=
  SyntheticConfig 0x5F1E5FAB1234 "site-alpha" 1 1 1 1 0 0 0 0 400000000000 100000000000 p 1700000000000 60000 1 1
    true false false true false false false false false false false false false false false.

Lemma synthetic_never_current_witness :
  ∃ out s, generate_synthetic_site (small_site Provenance.SYNTHETIC) = Some (Status.OK, out)
    ∧ run (syn_input out) = Composed s ∧ site_lifecycle_state s ≠ SiteLifecycle.CURRENT.
Proof.
  assert (match generate_synthetic_site (small_site Provenance.SYNTHETIC) with
    | Some (Status.OK, out) => match run (syn_input out) with Composed _ => true | _ => false end
    | _ => false end = true) as H by (vm_compute; reflexivity).
  assert (sy_provenance (small_site Provenance.SYNTHETIC) = Provenance.SYNTHETIC) as Hp by reflexivity.
  revert H Hp. generalize (small_site Provenance.SYNTHETIC). intros cfg H Hp.
  destruct (generate_synthetic_site cfg) as [[[] out]|] eqn:Hg; try discriminate H.
  destruct (run (syn_input out)) as [s| |] eqn:Hs; try discriminate H.
  exists out, s. split; [reflexivity|]. split; [exact Hs|]. exact (proj1 (synthetic_never_current cfg out s Hg Hp Hs)).
Defined.

Lemma generated_input_sound_witness :
  ∃ out, generate_synthetic_site (small_site Provenance.REPORTED) = Some (Status.OK, out)
    ∧ pub_declaration <$> in_publications (syn_input out) = syn_declarations out ∧ length (syn_declarations out) = 3%nat.
Proof.
  assert (match generate_synthetic_site (small_site Provenance.REPORTED) with
    | Some (Status.OK, out) => length (syn_declarations out) =? 3
    | _ => false end%nat = true) as H by (vm_compute; reflexivity).
  assert (0 ≤ sy_clusters (small_site Provenance.REPORTED)) as Hc by (cbn; lia).
  revert H Hc. generalize (small_site Provenance.REPORTED). intros cfg H Hc.
  destruct (generate_synthetic_site cfg) as [[[] out]|] eqn:Hg; try discriminate H.
  exists out. split; [reflexivity|]. split; [|by apply Nat.eqb_eq].
  exact (proj1 (proj2 (generated_input_sound cfg out Hc Hg))).
Defined.
