(* ===== verification/Controller.v ===== *)
(** The site controller (controller.hpp, src/controller/controller.cpp).

    The controller owns an authority registry, a snapshot chain, the composer and, when it is
    persistent, a store; a handler thread per session serves the frames of one member. Each
    public entry point is a function from the clock readings it takes and the outcomes of its
    file appends to its response and the controller, [None] when the composer dereferences
    null. A session is served frame by frame. Recomposition reads its input under the lock
    and finishes without it, so it is two steps, [collect_input] and [finish_recompose]. *)

From stdpp Require Import sorting sets gmap.
From S2P Require Import Prelude Ordering Enums Sha256 Identity Canonical Evidence Capacity Claims Codec Canonicalize Authority Forest Site SiteCodec Snapshot StoreFormat Store Protocol Samples Admit Attribute Domains Maintenance Ledger Verdicts Compose.

(** * Configuration and state *)

Record controller_config := ControllerConfig {
  cc_site : string;
  cc_expectation : site_expectation;
  cc_id : string;
  cc_incarnation : incarnation;
  cc_lease_ttl_ms : Z;
  cc_max_connections : Z;
  cc_retain_declarations : bool;
  cc_persistent : bool;
  cc_store : store_config;
  cc_snapshot_history : Z;
  cc_compose_on_publish : bool;
}.

(** [Counters], by name. *)
Inductive counter : Type :=
| ConnectionsAccepted | ConnectionsRefused | FramesReceived | FramesRejected | PublicationsAccepted
| PublicationsRefused | PublicationsReplayed | RetirementsAccepted | Compositions | SnapshotsPublished
| SnapshotsRefused | HelloAccepted | HelloRefused | Heartbeats | Recoveries | RecoveryRejections.
#[export] Instance counter_eq_dec : EqDecision counter.
Proof. solve_decision. Defined.

Definition no_token : token := AuthorityToken AuthorityKind.UNKNOWN "" "" 0 (Incarnation 0 "") 0 0 0 0.

(** [SiteController::Impl], with the file of its store. *)
Record controller := SiteController {
  ct_config : controller_config;
  ct_authority : registry;
  ct_chain : snapshot_chain;
  ct_store : option store;
  ct_file : option bytes;
  ct_counters : counter → Z;
  ct_publications : omap_t member_domain_key publication_record;
  ct_retirements : list retirement_record;
  ct_revoked : list member_domain_key;
  ct_reconstructed : list member_domain_key;
  ct_acceptance_sequence : Z;
  ct_site_generation : generation;
  ct_token : token;
  ct_incarnation : incarnation;
  ct_epoch : epoch;
  ct_running : bool;
}.

(** ** Assignments to the fields *)

Definition set_authority (a : registry) (c : controller) : controller :=
  let '(SiteController cfg _ ch st f k ps rs rv rc acc g t i e r) := c in
  SiteController cfg a ch st f k ps rs rv rc acc g t i e r.
Definition set_chain (ch : snapshot_chain) (c : controller) : controller :=
  let '(SiteController cfg a _ st f k ps rs rv rc acc g t i e r) := c in
  SiteController cfg a ch st f k ps rs rv rc acc g t i e r.
Definition set_store (st : option store) (f : option bytes) (c : controller) : controller :=
  let '(SiteController cfg a ch _ _ k ps rs rv rc acc g t i e r) := c in
  SiteController cfg a ch st f k ps rs rv rc acc g t i e r.
Definition set_counters (k : counter → Z) (c : controller) : controller :=
  let '(SiteController cfg a ch st f _ ps rs rv rc acc g t i e r) := c in
  SiteController cfg a ch st f k ps rs rv rc acc g t i e r.
Definition set_registry (ps : omap_t member_domain_key publication_record) (rs : list retirement_record)
    (rv rc : list member_domain_key) (acc : Z) (c : controller) : controller :=
  let '(SiteController cfg a ch st f k _ _ _ _ _ g t i e r) := c in
  SiteController cfg a ch st f k ps rs rv rc acc g t i e r.
Definition set_term (g : generation) (t : token) (e : epoch) (c : controller) : controller :=
  let '(SiteController cfg a ch st f k ps rs rv rc acc _ _ i _ r) := c in
  SiteController cfg a ch st f k ps rs rv rc acc g t i e r.
Definition set_running (r : bool) (c : controller) : controller :=
  let '(SiteController cfg a ch st f k ps rs rv rc acc g t i e _) := c in
  SiteController cfg a ch st f k ps rs rv rc acc g t i e r.

Definition add_count (n : Z) (x : counter) (c : controller) : controller :=
  set_counters (λ y, if decide (y = x) then wrap 64 (ct_counters c y + n) else ct_counters c y) c.
Definition bump (x : counter) (c : controller) : controller := add_count 1 x c.

Definition set_generation (g : generation) (c : controller) : controller := set_term g (ct_token c) (ct_epoch c) c.
Definition set_token (t : token) (c : controller) : controller := set_term (ct_site_generation c) t (ct_epoch c) c.

(** [erase(remove(reconstructed.begin(), reconstructed.end(), domain))]. *)
Definition forget (d : member_domain_key) (l : list member_domain_key) : list member_domain_key :=
  filter (λ x, x ≠ d) l.
(** [push_back] of a domain that is not there. *)
Definition remember (d : member_domain_key) (l : list member_domain_key) : list member_domain_key :=
  if decide (d ∈ l) then l else l ++ [d].

(** One append to the store, when there is one. *)
Definition persist (io : entry → commit) (e : entry) (c : controller) : status * controller :=
  match ct_store c with
  | None => (Status.OK, c)
  | Some st =>
      let '(s, st, f) := append_entry e (io e) st (ct_file c) in (s, set_store (Some st) f c)
  end.

(** * Recomposition *)

Definition collect_input (now : Z) (c : controller) : composition_input :=
  CompositionInput (cc_site (ct_config c)) (ct_epoch c) (generation_next (ct_site_generation c)) (ct_incarnation c) now
    (cc_expectation (ct_config c)) (ct_publications c).*2 (ct_retirements c) (ct_revoked c) (ct_reconstructed c).

(** The snapshot built from a composed site, before the chain numbers it. *)
Definition snapshot_of (now : Z) (s : composed_site) : site_snapshot :=
  SiteSnapshot (site_id s) (site_epoch s) (site_generation s) (site_incarnation s) 0 zero_digest zero_digest now
    (site_lifecycle_state s) (site_status s)
    (site_membership_complete s && bool_decide (site_lifecycle_state s = SiteLifecycle.CURRENT))
    (foldl (λ acc d, ss_union acc (dec_sources d)) ss_empty (site_decisions s)) (site_factors s) s.

Definition refused_result (code : status) (what : string) : publish_result :=
  SnapshotPublishResult code 0 (factors_add_pair what (to_string code) no_factors).

(** What follows an accepted publication: the generation is taken and the stamped copy stored. *)
Definition commit_snapshot (io : entry → commit) (gen : generation) (snapshot : site_snapshot) (out : publish_result)
    (c : controller) : publish_result * controller :=
  let c := bump SnapshotsPublished (set_generation gen c) in
  let snapshot := default snapshot (Snapshot.current (ct_chain c)) in
  match ct_store c with
  | None => (out, c)
  | Some _ =>
      let '(persisted, c) := persist io (ESnapshot snapshot) c in
      (if is_ok persisted then out
       else SnapshotPublishResult (pr_status out) (pr_sequence out)
              (factors_add_pair "persist_snapshot" (to_string persisted) (pr_factors out)), c)
  end.

(** The chain's answer to the sealed snapshot. *)
Definition offer_snapshot (io : entry → commit) (now : Z) (gen : generation) (t : token) (s : composed_site)
    (c : controller) : publish_result * controller :=
  let '(digest_status, snapshot) := recompute_digest (snapshot_of now s) in
  if negb (is_ok digest_status)
  then (SnapshotPublishResult digest_status 0 no_factors, bump SnapshotsRefused c)
  else
    let '(out, chain) := Snapshot.publish snapshot t now (ct_chain c) in
    let c := set_chain chain c in
    let published := pr_status out in
    if negb (is_ok published) && negb (bool_decide (published = Status.ALREADY_EXISTS))
    then (out, bump SnapshotsRefused c)
    else if negb (bool_decide (published = Status.ALREADY_EXISTS)) then commit_snapshot io gen snapshot out c
    else (out, c).

(** The rest of [recompose], from the input on. *)
Definition finish_recompose (io : entry → commit) (now : Z) (input : composition_input) (c : controller)
    : option (publish_result * controller) :=
  let c := bump Compositions c in
  match Compose.run input with
  | Crashed => None
  | Refused code => Some (refused_result code "compose", bump SnapshotsRefused c)
  | Composed s =>
      let '(acquired, granted, authority) :=
        acquire_site_authority (cc_id (ct_config c)) (cc_site (ct_config c)) (ct_epoch c) (ct_incarnation c)
          (in_generation input) now (cc_lease_ttl_ms (ct_config c)) (ct_authority c) in
      let c := set_authority authority c in
      if negb (is_ok acquired) then Some (refused_result acquired "authority", bump SnapshotsRefused c)
      else
        let t := default no_token granted in
        Some (offer_snapshot io now (in_generation input) t s (set_token t c))
  end.

(** The status [recompose] returns is the one in its result. *)
Definition recompose (io : entry → commit) (now : Z) (c : controller) : option (publish_result * controller) :=
  finish_recompose io now (collect_input now c) c.

(** * Publications *)

Definition publish_reply (c : controller) : publish_response :=
  PublishResponse Status.UNKNOWN (cc_site (ct_config c)) (ct_epoch c) 0 0 false no_factors.
Definition with_status (s : status) (f : factors) (r : publish_response) : publish_response :=
  PublishResponse s (pp_site r) (pp_epoch r) (pp_site_generation r) (pp_acceptance_sequence r) (pp_recomposed r) f.

(** The checks before anything is recorded: the refusal, or the sealed declaration. *)
Definition check_publication (inc : incarnation) (d : declaration) (attempt : publish_attempt) (c : controller)
    : result (status * factors) declaration :=
  if negb (mdk_valid (decl_domain d)) || negb (bool_decide (decl_site d = cc_site (ct_config c)))
  then Err (Status.SITE_MISMATCH, no_factors)
  else
    let '(sealed_status, sealed) := seal d in
    if negb (is_ok sealed_status) then Err (sealed_status, no_factors)
    else if negb (digest_is_zero (decl_digest d)) && negb (bool_decide (decl_digest d = decl_digest sealed))
    then Err (Status.DIGEST_MISMATCH_DECLARATION, factors_add_pair "recomputed" (short_hex (decl_digest sealed)) no_factors)
    else
      let fenced :=
        fence_publication (decl_domain sealed)
          (Offer (decl_observed_epoch d) inc (decl_generation sealed) (decl_digest sealed) attempt) (ct_authority c) in
      if negb (is_ok fenced) then Err (fenced, no_factors) else Ok sealed.

Definition is_replay (s : status) : bool := bool_decide (s = Status.REPLAYED) || bool_decide (s = Status.FENCED_ATTEMPT).

(** The record of an accepted publication, before its acceptance sequence. *)
Definition record_of (publisher : string) (inc : incarnation) (d sealed : declaration) (attempt : publish_attempt)
    (now acceptance : Z) (retain : bool) : publication_record :=
  MemberPublicationRecord (decl_domain sealed) (decl_generation sealed) (decl_digest sealed) (decl_schema sealed)
    (decl_site sealed) (decl_observed_epoch d) inc publisher attempt now acceptance retain
    (if retain then sealed else no_declaration).

(** What is recorded under the registry lock and in the authority. *)
Definition accept_publication (record : publication_record) (o : offer) (now : Z) (c : controller) : controller :=
  let c := set_registry (om_set (pub_domain record) record (ct_publications c)) (ct_retirements c) (ct_revoked c)
             (forget (pub_domain record) (ct_reconstructed c)) (pub_acceptance_sequence record) c in
  set_authority (Authority.record_publication (pub_domain record) o now (ct_authority c)).2 c.

(** [compose_on_publish]. *)
Definition after_publish (io : entry → commit) (now : Z) (out : publish_response) (c : controller)
    : option (publish_response * controller) :=
  if negb (cc_compose_on_publish (ct_config c)) then Some (out, c)
  else
    p ← recompose io now c;
    let '(result, c) := p in
    let composed := pr_status result in
    if is_ok composed && accepted result then
      Some (PublishResponse (pp_status out) (pp_site out) (pp_epoch out) (ct_site_generation c)
              (pp_acceptance_sequence out) true (pp_factors out), c)
    else if negb (is_ok composed) then
      Some (with_status (pp_status out) (factors_add_pair "recompose" (to_string composed) (pp_factors out)) out, c)
    else Some (out, c).

Definition next_acceptance (c : controller) : Z := wrap 64 (ct_acceptance_sequence c + 1).

(** [now] and [later]: the readings of the clock by the fence and by the recomposition. *)
Definition publish (io : entry → commit) (now later : Z) (publisher : string) (inc : incarnation) (d : declaration)
    (attempt : publish_attempt) (c : controller) : option (publish_response * controller) :=
  let out := publish_reply c in
  match check_publication inc d attempt c with
  | Err (code, f) =>
      let c := bump PublicationsRefused c in
      Some (with_status code f out, if is_replay code then bump PublicationsReplayed c else c)
  | Ok sealed =>
      let record := record_of publisher inc d sealed attempt now (next_acceptance c) (cc_retain_declarations (ct_config c)) in
      let o := Offer (decl_observed_epoch d) inc (decl_generation sealed) (decl_digest sealed) attempt in
      let c := accept_publication record o now c in
      let '(persisted, c) := persist io (EPublication record) c in
      let f := if is_ok persisted then no_factors
               else factors_add_pair "persist_publication" (to_string persisted) no_factors in
      let c := bump PublicationsAccepted c in
      after_publish io later
        (PublishResponse Status.ACCEPTED (pp_site out) (ct_epoch c) (ct_site_generation c)
           (pub_acceptance_sequence record) false f) c
  end.

(** * Retirements, revocations, queries *)

Definition retire_reply (code : status) (f : factors) (acceptance : Z) (c : controller) : retire_response :=
  RetireResponse code (cc_site (ct_config c)) (ct_epoch c) acceptance f.

(** The text of a tombstone. *)
Definition tombstone_of (d : member_domain_key) (i : incarnation) : string :=
  mdk_to_string d +:+ "/" +:+ incarnation_to_string i.

Definition note_persisted (what : string) (s : status) (f : factors) : factors :=
  if is_ok s then f else factors_add_pair what (to_string s) f.

Definition retire (io : entry → commit) (now later : Z) (request : retire_request) (c : controller)
    : option (retire_response * controller) :=
  let d := rq_domain request in
  let i := rq_incarnation request in
  if negb (mdk_valid d) then Some (retire_reply Status.INVALID no_factors 0 c, c)
  else if negb (member_incarnation_live d i (ct_authority c))
  then Some (retire_reply Status.FENCED_INCARNATION no_factors 0 c, c)
  else
    let record := MemberRetirementRecord d (rq_generation request) i now (next_acceptance c) (rq_reason request) in
    let c := set_registry (ct_publications c) (ct_retirements c ++ [record]) (ct_revoked c)
               (forget d (ct_reconstructed c)) (ret_acceptance_sequence record) c in
    let c := set_authority (retire_member_incarnation d i now (ct_authority c)).2 c in
    let '(persisted, c) := persist io (ERetirement record) c in
    let '(tombstoned, c) := persist io (ETombstone (tombstone_of d i)) c in
    let f := note_persisted "persist_tombstone" tombstoned (note_persisted "persist_retirement" persisted no_factors) in
    let c := bump RetirementsAccepted c in
    let reply f := retire_reply Status.ACCEPTED f (ret_acceptance_sequence record) c in
    if negb (cc_compose_on_publish (ct_config c)) then Some (reply f, c)
    else
      p ← recompose io later c;
      Some (reply (note_persisted "recompose" (pr_status p.1) f), p.2).

Definition revoke_member (io : entry → commit) (now : Z) (d : member_domain_key) (c : controller)
    : option (status * controller) :=
  if negb (mdk_valid d) then Some (Status.INVALID, c)
  else
    let c := set_registry (ct_publications c) (ct_retirements c) (remember d (ct_revoked c)) (ct_reconstructed c)
               (ct_acceptance_sequence c) c in
    p ← recompose io now c; Some (pr_status p.1, p.2).

(** The domains whose record was accepted after [since], in key order. *)
Definition changed_since (since : Z) (c : controller) : list member_domain_key :=
  sort_by id ((filter (λ p, since < pub_acceptance_sequence p.2) (ct_publications c)).*1).

Definition compose_now (now : Z) (c : controller) : composition := Compose.run (collect_input now c).
Definition current_snapshot (c : controller) : result status site_snapshot :=
  match Snapshot.current (ct_chain c) with Some s => Ok s | None => Err Status.NOT_FOUND end.
Definition snapshot_at (sequence : Z) (c : controller) : result status site_snapshot :=
  match at_sequence sequence (ct_chain c) with Some s => Ok s | None => Err Status.NOT_FOUND end.
Definition snapshot_sequences (c : controller) : list Z := sequences (ct_chain c).

(** * Sessions *)

Record session := ConnectionSession {
  se_hello_done : bool;
  se_domain : member_domain_key;
  se_incarnation : incarnation;
  se_publisher : string;
}.
Definition new_session : session := ConnectionSession false no_domain (Incarnation 0 "") "".

(** What a handler answers: the frame it sends, if it could be encoded. *)
Definition reply : Type := option (message_type * bytes).
(** [send_frame]; [sent] is the outcome of the socket. *)
Definition send_frame (sent : status) (type : message_type) (payload : bytes) : status * reply :=
  match encode_frame type payload 0 with
  | Err s => (s, None)
  | Ok _ => (sent, Some (type, payload))
  end.
Definition send_message {A} `{Message A} (sent : status) (m : A) : status * reply :=
  send_frame sent (message_type_of A) (encode_message m).
Definition send_error (sent : status) (code : status) (detail : string) : status * reply :=
  send_message sent (ErrorResponse code detail no_factors).

(** The readings of the clock and the outcomes of one frame. *)
Record moment := Moment {
  mo_now : Z;
  mo_later : Z;
  mo_sent : status;
  mo_io : entry → commit;
}.

(** A handler's result: its status, its reply, the session and the controller. *)
Definition handled : Type := status * reply * session * controller.
Definition answer (r : status * reply) (se : session) (c : controller) : option handled := Some (r.1, r.2, se, c).

Definition respond_ping (t : moment) (payload : bytes) (se : session) (c : controller) : option handled :=
  match decode_message (A:=ping_message) payload with
  | Err s => answer (send_error (mo_sent t) s "ping") se c
  | Ok request => answer (send_frame (mo_sent t) MessageType.PONG (encode_message request)) se c
  end.

Definition hello_reply (code : status) (assigned : Z) (gen : generation) (f : factors) (c : controller) : hello_response :=
  HelloResponse code (cc_site (ct_config c)) (ct_epoch c) (ct_incarnation c) assigned gen f.
Definition refuse_hello (t : moment) (code : status) (f : factors) (se : session) (c : controller) : option handled :=
  let c := bump HelloRefused c in answer (send_message (mo_sent t) (hello_reply code 0 0 f c)) se c.

Definition respond_hello (t : moment) (payload : bytes) (se : session) (c : controller) : option handled :=
  match decode_message (A:=hello_request) payload with
  | Err s => answer (send_error (mo_sent t) s "hello") se c
  | Ok q =>
      if negb (bool_decide (hq_site q = cc_site (ct_config c)))
      then refuse_hello t Status.SITE_MISMATCH (factors_add_pair "site" (hq_site q) no_factors) se c
      else if ct_epoch c <? hq_observed_epoch q
      then refuse_hello t Status.EPOCH_MISMATCH (factors_add_pair "observed_epoch" (dec (hq_observed_epoch q)) no_factors) se c
      else
        let '(admitted, assigned, authority) :=
          admit_member_incarnation (hq_domain q) (hq_incarnation q) (mo_now t) (ct_authority c) in
        let c := set_authority authority c in
        if negb (is_ok admitted) && negb (bool_decide (admitted = Status.ALREADY_EXISTS))
        then refuse_hello t admitted no_factors se c
        else
          let sequence := default 0 assigned in
          let c := bump HelloAccepted c in
          let se := ConnectionSession true (hq_domain q) (Incarnation sequence (inc_boot (hq_incarnation q))) (hq_publisher q) in
          let c := set_registry (ct_publications c) (ct_retirements c) (ct_revoked c)
                     (forget (hq_domain q) (ct_reconstructed c)) (ct_acceptance_sequence c) c in
          answer (send_message (mo_sent t) (hello_reply Status.OK sequence (ct_site_generation c) no_factors c)) se c
  end.

Definition respond_publish (t : moment) (payload : bytes) (se : session) (c : controller) : option handled :=
  match decode_message (A:=publish_request) payload with
  | Err s => answer (send_error (mo_sent t) s "publish") se c
  | Ok q =>
      if negb (se_hello_done se) then
        let c := bump PublicationsRefused c in
        answer (send_message (mo_sent t)
                  (with_status Status.UNAUTHORIZED (factors_add_pair "hello" "not_completed" no_factors) (publish_reply c))) se c
      else
        p ← publish (mo_io t) (mo_now t) (mo_later t) (se_publisher se) (se_incarnation se) (pq_declaration q) (pq_attempt q) c;
        let '(response, c) := p in
        let applied := pp_status response in
        if negb (is_ok applied) then answer (send_error (mo_sent t) applied "publish") se c
        else answer (send_message (mo_sent t) response) se c
  end.

Definition respond_retire (t : moment) (payload : bytes) (se : session) (c : controller) : option handled :=
  match decode_message (A:=retire_request) payload with
  | Err s => answer (send_error (mo_sent t) s "retire") se c
  | Ok q =>
      if negb (se_hello_done se) || negb (bool_decide (rq_domain q = se_domain se)) then
        answer (send_message (mo_sent t)
                  (retire_reply Status.UNAUTHORIZED (factors_add_pair "session" "does_not_match_domain" no_factors) 0 c)) se c
      else
        p ← retire (mo_io t) (mo_now t) (mo_later t) q c;
        let '(response, c) := p in
        let applied := rp_status response in
        if negb (is_ok applied) then answer (send_error (mo_sent t) applied "retire") se c
        else answer (send_message (mo_sent t) response) se c
  end.

Definition respond_fetch_site (t : moment) (payload : bytes) (se : session) (c : controller) : option handled :=
  match decode_message (A:=fetch_site_request) payload with
  | Err s => answer (send_error (mo_sent t) s "fetch_site") se c
  | Ok q =>
      if negb (bool_decide (fq_site q = cc_site (ct_config c)))
      then answer (send_message (mo_sent t) (FetchSiteResponse Status.SITE_MISMATCH false None no_factors)) se c
      else
        let found := if fq_sequence q =? 0 then Snapshot.current (ct_chain c) else at_sequence (fq_sequence q) (ct_chain c) in
        let response :=
          match found with
          | None => FetchSiteResponse Status.NOT_FOUND false None (factors_add_pair "sequence" (dec (fq_sequence q)) no_factors)
          | Some s => FetchSiteResponse Status.OK true (Some s) no_factors
          end in
        answer (send_message (mo_sent t) response) se c
  end.

Definition respond_heartbeat (t : moment) (payload : bytes) (se : session) (c : controller) : option handled :=
  match decode_message (A:=heartbeat_request) payload with
  | Err s => answer (send_error (mo_sent t) s "heartbeat") se c
  | Ok q =>
      let c := bump Heartbeats c in
      let sequence := from_option snap_sequence 0 (Snapshot.current (ct_chain c)) in
      let response code changed f := HeartbeatResponse code (ct_epoch c) (ct_site_generation c) sequence changed f in
      if negb (se_hello_done se)
      then answer (send_message (mo_sent t) (response Status.UNAUTHORIZED [] (factors_add_pair "hello" "not_completed" no_factors))) se c
      else if negb (member_incarnation_live (se_domain se) (se_incarnation se) (ct_authority c))
      then answer (send_message (mo_sent t) (response Status.FENCED_INCARNATION [] no_factors)) se c
      else answer (send_message (mo_sent t) (response Status.OK (changed_since (bq_since_sequence q) c) no_factors)) se c
  end.

(** The dispatch of one received frame. *)
Definition handle_frame (t : moment) (type : message_type) (payload : bytes) (se : session) (c : controller)
    : option handled :=
  let c := bump FramesReceived c in
  match type with
  | MessageType.PING => respond_ping t payload se c
  | MessageType.HELLO_REQUEST => respond_hello t payload se c
  | MessageType.PUBLISH_REQUEST => respond_publish t payload se c
  | MessageType.RETIRE_REQUEST => respond_retire t payload se c
  | MessageType.FETCH_SITE_REQUEST => respond_fetch_site t payload se c
  | MessageType.HEARTBEAT_REQUEST => respond_heartbeat t payload se c
  | _ => answer (send_error (mo_sent t) Status.UNSUPPORTED "unexpected message type") se c
  end.

(** What [receive_frame] brings: a frame, a poll without one, or the end. *)
Inductive received : Type :=
| Received (type : message_type) (payload : bytes)
| Idle
| Broken (code : status).

(** One round of the loop of [handle_connection]: what it sends, and whether the loop goes on.
    A controller that was stopped serves nothing. *)
Definition serve_one (t : moment) (e : received) (se : session) (c : controller)
    : option (list reply * bool * session * controller) :=
  if negb (ct_running c) then Some ([], false, se, c)
  else match e with
  | Idle => Some ([], true, se, c)
  | Broken code => Some ([], false, se, if bool_decide (code = Status.STOPPED) then c else bump FramesRejected c)
  | Received type payload =>
      '(status, r, se, c) ← handle_frame t type payload se c; Some ([r], is_ok status, se, c)
  end.

(** The loop, up to the end of the session; the events are given in the order they arrive. *)
Fixpoint serve (events : list (moment * received)) (se : session) (c : controller)
    : option (list reply * session * controller) :=
  match events with
  | [] => Some ([], se, c)
  | (t, e) :: events =>
      '(rs, goes_on, se, c) ← serve_one t e se c;
      if goes_on : bool then '(more, se, c) ← serve events se c; Some (rs ++ more, se, c)
      else Some (rs, se, c)
  end.

(** What follows the loop. *)
Definition end_session (t : moment) (se : session) (c : controller) : option controller :=
  if negb (se_hello_done se) then Some c
  else
    let c := set_authority (retire_member_incarnation (se_domain se) (se_incarnation se) (mo_now t) (ct_authority c)).2 c in
    let '(persisted, c) := persist (mo_io t) (ETombstone (tombstone_of (se_domain se) (se_incarnation se))) c in
    let c := if is_ok persisted then c else bump RecoveryRejections c in
    let c := set_registry (ct_publications c) (ct_retirements c) (ct_revoked c)
               (remember (se_domain se) (ct_reconstructed c)) (ct_acceptance_sequence c) c in
    p ← recompose (mo_io t) (mo_later t) c;
    Some (if is_ok (pr_status p.1) then p.2 else bump SnapshotsRefused p.2).

Definition handle_connection (events : list (moment * received)) (last : moment) (c : controller)
    : option (list reply * controller) :=
  '(rs, se, c) ← serve events new_session c;
  c ← end_session last se c; Some (rs, c).

(** * Accepting connections *)

(** The handler list, a done flag each, and [active_connections]. *)
Record acceptor := Acceptor {
  ac_handlers : list bool;
  ac_active_connections : Z;
}.
Definition new_acceptor : acceptor := Acceptor [] 0.

(** [reap_finished_handlers_locked]. *)
Definition reap (a : acceptor) : acceptor :=
  Acceptor (filter (λ finished, finished = false) (ac_handlers a)) (ac_active_connections a).

(** One round of [accept_loop] on an incoming connection: whether it is served. *)
Definition accept_connection (max_connections : Z) (a : acceptor) : bool * acceptor :=
  let a := reap a in
  if max_connections <=? ac_active_connections a then (false, a)
  else (true, Acceptor (ac_handlers a ++ [false]) (ac_active_connections a + 1)).

(** Handler [i] returns. *)
Definition finish_handler (i : nat) (a : acceptor) : acceptor :=
  Acceptor (<[i := true]> (ac_handlers a)) (ac_active_connections a).

(** [join_handlers], when the controller stops: every handler has returned. *)
Definition join_handlers (a : acceptor) : acceptor := new_acceptor.

(** What happens at the listener between a start and a stop. *)
Inductive acceptor_event : Type :=
| Incoming
| Finished (i : nat).
(** The answers to the incoming connections, in order. *)
Fixpoint accept_loop (max_connections : Z) (events : list acceptor_event) (a : acceptor) : list bool * acceptor :=
  match events with
  | [] => ([], a)
  | Incoming :: events =>
      let '(served, a) := accept_connection max_connections a in
      let '(more, a) := accept_loop max_connections events a in (served :: more, a)
  | Finished i :: events => accept_loop max_connections events (finish_handler i a)
  end.

(** * Creation, start and stop *)

Definition kMaxConnections : Z := 512.

Definition no_counts : counter → Z := λ _, 0.

(** [boot]: the random boot nonce a configuration without one gets. *)
Definition new_controller (cfg : controller_config) (boot : string) : controller :=
  let i := cc_incarnation cfg in
  let i := Incarnation (inc_sequence i) (if boot_valid (inc_boot i) then inc_boot i else boot) in
  let i := Incarnation (if inc_sequence i =? 0 then 1 else inc_sequence i) (inc_boot i) in
  SiteController cfg empty_registry (set_history_limit (cc_snapshot_history cfg) (new_chain 0)) None None no_counts
    [] [] [] [] 0 0 no_token i 0 false.

Definition with_expectation (e : site_expectation) (cfg : controller_config) : controller_config :=
  ControllerConfig (cc_site cfg) e (cc_id cfg) (cc_incarnation cfg) (cc_lease_ttl_ms cfg) (cc_max_connections cfg)
    (cc_retain_declarations cfg) (cc_persistent cfg) (cc_store cfg) (cc_snapshot_history cfg) (cc_compose_on_publish cfg).

Definition create (cfg : controller_config) (boot : string) : result status controller :=
  if negb (is_valid_identifier (cc_site cfg)) then Err Status.INVALID
  else if cc_lease_ttl_ms cfg <=? 0 then Err Status.INVALID
  else if (cc_max_connections cfg =? 0) || (kMaxConnections <? cc_max_connections cfg) then Err Status.INVALID
  else if kMaxSnapshotHistory <? cc_snapshot_history cfg then Err Status.INVALID
  else
    let e := cc_expectation cfg in
    let e := if bool_decide (se_site e = ""%string)
             then SiteExpectation (cc_site cfg) (se_schema e) (se_minimum_epoch e) (se_members e) (se_reject_unexpected e)
             else e in
    let '(canonical, e) := expectation_canonicalize e in
    if negb (bool_decide (canonical = Status.OK)) then Err Status.INVALID
    else Ok (new_controller (with_expectation e cfg) boot).

(** The statuses of a load whose contents are used. *)
Definition recovers (loaded : status) : bool :=
  is_ok loaded || bool_decide (loaded ∈ [Status.TRUNCATED; Status.LIMIT_EXCEEDED; Status.INTEGRITY_FAILURE]).

(** The newest recovered publication of each domain, by generation only; the first of equals. *)
Definition keep_recovered (m : omap_t member_domain_key publication_record) (r : publication_record)
    : omap_t member_domain_key publication_record :=
  match om_find (pub_domain r) m with
  | Some found => if pub_generation found <? pub_generation r then om_set (pub_domain r) r m else m
  | None => om_set (pub_domain r) r m
  end.

Definition raise_epoch (e : epoch) (t : token) : epoch :=
  if bool_decide (tok_kind t = AuthorityKind.SITE_CONTROLLER) && (e <? tok_epoch t) then tok_epoch t else e.

(** The store's configuration: without a history of its own it keeps the chain's. *)
Definition recovery_config (cfg : controller_config) : store_config :=
  let sc := cc_store cfg in
  if cfg_snapshot_history sc =? 0
  then StoreConfig (cfg_path sc) (cfg_max_bytes sc) (cfg_max_records sc) (cc_snapshot_history cfg) (cfg_durable_commit sc)
  else sc.

(** What the recovered contents set: the chain has accepted the newest snapshot. *)
Definition recover_registry (contents : store_contents) (c : controller) : controller :=
  let c := match latest_snapshot contents with
           | Some s => set_term (snap_generation s) (ct_token c) (snap_epoch s) c
           | None => c
           end in
  let c := set_term (ct_site_generation c) (ct_token c) (foldl raise_epoch (ct_epoch c) (co_leases contents)) c in
  set_registry (foldl keep_recovered (ct_publications c) (co_publications contents)) (co_retirements contents)
    (ct_revoked c) (ct_reconstructed c ++ (pub_domain <$> co_publications contents))
    (foldl (λ n r, Z.max n (pub_acceptance_sequence r)) 0 (co_publications contents)) c.

(** The part of [start] before the epoch is taken: [Err] is an early return. *)
Definition recover (env : environment) (c : controller) : result (status * controller) controller :=
  if negb (cc_persistent (ct_config c)) then Ok c
  else
    if bool_decide (cfg_path (cc_store (ct_config c)) = ""%string) then Err (Status.INVALID, c)
    else
      let '(opened, st, f) := Store.open (recovery_config (ct_config c)) env (ct_file c) in
      if negb (is_ok opened) then Err (opened, bump RecoveryRejections (set_store None f c))
      else
        let c := bump Recoveries (set_store (Some st) f c) in
        let loaded := load env f in
        let contents := rc_contents loaded in
        let count c := add_count (zlen (rep_diagnostics (rc_report loaded))) RecoveryRejections c in
        if negb (recovers (rc_status loaded)) then Ok (count c)
        else match latest_snapshot contents with
        | None => Ok (count (recover_registry contents c))
        | Some s =>
            let '(restored, chain) := restore s (ct_chain c) in
            let c := set_chain chain c in
            if negb (is_ok restored) then Err (restored, bump RecoveryRejections (set_store None f c))
            else Ok (count (recover_registry contents c))
        end.

(** [bound]: the outcome of binding the listener. *)
Definition start (env : environment) (io : entry → commit) (bound : status) (now later : Z) (c : controller)
    : option (status * controller) :=
  if ct_running c then Some (Status.ALREADY_EXISTS, c)
  else match recover env c with
  | Err (s, c) => Some (s, c)
  | Ok c =>
      let c := set_term (ct_site_generation c) (ct_token c)
                 (if is_set (ct_epoch c) then epoch_next (ct_epoch c) else 1) c in
      let lease_generation := if is_set (ct_site_generation c) then ct_site_generation c else 1 in
      let '(acquired, granted, authority) :=
        acquire_site_authority (cc_id (ct_config c)) (cc_site (ct_config c)) (ct_epoch c) (ct_incarnation c)
          lease_generation now (cc_lease_ttl_ms (ct_config c)) (ct_authority c) in
      let c := set_token (default (ct_token c) granted) (set_authority authority c) in
      if negb (is_ok acquired) then Some (acquired, c)
      else if negb (is_ok bound) then Some (bound, c)
      else
        p ← recompose io later (set_running true c);
        let composed := pr_status p.1 in
        Some (Status.OK, if negb (is_ok composed) && negb (bool_decide (composed = Status.NOT_FOUND))
                         then bump SnapshotsRefused p.2 else p.2)
  end.

(** [stop]: the store is closed but stays attached. *)
Definition stop (flushed : bool) (c : controller) : status * controller :=
  let c := set_running false c in
  match ct_store c with
  | None => (Status.OK, c)
  | Some st =>
      let '(closed, st) := Store.close flushed st in
      let c := set_store (Some st) (ct_file c) c in
      (Status.OK, if is_ok closed then c else bump RecoveryRejections c)
  end.

(** * Reports *)

(** [SiteController::recovery]. *)
Definition recovery (c : controller) : recovery_report := from_option st_report empty_report (ct_store c).

(** [status_text]; [endpoint] is the listener's. *)
Definition status_text (endpoint : string) (c : controller) : string :=
  "controller " +:+ cc_id (ct_config c) +:+ " site=" +:+ cc_site (ct_config c) +:+ " epoch=" +:+ dec (ct_epoch c)
  +:+ " incarnation=" +:+ incarnation_to_string (ct_incarnation c)
  +:+ " generation=" +:+ dec (ct_site_generation c) +:+ " endpoint=" +:+ endpoint
  +:+ (if ct_running c then " running" else " stopped")
  +:+ " accepted=" +:+ dec (ct_counters c PublicationsAccepted)
  +:+ " refused=" +:+ dec (ct_counters c PublicationsRefused)
  +:+ " snapshots=" +:+ dec (ct_counters c SnapshotsPublished).
