(* ===== verification/Transport.v ===== *)
(** Frames off a socket (src/transport/tcp.cpp, [read_exact], [write_all], [send_frame] and
    [receive_frame], and the polling of src/controller/controller.cpp).

    What a socket delivers is a list of arrivals: bytes, pauses and the end of the connection.
    [Protocol.receive_frame] is the specification on the bytes alone; the socket refines it as
    long as no pause is as long as the timeouts in force. A pause that is, inside a frame,
    loses the bytes already read. *)

From stdpp Require Import sorting.
From S2P Require Import Prelude Ordering Enums Sha256 Identity Canonical Evidence Capacity Claims Codec Authority Forest Site SiteCodec StoreFormat Protocol Controller.

(** * Arrivals *)

(** What [recv] meets next: bytes, nothing for some milliseconds, the peer's orderly end, or a
    fault. Two pauses in a row are two calls of [recv], each with its own timer; an exhausted
    list is a peer that stays silent. *)
Inductive arrival : Type :=
| Bytes (data : bytes)
| Gap (ms : Z)
| Closed
| Failed.

(** [TcpConnection::read_exact] from the bytes it has [got]: the status, the buffer and what is
    left to arrive. Every [recv] waits for [timeout_ms]. *)
Fixpoint read_from (timeout_ms want : Z) (got : bytes) (a : list arrival) : status * bytes * list arrival :=
  if want <=? zlen got then (Status.OK, got, a)
  else match a with
  | [] => (Status.BUSY, got, [])
  | Bytes data :: rest =>
      let missing := want - zlen got in
      if missing <? zlen data
      then (Status.OK, got ++ take (Z.to_nat missing) data, Bytes (drop (Z.to_nat missing) data) :: rest)
      else read_from timeout_ms want (got ++ data) rest
  | Gap ms :: rest =>
      if timeout_ms <=? ms then (Status.BUSY, got, Gap (ms - timeout_ms) :: rest)
      else read_from timeout_ms want got rest
  | Closed :: _ => (if bool_decide (got = []) then Status.STOPPED else Status.TRUNCATED, got, a)
  | Failed :: _ => (Status.STOPPED, got, a)
  end.

(** [receive_frame]: the frame or the refusal, and what is left to arrive. *)
Definition receive (header_timeout_ms body_timeout_ms : Z) (a : list arrival)
    : result status (message_type * bytes) * list arrival :=
  let '(header_status, header_bytes, a) := read_from header_timeout_ms kFrameHeaderBytes [] a in
  if negb (is_ok header_status) then (Err header_status, a)
  else match decode_frame_header header_bytes with
  | Err decoded => (Err decoded, a)
  | Ok header =>
      let '(body_status, payload, a) :=
        if fh_payload_bytes header =? 0 then (Status.OK, [], a)
        else read_from body_timeout_ms (fh_payload_bytes header) [] a in
      if negb (is_ok body_status) then (Err body_status, a)
      else
        let verified := verify_payload header payload in
        if negb (is_ok verified) then (Err verified, a) else (Ok (fh_type header, payload), a)
  end.

(** * Without long pauses the socket is its byte stream *)

Fixpoint bytes_of (a : list arrival) : bytes :=
  match a with
  | [] => []
  | Bytes data :: a => data ++ bytes_of a
  | Gap _ :: a => bytes_of a
  | Closed :: _ | Failed :: _ => []
  end.

(** Every pause is shorter than [limit]. *)
Definition prompt (limit : Z) (a : list arrival) : Prop :=
  Forall (λ x, match x with Gap ms => ms < limit | _ => True end) a.

Lemma read_from_prompt limit timeout want a : ∀ got,
  prompt limit a → limit ≤ timeout → zlen got ≤ want → want ≤ zlen (got ++ bytes_of a) →
  ∃ a', read_from timeout want got a = (Status.OK, take (Z.to_nat want) (got ++ bytes_of a), a')
    ∧ bytes_of a' = drop (Z.to_nat want) (got ++ bytes_of a) ∧ prompt limit a'.
Proof.
  induction a as [|x a IH]; intros got Hp Hlim Hgot Hwant; cbn [read_from].
  - cbn [bytes_of] in *. rewrite app_nil_r in *. rewrite (proj2 (Z.leb_le _ _)) by lia. exists []. unfold zlen in *.
    rewrite take_ge, drop_ge by lia. done.
  - destruct (Z.leb_spec want (zlen got)) as [Hle|Hlt].
    { exists (x :: a). unfold zlen in *. rewrite take_app_le, drop_app_le by lia.
      rewrite take_ge, drop_ge by lia. done. }
    apply Forall_cons in Hp as [Hx Hp]. destruct x as [data|ms| |]; cbn [bytes_of] in *.
    + destruct (Z.ltb_spec (want - zlen got) (zlen data)) as [Hmore|Hless].
      * unfold zlen in *. rewrite take_app_ge, drop_app_ge by lia. rewrite take_app_le, drop_app_le by lia.
        replace (Z.to_nat want - length got)%nat with (Z.to_nat (want - Z.of_nat (length got))) by lia.
        eexists. split; [done|]. split; [done|by constructor].
      * rewrite app_assoc in *. apply IH; [done|done| |done]. rewrite zlen_app. lia.
    + rewrite (proj2 (Z.leb_gt _ _)) by lia. by apply IH.
    + rewrite app_nil_r in Hwant. lia.
    + rewrite app_nil_r in Hwant. lia.
Qed.

Lemma read_from_ok timeout want a : ∀ got got' a',
  read_from timeout want got a = (Status.OK, got', a') → zlen got ≤ want →
  got' = take (Z.to_nat want) (got ++ bytes_of a) ∧ bytes_of a' = drop (Z.to_nat want) (got ++ bytes_of a)
  ∧ want ≤ zlen (got ++ bytes_of a).
Proof.
  induction a as [|x a IH]; intros got got' a'; cbn [read_from].
  - destruct (Z.leb_spec want (zlen got)); [|done]. intros [= <- <-] Hw. cbn [bytes_of]. rewrite app_nil_r. unfold zlen in *.
    rewrite take_ge, drop_ge by lia. done.
  - destruct (Z.leb_spec want (zlen got)) as [Hle|Hlt].
    { intros [= <- <-] Hw. unfold zlen in *. rewrite length_app. rewrite take_app_le, drop_app_le by lia.
      rewrite take_ge, drop_ge by lia. split_and!; [done|done|lia]. }
    destruct x as [data|ms| |]; cbn [bytes_of].
    + destruct (Z.ltb_spec (want - zlen got) (zlen data)) as [Hmore|Hless].
      * intros [= <- <-] Hw. unfold zlen in *. rewrite take_app_ge, drop_app_ge by lia.
        rewrite take_app_le, drop_app_le by lia. cbn [bytes_of]. rewrite !length_app.
        replace (Z.to_nat want - length got)%nat with (Z.to_nat (want - Z.of_nat (length got))) by lia.
        split_and!; [done|done|lia].
      * intros H Hw. rewrite app_assoc. apply IH in H; [done|]. rewrite zlen_app. lia.
    + destruct (timeout <=? ms); [done|]. apply IH.
    + by case_bool_decide.
    + done.
Qed.

Lemma receive_prompt limit header_ms body_ms ended a ty payload rest :
  prompt limit a → limit ≤ header_ms → limit ≤ body_ms →
  receive_frame ended (bytes_of a) = Ok (ty, payload, rest) →
  ∃ a', receive header_ms body_ms a = (Ok (ty, payload), a') ∧ bytes_of a' = rest ∧ prompt limit a'.
Proof.
  intros Hp Hh Hb H. unfold receive_frame in H. apply result_bind_Ok in H as ([hb tail] & Hhead & H).
  apply read_exact_inv in Hhead as [Hs Hlen]; [|done]. cbn [fst snd] in H.
  apply result_bind_Ok in H as (h & Hd & H). apply result_bind_Ok in H as ([body rest'] & Hbody & H). cbn [fst snd] in H.
  destruct (read_from_prompt limit header_ms kFrameHeaderBytes a [] Hp Hh) as (a1 & Hr & Hb1 & Hp1); [done| |].
  { cbn [app]. rewrite Hs, zlen_app, Hlen. pose proof (zlen_nonneg tail). lia. }
  cbn [app] in Hr, Hb1. rewrite Hs in Hr, Hb1. unfold zlen in Hlen.
  rewrite take_app_le, take_ge in Hr by lia. rewrite drop_app_ge in Hb1 by lia.
  replace (Z.to_nat kFrameHeaderBytes - length hb)%nat with 0%nat in Hb1 by lia. rewrite drop_0 in Hb1.
  unfold receive. rewrite Hr. change (negb (is_ok Status.OK)) with false. cbv iota. rewrite Hd.
  destruct (is_ok (verify_payload h body)) eqn:Hv; cbn [negb] in H; [|done]. injection H as <- <- <-.
  destruct (Z.eqb_spec (fh_payload_bytes h) 0) as [Hz|Hz].
  - injection Hbody as <- <-. change (negb (is_ok Status.OK)) with false. cbv iota. rewrite Hv. cbn [negb]. by exists a1.
  - apply decode_header_inv in Hd as [_ (_ & _ & _ & Hn & _)].
    apply read_exact_inv in Hbody as [Hs2 Hlen2]; [|lia].
    destruct (read_from_prompt limit body_ms (fh_payload_bytes h) a1 [] Hp1 Hb) as (a2 & Hr2 & Hb2 & Hp2); [unfold zlen; simpl; lia| |].
    { cbn [app]. rewrite Hb1, Hs2, zlen_app. pose proof (zlen_nonneg rest'). lia. }
    cbn [app] in Hr2, Hb2. rewrite Hb1, Hs2 in Hr2, Hb2. unfold zlen in Hlen2.
    rewrite take_app_le, take_ge in Hr2 by lia. rewrite drop_app_ge in Hb2 by lia.
    replace (Z.to_nat (fh_payload_bytes h) - length body)%nat with 0%nat in Hb2 by lia. rewrite drop_0 in Hb2.
    rewrite Hr2. change (negb (is_ok Status.OK)) with false. cbv iota. rewrite Hv. cbn [negb]. by exists a2.
Qed.

Lemma read_from_status timeout want a : ∀ got, is_ok (read_from timeout want got a).1.1 = true →
  (read_from timeout want got a).1.1 = Status.OK.
Proof.
  induction a as [|x a IH]; intros got; cbn [read_from]; (destruct (want <=? zlen got); [done|]); [done|].
  destruct x as [data|ms| |]; [|destruct (_ <=? _); [done|apply IH]|by case_bool_decide|done].
  cbv zeta. destruct (_ <? _); [done|apply IH].
Qed.

Lemma read_exact_enough ended size stream : size ≤ zlen stream →
  read_exact ended size stream = Ok (take (Z.to_nat size) stream, drop (Z.to_nat size) stream).
Proof. intros H. unfold read_exact. by rewrite (proj2 (Z.ltb_ge _ _)). Qed.

Lemma receive_sound header_ms body_ms ended a ty payload a' :
  receive header_ms body_ms a = (Ok (ty, payload), a') →
  receive_frame ended (bytes_of a) = Ok (ty, payload, bytes_of a').
Proof.
  unfold receive. pose proof (read_from_status header_ms kFrameHeaderBytes a []) as Hst.
  destruct (read_from _ _ _ a) as [[st hb] a1] eqn:E1. destruct (is_ok st) eqn:Ek; cbn [negb]; [|done].
  cbn [fst] in Hst. rewrite Ek in Hst. specialize (Hst eq_refl). subst st.
  apply read_from_ok in E1 as (Hhb & Hb1 & Hl1); [|done]. cbn [app] in Hhb, Hb1, Hl1.
  destruct (decode_frame_header hb) as [h|] eqn:Hd; [|done].
  pose proof (decode_header_inv _ _ Hd) as [_ (_ & _ & _ & Hn & _)].
  unfold receive_frame. rewrite (read_exact_enough _ kFrameHeaderBytes) by done. cbn [mbind result_bind fst snd].
  rewrite <- Hhb, <- Hb1, Hd. cbn [mbind result_bind].
  destruct (Z.eqb_spec (fh_payload_bytes h) 0) as [Hz|Hz].
  - change (negb (is_ok Status.OK)) with false. cbv iota zeta. cbn [mret result_ret mbind result_bind fst snd].
    destruct (is_ok (verify_payload h [])); cbn [negb]; [|done]. by intros [= <- <- <-].
  - pose proof (read_from_status body_ms (fh_payload_bytes h) a1 []) as Hst2.
    destruct (read_from body_ms _ _ a1) as [[st2 body] a2] eqn:E2. destruct (is_ok st2) eqn:Ek2; cbn [negb]; [|done].
    cbn [fst] in Hst2. rewrite Ek2 in Hst2. specialize (Hst2 eq_refl). subst st2.
    apply read_from_ok in E2 as (Hbody & Hb2 & Hl2); [|unfold zlen; simpl; lia]. cbn [app] in Hbody, Hb2, Hl2.
    rewrite read_exact_enough by done. cbn [mbind result_bind fst snd].
    rewrite <- Hbody, <- Hb2. destruct (is_ok (verify_payload h body)); cbn [negb]; [|done]. by intros [= <- <- <-].
Qed.

(** * The controller's polling *)

Definition kHeaderPollMs : Z := 200.

(** What one call of [receive_frame] in [handle_connection] brings. *)
Definition receive_next (io_timeout_ms : Z) (a : list arrival) : received * list arrival :=
  let '(r, a) := receive kHeaderPollMs io_timeout_ms a in
  (match r with
   | Ok (type, payload) => Received type payload
   | Err s => if bool_decide (s = Status.BUSY) then Idle else Broken s
   end, a).

(** What the first [rounds] calls bring. *)
Fixpoint receive_rounds (io_timeout_ms : Z) (rounds : nat) (a : list arrival) : list received * list arrival :=
  match rounds with
  | O => ([], a)
  | S rounds =>
      let '(e, a) := receive_next io_timeout_ms a in
      let '(more, a) := receive_rounds io_timeout_ms rounds a in (e :: more, a)
  end.

(** The frames of a list of messages. *)
Fixpoint encode_frames (l : list (message_type * bytes)) : result status bytes :=
  match l with
  | [] => Ok []
  | (type, payload) :: l => frame ← encode_frame type payload 0; frames ← encode_frames l; mret (frame ++ frames)
  end.

Lemma receive_next_prompt io a ty payload rest :
  prompt kHeaderPollMs a → kHeaderPollMs ≤ io → receive_frame Status.STOPPED (bytes_of a) = Ok (ty, payload, rest) →
  ∃ a', receive_next io a = (Received ty payload, a') ∧ bytes_of a' = rest ∧ prompt kHeaderPollMs a'.
Proof.
  intros Hp Hio H. destruct (receive_prompt kHeaderPollMs kHeaderPollMs io _ _ _ _ _ Hp ltac:(done) Hio H) as (a' & Hr & ? & ?).
  exists a'. unfold receive_next. by rewrite Hr.
Qed.

(** The pause leaves the bytes read before it in nobody's hands. *)
Lemma read_from_lost timeout want data ms rest :
  zlen data < want → 0 < want → timeout ≤ ms →
  read_from timeout want [] (Bytes data :: Gap ms :: rest) = (Status.BUSY, data, Gap (ms - timeout) :: rest).
Proof.
  intros Hd Hw Ht. cbn [read_from]. change (zlen []) with 0. rewrite (proj2 (Z.leb_gt _ _)) by lia.
  rewrite (proj2 (Z.ltb_ge _ _)) by lia. cbn [app]. rewrite (proj2 (Z.leb_gt _ _)) by lia.
  by rewrite (proj2 (Z.leb_le _ _)) by lia.
Qed.

(** * Theorems *)


Definition sample_frames : list (message_type * bytes) := [(MessageType.PING, []); (MessageType.PONG, [])].

(** Bytes, a pause, and the bytes that follow it. *)
Definition paused (head : bytes) (ms : Z) (following : bytes) : list arrival := [Bytes head; Gap ms; Bytes following].

Lemma decode_no_magic data : zlen data = kFrameHeaderBytes → read_u32_at data 0 ≠ kFrameMagic →
  decode_frame_header data = Err Status.MALFORMED.
Proof.
  intros Hl Hm. unfold decode_frame_header, refuse_if. rewrite Hl, Z.eqb_refl. cbn [negb mbind result_bind].
  by rewrite (proj2 (Z.eqb_neq _ _) Hm).
Qed.

Lemma receive_no_magic io ms data :
  ms < kHeaderPollMs → kFrameHeaderBytes ≤ zlen data →
  read_u32_at (take (Z.to_nat kFrameHeaderBytes) data) 0 ≠ kFrameMagic →
  ∃ a', receive_next io [Gap ms; Bytes data] = (Broken Status.MALFORMED, a').
Proof.
  intros Hms Hd Hm.
  destruct (read_from_prompt kHeaderPollMs kHeaderPollMs kFrameHeaderBytes [Gap ms; Bytes data] []) as (a' & Hr & _);
    [by repeat constructor|done|done|by cbn [bytes_of app]; rewrite app_nil_r|].
  cbn [bytes_of app] in Hr. rewrite app_nil_r in Hr. exists a'. unfold receive_next, receive. rewrite Hr.
  change (negb (is_ok Status.OK)) with false. cbv iota.
  rewrite decode_no_magic; [done| |done]. unfold zlen, kFrameHeaderBytes in *. rewrite length_take. lia.
Qed.

(** A pause inside a frame's header as long as the poll for it loses the frame: where a
    shorter pause leaves the frame to be received, this one drops the bytes before it, the
    call reports no frame and the loop goes on, so the next call takes the rest of the frame
    for the start of another. When no magic stands there, that is MALFORMED and the session
    ends with the frame counted as rejected, although every byte the peer sent was right. *)
Theorem slow_header_loses_frame (io ms : Z) (ty : message_type) (payload head tail more : bytes) :
  encode_frame ty payload 0 = Ok (head ++ tail) → zlen head < kFrameHeaderBytes → kHeaderPollMs ≤ io →
  (ms < kHeaderPollMs → ∃ a', receive_next io (paused head ms (tail ++ more)) = (Received ty payload, a') ∧ bytes_of a' = more)
  ∧ (kHeaderPollMs ≤ ms < 2 * kHeaderPollMs → kFrameHeaderBytes ≤ zlen (tail ++ more) →
     read_u32_at (take (Z.to_nat kFrameHeaderBytes) (tail ++ more)) 0 ≠ kFrameMagic →
     (∃ a', receive_rounds io 2 (paused head ms (tail ++ more)) = ([Idle; Broken Status.MALFORMED], a'))
     ∧ ∀ t se c, ct_running c = true →
         serve [(t, Idle); (t, Broken Status.MALFORMED)] se c = Some ([], se, bump FramesRejected c)).
Proof.
  intros Hf Hh Hio. split.
  - intros Hms. destruct (receive_next_prompt io (paused head ms (tail ++ more)) ty payload more) as (a' & H & Hb & _);
      [by repeat constructor|done| |by exists a'].
    cbn [paused bytes_of]. rewrite app_nil_r, app_assoc. by eapply receive_encoded.
  - intros Hms Ht Hm. split.
    + destruct (receive_no_magic io (ms - kHeaderPollMs) (tail ++ more)) as [a' H]; [lia|done|done|]. exists a'.
      cbn [receive_rounds]. unfold receive_next at 1. unfold receive, paused.
      rewrite read_from_lost by (unfold kFrameHeaderBytes; lia || done). change (negb (is_ok Status.BUSY)) with true. cbv iota.
      rewrite bool_decide_true by done. by rewrite H.
    + intros t se c Hr. unfold serve, serve_one. rewrite Hr. cbn [negb mbind option_bind app]. by rewrite Hr.
Qed.

Lemma slow_header_loses_frame_witness :
  ∃ frame, encode_frame MessageType.PING [] 0 = Ok frame
    ∧ (∃ a', receive_next 10000 (paused (take 4 frame) 199 (drop 4 frame ++ frame)) = (Received MessageType.PING [], a')
         ∧ bytes_of a' = frame)
    ∧ ∃ a', receive_rounds 10000 2 (paused (take 4 frame) 200 (drop 4 frame ++ frame))
            = ([Idle; Broken Status.MALFORMED], a').
Proof.
  assert (match encode_frame MessageType.PING [] 0 with
    | Ok frame => (zlen frame =? 48) && negb (read_u32_at (take 48 (drop 4 frame ++ frame)) 0 =? kFrameMagic)
    | Err _ => false end = true) as Hs by (vm_compute; reflexivity).
  destruct (encode_frame MessageType.PING [] 0) as [frame|s] eqn:E; [|discriminate Hs].
  apply andb_true_iff in Hs as [Hlen%Z.eqb_eq Hm%negb_true_iff%Z.eqb_neq]. exists frame. split; [reflexivity|].
  assert (zlen (take 4 frame) < kFrameHeaderBytes ∧ kFrameHeaderBytes ≤ zlen (drop 4 frame ++ frame)) as [Hh Ht].
  { unfold zlen in *. rewrite length_take, length_app, length_drop. unfold kFrameHeaderBytes. lia. }
  assert (encode_frame MessageType.PING [] 0 = Ok (take 4 frame ++ drop 4 frame)) as E' by (rewrite take_drop; exact E).
  split.
  - destruct (slow_header_loses_frame 10000 199 MessageType.PING [] (take 4 frame) (drop 4 frame) frame E' Hh) as [H _];
      [unfold kHeaderPollMs; lia|]. apply H. unfold kHeaderPollMs; lia.
  - destruct (slow_header_loses_frame 10000 200 MessageType.PING [] (take 4 frame) (drop 4 frame) frame E' Hh) as [_ H];
      [unfold kHeaderPollMs; lia|]. apply H; [unfold kHeaderPollMs; lia|exact Ht|exact Hm].
Defined.
