(* ===== verification/Execution.v ===== *)
(** Executions of the site controller (src/controller/controller.cpp).

    A node is the controller with the sessions of its handler threads. Its events are the
    frames the sessions receive, the ends of sessions and the calls of the host; an execution
    is a sequence of events, each taken as a whole (Threads.v takes them apart), in any order.
    Whatever happens, the controller drives its
    authority registry through a sequence of the registry's own calls, none of which revokes a
    lease or clears a domain: the properties of such sequences hold of the controller. *)

From stdpp Require Import sorting sets gmap.
From S2P Require Import Prelude Ordering Enums Sha256 Identity Canonical Evidence Capacity Claims Codec Canonicalize Authority Forest Site SiteCodec Snapshot StoreFormat Store Protocol Samples Admit Attribute Domains Maintenance Ledger Verdicts Compose Controller.

(** * Nodes and events *)

Record node := Node {
  nd_controller : controller;
  nd_sessions : gmap nat session;
}.

Inductive event : Type :=
| Connect (i : nat)
| Round (i : nat) (t : moment) (e : received) (last : moment)
| HostPublish (io : entry → commit) (now later : Z) (publisher : string) (inc : incarnation) (d : declaration)
    (attempt : publish_attempt)
| HostRetire (io : entry → commit) (now later : Z) (request : retire_request)
| HostRevoke (io : entry → commit) (now : Z) (d : member_domain_key)
| HostRecompose (io : entry → commit) (now : Z)
| HostHalt
| HostClose (flushed : bool)
| HostStart (env : environment) (io : entry → commit) (bound : status) (now later : Z).

Definition with_controller (n : node) (c : controller) : node := Node c (nd_sessions n).

(** What an event does; [None] is the composer's crash. A round whose loop ends is followed by
    the end of its session. [stop] halts the controller, joins its handlers and closes the
    store: it is complete, and the controller can be started again, once no session is left. *)
Definition step (n : node) (e : event) : option node :=
  let c := nd_controller n in
  match e with
  | Connect i => Some (Node c (<[i := new_session]> (nd_sessions n)))
  | Round i t r last =>
      match nd_sessions n !! i with
      | None => Some n
      | Some se =>
          '(_, goes_on, se, c) ← serve_one t r se c;
          if goes_on : bool then Some (Node c (<[i := se]> (nd_sessions n)))
          else c ← end_session last se c; Some (Node c (delete i (nd_sessions n)))
      end
  | HostPublish io now later publisher inc d attempt =>
      p ← Controller.publish io now later publisher inc d attempt c; Some (with_controller n p.2)
  | HostRetire io now later request => p ← Controller.retire io now later request c; Some (with_controller n p.2)
  | HostRevoke io now d => p ← revoke_member io now d c; Some (with_controller n p.2)
  | HostRecompose io now => p ← recompose io now c; Some (with_controller n p.2)
  | HostHalt => Some (with_controller n (set_running false c))
  | HostClose flushed =>
      if decide (nd_sessions n = ∅) then Some (with_controller n (stop flushed c).2) else Some n
  | HostStart env io bound now later =>
      if decide (nd_sessions n = ∅) then p ← start env io bound now later c; Some (with_controller n p.2)
      else Some n
  end.

Definition execute (n : node) (events : list event) : option node := foldl (λ n e, n ≫= λ n, step n e) (Some n) events.

(** * A running site *)

Module Running.

(** A site of two racks, a controller of it that keeps nothing on disk and composes when it is
    told to, and the same controller once a member was admitted. *)
Definition config : controller_config :=
  ControllerConfig "site-a" (SiteExpectation "site-a" supported_schema 0 (Scenario.expected <$> ["rack-1"; "rack-2"]) false)
    "ctl-1" (Incarnation 0 "boot-c") 60000 8 true false sample_config 16 false.
Definition created : controller := match create config "boot-x" with Ok c => c | Err _ => new_controller config "" end.
Definition committed : entry → commit := λ _, Committed.
Definition domain : member_domain_key := MemberDomainKey MemberDomainKind.RACK "rack-1".
Definition boot : incarnation := Incarnation 1 "boot-1".
Definition attempt : publish_attempt := PublishAttempt 1 1.
Definition admitted : controller :=
  set_authority (Authority.run empty_registry [Authority.Admit domain (Incarnation 0 "boot-1") 1]) created.
(** An empty declaration of a generation. *)
Definition declared (g : generation) : declaration :=
  MemberDomainDeclaration domain "site-a" g supported_schema zero_digest 1 [] [] [] [] [] [] [] [] [] Sample.observed.
(** The controller accepting connections, and the events of a session. *)
Definition listening : controller := set_running true created.
Definition at_ (now : Z) : moment := Moment now (now + 1) Status.OK committed.
Definition say {A} `{Message A} (m : A) : received := Received (message_type_of A) (encode_message m).
Definition hello (d : member_domain_key) (boot : string) : hello_request :=
  HelloRequest d "site-a" (Incarnation 0 boot) "member-1" 0 supported_schema 0.
Definition greeting : list event := [Connect 0; Round 0 (at_ 2000) (say (hello domain "boot-1")) (at_ 2001)].

End Running.

(** A function's answer and what it leaves, without looking into either. *)
Lemma some_pair {A B} {a a' : A} {b b' : B} : Some (a, b) = Some (a', b') → a = a' ∧ b = b'.
Proof. by intros [=]. Qed.

(** * The controller's calls of its registry *)

(** The calls the controller makes: it acquires its own lease, admits, retires and records. *)
Definition own_call (cfg : controller_config) (i : incarnation) (o : op) : Prop :=
  match o with
  | Acquire holder site _ inc _ _ ttl => holder = cc_id cfg ∧ site = cc_site cfg ∧ inc = i ∧ ttl = cc_lease_ttl_ms cfg
  | Authority.Admit _ _ _ | Authority.Retire _ _ _ | Authority.Record _ _ _ => True
  | _ => False
  end.

Definition drives (c c' : controller) : Prop :=
  ct_config c' = ct_config c ∧ ct_incarnation c' = ct_incarnation c
  ∧ ∃ ops, Forall (own_call (ct_config c) (ct_incarnation c)) ops ∧ ct_authority c' = Authority.run (ct_authority c) ops.

#[export] Instance drives_preorder : PreOrder drives.
Proof.
  split.
  - intros c. split_and!; [done..|]. by exists [].
  - intros c1 c2 c3 (Hc1 & Hi1 & ops1 & Ho1 & Ha1) (Hc2 & Hi2 & ops2 & Ho2 & Ha2).
    split_and!; [congruence..|]. exists (ops1 ++ ops2). split.
    + apply Forall_app. split; [done|]. by rewrite <- Hc1, <- Hi1.
    + by rewrite Ha2, Ha1, run_app.
Qed.

(** A step that leaves the registry alone. *)
Definition untouched (c c' : controller) : Prop :=
  ct_config c' = ct_config c ∧ ct_incarnation c' = ct_incarnation c ∧ ct_authority c' = ct_authority c.

#[export] Instance untouched_preorder : PreOrder untouched.
Proof. split; [done|]. intros c1 c2 c3 (H1 & H2 & H3) (H4 & H5 & H6). split_and!; congruence. Qed.

Lemma untouched_drives c c' : untouched c c' → drives c c'.
Proof. intros (H1 & H2 & H3). split_and!; [done..|]. by exists []. Qed.

Lemma call_drives c c' o :
  untouched (set_authority (apply_op (ct_authority c) o) c) c' → own_call (ct_config c) (ct_incarnation c) o → drives c c'.
Proof.
  intros (H1 & H2 & H3) Ho. destruct c. cbn in *. split_and!; [done..|].
  exists [o]. split; [by constructor|done].
Qed.

Lemma set_chain_untouched ch c : untouched c (set_chain ch c). Proof. by destruct c. Qed.
Lemma set_store_untouched st f c : untouched c (set_store st f c). Proof. by destruct c. Qed.
Lemma set_counters_untouched k c : untouched c (set_counters k c). Proof. by destruct c. Qed.
Lemma set_term_untouched g t e c : untouched c (set_term g t e c). Proof. by destruct c. Qed.
Lemma set_running_untouched r c : untouched c (set_running r c). Proof. by destruct c. Qed.
Lemma bump_untouched x c : untouched c (bump x c). Proof. by destruct c. Qed.
Lemma persist_untouched io e c : untouched c (persist io e c).2.
Proof.
  unfold persist. destruct (ct_store c) as [st|]; [|done].
  destruct (append_entry _ _ _ _) as [[s st'] f]. apply set_store_untouched.
Qed.

Lemma commit_untouched io gen s out c : untouched c (commit_snapshot io gen s out c).2.
Proof.
  unfold commit_snapshot. cbv zeta.
  assert (untouched c (bump SnapshotsPublished (set_generation gen c))) as H
    by (etrans; [apply set_term_untouched|apply bump_untouched]).
  destruct (ct_store _); [|exact H]. etrans; [exact H|].
  match goal with |- context [persist io ?e ?x] => pose proof (persist_untouched io e x) as Hp; destruct (persist io e x) end.
  exact Hp.
Qed.

Lemma offer_untouched io now gen t s c : untouched c (offer_snapshot io now gen t s c).2.
Proof.
  unfold offer_snapshot. destruct (recompute_digest _) as [ds snapshot].
  destruct (negb (is_ok ds)); [apply bump_untouched|]. destruct (Snapshot.publish _ _ _ _) as [out chain]. cbv zeta.
  destruct (_ && _); [etrans; [apply set_chain_untouched|apply bump_untouched]|].
  destruct (negb _); [etrans; [apply set_chain_untouched|apply commit_untouched]|apply set_chain_untouched].
Qed.

Lemma finish_recompose_drives io now input c r c' :
  finish_recompose io now input c = Some (r, c') → drives c c'.
Proof.
  unfold finish_recompose. cbv zeta. destruct (Compose.run input) as [s|code|]; [| |done].
  2: { intros [_ <-]%some_pair. apply untouched_drives. etrans; apply bump_untouched. }
  set (c1 := bump Compositions c). intros H.
  assert (ct_authority c1 = ct_authority c) as Ha by (subst c1; by destruct c).
  assert (∀ a, untouched (set_authority a c) (set_authority a c1)) as H1 by (intros a; subst c1; by destruct c).
  destruct (acquire_site_authority _ _ _ _ _ _ _ (ct_authority c1)) as [[acquired granted] authority] eqn:E.
  eapply (call_drives _ _ (Acquire (cc_id (ct_config c1)) (cc_site (ct_config c1)) (ct_epoch c1) (ct_incarnation c1)
    (in_generation input) now (cc_lease_ttl_ms (ct_config c1)))); [|by subst c1; destruct c].
  cbn [apply_op]. rewrite <- Ha, E. cbn [snd].
  destruct (negb (is_ok acquired)).
  - apply some_pair in H as [_ <-]. etrans; [apply H1|]. apply bump_untouched.
  - apply (inj Some) in H. apply (f_equal snd) in H. cbn [snd] in H. rewrite <- H.
    etrans; [apply H1|]. etrans; [apply set_term_untouched|]. apply offer_untouched.
Qed.

Lemma recompose_drives io now c r c' : recompose io now c = Some (r, c') → drives c c'.
Proof. apply finish_recompose_drives. Qed.

(** ** Every entry point *)

(** A step that keeps books only: records, counters, the store and the running flag. *)
Definition booked (c c' : controller) : Prop :=
  untouched c c' ∧ ct_chain c' = ct_chain c ∧ ct_epoch c' = ct_epoch c ∧ ct_site_generation c' = ct_site_generation c.
#[export] Instance booked_preorder : PreOrder booked.
Proof.
  split; [done|]. intros c1 c2 c3 (H1 & H2 & H3 & H4) (H5 & H6 & H7 & H8). split_and!; [by etrans|congruence..].
Qed.

Lemma set_store_booked st f c : booked c (set_store st f c). Proof. by destruct c. Qed.
Lemma set_registry_booked ps rs rv rc acc c : booked c (set_registry ps rs rv rc acc c). Proof. by destruct c. Qed.
Lemma set_running_booked r c : booked c (set_running r c). Proof. by destruct c. Qed.
Lemma bump_booked x c : booked c (bump x c). Proof. by destruct c. Qed.
Lemma persist_booked io e c : booked c (persist io e c).2.
Proof.
  unfold persist. destruct (ct_store c) as [st|]; [|done].
  destruct (append_entry _ _ _ _) as [[s st'] f]. apply set_store_booked.
Qed.

(** The calls of the registry that concern members. *)
Definition member_call (o : op) : Prop :=
  match o with Authority.Admit _ _ _ | Authority.Retire _ _ _ | Authority.Record _ _ _ => True | _ => False end.

(** Every entry point but [start] is a sequence of three kinds of actions. *)
Inductive action (c : controller) : controller → Prop :=
| Books c' : booked c c' → action c c'
| Calls o c' : member_call o → c' = set_authority (apply_op (ct_authority c) o) c → action c c'
| Recomposes io now r c' : recompose io now c = Some (r, c') → action c c'.
Definition acts : controller → controller → Prop := rtc action.

Lemma booked_acts c c' : booked c c' → acts c c'.
Proof. intros. by apply rtc_once, Books. Qed.
Lemma call_acts c c' o : booked (set_authority (apply_op (ct_authority c) o) c) c' → member_call o → acts c c'.
Proof. intros H Ho. eapply rtc_l; [by eapply Calls|]. by apply booked_acts. Qed.
Lemma recompose_acts io now c r c' : recompose io now c = Some (r, c') → acts c c'.
Proof. intros. by eapply rtc_once, Recomposes. Qed.

Lemma acts_drives c c' : acts c c' → drives c c'.
Proof.
  induction 1 as [|c c1 c' [c1' H|o c1' Ho ->|io now r c1' H] _ IH]; [reflexivity|etrans; [|exact IH]..].
  - by apply untouched_drives, H.
  - apply (call_drives _ _ o); [done|]. by destruct o.
  - by apply recompose_drives in H.
Qed.

Lemma after_publish_acts io now out c r c' : after_publish io now out c = Some (r, c') → acts c c'.
Proof.
  unfold after_publish. destruct (negb _); [by intros [_ <-]%some_pair|].
  destruct (recompose io now c) as [[result c1]|] eqn:E; [|done]. cbn [mbind option_bind].
  apply recompose_acts in E. cbv zeta.
  destruct (_ && _); [|destruct (negb _)]; by intros [_ <-]%some_pair.
Qed.

(** The check made before a publication is recorded is the registry's fence. *)
Lemma check_publication_ok inc d attempt c sealed :
  check_publication inc d attempt c = Ok sealed →
  seal d = (Status.OK, sealed) ∧ decl_site d = cc_site (ct_config c)
  ∧ is_ok (fence_publication (decl_domain sealed)
             (Offer (decl_observed_epoch d) inc (decl_generation sealed) (decl_digest sealed) attempt) (ct_authority c)) = true.
Proof.
  unfold check_publication. destruct (negb _ || _) eqn:E1; [done|].
  destruct (seal d) as [st sd] eqn:E2. destruct (is_ok st) eqn:E3; [|done]. cbn [negb].
  destruct (_ && _); [done|]. cbv zeta. destruct (is_ok (fence_publication _ _ _)) eqn:E4; [|done]. cbn [negb].
  intros [= <-]. apply orb_false_iff in E1 as [_ E1]. apply negb_false_iff, bool_decide_eq_true in E1.
  split_and!; [|done|done]. f_equal. unfold seal in E2. destruct (canonicalize d) as [st' d'].
  destruct (is_ok st') eqn:E5; by apply (f_equal fst) in E2; cbn [fst] in E2; congruence.
Qed.

Lemma publish_accepted io now later publisher inc d attempt c sealed :
  check_publication inc d attempt c = Ok sealed →
  Controller.publish io now later publisher inc d attempt c =
  let record := record_of publisher inc d sealed attempt now (next_acceptance c) (cc_retain_declarations (ct_config c)) in
  let o := Offer (decl_observed_epoch d) inc (decl_generation sealed) (decl_digest sealed) attempt in
  let c := accept_publication record o now c in
  let '(persisted, c) := persist io (EPublication record) c in
  let c := bump PublicationsAccepted c in
  after_publish io later
    (PublishResponse Status.ACCEPTED (cc_site (ct_config c)) (ct_epoch c) (ct_site_generation c)
       (pub_acceptance_sequence record) false (note_persisted "persist_publication" persisted no_factors)) c.
Proof.
  intros H. unfold Controller.publish. rewrite H. cbv zeta.
  match goal with |- context [persist io ?e ?x] =>
    pose proof (persist_booked io e x) as ((Hc & _) & _); destruct (persist io e x) as [persisted c1] end.
  unfold note_persisted. cbn [snd] in Hc.
  assert (cc_site (ct_config (bump PublicationsAccepted c1)) = pp_site (publish_reply c)) as ->; [|done].
  destruct c, c1. cbn in *. by rewrite Hc.
Qed.

Lemma accept_acts record o now c : acts c (accept_publication record o now c).
Proof. eapply (call_acts _ _ (Authority.Record (pub_domain record) o now)); [|done]. by destruct c. Qed.

Lemma publish_acts io now later publisher inc d attempt c r c' :
  Controller.publish io now later publisher inc d attempt c = Some (r, c') → acts c c'.
Proof.
  destruct (check_publication inc d attempt c) as [sealed|[code f]] eqn:Hck.
  - rewrite (publish_accepted _ _ _ _ _ _ _ _ _ Hck). cbv zeta.
    match goal with |- context [persist io ?e ?x] =>
      pose proof (persist_booked io e x) as Hp; destruct (persist io e x) as [persisted c1] end.
    intros H%after_publish_acts. etrans; [|etrans; [apply booked_acts, Hp|]]; [by apply accept_acts|].
    etrans; [apply booked_acts, bump_booked|done].
  - unfold Controller.publish. rewrite Hck. cbv zeta. intros [_ <-]%some_pair. apply booked_acts.
    destruct (is_replay code); [etrans|]; apply bump_booked.
Qed.

Lemma retire_call_acts d i now c c' :
  booked (set_authority (retire_member_incarnation d i now (ct_authority c)).2 c) c' → acts c c'.
Proof. intros H. by apply (call_acts _ _ (Authority.Retire d i now)). Qed.

Lemma retire_acts io now later request c r c' :
  Controller.retire io now later request c = Some (r, c') → acts c c'.
Proof.
  unfold Controller.retire. cbv zeta.
  destruct (negb (mdk_valid _)); [by intros [_ <-]%some_pair|]. destruct (negb _); [by intros [_ <-]%some_pair|].
  match goal with |- context [persist io (ERetirement _) ?x] =>
    assert (acts c x) as Hx; [|generalize dependent x; intros c1 Hx] end.
  { etrans; [apply booked_acts, set_registry_booked|]. eapply retire_call_acts. reflexivity. }
  match goal with |- context [persist io ?e c1] =>
    pose proof (persist_booked io e c1) as H1; destruct (persist io e c1) as [s1 c2] end.
  match goal with |- context [persist io ?e c2] =>
    pose proof (persist_booked io e c2) as H2; destruct (persist io e c2) as [s2 c3] end.
  assert (acts c (bump RetirementsAccepted c3)) as H3.
  { etrans; [exact Hx|]. apply booked_acts. etrans; [exact H1|]. etrans; [exact H2|apply bump_booked]. }
  destruct (negb _); [by intros [_ <-]%some_pair|].
  destruct (recompose _ _ _) as [[r' c4]|] eqn:E; [|done]. cbn [mbind option_bind]. intros [_ <-]%some_pair.
  etrans; [exact H3|]. by apply recompose_acts in E.
Qed.

Lemma revoke_acts io now d c r c' : revoke_member io now d c = Some (r, c') → acts c c'.
Proof.
  unfold revoke_member. destruct (negb _); [by intros [_ <-]%some_pair|]. cbv zeta.
  destruct (recompose _ _ _) as [[r' c4]|] eqn:E; [|done]. cbn [mbind option_bind]. intros [_ <-]%some_pair.
  etrans; [apply booked_acts, set_registry_booked|]. by apply recompose_acts in E.
Qed.

Lemma answer_acts r se c c1 h : answer r se c1 = Some h → acts c c1 → acts c h.2.
Proof. by intros [= <-]. Qed.

Lemma hello_acts t payload se c h : respond_hello t payload se c = Some h → acts c h.2.
Proof.
  unfold respond_hello, refuse_hello. cbv zeta. destruct (decode_message _) as [q|s]; [|by intros; eapply answer_acts].
  destruct (negb _); [intros H; eapply answer_acts; [exact H|apply booked_acts, bump_booked]|].
  destruct (_ <? _); [intros H; eapply answer_acts; [exact H|apply booked_acts, bump_booked]|].
  destruct (admit_member_incarnation _ _ _ _) as [[admitted assigned] authority] eqn:E.
  assert (acts c (set_authority authority c)) as Ha.
  { eapply (call_acts _ _ (Authority.Admit (hq_domain q) (hq_incarnation q) (mo_now t))); [|done].
    cbn [apply_op]. by rewrite E. }
  destruct (_ && _); intros H; (eapply answer_acts; [exact H|]); (etrans; [exact Ha|]); apply booked_acts;
    [apply bump_booked|]. etrans; [apply bump_booked|apply set_registry_booked].
Qed.

Lemma publish_frame_acts t payload se c h : respond_publish t payload se c = Some h → acts c h.2.
Proof.
  unfold respond_publish. destruct (decode_message _) as [q|s]; [|by intros; eapply answer_acts].
  destruct (negb _); [intros H; eapply answer_acts; [exact H|apply booked_acts, bump_booked]|].
  destruct (Controller.publish _ _ _ _ _ _ _ _) as [[r c1]|] eqn:E; [|done]. cbn [mbind option_bind].
  apply publish_acts in E. cbv zeta. destruct (negb _); intros H; by eapply answer_acts.
Qed.

Lemma retire_frame_acts t payload se c h : respond_retire t payload se c = Some h → acts c h.2.
Proof.
  unfold respond_retire. destruct (decode_message _) as [q|s]; [|by intros; eapply answer_acts].
  destruct (_ || _); [by intros; eapply answer_acts|].
  destruct (Controller.retire _ _ _ _ _) as [[r c1]|] eqn:E; [|done]. cbn [mbind option_bind].
  apply retire_acts in E. cbv zeta. destruct (negb _); intros H; by eapply answer_acts.
Qed.

Lemma fetch_acts t payload se c h : respond_fetch_site t payload se c = Some h → acts c h.2.
Proof.
  unfold respond_fetch_site. destruct (decode_message _) as [q|s]; [|by intros; eapply answer_acts].
  destruct (negb _); by intros; eapply answer_acts.
Qed.

Lemma heartbeat_acts t payload se c h : respond_heartbeat t payload se c = Some h → acts c h.2.
Proof.
  unfold respond_heartbeat. destruct (decode_message _) as [q|s]; [|by intros; eapply answer_acts]. cbv zeta.
  destruct (negb _); [|destruct (negb _)]; intros H; (eapply answer_acts; [exact H|]);
    apply booked_acts, bump_booked.
Qed.

Lemma ping_acts t payload se c h : respond_ping t payload se c = Some h → acts c h.2.
Proof. unfold respond_ping. destruct (decode_message _); by intros; eapply answer_acts. Qed.

Lemma handle_frame_acts t type payload se c h : handle_frame t type payload se c = Some h → acts c h.2.
Proof.
  unfold handle_frame. cbv zeta. intros H. etrans; [apply booked_acts, (bump_booked FramesReceived)|].
  destruct type; (by eapply hello_acts) || (by eapply publish_frame_acts) || (by eapply retire_frame_acts)
    || (by eapply fetch_acts) || (by eapply heartbeat_acts) || (by eapply ping_acts) || (by eapply answer_acts).
Qed.

Lemma serve_one_acts t e se c rs go se' c' : serve_one t e se c = Some (rs, go, se', c') → acts c c'.
Proof.
  unfold serve_one. destruct (negb _); [by intros [_ <-]%some_pair|]. destruct e as [type payload| |code].
  - destruct (handle_frame t type payload se c) as [[[[st r] se1] c1]|] eqn:E; [|done]. cbn [mbind option_bind].
    intros [_ <-]%some_pair. by apply handle_frame_acts in E.
  - by intros [_ <-]%some_pair.
  - intros [_ <-]%some_pair. destruct (bool_decide _); [reflexivity|]. apply booked_acts, bump_booked.
Qed.

Lemma end_session_acts t se c c' : end_session t se c = Some c' → acts c c'.
Proof.
  unfold end_session. destruct (negb _); [by intros [= <-]|]. cbv zeta.
  match goal with |- context [persist (mo_io t) ?e ?x] =>
    pose proof (persist_booked (mo_io t) e x) as Hp; destruct (persist (mo_io t) e x) as [persisted c1] end.
  set (c2 := if is_ok persisted then c1 else bump RecoveryRejections c1).
  assert (booked c1 c2) as H2 by (subst c2; destruct (is_ok _); [done|apply bump_booked]).
  destruct (recompose _ _ _) as [[r c3]|] eqn:E; [|done]. cbn [mbind option_bind fst snd]. intros H.
  apply recompose_acts in E. apply (inj Some) in H. subst c'.
  etrans; [eapply retire_call_acts, Hp|]. etrans; [apply booked_acts, H2|].
  etrans; [apply booked_acts, set_registry_booked|]. etrans; [exact E|].
  destruct (is_ok (pr_status r)); [reflexivity|]. apply booked_acts, bump_booked.
Qed.

Lemma recover_registry_untouched contents c : untouched c (recover_registry contents c).
Proof. unfold recover_registry. destruct (latest_snapshot contents); by destruct c. Qed.

Lemma recover_untouched env c :
  match recover env c with Ok c' => untouched c c' | Err (_, c') => untouched c c' end.
Proof.
  unfold recover. destruct (negb _); [done|]. cbv zeta. destruct (bool_decide _); [done|].
  destruct (Store.open _ _ _) as [[opened st] f].
  destruct (negb _); [etrans; [apply set_store_untouched|apply bump_untouched]|].
  set (c1 := bump Recoveries (set_store (Some st) f c)).
  assert (untouched c c1) as H1 by (etrans; [apply set_store_untouched|apply bump_untouched]).
  destruct (negb (recovers _)); [etrans; [exact H1|apply set_counters_untouched]|].
  destruct (latest_snapshot _) as [s|].
  2: { etrans; [exact H1|]. etrans; [apply recover_registry_untouched|apply set_counters_untouched]. }
  destruct (restore s _) as [restored chain]. destruct (negb (is_ok restored)).
  - etrans; [exact H1|]. etrans; [apply set_chain_untouched|]. etrans; [apply set_store_untouched|apply bump_untouched].
  - etrans; [exact H1|]. etrans; [apply set_chain_untouched|].
    etrans; [apply recover_registry_untouched|apply set_counters_untouched].
Qed.

Lemma start_drives env io bound now later c r c' : start env io bound now later c = Some (r, c') → drives c c'.
Proof.
  unfold start. destruct (ct_running c); [by intros [_ <-]%some_pair|].
  pose proof (recover_untouched env c) as H1. destruct (recover env c) as [c1|[s c1]].
  2: { intros [_ <-]%some_pair. by apply untouched_drives. }
  set (c2 := set_term _ _ _ c1). assert (untouched c1 c2) as H2 by apply set_term_untouched. cbv zeta.
  set (g := if is_set (ct_site_generation c2) then _ else _).
  destruct (acquire_site_authority _ _ _ _ _ _ _ _) as [[acquired granted] authority] eqn:E.
  set (c3 := set_token _ _). assert (drives c c3) as H3.
  { etrans; [by apply untouched_drives|]. etrans; [by apply untouched_drives|].
    eapply (call_drives _ _ (Acquire (cc_id (ct_config c2)) (cc_site (ct_config c2)) (ct_epoch c2) (ct_incarnation c2) g
      now (cc_lease_ttl_ms (ct_config c2)))); [|done].
    cbn [apply_op]. rewrite E. apply set_term_untouched. }
  destruct (negb (is_ok acquired)); [by intros [_ <-]%some_pair|].
  destruct (negb (is_ok bound)); [by intros [_ <-]%some_pair|].
  destruct (recompose _ _ _) as [[q c4]|] eqn:Er; [|done]. cbn [mbind option_bind fst snd]. intros H.
  apply some_pair in H as [_ <-]. apply recompose_drives in Er.
  etrans; [exact H3|]. etrans; [apply untouched_drives, set_running_untouched|]. etrans; [exact Er|].
  destruct (_ && _); [|reflexivity]. apply untouched_drives, bump_untouched.
Qed.

Lemma stop_booked flushed c : booked c (stop flushed c).2.
Proof.
  unfold stop. cbv zeta. destruct (ct_store _) as [st|]; [|apply set_running_booked].
  destruct (Store.close _ _) as [closed st']. etrans; [apply set_running_booked|].
  etrans; [apply set_store_booked|]. cbn [snd]. destruct (is_ok closed); [reflexivity|apply bump_booked].
Qed.

Definition restarts (e : event) : Prop := match e with HostStart _ _ _ _ _ => True | _ => False end.

Lemma step_acts n e n' : step n e = Some n' → ¬ restarts e → acts (nd_controller n) (nd_controller n').
Proof.
  destruct e; cbn [step restarts]; intros H Hr; revert H.
  - by intros [= <-].
  - destruct (nd_sessions n !! i) as [se|]; [|by intros [= <-]].
    destruct (serve_one _ _ _ _) as [[[[rs go] se'] c1]|] eqn:E; [|done]. cbn [mbind option_bind].
    apply serve_one_acts in E. destruct go; [by intros [= <-]|].
    destruct (end_session _ _ _) as [c2|] eqn:E2; [|done]. cbn [mbind option_bind]. intros [= <-].
    etrans; [exact E|]. by apply end_session_acts in E2.
  - destruct (Controller.publish _ _ _ _ _ _ _ _) as [[r c1]|] eqn:E; [|done]. intros [= <-].
    by apply publish_acts in E.
  - destruct (Controller.retire _ _ _ _ _) as [[r c1]|] eqn:E; [|done]. intros [= <-]. by apply retire_acts in E.
  - destruct (revoke_member _ _ _ _) as [[r c1]|] eqn:E; [|done]. intros [= <-]. by apply revoke_acts in E.
  - destruct (recompose _ _ _) as [[r c1]|] eqn:E; [|done]. intros [= <-]. by apply recompose_acts in E.
  - intros [= <-]. apply booked_acts, set_running_booked.
  - destruct (decide _); intros [= <-]; [|reflexivity]. apply booked_acts, stop_booked.
  - by destruct Hr.
Qed.

Lemma step_drives n e n' : step n e = Some n' → drives (nd_controller n) (nd_controller n').
Proof.
  intros H. destruct e as [| | | | | | | |env io bound now later]; try (apply acts_drives; by eapply step_acts; [exact H|intros []]).
  cbn [step] in H. destruct (decide _); [|by injection H as <-].
  destruct (start _ _ _ _ _ _) as [[r c1]|] eqn:E; [|done]. injection H as <-. by apply start_drives in E.
Qed.

(** A property kept by every step holds after every execution; a crash stops it. *)
Lemma execute_none events : foldl (λ n e, n ≫= λ n, step n e) None events = None.
Proof. by induction events. Qed.

Lemma execute_cons n e events : execute n (e :: events) = (n' ← step n e; execute n' events).
Proof.
  unfold execute. cbn [foldl mbind option_bind]. destruct (step n e); [done|]. apply execute_none.
Qed.

Lemma execute_drives events : ∀ n n', execute n events = Some n' → drives (nd_controller n) (nd_controller n').
Proof.
  induction events as [|e events IH]; intros n n'; [by intros [= <-]|].
  rewrite execute_cons. destruct (step n e) as [n1|] eqn:E; [|done]. cbn [mbind option_bind]. intros H%IH.
  etrans; [by eapply step_drives|done].
Qed.

(** * Publications *)


Lemma check_publication_err inc d attempt c code f : check_publication inc d attempt c = Err (code, f) → is_ok code = false.
Proof.
  unfold check_publication. destruct (negb _ || _); [by intros [= <- <-]|].
  destruct (seal d) as [st sealed]. destruct (is_ok st) eqn:E1; cbn [negb]; [|intros [= <- _]; done].
  destruct (_ && _); [by intros [= <- _]|]. cbv zeta.
  destruct (is_ok (fence_publication _ _ _)) eqn:E; cbn [negb]; [done|]. by intros [= <- _].
Qed.

(** A declaration that a check accepts once its offer is barred does not exist. *)
Lemma barred_refused inc d attempt c sealed :
  seal d = (Status.OK, sealed) →
  barred (decl_domain sealed) (Offer (decl_observed_epoch d) inc (decl_generation sealed) (decl_digest sealed) attempt)
    (ct_authority c) →
  ∃ code f, check_publication inc d attempt c = Err (code, f).
Proof.
  intros Hs Hb. destruct (check_publication inc d attempt c) as [sealed'|[code f]] eqn:E; [|by eauto].
  apply check_publication_ok in E as (Hs' & _ & Hok). rewrite Hs in Hs'. injection Hs' as <-.
  apply fence_barred in Hb. congruence.
Qed.

(** * Sessions *)

(** Only a hello changes a session, to one whose domain and boot nonce the registry checked. *)
Lemma answer_session r se c h : answer r se c = Some h → h.1.2 = se.
Proof. by intros [= <-]. Qed.

(** Opens a handler down to its answers. *)
Ltac answers :=
  repeat first
    [ let H := fresh in intros H; by eapply answer_session
    | destruct (decode_message _) | destruct (negb _) | destruct (_ || _)
    | match goal with |- (?m ≫= _) = _ → _ => destruct m as [[??]|]; cbn [mbind option_bind]; [|done] end ].

Lemma hello_session t payload se c h :
  respond_hello t payload se c = Some h →
  h.1.2 = se ∨ se_hello_done h.1.2 = true ∧ mdk_valid (se_domain h.1.2) = true
               ∧ boot_valid (inc_boot (se_incarnation h.1.2)) = true.
Proof.
  unfold respond_hello, refuse_hello. cbv zeta. destruct (decode_message _) as [q|s]; [|intros H; left; by eapply answer_session].
  destruct (negb _); [intros H; left; by eapply answer_session|].
  destruct (_ <? _); [intros H; left; by eapply answer_session|].
  destruct (admit_member_incarnation _ _ _ _) as [[admitted assigned] authority] eqn:E.
  destruct (_ && _) eqn:Hb; intros H; [left; by eapply answer_session|].
  apply answer_session in H. right. rewrite H. cbn [se_hello_done se_domain se_incarnation inc_boot].
  unfold admit_member_incarnation in E. destruct (mdk_valid (hq_domain q)), (boot_valid _); cbn [negb orb] in E;
    try done; by injection E as <- <- <-.
Qed.

Lemma handle_frame_session t type payload se c h :
  handle_frame t type payload se c = Some h → type ≠ MessageType.HELLO_REQUEST → h.1.2 = se.
Proof.
  intros H Ht. destruct type; try done; cbn [handle_frame] in H; revert H;
    unfold respond_ping, respond_publish, respond_retire, respond_fetch_site, respond_heartbeat; cbv zeta; answers.
Qed.

Lemma serve_one_session t e se c rs go se' c' :
  serve_one t e se c = Some (rs, go, se', c') → (∀ payload, e ≠ Received MessageType.HELLO_REQUEST payload) → se' = se.
Proof.
  unfold serve_one. destruct (negb _); [by intros [= <- <- <- <-]|]. destruct e as [type payload| |code].
  - destruct (handle_frame t type payload se c) as [[[[st r] se1] c1]|] eqn:E; [|done]. cbn [mbind option_bind].
    intros [= <- <- <- <-] Hne. apply (handle_frame_session _ _ _ _ _ _ E). intros ->. by apply (Hne payload).
  - by intros [= <- <- <- <-].
  - by intros [= <- <- <- _].
Qed.

Definition greeted_ok (se : session) : Prop :=
  se_hello_done se = true → mdk_valid (se_domain se) = true ∧ boot_valid (inc_boot (se_incarnation se)) = true.

Lemma serve_one_greeted t e se c rs go se' c' :
  serve_one t e se c = Some (rs, go, se', c') → greeted_ok se → greeted_ok se'.
Proof.
  intros H Hse. destruct e as [[] payload| |code];
    try (replace se' with se; [done|]; symmetry; by eapply serve_one_session).
  unfold serve_one in H. destruct (negb _); [by injection H as <- <- <- <-|].
  destruct (handle_frame t _ payload se c) as [[[[st r] se1] c1]|] eqn:E; [|done]. cbn [mbind option_bind] in H.
  injection H as _ _ <- _. apply hello_session in E as [E | (E1 & E2 & E3)]; cbn [fst snd] in *; [by subst|by intros _].
Qed.

Definition sessions_ok (n : node) : Prop := map_Forall (λ _, greeted_ok) (nd_sessions n).

Lemma step_sessions n e n' : step n e = Some n' → sessions_ok n → sessions_ok n'.
Proof.
  intros Hst Hn. unfold sessions_ok. destruct e; cbn [step] in Hst.
  - injection Hst as <-. cbn [nd_sessions]. by apply map_Forall_insert_2.
  - destruct (nd_sessions n !! i) as [se|] eqn:Hi; [|by injection Hst as <-].
    destruct (serve_one _ _ _ _) as [[[[rs go] se'] c1]|] eqn:E; [|done]. cbn [mbind option_bind] in Hst.
    apply serve_one_greeted in E; [|by eapply (Hn i)]. destruct go.
    + injection Hst as <-. by apply map_Forall_insert_2.
    + destruct (end_session _ _ _) as [c2|]; [|done]. injection Hst as <-. by apply map_Forall_delete.
  - destruct (Controller.publish _ _ _ _ _ _ _ _); [|done]. by injection Hst as <-.
  - destruct (Controller.retire _ _ _ _ _); [|done]. by injection Hst as <-.
  - destruct (revoke_member _ _ _ _); [|done]. by injection Hst as <-.
  - destruct (recompose _ _ _); [|done]. by injection Hst as <-.
  - by injection Hst as <-.
  - destruct (decide _); by injection Hst as <-.
  - destruct (decide _); [|by injection Hst as <-]. destruct (start _ _ _ _ _ _); [|done]. by injection Hst as <-.
Qed.

Lemma execute_invariant (P : node → Prop) events :
  (∀ n e n', step n e = Some n' → P n → P n') → ∀ n n', execute n events = Some n' → P n → P n'.
Proof.
  intros Hstep. induction events as [|e events IH]; intros n n'; [by intros [= <-]|].
  rewrite execute_cons. destruct (step n e) as [n1|] eqn:E; [|done]. cbn [mbind option_bind]. eauto.
Qed.

(** What recomposition never changes: the recorded publications and who is absent or revoked. *)
Definition same_records (c c' : controller) : Prop :=
  ct_publications c' = ct_publications c ∧ ct_retirements c' = ct_retirements c ∧ ct_revoked c' = ct_revoked c
  ∧ ct_reconstructed c' = ct_reconstructed c ∧ ct_acceptance_sequence c' = ct_acceptance_sequence c.
#[export] Instance same_records_preorder : PreOrder same_records.
Proof.
  split; [done|]. intros c1 c2 c3 (? & ? & ? & ? & ?) (? & ? & ? & ? & ?). split_and!; congruence.
Qed.

Lemma persist_records io e c : same_records c (persist io e c).2.
Proof.
  unfold persist. destruct (ct_store c) as [st|]; [|done]. destruct (append_entry _ _ _ _) as [[s st'] f]. by destruct c.
Qed.

Lemma commit_records io gen s out c : same_records c (commit_snapshot io gen s out c).2.
Proof.
  unfold commit_snapshot. cbv zeta.
  assert (same_records c (bump SnapshotsPublished (set_generation gen c))) as H by (by destruct c).
  destruct (ct_store _); [|exact H]. etrans; [exact H|].
  match goal with |- context [persist io ?e ?x] => pose proof (persist_records io e x) as Hp; destruct (persist io e x) end.
  exact Hp.
Qed.

Lemma offer_records io now gen t s c : same_records c (offer_snapshot io now gen t s c).2.
Proof.
  unfold offer_snapshot. destruct (recompute_digest _) as [ds snapshot].
  destruct (negb (is_ok ds)); [by destruct c|]. destruct (Snapshot.publish _ _ _ _) as [out chain]. cbv zeta.
  destruct (_ && _); [by destruct c|].
  destruct (negb _); [etrans; [|apply commit_records]|]; by destruct c.
Qed.

Lemma recompose_records io now c r c' : recompose io now c = Some (r, c') → same_records c c'.
Proof.
  unfold recompose, finish_recompose. cbv zeta. destruct (Compose.run _) as [s|code|]; [| |done].
  2: { intros [_ <-]%some_pair. by destruct c. }
  destruct (acquire_site_authority _ _ _ _ _ _ _ _) as [[acquired granted] authority].
  destruct (negb (is_ok acquired)); [intros [_ <-]%some_pair; by destruct c|].
  intros H. apply (inj Some) in H. apply (f_equal snd) in H. cbn [snd] in H. rewrite <- H.
  etrans; [|apply offer_records]. by destruct c.
Qed.

Lemma remember_elem d l : d ∈ remember d l.
Proof. unfold remember. case_decide; set_solver. Qed.

(** What the end of a greeted session leaves: its incarnation dead, its domain awaiting a
    report. *)
Lemma end_session_spec t se c c' :
  end_session t se c = Some c' → se_hello_done se = true →
  mdk_valid (se_domain se) = true → incarnation_valid (se_incarnation se) = true →
  is_dead (se_domain se) (se_incarnation se) (ct_authority c') = true ∧ se_domain se ∈ ct_reconstructed c'.
Proof.
  unfold end_session. intros H Hh Hd Hi. rewrite Hh in H. cbn [negb] in H. cbv zeta in H.
  set (c0 := set_authority _ c) in H.
  assert (is_dead (se_domain se) (se_incarnation se) (ct_authority c0) = true) as Hdead.
  { apply (displaces_dead _ _ (ct_authority c)). left. exists (mo_now t). subst c0.
    assert ((retire_member_incarnation (se_domain se) (se_incarnation se) (mo_now t) (ct_authority c)).1 = Status.OK) as Hok.
    { unfold retire_member_incarnation. rewrite Hd, Hi. cbn [negb orb]. cbv zeta. destruct (domains _ !! _); [|done].
      by destruct (_ && _). }
    destruct c. cbn in *. by destruct (retire_member_incarnation _ _ _ _) as [st a]; cbn in *; subst. }
  pose proof (persist_untouched (mo_io t) (ETombstone (tombstone_of (se_domain se) (se_incarnation se))) c0) as Hp.
  destruct (persist _ _ c0) as [persisted c1]. cbn [snd] in Hp.
  set (c2 := if is_ok persisted then c1 else bump RecoveryRejections c1) in H.
  assert (untouched c1 c2) as H2 by (subst c2; destruct (is_ok _); [reflexivity|apply bump_untouched]).
  destruct (recompose _ _ _) as [[r c3]|] eqn:E; [|done]. cbn [mbind option_bind fst snd] in H. apply (inj Some) in H.
  assert (ct_authority c' = ct_authority c3 ∧ ct_reconstructed c' = ct_reconstructed c3) as [-> ->]
    by (subst c'; destruct (is_ok (pr_status r)), c3; done).
  split.
  - apply recompose_drives in E as (_ & _ & ops & _ & ->). apply dead_run.
    destruct Hp as (_ & _ & Hp), H2 as (_ & _ & H2).
    replace (ct_authority (set_registry _ _ _ _ _ c2)) with (ct_authority c2) by (by destruct c2). by rewrite H2, Hp.
  - apply recompose_records in E as (_ & _ & _ & -> & _).
    replace (ct_reconstructed (set_registry _ _ _ _ _ c2)) with (remember (se_domain se) (ct_reconstructed c2))
      by (by destruct c2). apply remember_elem.
Qed.



(** * Handlers that interleave *)

(** [publish] asks the fence and records in two critical sections, so another handler's
    publication can be recorded in between. *)
Lemma record_fields d o now r s :
  mdk_valid d = true → is_set (of_generation o) = true → digest_is_zero (of_digest o) = false → domains r !! d = Some s →
  (record_publication d o now r).2
  = set_domain d (DomainState (ds_live s) (ds_has_live s) (ds_next_sequence s) (of_epoch o)
                    (of_generation o) (of_digest o) (of_attempt o) true now) r.
Proof. intros Hd Hg Hz Hs. unfold record_publication. by rewrite Hd, Hg, Hz, Hs. Qed.

(** Two offers that both pass the fence, recorded one after the other. *)
Lemma recorded_twice d o1 o2 now1 now2 r :
  is_ok (fence_publication d o1 r) = true → is_ok (fence_publication d o2 r) = true →
  let r' := (record_publication d o1 now1 (record_publication d o2 now2 r).2).2 in
  tombstones r' = tombstones r
  ∧ ∃ s s', domains r !! d = Some s ∧ domains r' !! d = Some s' ∧ ds_live s' = ds_live s ∧ ds_has_live s' = ds_has_live s
      ∧ ds_observed_epoch s' = of_epoch o1 ∧ ds_generation s' = of_generation o1 ∧ ds_attempt s' = of_attempt o1.
Proof.
  intros H1 H2. pose proof (fence_ok d o1 r H1) as (_ & s & Hs & _).
  apply fence_ok_valid in H1 as (Hd & Hg1 & Hz1). apply fence_ok_valid in H2 as (_ & Hg2 & Hz2).
  cbv zeta. rewrite (record_fields d o2 now2 r s Hd Hg2 Hz2 Hs). erewrite record_fields; [|done..|].
  2: { simpl. by rewrite lookup_insert_eq. }
  split; [done|]. exists s. eexists. split; [done|]. split; [simpl; by rewrite lookup_insert_eq|]. done.
Qed.

(** A publication with a newer generation passes a fence that only knows an older one. *)
Lemma fence_newer d o1 o2 r r' s s' :
  is_ok (fence_publication d o2 r) = true → tombstones r' = tombstones r → domains r !! d = Some s →
  domains r' !! d = Some s' → ds_live s' = ds_live s → ds_has_live s' = ds_has_live s →
  ds_observed_epoch s' = of_epoch o1 → ds_generation s' = of_generation o1 → ds_attempt s' = of_attempt o1 →
  of_epoch o1 ≤ of_epoch o2 → of_generation o1 < of_generation o2 →
  pa_sequence (of_attempt o1) ≤ pa_sequence (of_attempt o2) →
  is_ok (fence_publication d o2 r') = true.
Proof.
  intros Hok Ht Hs Hs' Hl Hh He Hg Ha Hle Hlt Hseq. revert Hok. unfold fence_publication.
  rewrite (is_dead_same d (of_incarnation o2) r r' Ht), Hs, Hs', Hl, Hh, He.
  destruct (_ || _); [done|]. destruct (is_dead _ _ _); [done|]. destruct (negb (ds_has_live s)); [done|].
  destruct (negb (bool_decide _)); [done|]. destruct (_ && _); [done|]. intros _.
  rewrite (proj2 (Z.ltb_ge _ _) Hle), andb_false_r. destruct (ds_published s'); [|done].
  unfold fence_marks. rewrite Hg, Ha. rewrite (proj2 (Z.ltb_ge _ _)) by lia.
  rewrite (proj2 (Z.eqb_neq _ _)) by lia. cbn [andb].
  by rewrite (proj2 (Z.ltb_ge _ _) Hseq), andb_false_r.
Qed.

(** The second critical section of [publish]: what it records of a sealed declaration that
    passed the check, whenever that was. *)
Definition record_checked (publisher : string) (inc : incarnation) (d sealed : declaration) (attempt : publish_attempt)
    (now : Z) (c : controller) : controller :=
  accept_publication (record_of publisher inc d sealed attempt now (next_acceptance c) (cc_retain_declarations (ct_config c)))
    (Offer (decl_observed_epoch d) inc (decl_generation sealed) (decl_digest sealed) attempt) now c.

(** C19: the fence and the record are not one step: when two publications of one member pass
    the check before either is recorded, and the older generation is recorded last, the
    controller keeps the older declaration, its registry forgets the newer generation, and
    the newer publication, already accepted, passes the check again. *)
Theorem interleaved_publications_regress (c : controller) (inc : incarnation) (d1 d2 s1 s2 : declaration)
    (a1 a2 : publish_attempt) (publisher : string) (now1 now2 : Z) :
  check_publication inc d1 a1 c = Ok s1 → check_publication inc d2 a2 c = Ok s2 →
  decl_domain s1 = decl_domain s2 → decl_generation s1 < decl_generation s2 →
  decl_observed_epoch d1 ≤ decl_observed_epoch d2 → pa_sequence a1 ≤ pa_sequence a2 →
  ∀ after, after = record_checked publisher inc d1 s1 a1 now1 (record_checked publisher inc d2 s2 a2 now2 c) →
  (∃ r, om_find (decl_domain s2) (ct_publications after) = Some r ∧ pub_generation r = decl_generation s1)
  ∧ check_publication inc d2 a2 after = Ok s2.
Proof.
  intros H1 H2 Hdom Hgen Hep Hseq after ->. unfold record_checked.
  pose proof (check_publication_ok _ _ _ _ _ H1) as (_ & _ & Hf1).
  pose proof (check_publication_ok _ _ _ _ _ H2) as (_ & _ & Hf2). rewrite Hdom in Hf1.
  set (o1 := Offer (decl_observed_epoch d1) _ _ _ _) in *. set (o2 := Offer (decl_observed_epoch d2) _ _ _ _) in *.
  destruct (recorded_twice _ o1 o2 now1 now2 _ Hf1 Hf2) as (Ht & s & s' & Hs & Hs' & Hl & Hh & He & Hg & Ha).
  assert (is_ok (fence_publication (decl_domain s2) o2 (record_publication (decl_domain s2) o1 now1
    (record_publication (decl_domain s2) o2 now2 (ct_authority c)).2).2) = true) as Hf
    by (by eapply (fence_newer _ o1 o2)).
  split.
  - exists (record_of publisher inc d1 s1 a1 now1 (wrap 64 (wrap 64 (ct_acceptance_sequence c + 1) + 1)) (cc_retain_declarations (ct_config c))).
    split; [|done]. destruct c. cbn. rewrite Hdom. apply om_find_set_eq.
  - revert H2. unfold check_publication. destruct c. cbn. rewrite Hdom.
    destruct (negb _ || _); [done|]. destruct (seal d2) as [st sealed]. destruct (negb (is_ok st)); [done|].
    destruct (_ && _); [done|]. cbn in *.
    destruct (is_ok (fence_publication (decl_domain sealed) _ ct_authority)) eqn:E; [|done]. intros [= ->].
    fold o2. by rewrite Hf.
Qed.

Lemma interleaved_publications_regress_witness :
  ∃ s1 s2 after, check_publication Running.boot (Running.declared 1) Running.attempt Running.admitted = Ok s1
    ∧ check_publication Running.boot (Running.declared 2) (PublishAttempt 2 1) Running.admitted = Ok s2
    ∧ check_publication Running.boot (Running.declared 2) (PublishAttempt 2 1) after = Ok s2.
Proof.
  assert (match check_publication Running.boot (Running.declared 1) Running.attempt Running.admitted,
      check_publication Running.boot (Running.declared 2) (PublishAttempt 2 1) Running.admitted with
    | Ok s1, Ok s2 => bool_decide (decl_domain s1 = decl_domain s2 ∧ decl_generation s1 = 1 ∧ decl_generation s2 = 2)
    | _, _ => false end = true) as Hrun by (vm_compute; reflexivity).
  revert Hrun. generalize Running.admitted. intros c Hrun.
  destruct (check_publication _ (Running.declared 1) _ c) as [s1|] eqn:H1; [|discriminate Hrun].
  destruct (check_publication _ (Running.declared 2) _ c) as [s2|] eqn:H2; [|discriminate Hrun].
  apply bool_decide_eq_true in Hrun as (Hd & Hg1 & Hg2).
  pose proof (interleaved_publications_regress c Running.boot (Running.declared 1) (Running.declared 2) s1 s2
    Running.attempt (PublishAttempt 2 1) "member-1" 3001 3000 H1 H2 Hd ltac:(lia) ltac:(vm_compute; discriminate)
    ltac:(vm_compute; discriminate) _ eq_refl) as [_ H].
  exists s1, s2. eexists. split; [reflexivity|]. split; [reflexivity|exact H].
Defined.
