(* ===== verification/Publisher.v ===== *)
(** The member publisher (publisher.hpp, src/publisher/publisher.cpp): a client of the controller.

    Every operation is one request and one reply over the connection. What its caller gets is
    a [delivery]; what it puts on the socket is a [reply] of the transport; what the socket
    brings is a list of arrivals, and those an operation leaves unread stay on the connection
    for the next one. *)

From stdpp Require Import sorting sets gmap.
From S2P Require Import Prelude Ordering Enums Sha256 Identity Canonical Evidence Capacity Claims Codec Canonicalize Authority Forest Site SiteCodec Snapshot StoreFormat Store Protocol Samples Admit Attribute Domains Maintenance Ledger Verdicts Compose Encodable Controller Transport Execution.

(** * State *)

(** [PublisherConfig]; the host name is the resolver's business. *)
Record publisher_config := PublisherConfig {
  pc_port : Z;
  pc_site : string;
  pc_domain : member_domain_key;
  pc_publisher : string;
  pc_incarnation : incarnation;
  pc_schema : schema_version;
  pc_io_timeout_ms : Z;
  pc_connect_timeout_ms : Z;
}.

Record publisher_session := PublisherSession {
  ps_established : bool;
  ps_epoch : epoch;
  ps_controller : incarnation;
  ps_assigned_sequence : Z;
  ps_controller_generation : generation;
  ps_status : status;
  ps_factors : factors;
}.

(** [MemberPublisher::Impl]. The connection is what is still to arrive on it. *)
Record publisher := MemberPublisher {
  pb_config : publisher_config;
  pb_connection : option (list arrival);
  pb_session : publisher_session;
  pb_incarnation : incarnation;
  pb_next_attempt_sequence : Z;
  pb_attempt : Z;
}.

Definition set_connection (x : option (list arrival)) (p : publisher) : publisher :=
  MemberPublisher (pb_config p) x (pb_session p) (pb_incarnation p) (pb_next_attempt_sequence p) (pb_attempt p).
Definition set_session (s : publisher_session) (p : publisher) : publisher :=
  MemberPublisher (pb_config p) (pb_connection p) s (pb_incarnation p) (pb_next_attempt_sequence p) (pb_attempt p).
Definition set_incarnation (i : incarnation) (p : publisher) : publisher :=
  MemberPublisher (pb_config p) (pb_connection p) (pb_session p) i (pb_next_attempt_sequence p) (pb_attempt p).
Definition set_attempts (sequence attempt : Z) (p : publisher) : publisher :=
  MemberPublisher (pb_config p) (pb_connection p) (pb_session p) (pb_incarnation p) sequence attempt.

Definition connected (p : publisher) : bool := bool_decide (is_Some (pb_connection p)).

Definition new_session : publisher_session :=
  PublisherSession false 0 (Incarnation 0 "") 0 0 Status.UNKNOWN no_factors.

Definition create (cfg : publisher_config) : result status publisher :=
  if pc_port cfg =? 0 then Err Status.INVALID
  else if negb (is_valid_identifier (pc_site cfg)) || negb (mdk_valid (pc_domain cfg))
          || bool_decide (pc_publisher cfg = ""%string) then Err Status.INVALID
  else if negb (boot_valid (inc_boot (pc_incarnation cfg))) then Err Status.INVALID
  else if (pc_io_timeout_ms cfg <=? 0) || (pc_connect_timeout_ms cfg <=? 0) then Err Status.INVALID
  else Ok (MemberPublisher cfg None new_session (pc_incarnation cfg) 1 0).

(** * One request and its reply *)

(** What the network does during one operation: the outcome of the write, and what arrives
    from the moment the request is on its way. *)
Record wire := Wire {
  wr_sent : status;
  wr_arrivals : list arrival;
}.

(** What [Impl::exchange] makes of the frame it reads. *)
Definition accept_reply (expected_response response_type : message_type) (payload : bytes) : result status bytes :=
  if bool_decide (response_type = MessageType.ERROR_RESPONSE) then
    match decode_message (A:=error_response) payload with
    | Err s => Err s
    | Ok e => Err (if is_ok (er_status e) then Status.REFUSED else er_status e)
    end
  else if negb (bool_decide (response_type = expected_response)) then Err Status.MALFORMED
  else Ok payload.

(** [Impl::exchange]: the payload of the reply or the status that replaced it, and the frame
    written. *)
Definition exchange (w : wire) (request_type : message_type) (request_payload : bytes)
    (expected_response : message_type) (p : publisher) : result status bytes * reply * publisher :=
  match pb_connection p with
  | None =>
      let '(sent, _) := send_frame Status.STOPPED request_type request_payload in (Err sent, None, p)
  | Some pending =>
      let '(sent, frame) := send_frame (wr_sent w) request_type request_payload in
      let pending := pending ++ wr_arrivals w in
      if negb (is_ok sent) then (Err sent, frame, set_connection (Some pending) p)
      else
        let '(received, pending) :=
          receive (pc_io_timeout_ms (pb_config p)) (pc_io_timeout_ms (pb_config p)) pending in
        (match received with
         | Err s => Err s
         | Ok (response_type, payload) => accept_reply expected_response response_type payload
         end, frame, set_connection (Some pending) p)
  end.

(** How an operation leaves its output parameter: as it was; with only its status set; partly
    written by a failing decoder; or holding the reply. ([ping] stores its nonce only then.) *)
Inductive delivery (A : Type) : Type :=
| Declined (s : status)
| NoReply (s : status)
| Garbled (s : status)
| Replied (m : A).
Global Arguments Declined {A} s.
Global Arguments NoReply {A} s.
Global Arguments Garbled {A} s.
Global Arguments Replied {A} m.

(** The status the operation returns. *)
Definition returned {A} (status_of : A → status) (o : delivery A) : status :=
  match o with Declined s | NoReply s | Garbled s => s | Replied m => status_of m end.

(** The encoder, [exchange] and the decoder, as every operation strings them together. *)
Definition call {A B} `{Message A, Message B} (w : wire) (request : A) (expected_response : message_type)
    (p : publisher) : delivery B * reply * publisher :=
  let '(answer, frame, p) := exchange w (message_type_of A) (encode_message request) expected_response p in
  (match answer with
   | Err s => NoReply s
   | Ok payload => match decode_message (A:=B) payload with Err s => Garbled s | Ok m => Replied m end
   end, frame, p).

(** * The hello *)

Definition hello_of (p : publisher) : hello_request :=
  HelloRequest (pc_domain (pb_config p)) (pc_site (pb_config p)) (pb_incarnation p) (pc_publisher (pb_config p))
    (ps_epoch (pb_session p)) (pc_schema (pb_config p)) 0.

Definition with_session_status (s : status) (e : publisher_session) : publisher_session :=
  PublisherSession (ps_established e) (ps_epoch e) (ps_controller e) (ps_assigned_sequence e)
    (ps_controller_generation e) s (ps_factors e).

(** What the reply to a hello makes of the session. *)
Definition session_of (established : bool) (hello : hello_response) : publisher_session :=
  PublisherSession established (hr_epoch hello) (hr_controller hello) (hr_assigned_sequence hello)
    (hr_current_generation hello) (hr_status hello) (hr_factors hello).

(** [handshake(out)], [out] being any session record. *)
Definition handshake_into (w : wire) (out : publisher_session) (p : publisher)
    : status * publisher_session * reply * publisher :=
  if negb (connected p) then (Status.NOT_STARTED, out, None, p)
  else
    let '(answer, frame, p) := call w (hello_of p) MessageType.HELLO_RESPONSE p in
    match answer with
    | Replied hello =>
        if negb (is_ok (hr_status hello)) then (hr_status hello, session_of false hello, frame, p)
        else
          let p := if negb (hr_assigned_sequence hello =? 0)
                   then set_incarnation (Incarnation (hr_assigned_sequence hello) (inc_boot (pb_incarnation p))) p else p in
          let established := incarnation_valid (pb_incarnation p) in
          (if established then Status.OK else Status.INVALID, session_of established hello, frame, p)
    | Declined s | NoReply s | Garbled s => (s, with_session_status s out, frame, p)
    end.

(** [handshake(impl_->session)], as [connect] calls it. *)
Definition handshake (w : wire) (p : publisher) : status * reply * publisher :=
  let '(s, e, frame, p) := handshake_into w (pb_session p) p in (s, frame, set_session e p).

(** [opened] is the outcome of [connect_with_retry]. *)
Definition connect (opened : status) (w : wire) (p : publisher) : status * reply * publisher :=
  if connected p then (Status.ALREADY_EXISTS, None, p)
  else
    let p := if negb (ps_established (pb_session p)) then set_incarnation (pc_incarnation (pb_config p)) p else p in
    if negb (is_ok opened) then (opened, None, p)
    else handshake w (set_connection (Some []) p).

(** * Requests of an established session *)

(** The attempt as published: a number the caller left at zero is drawn from the publisher. *)
Definition number_attempt (attempt : publish_attempt) (p : publisher) : publish_attempt * publisher :=
  let '(sequence, next) :=
    if pa_sequence attempt =? 0
    then (pb_next_attempt_sequence p, wrap 64 (pb_next_attempt_sequence p + 1))
    else (pa_sequence attempt, pb_next_attempt_sequence p) in
  let '(number, last) :=
    if pa_attempt attempt =? 0 then (wrap 32 (pb_attempt p + 1), wrap 32 (pb_attempt p + 1))
    else (pa_attempt attempt, pb_attempt p) in
  (PublishAttempt sequence number, set_attempts next last p).

Definition publish (w : wire) (d : declaration) (attempt : publish_attempt) (p : publisher)
    : delivery publish_response * reply * publisher :=
  if negb (ps_established (pb_session p)) then (Declined Status.NOT_STARTED, None, p)
  else
    let '(sealed_status, sealed) := seal d in
    if negb (is_ok sealed_status) then (Declined sealed_status, None, p)
    else
      let '(effective, p) := number_attempt attempt p in
      call w (PublishRequest sealed effective) MessageType.PUBLISH_RESPONSE p.

Definition retire (w : wire) (request : retire_request) (p : publisher) : delivery retire_response * reply * publisher :=
  if negb (ps_established (pb_session p)) then (Declined Status.NOT_STARTED, None, p)
  else
    call w (RetireRequest (rq_domain request) (rq_generation request) (pb_incarnation p) (rq_reason request))
      MessageType.RETIRE_RESPONSE p.

Definition heartbeat_of (p : publisher) : heartbeat_request :=
  HeartbeatRequest (pc_domain (pb_config p)) (pc_site (pb_config p)) (pb_incarnation p) (ps_epoch (pb_session p)) 0.
Definition with_epoch (e : epoch) (s : publisher_session) : publisher_session :=
  PublisherSession (ps_established s) e (ps_controller s) (ps_assigned_sequence s) (ps_controller_generation s)
    (ps_status s) (ps_factors s).

Definition heartbeat (w : wire) (p : publisher) : delivery heartbeat_response * reply * publisher :=
  if negb (ps_established (pb_session p)) then (Declined Status.NOT_STARTED, None, p)
  else
    let '(answer, frame, p) := call w (heartbeat_of p) MessageType.HEARTBEAT_RESPONSE p in
    match answer with
    | Replied out => (answer, frame, if is_ok (bp_status out) then set_session (with_epoch (bp_epoch out) (pb_session p)) p else p)
    | _ => (answer, frame, p)
    end.

(** Neither asks for a session. *)
Definition fetch_site (w : wire) (sequence : Z) (p : publisher) : delivery fetch_site_response * reply * publisher :=
  call w (FetchSiteRequest (pc_site (pb_config p)) sequence true) MessageType.FETCH_SITE_RESPONSE p.
Definition ping (w : wire) (nonce : Z) (p : publisher) : delivery ping_message * reply * publisher :=
  call w (PingMessage nonce) MessageType.PONG p.

Definition disestablish (e : publisher_session) : publisher_session :=
  PublisherSession false (ps_epoch e) (ps_controller e) (ps_assigned_sequence e) (ps_controller_generation e)
    (ps_status e) (ps_factors e).
Definition close (p : publisher) : status * publisher :=
  (Status.OK, set_session (disestablish (pb_session p)) (set_connection None p)).

(** * A reply on the connection *)

(** The peer's next frame is this one, with no pause as long as the timeout before or in it. *)
Definition replies_with (io : Z) (pending : list arrival) (type : message_type) (payload rest : bytes) : Prop :=
  prompt io pending ∧ ∃ frame, encode_frame type payload 0 = Ok frame ∧ bytes_of pending = frame ++ rest.

Lemma send_frame_fits sent ty payload :
  known_message ty = true → zlen payload ≤ kMaxFrameBytes → send_frame sent ty payload = (sent, Some (ty, payload)).
Proof.
  intros Hk Hs. unfold send_frame, encode_frame. by rewrite Hk, (proj2 (Z.ltb_ge _ _)).
Qed.

Lemma exchange_replied w ty payload expected p pending rty rp rest :
  pb_connection p = Some pending → known_message ty = true → zlen payload ≤ kMaxFrameBytes → wr_sent w = Status.OK →
  replies_with (pc_io_timeout_ms (pb_config p)) (pending ++ wr_arrivals w) rty rp rest →
  ∃ a', exchange w ty payload expected p = (accept_reply expected rty rp, Some (ty, payload), set_connection (Some a') p)
    ∧ bytes_of a' = rest.
Proof.
  intros Hc Hk Hs Hw (Hp & frame & Hf & Hb). unfold exchange. rewrite Hc, send_frame_fits, Hw by done.
  change (negb (is_ok Status.OK)) with false. cbv iota.
  destruct (receive_prompt _ _ _ Status.STOPPED _ rty rp rest Hp (Z.le_refl _) (Z.le_refl _)) as (a' & Hr & Hb' & _).
  { rewrite Hb. by apply (receive_encoded _ _ _ 0). }
  exists a'. by rewrite Hr.
Qed.

(** A reply of the expected type arrives as the message it was. *)
Lemma call_replied {A B} `{Message A, Message B} w (m : A) p pending (r : B) rest :
  pb_connection p = Some pending → known_message (message_type_of A) = true → zlen (encode_message m) ≤ kMaxFrameBytes →
  wr_sent w = Status.OK → message_type_of B ≠ MessageType.ERROR_RESPONSE → message_ok r →
  replies_with (pc_io_timeout_ms (pb_config p)) (pending ++ wr_arrivals w) (message_type_of B) (encode_message r) rest →
  ∃ a', call w m (message_type_of B) p
        = (Replied (on_wire r), Some (message_type_of A, encode_message m), set_connection (Some a') p)
    ∧ bytes_of a' = rest.
Proof.
  intros Hc Hk Hs Hw Hne Hr Hrep.
  destruct (exchange_replied w _ (encode_message m) (message_type_of B) p _ _ _ _ Hc Hk Hs Hw Hrep) as (a' & He & Hb).
  exists a'. split; [|done]. unfold call. rewrite He. unfold accept_reply. rewrite bool_decide_false by done.
  rewrite bool_decide_true by done. cbn [negb]. by rewrite (proj1 (decode_encode_message r Hr)).
Qed.

Lemma error_ok code detail : text_ok detail → message_ok (ErrorResponse code detail no_factors).
Proof. intros Hd. split; [done|]. split; [by vm_compute|by constructor]. Qed.

(** An error frame arrives as its status. *)
Lemma call_refused {A B} `{Message A, Message B} w (m : A) p pending expected code detail rest :
  pb_connection p = Some pending → known_message (message_type_of A) = true → zlen (encode_message m) ≤ kMaxFrameBytes →
  wr_sent w = Status.OK → is_ok code = false → text_ok detail →
  replies_with (pc_io_timeout_ms (pb_config p)) (pending ++ wr_arrivals w) MessageType.ERROR_RESPONSE
    (encode_message (ErrorResponse code detail no_factors)) rest →
  ∃ a', call (B:=B) w m expected p
        = (NoReply code, Some (message_type_of A, encode_message m), set_connection (Some a') p)
    ∧ bytes_of a' = rest.
Proof.
  intros Hc Hk Hs Hw Hcode Hd Hrep.
  destruct (exchange_replied w _ (encode_message m) expected p _ _ _ _ Hc Hk Hs Hw Hrep) as (a' & He & Hb).
  exists a'. split; [|done]. unfold call. rewrite He. unfold accept_reply. rewrite bool_decide_true by done.
  rewrite (proj1 (decode_encode_message _ (error_ok code detail Hd))).
  cbn [on_wire error_response_on_wire er_status]. by rewrite Hcode.
Qed.

(** * Publishing, end to end *)

(** The request a publisher makes of a declaration that seals. *)
Definition publication_of (d : declaration) (attempt : publish_attempt) (p : publisher) : publish_request :=
  PublishRequest (seal d).2 (number_attempt attempt p).1.

(** The frame the controller answers a publication with. *)
Definition verdict_frame (r : publish_response) : message_type * bytes :=
  if is_ok (pp_status r) then (MessageType.PUBLISH_RESPONSE, encode_message r)
  else (MessageType.ERROR_RESPONSE, encode_message (ErrorResponse (pp_status r) "publish" no_factors)).

Lemma known_enough ty : known_message ty = true → ∀ payload, zlen payload ≤ kMaxFrameBytes →
  ∃ frame, encode_frame ty payload 0 = Ok frame.
Proof. intros Hk payload Hs. unfold encode_frame. rewrite Hk, (proj2 (Z.ltb_ge _ _)) by done. eauto. Qed.

Lemma publish_calls w d attempt p :
  ps_established (pb_session p) = true → (seal d).1 = Status.OK →
  publish w d attempt p
  = call w (publication_of d attempt p) MessageType.PUBLISH_RESPONSE (number_attempt attempt p).2.
Proof.
  intros He Hs. unfold publish, publication_of. rewrite He. destruct (seal d) as [st sealed]. cbn [fst snd] in *. subst st.
  by destruct (number_attempt attempt p).
Qed.

(** The attempt has a fixed size. *)
Definition publication_size (d : declaration) : Z := zlen (write_declaration_content (seal d).2) + 12.
Lemma publication_of_size d attempt p : zlen (encode_message (publication_of d attempt p)) = publication_size d.
Proof.
  unfold encode_message, publication_size, publication_of. cbn [write_message publish_request_message].
  unfold write_publish_request. cbn [pq_declaration pq_attempt]. rewrite !zlen_app. reflexivity.
Qed.

Lemma number_attempt_keeps attempt p :
  pb_connection (number_attempt attempt p).2 = pb_connection p ∧ pb_config (number_attempt attempt p).2 = pb_config p
  ∧ pb_session (number_attempt attempt p).2 = pb_session p.
Proof. unfold number_attempt. destruct (_ =? _), (_ =? _); done. Qed.

(** C11: publishing works end to end: what an established publisher sends for a declaration
    that seals is handled by the controller as a publication of exactly that sealed
    declaration, as the format keeps it, under the session's publisher and incarnation; the
    controller answers with one frame; and when that frame is what arrives, in time and cut in
    any way, [publish] returns the controller's verdict, and of an accepted publication the
    whole response. *)
Theorem publication_end_to_end (p : publisher) (pending : list arrival) (d : declaration) (attempt : publish_attempt)
    (t : moment) (se : session) (c c' : controller) (r : publish_response) :
  let request := publication_of d attempt p in
  ps_established (pb_session p) = true → pb_connection p = Some pending → (seal d).1 = Status.OK →
  message_ok request → publication_size d ≤ kMaxFrameBytes →
  se_hello_done se = true → mo_sent t = Status.OK →
  Controller.publish (mo_io t) (mo_now t) (mo_later t) (se_publisher se) (se_incarnation se)
    (decl_on_wire (seal d).2) (pq_attempt request) (bump FramesReceived c) = Some (r, c') →
  message_ok r → zlen (encode_message r) ≤ kMaxFrameBytes →
  let '(type, payload) := verdict_frame r in
  handle_frame t MessageType.PUBLISH_REQUEST (encode_message request) se c = Some (Status.OK, Some (type, payload), se, c')
  ∧ ∀ w rest, wr_sent w = Status.OK →
      replies_with (pc_io_timeout_ms (pb_config p)) (pending ++ wr_arrivals w) type payload rest →
      ∃ o p', publish w d attempt p = (o, Some (MessageType.PUBLISH_REQUEST, encode_message request), p')
        ∧ returned pp_status o = pp_status r ∧ (is_ok (pp_status r) = true → o = Replied (on_wire r)).
Proof.
  intros request He Hc Hs Hok Hfit Hhello Hsent Hpub Hr Hrfit.
  destruct (number_attempt_keeps attempt p) as (Hc' & Hcfg & _). rewrite <- Hc' in Hc.
  rewrite <- (publication_of_size d attempt p) in Hfit.
  assert (handle_frame t MessageType.PUBLISH_REQUEST (encode_message request) se c
    = Some (Status.OK, Some (verdict_frame r), se, c')) as Hhandle.
  { cbn [handle_frame]. unfold respond_publish. rewrite (proj1 (decode_encode_message request Hok)).
    cbn [on_wire publish_request_on_wire pq_declaration pq_attempt]. rewrite Hhello. cbn [negb].
    change (pq_declaration request) with (seal d).2. rewrite Hpub. cbn [mbind option_bind]. unfold verdict_frame.
    destruct (is_ok (pp_status r)) eqn:Hk; cbn [negb]; unfold send_error, send_message, answer;
      rewrite Hsent, send_frame_fits; first [reflexivity|done|by vm_compute]. }
  unfold verdict_frame in *. destruct (is_ok (pp_status r)) eqn:Hk; (split; [exact Hhandle|]); intros w rest Hw Hrep;
    rewrite <- Hcfg in Hrep; rewrite (publish_calls w d attempt p He Hs).
  - destruct (call_replied w request _ pending r rest Hc ltac:(done) Hfit Hw ltac:(done) Hr Hrep) as (a' & Hcall & _).
    eexists _, _. split; [exact Hcall|]. done.
  - destruct (call_refused (B:=publish_response) w request _ pending MessageType.PUBLISH_RESPONSE (pp_status r) "publish" rest
      Hc ltac:(done) Hfit Hw Hk ltac:(by vm_compute) Hrep) as (a' & Hcall & _).
    eexists _, _. split; [exact Hcall|]. done.
Qed.

(** * The hello, end to end *)

Lemma answer_inv {A} `{Message A} sent (m : A) se c s ty payload se' c' :
  answer (send_message sent m) se c = Some (s, Some (ty, payload), se', c') →
  ty = message_type_of A ∧ payload = encode_message m ∧ zlen (encode_message m) ≤ kMaxFrameBytes ∧ se' = se ∧ c' = c.
Proof.
  unfold answer, send_message, send_frame, encode_frame. destruct (known_message _); [|done].
  destruct (Z.ltb_spec kMaxFrameBytes (zlen (encode_message m))); [done|]. cbn [negb fst snd]. by intros [= _ <- <- <- <-].
Qed.

(** What the controller's answer [h] to the hello [q] says of the session it leaves. *)
Definition hello_answered (q : hello_request) (se : session) (h : hello_response) (se' : session) (c' : controller) : Prop :=
  hr_epoch h = ct_epoch c' ∧ hr_controller h = ct_incarnation c'
  ∧ ((se' = se ∧ is_ok (hr_status h) = false)
     ∨ (hr_status h = Status.OK ∧ se_hello_done se' = true ∧ se_domain se' = hq_domain q
        ∧ se_incarnation se' = Incarnation (hr_assigned_sequence h) (inc_boot (hq_incarnation q))
        ∧ (hr_assigned_sequence h = 0 → inc_sequence (hq_incarnation q) = 0))).

(** An admission names the sequence it admits. *)
Lemma admit_assigned d i now r s assigned r' :
  admit_member_incarnation d i now r = (s, assigned, r') → is_ok s = true ∨ s = Status.ALREADY_EXISTS →
  ∃ n, assigned = Some n ∧ (n = 0 → inc_sequence i = 0)
    ∧ (n = inc_sequence i ∨ n = ds_next_sequence (default new_domain (domains r !! d))).
Proof.
  unfold admit_member_incarnation. intros H Hs. revert H.
  set (candidate := if inc_sequence i =? 0 then _ else i).
  assert ((inc_sequence candidate = 0 → inc_sequence i = 0)
    ∧ (inc_sequence candidate = inc_sequence i ∨ inc_sequence candidate = ds_next_sequence (default new_domain (domains r !! d)))) as Hz
    by (unfold candidate; destruct (Z.eqb_spec (inc_sequence i) 0); auto).
  repeat match goal with
  | |- context [if ?b then _ else _] => destruct b
  end; intros [= <- <- _]; first [by destruct Hs as [Hs|Hs]; vm_compute in Hs | by eexists].
Qed.

(** The fields of the controller that go into a hello's answer are within the format. *)
Definition names_fit (c : controller) : Prop :=
  id_ok (cc_site (ct_config c)) ∧ in_u 64 (ct_epoch c) ∧ incarnation_wf (ct_incarnation c)
  ∧ in_u 64 (ct_site_generation c).
Definition answers_fit (c : controller) : Prop :=
  names_fit c ∧ ∀ d x, domains (ct_authority c) !! d = Some x → in_u 64 (ds_next_sequence x).

Lemma hello_reply_ok c code n gen f : names_fit c → in_u 64 n → in_u 64 gen → factors_ok f →
  message_ok (hello_reply code n gen f c).
Proof. intros (H1 & H2 & H3 & _) ???. by split_and!. Qed.

Lemma respond_hello_answers t q se c s ty payload se' c' :
  message_ok q → respond_hello t (encode_message q) se c = Some (s, Some (ty, payload), se', c') → answers_fit c →
  ∃ h, ty = MessageType.HELLO_RESPONSE ∧ payload = encode_message h ∧ message_ok h ∧ hello_answered q se h se' c'.
Proof.
  intros Hq Hrun Hfit. revert Hrun. unfold respond_hello. rewrite (proj1 (decode_encode_message q Hq)).
  replace (on_wire q) with q by by destruct q. destruct Hfit as [Hfit Hnext].
  destruct Hq as (_ & Hsite & Hinc & _ & Hobs & _).
  assert (∀ code f c0, names_fit c0 → is_ok code = false → factors_ok f →
    refuse_hello t code f se c0 = Some (s, Some (ty, payload), se', c') →
    ∃ h, ty = MessageType.HELLO_RESPONSE ∧ payload = encode_message h ∧ message_ok h ∧ hello_answered q se h se' c') as Hrefuse.
  { intros code f c0 Hc0 Hcode Hf (-> & -> & _ & -> & ->)%answer_inv. eexists. split_and!; [done..| |].
    - apply hello_reply_ok; [by destruct c0|done|done|done].
    - split_and!; [done..|]. by left. }
  destruct (negb _).
  { apply Hrefuse; [done|done|]. apply (pair_ok 192); [by apply id_length|cbn; lia|apply no_factors_ok]. }
  destruct (_ <? _).
  { apply Hrefuse; [done|done|]. apply (pair_ok 20); [by apply dec_length|cbn; lia|apply no_factors_ok]. }
  destruct (admit_member_incarnation _ _ _ _) as [[admitted assigned] authority] eqn:Ha.
  assert (names_fit (set_authority authority c)) as Hfit' by by destruct c.
  destruct (negb (is_ok admitted) && negb (bool_decide (admitted = Status.ALREADY_EXISTS))) eqn:Hno.
  - apply andb_true_iff in Hno as [Hno%negb_true_iff _]. apply Hrefuse; [done|done|]. by split; [|constructor].
  - destruct (admit_assigned _ _ _ _ _ _ _ Ha) as (n & -> & Hn & Heither).
    { apply andb_false_iff in Hno as [?%negb_false_iff|?%negb_false_iff%bool_decide_eq_true]; auto. }
    intros (-> & -> & _ & -> & ->)%answer_inv. eexists. split_and!; [done..| |].
    + apply hello_reply_ok; [by destruct c| |destruct c; apply Hfit|by split; [|constructor]].
      destruct Heither as [->| ->]; [apply Hinc|]. destruct (domains (ct_authority c) !! hq_domain q) eqn:E; [by eapply Hnext|done].
    + split_and!; [by destruct c|by destruct c|]. right. by split_and!.
Qed.

(** What an arriving reply to its hello makes of a publisher. *)
Lemma handshake_replied w p pending h rest :
  pb_connection p = Some pending → message_ok (hello_of p) → zlen (encode_message (hello_of p)) ≤ kMaxFrameBytes →
  wr_sent w = Status.OK → message_ok h →
  replies_with (pc_io_timeout_ms (pb_config p)) (pending ++ wr_arrivals w) MessageType.HELLO_RESPONSE (encode_message h) rest →
  ∃ s p', handshake w p = (s, Some (MessageType.HELLO_REQUEST, encode_message (hello_of p)), p')
    ∧ ps_epoch (pb_session p') = hr_epoch h ∧ ps_controller (pb_session p') = hr_controller h
    ∧ (if is_ok (hr_status h) then
         pb_incarnation p' = (if negb (hr_assigned_sequence h =? 0)
                              then Incarnation (hr_assigned_sequence h) (inc_boot (pb_incarnation p)) else pb_incarnation p)
         ∧ ps_established (pb_session p') = incarnation_valid (pb_incarnation p')
         ∧ s = (if incarnation_valid (pb_incarnation p') then Status.OK else Status.INVALID)
       else s = hr_status h ∧ ps_established (pb_session p') = false ∧ pb_incarnation p' = pb_incarnation p).
Proof.
  intros Hc Hok Hfit Hw Hh Hrep. unfold handshake, handshake_into, connected. rewrite Hc.
  rewrite bool_decide_true by eauto. cbn [negb].
  destruct (call_replied w (hello_of p) p pending h rest Hc ltac:(done) Hfit Hw ltac:(done) Hh Hrep) as (a' & Hcall & _).
  change (message_type_of hello_response) with MessageType.HELLO_RESPONSE in Hcall. rewrite Hcall.
  replace (on_wire h) with (HelloResponse (hr_status h) (hr_site h) (hr_epoch h) (hr_controller h) (hr_assigned_sequence h)
    (hr_current_generation h) (on_wire (hr_factors h))) by done.
  cbn [hr_status hr_assigned_sequence]. destruct (is_ok (hr_status h)); cbn [negb].
  - destruct (_ =? 0); cbn [negb]; eexists _, _; (split; [reflexivity|]); by split_and!.
  - eexists _, _. split; [reflexivity|]. by split_and!.
Qed.

(** C12: a hello makes the two ends agree: the controller answers every hello it can decode
    with a hello response; when that arrives, in time and cut in any way, the publisher is
    established exactly when the controller's session is greeted under a valid incarnation,
    and then both ends hold the same incarnation, domain, epoch and controller; a refused
    hello returns the refusal, leaves the publisher without a session and its incarnation as
    it was. *)
Theorem hello_end_to_end (p : publisher) (pending : list arrival) (t : moment) (se : session) (c c' : controller)
    (s : status) (type : message_type) (payload : bytes) (se' : session) :
  pb_connection p = Some pending → message_ok (hello_of p) → zlen (encode_message (hello_of p)) ≤ kMaxFrameBytes →
  se_hello_done se = false → answers_fit c →
  handle_frame t MessageType.HELLO_REQUEST (encode_message (hello_of p)) se c = Some (s, Some (type, payload), se', c') →
  ∃ h, type = MessageType.HELLO_RESPONSE ∧ payload = encode_message h
    ∧ (∀ w rest, wr_sent w = Status.OK →
        replies_with (pc_io_timeout_ms (pb_config p)) (pending ++ wr_arrivals w) type payload rest →
        ∃ result p', handshake w p = (result, Some (MessageType.HELLO_REQUEST, encode_message (hello_of p)), p')
          ∧ ps_established (pb_session p') = se_hello_done se' && incarnation_valid (se_incarnation se')
          ∧ ps_epoch (pb_session p') = ct_epoch c' ∧ ps_controller (pb_session p') = ct_incarnation c'
          ∧ (if se_hello_done se'
             then pb_incarnation p' = se_incarnation se' ∧ se_domain se' = pc_domain (pb_config p)
             else result = hr_status h ∧ is_ok result = false ∧ pb_incarnation p' = pb_incarnation p)).
Proof.
  intros Hc Hok Hfit Hse Hbounds Hhandle.
  destruct (respond_hello_answers _ _ _ _ _ _ _ _ _ Hok Hhandle ltac:(by destruct c)) as (h & -> & -> & Hh & Hep & Hct & Hcase).
  exists h. split_and!; [done..|]. intros w rest Hw Hrep.
  destruct (handshake_replied w p pending h rest Hc Hok Hfit Hw Hh Hrep) as (result & p' & Hhs & Hpe & Hpc & Hst).
  exists result, p'. split; [done|]. rewrite Hpe, Hpc, Hep, Hct.
  destruct Hcase as [[-> Hno]|(Hyes & Hdone & Hdom & Hinc & Hz)].
  - rewrite Hno in Hst. destruct Hst as (-> & He & Hi). rewrite Hse. by split_and!.
  - rewrite Hyes in Hst. change (is_ok Status.OK) with true in Hst. destruct Hst as (Hi & He & _). rewrite Hdone.
    assert (pb_incarnation p' = se_incarnation se') as Heq.
    { rewrite Hi, Hinc. destruct (Z.eqb_spec (hr_assigned_sequence h) 0) as [Hzero|]; [|done]. cbn [negb].
      specialize (Hz Hzero). cbn [hello_of hq_incarnation] in Hz |- *. rewrite Hzero. clear - Hz.
      destruct (pb_incarnation p) as [n b]. cbn in Hz |- *. by rewrite Hz. }
    rewrite He, Heq. by split_and!.
Qed.

(** * A reply that comes too late *)

Lemma publish_busy w d attempt p ms :
  ps_established (pb_session p) = true → pb_connection p = Some [] → (seal d).1 = Status.OK →
  publication_size d ≤ kMaxFrameBytes →
  w = Wire Status.OK [Gap ms] → pc_io_timeout_ms (pb_config p) ≤ ms →
  publish w d attempt p
  = (NoReply Status.BUSY, Some (MessageType.PUBLISH_REQUEST, encode_message (publication_of d attempt p)),
     set_connection (Some [Gap (ms - pc_io_timeout_ms (pb_config p))]) (number_attempt attempt p).2).
Proof.
  intros He Hc Hs Hfit -> Hms. rewrite (publish_calls _ _ _ _ He Hs). destruct (number_attempt_keeps attempt p) as (Hc' & Hcfg & _).
  unfold call, exchange. rewrite Hc', Hc, send_frame_fits by (by rewrite ?publication_of_size). cbn [wr_sent wr_arrivals app].
  change (negb (is_ok Status.OK)) with false. cbv iota. rewrite Hcfg. unfold receive. cbn [read_from].
  change (kFrameHeaderBytes <=? zlen []) with false. cbv iota. rewrite (proj2 (Z.leb_le _ _)) by done.
  by change (negb (is_ok Status.BUSY)) with true.
Qed.

(** A request does not know its reply: an operation that gives up waiting leaves the
    connection open and the session established, so a reply that comes late is what the next
    request of the same kind reads as its own: a publication whose predecessor timed out
    returns the predecessor's verdict, whatever it publishes, and whatever the controller
    makes of it. *)
Theorem late_reply_answers_next (p : publisher) (d1 d2 : declaration) (a1 a2 : publish_attempt) (ms : Z)
    (r : publish_response) (late : list arrival) (rest : bytes) :
  let io := pc_io_timeout_ms (pb_config p) in
  ps_established (pb_session p) = true → pb_connection p = Some [] →
  (seal d1).1 = Status.OK → (seal d2).1 = Status.OK →
  publication_size d1 ≤ kMaxFrameBytes → publication_size d2 ≤ kMaxFrameBytes →
  io ≤ ms < 2 * io → message_ok r → is_ok (pp_status r) = true →
  replies_with io late MessageType.PUBLISH_RESPONSE (encode_message r) rest →
  ∃ p' p'',
    publish (Wire Status.OK [Gap ms]) d1 a1 p
      = (NoReply Status.BUSY, Some (MessageType.PUBLISH_REQUEST, encode_message (publication_of d1 a1 p)), p')
    ∧ connected p' = true ∧ ps_established (pb_session p') = true
    ∧ publish (Wire Status.OK late) d2 a2 p'
      = (Replied (on_wire r), Some (MessageType.PUBLISH_REQUEST, encode_message (publication_of d2 a2 p')), p'').
Proof.
  intros io He Hc Hs1 Hs2 Hfit1 Hfit2 Hms Hr Hk (Hp & frame & Hf & Hb).
  destruct (number_attempt_keeps a1 p) as (_ & Hcfg & Hsess).
  rewrite (publish_busy _ d1 a1 p ms He Hc Hs1 Hfit1 eq_refl) by (unfold io in *; lia).
  set (p' := set_connection _ (number_attempt a1 p).2).
  assert (ps_established (pb_session p') = true) as He' by (cbn; by rewrite Hsess).
  destruct (number_attempt_keeps a2 p') as (Hc2 & Hcfg2 & _).
  destruct (call_replied (Wire Status.OK late) (publication_of d2 a2 p') (number_attempt a2 p').2 [Gap (ms - io)] r rest)
    as (a' & Hcall & _); [by rewrite Hc2|done|by rewrite publication_of_size|done|done|done| |].
  - split; [|by exists frame]. rewrite Hcfg2. cbn [p' set_connection pb_config wr_arrivals]. rewrite Hcfg.
    apply Forall_cons; split; [|done]. fold io. lia.
  - eexists p', _. split_and!; [done|done|done|]. rewrite (publish_calls _ _ _ _ He' Hs2). exact Hcall.
Qed.

(** * Any sequence of operations *)

(** The operations, with what the network does to each; [IntoHandshake] is a [handshake] whose
    output is not the publisher's own session. *)
Inductive operation : Type :=
| Connects (opened : status) (w : wire)
| Handshakes (w : wire)
| IntoHandshake (w : wire) (out : publisher_session)
| Publishes (w : wire) (d : declaration) (attempt : publish_attempt)
| Retires (w : wire) (request : retire_request)
| Beats (w : wire)
| Fetches (w : wire) (sequence : Z)
| Pings (w : wire) (nonce : Z)
| Closes.

(** The frame an operation writes, and the publisher it leaves. *)
Definition perform (o : operation) (p : publisher) : reply * publisher :=
  match o with
  | Connects opened w => let '(_, f, p) := connect opened w p in (f, p)
  | Handshakes w => let '(_, f, p) := handshake w p in (f, p)
  | IntoHandshake w out => let '(_, _, f, p) := handshake_into w out p in (f, p)
  | Publishes w d attempt => let '(_, f, p) := publish w d attempt p in (f, p)
  | Retires w request => let '(_, f, p) := retire w request p in (f, p)
  | Beats w => let '(_, f, p) := heartbeat w p in (f, p)
  | Fetches w sequence => let '(_, f, p) := fetch_site w sequence p in (f, p)
  | Pings w nonce => let '(_, f, p) := ping w nonce p in (f, p)
  | Closes => (None, (close p).2)
  end.

Definition after (ops : list operation) (p : publisher) : publisher := foldl (λ p o, (perform o p).2) p ops.

(** An established publisher is connected, under an incarnation that is valid. *)
Definition publisher_wf (cfg : publisher_config) (p : publisher) : Prop :=
  pb_config p = cfg ∧ inc_boot (pb_incarnation p) = inc_boot (pc_incarnation cfg)
  ∧ (ps_established (pb_session p) = true → connected p = true ∧ incarnation_valid (pb_incarnation p) = true).

(** Only a live connection is written to, and an operation never drops it. *)
Lemma exchange_keeps w ty payload expected p a f p' : exchange w ty payload expected p = (a, f, p') →
  p' = set_connection (pb_connection p') p ∧ connected p' = connected p
  ∧ (∀ m, f = Some m → connected p = true ∧ m = (ty, payload)).
Proof.
  unfold exchange, connected. destruct (pb_connection p) as [pending|] eqn:E.
  - unfold send_frame. destruct (encode_frame ty payload 0).
    + destruct (negb (is_ok (wr_sent w))); [|destruct (receive _ _ _)]; intros [= <- <- <-]; cbn;
        (split_and!; [done|done|]); by intros m [= <-].
    + match goal with |- context [negb (is_ok ?s)] => destruct (negb (is_ok s)) end; [|destruct (receive _ _ _)]; intros [= <- <- <-]; cbn; by split_and!.
  - destruct (send_frame _ _ _). intros [= <- <- <-]. rewrite E. split_and!; [|done|done]. destruct p; cbn in *; by subst.
Qed.

Lemma call_keeps {A B} `{Message A, Message B} w (m : A) expected p (a : delivery B) f p' :
  call w m expected p = (a, f, p') →
  p' = set_connection (pb_connection p') p ∧ connected p' = connected p
  ∧ (∀ x, f = Some x → connected p = true ∧ x = (message_type_of A, encode_message m)).
Proof.
  unfold call. destruct (exchange _ _ _ _ _) as [[r f'] p1] eqn:E. intros [= _ <- <-]. by apply exchange_keeps in E.
Qed.

Lemma with_connection_wf cfg p x : publisher_wf cfg p → connected (set_connection x p) = connected p →
  publisher_wf cfg (set_connection x p).
Proof. intros (Hc & Hb & He) Hx. split_and!; [done|done|]. intros H. rewrite Hx. by apply He. Qed.

Lemma call_wf {A B} `{Message A, Message B} w (m : A) expected p (a : delivery B) f p' cfg :
  call w m expected p = (a, f, p') → publisher_wf cfg p → publisher_wf cfg p'.
Proof. intros (-> & Hc & _)%call_keeps Hwf. by apply with_connection_wf. Qed.

(** What one operation keeps, and what the frame it writes says. *)
Definition speaks_for (p : publisher) (m : message_type * bytes) : Prop :=
  match m.1 with
  | MessageType.PUBLISH_REQUEST => ps_established (pb_session p) = true
  | MessageType.RETIRE_REQUEST =>
      ps_established (pb_session p) = true ∧ ∃ q, m.2 = encode_message q ∧ rq_incarnation q = pb_incarnation p
  | MessageType.HEARTBEAT_REQUEST => ps_established (pb_session p) = true ∧ m.2 = encode_message (heartbeat_of p)
  | MessageType.HELLO_REQUEST => ∃ i, m.2 = encode_message (hello_of (set_incarnation i p)) ∧ inc_boot i = inc_boot (pb_incarnation p)
  | MessageType.FETCH_SITE_REQUEST | MessageType.PING => True
  | _ => False
  end.

Lemma handshake_into_wf cfg w out p s e f p' : boot_valid (inc_boot (pc_incarnation cfg)) = true →
  handshake_into w out p = (s, e, f, p') → publisher_wf cfg p →
  publisher_wf cfg p' ∧ pb_session p' = pb_session p
  ∧ (connected p = true → connected p' = true)
  ∧ (ps_established e = true → (ps_established out = true ∧ pb_incarnation p' = pb_incarnation p)
                               ∨ (connected p' = true ∧ incarnation_valid (pb_incarnation p') = true))
  ∧ (∀ m, f = Some m → connected p = true ∧ m = (MessageType.HELLO_REQUEST, encode_message (hello_of p))).
Proof.
  intros Hboot H Hwf. revert H. unfold handshake_into. destruct (connected p) eqn:Hconn; cbn [negb].
  2:{ intros [= <- <- <- <-]. split_and!; try done. by left. }
  destruct (call w (hello_of p) _ p) as [[a f1] p1] eqn:E.
  pose proof (call_wf _ _ _ _ _ _ _ cfg E Hwf) as Hwf1. apply call_keeps in E as (Hp1 & Hc1 & Hf1).
  assert (pb_session p1 = pb_session p ∧ pb_incarnation p1 = pb_incarnation p) as [Hs1 Hi1] by (by rewrite Hp1).
  rewrite Hconn in Hc1, Hf1.
  destruct a as [x|x|x|h].
  1-3: intros [= <- <- <- <-]; split_and!; try done; by left.
  destruct (is_ok (hr_status h)); cbn [negb].
  2:{ intros [= <- <- <- <-]. by split_and!. }
  intros [= <- <- <- <-]. destruct (Z.eqb_spec (hr_assigned_sequence h) 0) as [Hz|Hz]; cbn [negb].
  - split_and!; try done. intros He. by right.
  - destruct Hwf1 as (Hc & Hb & _). split_and!; try done.
    + split_and!; [done|done|]. intros _. split; [done|]. unfold incarnation_valid. cbn. rewrite Hb, Hboot.
      by rewrite (proj2 (Z.eqb_neq _ _) Hz).
    + intros He. by right.
Qed.

Lemma own_handshake_wf cfg w p s f p' : boot_valid (inc_boot (pc_incarnation cfg)) = true →
  handshake w p = (s, f, p') → publisher_wf cfg p →
  publisher_wf cfg p' ∧ (∀ m, f = Some m → m = (MessageType.HELLO_REQUEST, encode_message (hello_of p))).
Proof.
  intros Hboot H Hwf. unfold handshake in H. destruct (handshake_into w (pb_session p) p) as [[[s1 e] f1] p1] eqn:E.
  injection H as <- <- <-. destruct (handshake_into_wf _ _ _ _ _ _ _ _ Hboot E Hwf) as ((Hc & Hb & _) & _ & Hmono & He & Hf).
  split; [|intros m Hm; by apply Hf]. split_and!; [done|done|]. cbn [set_session pb_session]. intros Hest.
  destruct (He Hest) as [[Hout Hi]|Hok]; [|done]. destruct Hwf as (_ & _ & Hold). destruct (Hold Hout) as [Hcon Hval].
  split; [by apply Hmono|]. cbn [set_session pb_incarnation]. by rewrite Hi.
Qed.

Lemma set_session_wf cfg e p : publisher_wf cfg p → ps_established e = ps_established (pb_session p) →
  publisher_wf cfg (set_session e p).
Proof. intros (Hc & Hb & He) Hs. split_and!; [done|done|]. cbn [set_session pb_session]. rewrite Hs. exact He. Qed.

Lemma number_attempt_wf cfg attempt p : publisher_wf cfg p → publisher_wf cfg (number_attempt attempt p).2.
Proof. unfold number_attempt. by destruct (_ =? _), (_ =? _). Qed.

Lemma perform_wf cfg o p : boot_valid (inc_boot (pc_incarnation cfg)) = true → publisher_wf cfg p →
  publisher_wf cfg (perform o p).2 ∧ ∀ m, (perform o p).1 = Some m → speaks_for p m.
Proof.
  intros Hboot Hwf. pose proof Hwf as (Hcfg & Hb & Hest). destruct o as [opened w|w|w out|w d attempt|w request|w|w sequence|w nonce|]; cbn [perform].
  - unfold connect. destruct (connected p) eqn:Hcon; [done|].
    set (p1 := if negb (ps_established (pb_session p)) then _ else p).
    assert (publisher_wf cfg p1) as Hwf1.
    { unfold p1. destruct (ps_established (pb_session p)) eqn:He; [done|]. split_and!; [done|cbn; by rewrite Hcfg|].
      cbn. by rewrite He. }
    destruct (negb (is_ok opened)); [done|]. destruct (handshake w _) as [[s f] p'] eqn:E.
    assert (publisher_wf cfg (set_connection (Some []) p1)) as Hwf2.
    { destruct Hwf1 as (H1 & H2 & H3). split_and!; [done|done|]. intros He. split; [done|]. by apply H3. }
    destruct (own_handshake_wf _ _ _ _ _ _ Hboot E Hwf2) as [Hwf' Hf]. split; [done|]. intros m ->%Hf.
    exists (pb_incarnation p1). split; [|unfold p1; destruct (negb _); [cbn; by rewrite Hcfg, Hb|done]].
    unfold p1. by destruct (negb _).
  - destruct (handshake w p) as [[s f] p'] eqn:E. destruct (own_handshake_wf _ _ _ _ _ _ Hboot E Hwf) as [Hwf' Hf].
    split; [done|]. intros m ->%Hf. exists (pb_incarnation p). split; [|done]. by destruct p.
  - destruct (handshake_into w out p) as [[[s e] f] p'] eqn:E.
    destruct (handshake_into_wf _ _ _ _ _ _ _ _ Hboot E Hwf) as (Hwf' & _ & _ & _ & Hf). split; [done|].
    intros m [_ ->]%Hf. exists (pb_incarnation p). split; [|done]. by destruct p.
  - unfold publish. destruct (ps_established (pb_session p)) eqn:He; [|done]. cbn [negb].
    destruct (seal d) as [st sealed]. destruct (negb (is_ok st)); [done|].
    pose proof (number_attempt_wf cfg attempt p Hwf) as Hwf1. destruct (number_attempt attempt p) as [effective p1].
    destruct (call w _ _ p1) as [[a f] p'] eqn:E. split; [exact (call_wf _ _ _ _ _ _ _ _ E Hwf1)|].
    intros m [_ ->]%(proj2 (proj2 (call_keeps _ _ _ _ _ _ _ E))). exact He.
  - unfold retire. destruct (ps_established (pb_session p)) eqn:He; [|done]. cbn [negb].
    destruct (call w _ _ p) as [[a f] p'] eqn:E. split; [exact (call_wf _ _ _ _ _ _ _ _ E Hwf)|]. intros m [_ ->]%(proj2 (proj2 (call_keeps _ _ _ _ _ _ _ E))).
    split; [exact He|]. by eexists.
  - unfold heartbeat. destruct (ps_established (pb_session p)) eqn:He; [|done]. cbn [negb].
    destruct (call w _ _ p) as [[a f] p'] eqn:E. pose proof (call_wf _ _ _ _ _ _ _ _ E Hwf) as Hwf'.
    assert (∀ m, f = Some m → speaks_for p m) as Hf by (intros m [_ ->]%(proj2 (proj2 (call_keeps _ _ _ _ _ _ _ E))); by split).
    destruct a as [x|x|x|out]; [done..|]. split; [|done]. cbn [snd]. destruct (is_ok (bp_status out)); [|done].
    by apply set_session_wf.
  - unfold fetch_site. destruct (call w _ _ p) as [[a f] p'] eqn:E. split; [exact (call_wf _ _ _ _ _ _ _ _ E Hwf)|].
    by intros m [_ ->]%(proj2 (proj2 (call_keeps _ _ _ _ _ _ _ E))).
  - unfold ping. destruct (call w _ _ p) as [[a f] p'] eqn:E. split; [exact (call_wf _ _ _ _ _ _ _ _ E Hwf)|].
    by intros m [_ ->]%(proj2 (proj2 (call_keeps _ _ _ _ _ _ _ E))).
  - split; [|done]. by split_and!.
Qed.

(** C30: the publisher has no authority of its own: whatever it is asked and whatever the
    network does, an established publisher is connected under a valid incarnation of its boot
    nonce, and every frame it writes is one it may write: a publication, a retirement or a
    heartbeat only when established, the last two under the incarnation it holds; a hello
    under its own boot nonce; or a fetch or a ping. *)
Theorem publisher_speaks_for_itself (cfg : publisher_config) (p0 : publisher) (ops : list operation) (o : operation) :
  create cfg = Ok p0 →
  publisher_wf cfg (after ops p0) ∧ ∀ m, (perform o (after ops p0)).1 = Some m → speaks_for (after ops p0) m.
Proof.
  unfold create. destruct (_ =? 0); [done|]. destruct (_ || _); [done|].
  destruct (boot_valid (inc_boot (pc_incarnation cfg))) eqn:Hboot; [|done]. cbn [negb]. destruct (_ || _); [done|]. intros [= <-].
  set (p0 := MemberPublisher _ _ _ _ _ _).
  assert (∀ p, publisher_wf cfg p → publisher_wf cfg (after ops p)) as Hall.
  { induction ops as [|x ops IH]; [done|]. intros p Hp. apply IH. by apply perform_wf. }
  assert (publisher_wf cfg (after ops p0)) as Hwf by (apply Hall; by split_and!).
  split; [done|]. by apply (perform_wf cfg).
Qed.

(** ** What each operation writes *)

Lemma heartbeat_writes w p a f p' : heartbeat w p = (a, f, p') → from_option (λ m, m.1 = MessageType.HEARTBEAT_REQUEST) True f.
Proof.
  unfold heartbeat. destruct (negb (ps_established (pb_session p))); [by intros [= _ <- _]|].
  destruct (call w (heartbeat_of p) MessageType.HEARTBEAT_RESPONSE p) as [[a1 f1] p1] eqn:E.
  apply call_keeps in E as (_ & _ & Hf).
  destruct a1 as [s|s|s|out]; intros [= _ <- _]; (destruct f1 as [m|]; [|done]); destruct (Hf m eq_refl) as [_ ->]; done.
Qed.

Lemma connect_writes opened w p s f p' :
  connect opened w p = (s, f, p') → from_option (λ m, m.1 = MessageType.HELLO_REQUEST) True f.
Proof.
  unfold connect. destruct (connected p); [by intros [= _ <- _]|]. destruct (negb (is_ok opened)); [by intros [= _ <- _]|].
  unfold handshake. destruct (handshake_into _ _ _) as [[[s1 e] f1] p1] eqn:E. intros [= _ <- _]. revert E. unfold handshake_into.
  destruct (negb (connected _)); [by intros [= _ _ <- _]|].
  destruct (call _ _ _ _) as [[a f2] p2] eqn:Ec. apply call_keeps in Ec as (_ & _ & Hf).
  destruct a as [x|x|x|hello]; [..|destruct (negb (is_ok (hr_status hello)))]; intros [= _ _ <- _];
    (destruct f2 as [m|]; [|done]); destruct (Hf m eq_refl) as [_ ->]; done.
Qed.

Lemma publish_writes w d attempt p o f p' :
  publish w d attempt p = (o, f, p') → from_option (λ m, m.1 = MessageType.PUBLISH_REQUEST) True f.
Proof.
  unfold publish. destruct (negb _); [by intros [= _ <- _]|]. destruct (seal d) as [st sealed].
  destruct (negb (is_ok st)); [by intros [= _ <- _]|]. destruct (number_attempt attempt p) as [effective p1].
  intros Hc. apply call_keeps in Hc as (_ & _ & Hf). destruct f as [m|]; [|done]. by destruct (Hf m eq_refl) as [_ ->].
Qed.

Lemma fetch_writes w sequence p o f p' :
  fetch_site w sequence p = (o, f, p') → from_option (λ m, m.1 = MessageType.FETCH_SITE_REQUEST) True f.
Proof.
  unfold fetch_site. intros Hc. apply call_keeps in Hc as (_ & _ & Hf). destruct f as [m|]; [|done].
  by destruct (Hf m eq_refl) as [_ ->].
Qed.

(** * Witnesses *)

Module Talking.

Definition config : publisher_config :=
  PublisherConfig 7000 "site-a" Running.domain "member-1" (Incarnation 0 "boot-1") supported_schema 10000 5000.
Definition fresh : publisher := match create config with Ok p => p | Err _ => MemberPublisher config None new_session (Incarnation 0 "") 0 0 end.
(** Connected, and greeted by the controller. *)
Definition connecting : publisher := set_connection (Some []) fresh.
Definition established : publisher :=
  MemberPublisher config (Some []) (PublisherSession true 0 (Incarnation 1 "boot-c") 1 0 Status.OK no_factors) Running.boot 1 0.
Definition greeted : session := ConnectionSession true Running.domain Running.boot "member-1".
(** The answer to an accepted publication: its number is the acceptance's. *)
Definition reply (n : Z) : publish_response := PublishResponse Status.ACCEPTED "site-a" 0 0 n false no_factors.

Lemma arrives io type payload :
  known_message type = true → zlen payload ≤ kMaxFrameBytes →
  ∃ arrivals, replies_with io arrivals type payload [].
Proof.
  intros Hk Hs. destruct (known_enough type Hk payload Hs) as [frame Hf].
  exists [Bytes frame]. split; [by repeat constructor|]. exists frame. split; [exact Hf|]. reflexivity.
Qed.

Lemma reply_ok n : in_u 64 n → message_ok (reply n).
Proof. intros Hn. repeat (split; [done|]). by constructor. Qed.

Lemma hello_ok p : domain_ok (pc_domain (pb_config p)) → id_ok (pc_site (pb_config p)) → incarnation_wf (pb_incarnation p) →
  id_ok (pc_publisher (pb_config p)) → in_u 64 (ps_epoch (pb_session p)) → schema_wf (pc_schema (pb_config p)) →
  message_ok (hello_of p).
Proof. intros. by repeat (split; [assumption|]). Qed.

End Talking.

Lemma late_reply_answers_next_witness :
  ∃ late p' p'',
    publish (Wire Status.OK [Gap 10000]) (Running.declared 1) (PublishAttempt 0 0) Talking.established
      = (NoReply Status.BUSY, Some (MessageType.PUBLISH_REQUEST,
           encode_message (publication_of (Running.declared 1) (PublishAttempt 0 0) Talking.established)), p')
    ∧ publish (Wire Status.OK late) (Running.declared 2) (PublishAttempt 0 0) p'
      = (Replied (Talking.reply 1), Some (MessageType.PUBLISH_REQUEST,
           encode_message (publication_of (Running.declared 2) (PublishAttempt 0 0) p')), p'').
Proof.
  destruct (Talking.arrives 10000 MessageType.PUBLISH_RESPONSE (encode_message (Talking.reply 1))) as [late Hlate];
    [reflexivity|by vm_compute|].
  destruct (late_reply_answers_next Talking.established (Running.declared 1) (Running.declared 2)
    (PublishAttempt 0 0) (PublishAttempt 0 0) 10000 (Talking.reply 1) late []) as (p' & p'' & H1 & _ & _ & H2).
  - reflexivity.
  - reflexivity.
  - vm_compute; reflexivity.
  - vm_compute; reflexivity.
  - vm_compute; discriminate.
  - vm_compute; discriminate.
  - split; vm_compute; [discriminate|reflexivity].
  - apply Talking.reply_ok. split; vm_compute; [discriminate|reflexivity].
  - reflexivity.
  - exact Hlate.
  - exists late, p', p''. split; [exact H1|exact H2].
Defined.

Lemma publisher_speaks_for_itself_witness :
  publisher_wf Talking.config (after [Connects Status.OK (Wire Status.OK []); Closes] Talking.fresh).
Proof.
  apply (publisher_speaks_for_itself Talking.config Talking.fresh [Connects Status.OK (Wire Status.OK []); Closes] Closes).
  reflexivity.
Defined.

Lemma hello_end_to_end_witness :
  ∃ s type payload se' c' w result p',
    handle_frame (Running.at_ 2000) MessageType.HELLO_REQUEST (encode_message (hello_of Talking.connecting))
      Controller.new_session Running.listening = Some (s, Some (type, payload), se', c')
    ∧ handshake w Talking.connecting = (result, Some (MessageType.HELLO_REQUEST, encode_message (hello_of Talking.connecting)), p')
    ∧ ps_established (pb_session p') = true ∧ pb_incarnation p' = se_incarnation se'.
Proof.
  assert (match handle_frame (Running.at_ 2000) MessageType.HELLO_REQUEST (encode_message (hello_of Talking.connecting))
      Controller.new_session Running.listening with
    | Some (s, Some (type, payload), se', c') =>
        se_hello_done se' && incarnation_valid (se_incarnation se') && known_message type && (zlen payload <=? kMaxFrameBytes)
    | _ => false end = true) as Hrun by (vm_compute; reflexivity).
  destruct (handle_frame _ _ _ _ _) as [[[[s [[type payload]|]] se'] c']|] eqn:Hf; try discriminate Hrun.
  repeat apply andb_true_iff in Hrun as [Hrun ?]. rename H into Hlen, H0 into Hk, H1 into Hv.
  destruct (Talking.arrives 10000 type payload Hk (proj1 (Z.leb_le _ _) Hlen)) as [late Hlate].
  destruct (hello_end_to_end Talking.connecting [] (Running.at_ 2000) Controller.new_session Running.listening c' s type payload se')
    as (h & _ & _ & Hall).
  - reflexivity.
  - apply Talking.hello_ok; [right; reflexivity|reflexivity| |reflexivity| |]; vm_compute; repeat split; congruence.
  - by vm_compute.
  - reflexivity.
  - split; [split; [reflexivity|]; vm_compute; repeat split; congruence|].
    assert (domains (ct_authority Running.listening) = ∅) as Hnone by reflexivity.
    intros d x Hx. rewrite Hnone, lookup_empty in Hx. discriminate Hx.
  - exact Hf.
  - destruct (Hall (Wire Status.OK late) [] eq_refl Hlate) as (result & p' & Hhs & He & _ & _ & Hboth).
    exists s, type, payload, se', c', (Wire Status.OK late), result, p'. rewrite Hrun in He, Hboth. cbn [andb] in He.
    split; [reflexivity|]. split; [exact Hhs|]. split; [by rewrite He|apply Hboth].
Defined.

Lemma publication_end_to_end_witness :
  ∃ w o c' p',
    handle_frame (Running.at_ 3000) MessageType.PUBLISH_REQUEST
      (encode_message (publication_of (Running.declared 1) (PublishAttempt 0 0) Talking.established)) Talking.greeted Running.admitted
      = Some (Status.OK, Some (MessageType.PUBLISH_RESPONSE,
          encode_message (Talking.reply 1)), Talking.greeted, c')
    ∧ publish w (Running.declared 1) (PublishAttempt 0 0) Talking.established
      = (o, Some (MessageType.PUBLISH_REQUEST,
          encode_message (publication_of (Running.declared 1) (PublishAttempt 0 0) Talking.established)), p')
    ∧ returned pp_status o = Status.ACCEPTED.
Proof.
  set (request := publication_of (Running.declared 1) (PublishAttempt 0 0) Talking.established).
  assert (match check_publication Running.boot (decl_on_wire (seal (Running.declared 1)).2) (pq_attempt request)
      (bump FramesReceived Running.admitted) with Ok _ => true | _ => false end = true) as Hrun by (vm_compute; reflexivity).
  destruct (check_publication _ _ _ _) as [sealed|e] eqn:Hck; [|discriminate Hrun].
  pose proof (publish_accepted Running.committed 3000 3001 "member-1" _ _ _ _ _ Hck) as Hp. cbv zeta in Hp.
  unfold persist in Hp. change (ct_store (accept_publication _ _ _ _)) with (@None store) in Hp. cbv iota beta in Hp.
  unfold after_publish in Hp. change (cc_compose_on_publish _) with false in Hp. cbn [negb] in Hp.
  set (r := Talking.reply 1).
  match type of Hp with _ = Some (?x, ?c) => change x with r in Hp; set (c' := c) in Hp end.
  destruct (Talking.arrives 10000 MessageType.PUBLISH_RESPONSE (encode_message r)) as [late Hlate]; [reflexivity|by vm_compute|].
  destruct (publication_end_to_end Talking.established [] (Running.declared 1) (PublishAttempt 0 0)
    (Running.at_ 3000) Talking.greeted Running.admitted c' r) as [Hframe Hall].
  - reflexivity.
  - reflexivity.
  - vm_compute; reflexivity.
  - split; [|split; split; vm_compute; [discriminate|reflexivity|discriminate|reflexivity]].
    sample_ok.
  - vm_compute; discriminate.
  - reflexivity.
  - reflexivity.
  - exact Hp.
  - apply Talking.reply_ok. split; vm_compute; [discriminate|reflexivity].
  - vm_compute; discriminate.
  - destruct (Hall (Wire Status.OK late) [] eq_refl Hlate) as (o & p' & Hpub & Hret & _).
    exists (Wire Status.OK late), o, c', p'. split; [exact Hframe|]. split; [exact Hpub|exact Hret].
Defined.
