(* ===== verification/Terms.v ===== *)
(** The controller's term (src/controller/controller.cpp, [start] and [recompose]).

    A controller that started holds the lease of its site at its own epoch, above every
    snapshot it restored, and numbers what it publishes with generations of its own. That is
    the invariant of a term. Under it a recomposition that nothing interleaves with has two
    outcomes: the composer refuses the input, or the composed site is published.
    Recompositions.v has the invariant of recompositions that interleave. *)

From stdpp Require Import sorting sets gmap.
From S2P Require Import Prelude Ordering Enums Sha256 Identity Canonical Evidence Capacity Claims Codec Canonicalize Authority Forest Site SiteCodec Snapshot StoreFormat Store Protocol Samples Admit Attribute Domains Maintenance Ledger Verdicts Compose Controller Execution.

(** * Acquiring one's own lease *)

Definition own_key (c : controller) : string :=
  lease_key (cc_site (ct_config c)) AuthorityKind.SITE_CONTROLLER (cc_id (ct_config c)).

(** The lease the controller holds: its own, never revoked, for generations up to [g]. *)
Definition own_lease (c : controller) (g : generation) (l : lease_record) : Prop :=
  tok_kind (lr_token l) = AuthorityKind.SITE_CONTROLLER ∧ tok_holder (lr_token l) = cc_id (ct_config c)
  ∧ tok_site (lr_token l) = cc_site (ct_config c) ∧ tok_incarnation (lr_token l) = ct_incarnation c
  ∧ tok_lease_id (lr_token l) ≠ 0 ∧ lr_state l ≠ LeaseState.REVOKED ∧ tok_generation (lr_token l) ≤ g.

(** The token a grant at [now] carries. *)
Definition granted_token (c : controller) (gen : generation) (id now : Z) : token :=
  AuthorityToken AuthorityKind.SITE_CONTROLLER (cc_id (ct_config c)) (cc_site (ct_config c)) (ct_epoch c)
    (ct_incarnation c) gen id now (now + cc_lease_ttl_ms (ct_config c)).

Definition acquire (c : controller) (gen : generation) (now : Z) : status * option token * registry :=
  acquire_site_authority (cc_id (ct_config c)) (cc_site (ct_config c)) (ct_epoch c) (ct_incarnation c) gen now
    (cc_lease_ttl_ms (ct_config c)) (ct_authority c).

(** A grant: the token, and the registry in which the controller holds it. *)
Definition grants (c : controller) (gen : generation) (now : Z) (res : status * option token * registry) : Prop :=
  ∃ id, id ≠ 0 ∧ res.1 = (Status.GRANTED, Some (granted_token c gen id now))
    ∧ current_epoch (cc_site (ct_config c)) res.2 = ct_epoch c
    ∧ ∃ l, leases res.2 !! own_key c = Some l ∧ own_lease c gen l.

(** Under its own epoch the controller reaches its own lease. *)
Lemma acquire_reaches c gen now l :
  cc_id (ct_config c) ≠ ""%string → is_valid_identifier (cc_site (ct_config c)) = true → ct_epoch c ≠ 0 →
  incarnation_valid (ct_incarnation c) = true → 0 < cc_lease_ttl_ms (ct_config c) → 0 < now →
  current_epoch (cc_site (ct_config c)) (ct_authority c) = ct_epoch c →
  leases (ct_authority c) !! own_key c = Some l → own_lease c (tok_generation (lr_token l)) l →
  acquire c gen now =
    (let r := set_epoch (cc_site (ct_config c)) (ct_epoch c) (ct_authority c) in
     if gen <? tok_generation (lr_token l) then (Status.FENCED_GENERATION, None, set_lease (own_key c) l r)
     else
       let t := granted_token c gen (tok_lease_id (lr_token l)) now in
       (Status.GRANTED, Some t,
        set_controller (cc_site (ct_config c)) (own_key c)
          (set_lease (own_key c) (LeaseRecord t LeaseState.ACTIVE now (lr_renewals l) (lr_note l)) r))).
Proof.
  intros Hh Hs He Hi Ht Hn Hep Hl (Hk & Hlh & Hls & Hli & Hid & Hst & _). unfold acquire, acquire_site_authority, is_set.
  rewrite Hs, Hi, bool_decide_eq_false_2, (proj2 (Z.eqb_neq _ _) He), (proj2 (Z.leb_gt _ _) Ht), (proj2 (Z.leb_gt _ _) Hn) by done.
  cbn [negb orb]. unfold current_epoch in Hep. rewrite Hep, Z.ltb_irrefl, andb_false_r. cbn [leases set_epoch].
  fold (own_key c). rewrite Hl. unfold acquire_again. rewrite bool_decide_eq_false_2, bool_decide_eq_true_2 by done.
  cbn [negb andb]. fold (own_key c). rewrite Hk, Hlh, Hls. done.
Qed.

Lemma acquire_own c gen now l :
  cc_id (ct_config c) ≠ ""%string → is_valid_identifier (cc_site (ct_config c)) = true → ct_epoch c ≠ 0 →
  incarnation_valid (ct_incarnation c) = true → 0 < cc_lease_ttl_ms (ct_config c) → 0 < now →
  current_epoch (cc_site (ct_config c)) (ct_authority c) = ct_epoch c →
  leases (ct_authority c) !! own_key c = Some l → own_lease c gen l →
  grants c gen now (acquire c gen now).
Proof.
  intros Hh Hs He Hi Ht Hn Hep Hl (Hk & Hlh & Hls & Hli & Hid & Hst & Hg).
  rewrite (acquire_reaches c gen now l) by (done || by split_and!). cbv zeta. rewrite (proj2 (Z.ltb_ge _ _) Hg).
  exists (tok_lease_id (lr_token l)). split; [exact Hid|]. split; [done|]. split.
  - unfold current_epoch. cbn. by rewrite lookup_insert_eq.
  - eexists. split; [cbn; by rewrite lookup_insert_eq|]. split_and!; done || (cbn; lia).
Qed.

(** A lease taken for a newer generation refuses an older one, and stays. *)
Lemma acquire_late c gen now l :
  cc_id (ct_config c) ≠ ""%string → is_valid_identifier (cc_site (ct_config c)) = true → ct_epoch c ≠ 0 →
  incarnation_valid (ct_incarnation c) = true → 0 < cc_lease_ttl_ms (ct_config c) → 0 < now →
  current_epoch (cc_site (ct_config c)) (ct_authority c) = ct_epoch c →
  leases (ct_authority c) !! own_key c = Some l → own_lease c (tok_generation (lr_token l)) l →
  gen < tok_generation (lr_token l) →
  (acquire c gen now).1 = (Status.FENCED_GENERATION, None)
  ∧ current_epoch (cc_site (ct_config c)) (acquire c gen now).2 = ct_epoch c
  ∧ leases (acquire c gen now).2 !! own_key c = Some l.
Proof.
  intros Hh Hs He Hi Ht Hn Hep Hl Hown Hlt. rewrite (acquire_reaches c gen now l) by done. cbv zeta.
  rewrite (proj2 (Z.ltb_lt _ _) Hlt). split; [done|]. split.
  - unfold current_epoch. cbn. by rewrite lookup_insert_eq.
  - cbn. by rewrite lookup_insert_eq.
Qed.

(** * Offering a snapshot that advances *)

Lemma publish_advances s t now ch :
  check_snapshot s t now = Ok (composed_site_digest (snap_state s)) → 0 < ch_limit ch →
  (∀ cur, Snapshot.current ch = Some cur → advances t cur) →
  let '(out, ch') := Snapshot.publish s t now ch in
  pr_status out = Status.PUBLISHED ∧ ch_limit ch' = ch_limit ch
  ∧ ∃ q, Snapshot.current ch' = Some (seal_digests (composed_site_digest (snap_state s)) (with_sequence q s)).
Proof.
  intros Hck Hlim Hadv. unfold Snapshot.publish. rewrite Hck. unfold Snapshot.current in *.
  destruct (last (ch_history ch)) as [cur|] eqn:E.
  - rewrite (proj2 (fence_advances cur t _) (Hadv cur eq_refl)). split; [done|]. split; [done|].
    eexists. unfold push. cbn [ch_history].
    match goal with |- last (trim _ (?h ++ [?p])) = _ =>
      destruct (trim_spec (ch_limit ch) (h ++ [p])) as (_ & Hl & _); [exact Hlim|by destruct h|] end.
    etrans; [exact Hl|]. apply last_snoc.
  - split; [done|]. split; [done|]. eexists. cbn [ch_history]. apply last_snoc.
Qed.

(** A snapshot no newer than the published one of its own term leaves the history alone. *)
Lemma publish_late s t now ch cur :
  check_snapshot s t now = Ok (composed_site_digest (snap_state s)) → Snapshot.current ch = Some cur →
  tok_epoch t = snap_epoch cur → tok_incarnation t = snap_incarnation cur → tok_generation t ≤ snap_generation cur →
  let '(out, ch') := Snapshot.publish s t now ch in
  pr_status out ∈ [Status.FENCED_GENERATION; Status.ALREADY_EXISTS] ∧ ch_history ch' = ch_history ch ∧ ch_limit ch' = ch_limit ch.
Proof.
  intros Hck Hcur He Hi Hg. unfold Snapshot.publish. rewrite Hck. unfold Snapshot.current in Hcur. rewrite Hcur.
  unfold fence_against. rewrite He, Hi, Z.ltb_irrefl, Z.eqb_refl, bool_decide_eq_true_2 by done. cbn [negb].
  destruct (Z.ltb_spec (tok_generation t) (snap_generation cur)); [by split; [left|]|].
  rewrite (proj2 (Z.eqb_eq _ _)) by lia.
  destruct (bool_decide _); [split; [right; left|done]|split; [left|done]].
Qed.

(** The published form of a composed site. *)
Definition published_as (now : Z) (s : composed_site) (q : Z) : site_snapshot :=
  seal_digests (composed_site_digest s) (with_sequence q (seal_digests (composed_site_digest s) (snapshot_of now s))).

Lemma recompute_fresh now s :
  recompute_digest (snapshot_of now s) = (Status.OK, seal_digests (composed_site_digest s) (snapshot_of now s)).
Proof. reflexivity. Qed.

Lemma check_fresh now s t :
  is_valid_identifier (site_id s) = true → site_epoch s ≠ 0 → tok_site t = site_id s → is_ok (evaluate_at t now) = true →
  check_snapshot (seal_digests (composed_site_digest s) (snapshot_of now s)) t now = Ok (composed_site_digest s).
Proof.
  intros Hid Hep Ht Hev. unfold check_snapshot, is_set.
  change (snap_site (seal_digests _ _)) with (site_id s). change (snap_epoch (seal_digests _ _)) with (site_epoch s).
  change (snap_generation (seal_digests _ _)) with (site_generation s). change (snap_state (seal_digests _ _)) with s.
  rewrite Hid, (proj2 (Z.eqb_neq _ _) Hep), Hev, !Z.eqb_refl.
  rewrite (bool_decide_eq_true_2 _ Ht), (bool_decide_eq_true_2 (site_id s = site_id s)) by done. cbn [negb orb].
  unfold digest_differs. change (snap_site_digest (seal_digests _ _)) with (composed_site_digest s).
  rewrite bool_decide_eq_true_2 by done. cbn [negb]. by rewrite andb_false_r.
Qed.

(** [commit_snapshot] takes the generation and keeps books. *)
Lemma commit_booked io gen s out c :
  pr_status (commit_snapshot io gen s out c).1 = pr_status out
  ∧ booked (set_generation gen c) (commit_snapshot io gen s out c).2.
Proof.
  unfold commit_snapshot. cbv zeta. set (c1 := bump SnapshotsPublished (set_generation gen c)).
  assert (booked (set_generation gen c) c1) as H by apply bump_booked.
  destruct (ct_store c1); [|by split]. set (e := ESnapshot _). pose proof (persist_booked io e c1) as Hp.
  destruct (persist io e c1) as [persisted c2]. cbn [snd] in Hp. destruct (is_ok persisted); (split; [done|]); by etrans.
Qed.

Lemma offer_published io now gen t s c :
  is_valid_identifier (site_id s) = true → site_epoch s ≠ 0 → tok_site t = site_id s → is_ok (evaluate_at t now) = true →
  0 < ch_limit (ct_chain c) → (∀ cur, Snapshot.current (ct_chain c) = Some cur → advances t cur) →
  let '(r, c') := offer_snapshot io now gen t s c in
  pr_status r = Status.PUBLISHED ∧ untouched c c' ∧ ct_epoch c' = ct_epoch c ∧ ct_site_generation c' = gen
  ∧ ch_limit (ct_chain c') = ch_limit (ct_chain c)
  ∧ ∃ q, Snapshot.current (ct_chain c') = Some (published_as now s q).
Proof.
  intros Hid Hep Ht Hev Hlim Hadv. unfold offer_snapshot. rewrite recompute_fresh.
  change (negb (is_ok Status.OK)) with false. cbv iota beta zeta.
  pose proof (publish_advances _ t now (ct_chain c) (check_fresh now s t Hid Hep Ht Hev) Hlim Hadv) as Hp.
  destruct (Snapshot.publish _ t now (ct_chain c)) as [out ch']. destruct Hp as (Hst & Hl & q & Hq). rewrite Hst.
  change (negb (is_ok Status.PUBLISHED) && negb (bool_decide (Status.PUBLISHED = Status.ALREADY_EXISTS))) with false.
  change (negb (bool_decide (Status.PUBLISHED = Status.ALREADY_EXISTS))) with true. cbv iota.
  set (snapshot := seal_digests _ _). pose proof (commit_booked io gen snapshot out (set_chain ch' c)) as [Hr Hb].
  destruct (commit_snapshot io gen snapshot out (set_chain ch' c)) as [r c']. cbn [fst snd] in Hr, Hb.
  destruct Hb as (Hu & Hch & He & Hg). split; [by rewrite Hr|]. split.
  { etrans; [|exact Hu]. by destruct c. }
  destruct c. cbn in Hch, He, Hg, Hl |- *. rewrite Hch, He, Hg. split_and!; [done..|]. by exists q.
Qed.

(** * The invariant *)

(** The published snapshot is from before the controller's term, or its own and no newer than
    its generation. *)
Definition chain_in_term (c : controller) : Prop :=
  ∀ cur, Snapshot.current (ct_chain c) = Some cur →
    snap_epoch cur < ct_epoch c
    ∨ snap_epoch cur = ct_epoch c ∧ snap_incarnation cur = ct_incarnation c ∧ snap_generation cur ≤ ct_site_generation c.

Record in_term (c : controller) : Prop := InTerm {
  term_named : cc_id (ct_config c) ≠ ""%string ∧ 0 < cc_lease_ttl_ms (ct_config c);
  term_generation : 0 ≤ ct_site_generation c ≤ max_value;
  term_epoch : current_epoch (cc_site (ct_config c)) (ct_authority c) = ct_epoch c;
  term_lease : ∃ l, leases (ct_authority c) !! own_key c = Some l ∧ own_lease c (ct_site_generation c + 1) l;
  term_limit : 0 < ch_limit (ct_chain c);
  term_chain : chain_in_term c;
}.

(** [c'] has the term of [c]: the fields the invariant reads agree. *)
Definition same_term (c c' : controller) : Prop :=
  ct_config c' = ct_config c ∧ ct_incarnation c' = ct_incarnation c ∧ ct_chain c' = ct_chain c
  ∧ ct_epoch c' = ct_epoch c ∧ ct_site_generation c' = ct_site_generation c
  ∧ leases (ct_authority c') = leases (ct_authority c) ∧ site_epochs (ct_authority c') = site_epochs (ct_authority c).

Lemma in_term_same c c' : same_term c c' → in_term c → in_term c'.
Proof.
  intros (Hcfg & Hi & Hch & He & Hg & Hl & Hs) [H1 H2 H3 H4 H5 H6].
  split; unfold own_key, own_lease, chain_in_term, current_epoch in *; by rewrite ?Hcfg, ?Hi, ?Hch, ?He, ?Hg, ?Hl, ?Hs.
Qed.

Lemma booked_same c c' : booked c c' → same_term c c'.
Proof. intros ((H1 & H2 & H3) & H4 & H5 & H6). split_and!; try done; by rewrite H3. Qed.

Lemma generation_next_below g : g < max_value → generation_next g = g + 1.
Proof. unfold generation_next. intros. destruct (Z.eqb_spec g max_value); lia. Qed.

(** What recomposition does in the controller's term. *)
Definition recomposed (now : Z) (c : controller) (r : publish_result) (c' : controller) : Prop :=
  match Compose.run (collect_input now c) with
  | Composed s =>
      pr_status r = Status.PUBLISHED ∧ ct_site_generation c' = ct_site_generation c + 1
      ∧ site_generation s = ct_site_generation c + 1 ∧ ∃ q, Snapshot.current (ct_chain c') = Some (published_as now s q)
  | Refused code => pr_status r = code ∧ ct_chain c' = ct_chain c ∧ ct_authority c' = ct_authority c
                    ∧ ct_site_generation c' = ct_site_generation c
  | Crashed => False
  end.

Lemma grants_evaluates c gen id now :
  cc_id (ct_config c) ≠ ""%string → is_valid_identifier (cc_site (ct_config c)) = true → ct_epoch c ≠ 0 →
  incarnation_valid (ct_incarnation c) = true → 0 < cc_lease_ttl_ms (ct_config c) → 0 < now → id ≠ 0 →
  evaluate_at (granted_token c gen id now) now = Status.OK.
Proof.
  intros. apply evaluate_at_ok. split; [by apply new_token_valid|]. cbn. lia.
Qed.

(** A controller whose lease was just granted for [gen] and whose chain it may advance. *)
Lemma finish_granted io now c s r c' :
  0 < ch_limit (ct_chain c) → cc_id (ct_config c) ≠ ""%string → 0 < cc_lease_ttl_ms (ct_config c) →
  Compose.run (collect_input now c) = Composed s → 0 ≤ ct_site_generation c < max_value → chain_in_term c →
  grants (bump Compositions c) (generation_next (ct_site_generation c)) now
    (acquire (bump Compositions c) (generation_next (ct_site_generation c)) now) →
  recompose io now c = Some (r, c') → recomposed now c r c' ∧ in_term c'.
Proof.
  intros Hlim Hid Httl Hrun Hg Hch (id & Hidne & Hgr & Hepoch & l & Hl & Hown) Hrec.
  pose proof (run_header _ _ Hrun) as (Hs & He & Hgen & Hi & Hsite & Hep & Hgne & Hinc & Hnow & _).
  cbn [in_site in_epoch in_generation in_incarnation in_now_ms collect_input] in Hs, He, Hgen, Hi, Hsite, Hep, Hgne, Hinc, Hnow.
  pose proof (generation_next_below _ (proj2 Hg)) as Hnext. rewrite Hnext in *.
  set (c1 := bump Compositions c) in *.
  assert (booked c c1) as ((Hcfg & Hci & Hca) & Hcc & Hce & Hcg) by apply bump_booked.
  unfold recomposed. rewrite Hrun. unfold recompose, finish_recompose in Hrec. rewrite Hrun in Hrec. cbv zeta in Hrec.
  fold c1 in Hrec. cbn [in_generation collect_input] in Hrec. rewrite Hnext in Hrec. unfold acquire in Hgr.
  destruct (acquire_site_authority _ _ _ _ _ _ _ _) as [[acquired granted] authority] eqn:Ha. cbn [fst snd] in *.
  injection Hgr as -> ->. change (negb (is_ok Status.GRANTED)) with false in Hrec. cbv iota in Hrec.
  set (t := granted_token _ _ _ _) in Hrec. change (default no_token (Some t)) with t in Hrec. apply (inj Some) in Hrec.
  unfold acquire in Hepoch, Hl. rewrite Ha in Hepoch, Hl. cbn [snd] in Hepoch, Hl.
  pose proof (offer_published io now (ct_site_generation c + 1) t s (set_token t (set_authority authority c1))) as Ho.
  rewrite Hrec in Ho. rewrite Hs, He in Ho.
  destruct Ho as (Hst & (Ho1 & Ho2 & Ho3) & Ho4 & Ho5 & Ho6 & q & Ho7).
  - exact Hsite.
  - exact Hep.
  - unfold t, granted_token. cbn. by rewrite Hcfg.
  - unfold t. rewrite grants_evaluates; by rewrite ?Hcfg, ?Hce, ?Hci.
  - by destruct c.
  - intros cur Hcur. replace (ct_chain (set_token _ _)) with (ct_chain c) in Hcur by (by destruct c).
    unfold advances, t, granted_token. cbn [tok_epoch tok_incarnation tok_generation]. rewrite Hce, Hci.
    destruct (Hch cur Hcur) as [?|(-> & -> & ?)]; [by left|right]. split; [done|]. right. split; [done|lia].
  - split; [split_and!; [done|done|done|by exists q]|].
    replace (ct_config (set_token _ _)) with (ct_config c) in Ho1 by (by destruct c).
    replace (ct_incarnation (set_token _ _)) with (ct_incarnation c) in Ho2 by (by destruct c).
    replace (ct_authority (set_token _ _)) with authority in Ho3 by (by destruct c).
    replace (ct_epoch (set_token _ _)) with (ct_epoch c) in Ho4 by (by destruct c).
    replace (ch_limit (ct_chain (set_token _ _))) with (ch_limit (ct_chain c)) in Ho6 by (by destruct c).
    unfold own_key, own_lease in *. rewrite Hcfg, ?Hci, ?Hce in *.
    split; unfold own_key, own_lease, chain_in_term; rewrite ?Ho1, ?Ho2, ?Ho3, ?Ho4, ?Ho5, ?Ho6.
    + done.
    + lia.
    + done.
    + exists l. split; [done|]. split_and!; try apply Hown. destruct Hown as (_ & _ & _ & _ & _ & _ & ?). lia.
    + done.
    + intros cur. rewrite Ho7. intros [= <-]. right. unfold published_as. cbn. rewrite He, Hi, Hgen. done.
Qed.

Lemma recompose_refused io now c code :
  Compose.run (collect_input now c) = Refused code →
  recompose io now c = Some (refused_result code "compose", bump SnapshotsRefused (bump Compositions c)).
Proof. intros H. unfold recompose, finish_recompose. by rewrite H. Qed.

Lemma recompose_in_term io now c r c' :
  in_term c → ct_site_generation c < max_value → recompose io now c = Some (r, c') →
  recomposed now c r c' ∧ in_term c'.
Proof.
  intros Hterm Hlt Hrec. pose proof Hterm as [[Hid Httl] Hg Hep (l & Hl & Hown) Hlim Hch].
  destruct (Compose.run (collect_input now c)) as [s|code|] eqn:Hrun.
  - apply (finish_granted io now c s r c'); try done; [lia|].
    pose proof (run_header _ _ Hrun) as (_ & _ & _ & _ & Hsite & He & _ & Hinc & Hnow & _).
    cbn [in_site in_epoch in_incarnation in_now_ms collect_input] in Hsite, He, Hinc, Hnow.
    rewrite (generation_next_below _ Hlt). destruct c. by apply (acquire_own _ _ _ l).
  - rewrite (recompose_refused _ _ _ _ Hrun) in Hrec. apply some_pair in Hrec as [<- <-].
    assert (booked c (bump SnapshotsRefused (bump Compositions c))) as Hb by (etrans; apply bump_booked).
    unfold recomposed. rewrite Hrun. split; [|eapply in_term_same; [by apply booked_same|done]].
    destruct Hb as ((_ & _ & ?) & ? & _ & ?). done.
  - unfold recompose, finish_recompose in Hrec. by rewrite Hrun in Hrec.
Qed.

(** * The start of a term *)

(** A controller as [create] makes it, beside the file of its store. *)
Definition fresh (cfg : controller_config) (boot : string) (f : option bytes) (c : controller) : Prop :=
  ∃ c0, create cfg boot = Ok c0 ∧ c = set_store None f c0.

Lemma fresh_fields cfg boot f c :
  fresh cfg boot f c → 0 ≤ cc_snapshot_history cfg →
  ct_authority c = empty_registry ∧ ch_history (ct_chain c) = [] ∧ 0 < ch_limit (ct_chain c)
  ∧ ct_store c = None ∧ ct_file c = f ∧ ct_running c = false ∧ ct_epoch c = 0 ∧ ct_site_generation c = 0
  ∧ ct_publications c = [] ∧ ct_retirements c = [] ∧ ct_revoked c = [] ∧ ct_reconstructed c = []
  ∧ cc_site (ct_config c) = cc_site cfg ∧ cc_persistent (ct_config c) = cc_persistent cfg
  ∧ cc_store (ct_config c) = cc_store cfg ∧ cc_snapshot_history (ct_config c) = cc_snapshot_history cfg
  ∧ cc_id (ct_config c) = cc_id cfg ∧ cc_lease_ttl_ms (ct_config c) = cc_lease_ttl_ms cfg ∧ 0 < cc_lease_ttl_ms cfg.
Proof.
  intros (c0 & Hc & ->) Hh. unfold create in Hc.
  destruct (negb _); [done|]. destruct (Z.leb_spec (cc_lease_ttl_ms cfg) 0); [done|].
  destruct (_ || _); [done|]. destruct (_ <? _); [done|]. cbv zeta in Hc.
  destruct (expectation_canonicalize _) as [canonical e]. destruct (negb _); [done|]. injection Hc as <-.
  split_and!; try done. by apply clamp_limit_range.
Qed.

Lemma raise_epoch_mono e t : e ≤ raise_epoch e t.
Proof. unfold raise_epoch. destruct (bool_decide _); simpl; [|done]. destruct (Z.ltb_spec e (tok_epoch t)); lia. Qed.

Lemma raise_all_mono ts : ∀ e, e ≤ foldl raise_epoch e ts.
Proof.
  induction ts as [|t ts IH]; intros e; [done|]. simpl. pose proof (raise_epoch_mono e t). specialize (IH (raise_epoch e t)). lia.
Qed.

Lemma recover_registry_epoch contents c :
  ct_chain (recover_registry contents c) = ct_chain c
  ∧ ∀ s, latest_snapshot contents = Some s → snap_epoch s ≤ ct_epoch (recover_registry contents c).
Proof.
  unfold recover_registry. destruct (latest_snapshot contents) as [s|]; destruct c; (split; [done|]); [|done].
  intros s' [= <-]. cbn. apply raise_all_mono.
Qed.

(** Recovery leaves a chain whose snapshot is not from after the recovered epoch. *)
Lemma recover_chain env c c1 :
  ch_history (ct_chain c) = [] → 0 < ch_limit (ct_chain c) → recover env c = Ok c1 →
  0 < ch_limit (ct_chain c1) ∧ ∀ cur, Snapshot.current (ct_chain c1) = Some cur → snap_epoch cur ≤ ct_epoch c1.
Proof.
  intros Hh Hlim. assert (Snapshot.current (ct_chain c) = None) as Hcur by (unfold Snapshot.current; by rewrite Hh).
  unfold recover. destruct (negb _); [intros [= <-]; split; [done|]; by rewrite Hcur|]. cbv zeta.
  destruct (bool_decide _); [done|]. destruct (Store.open _ _ _) as [[opened st] f]. destruct (negb _); [done|].
  set (c2 := bump Recoveries _). assert (ct_chain c2 = ct_chain c) as Hc2 by (subst c2; by destruct c).
  set (contents := rc_contents _).
  assert (∀ n x, ct_chain (add_count n RecoveryRejections x) = ct_chain x ∧ ct_epoch (add_count n RecoveryRejections x) = ct_epoch x)
    as Hcount by (by intros n []).
  destruct (negb (recovers _)).
  { intros [= <-]. rewrite !(proj1 (Hcount _ _)), Hc2. split; [done|]. by rewrite Hcur. }
  pose proof (recover_registry_epoch contents) as Hreg. destruct (latest_snapshot contents) as [s|] eqn:Hs.
  - unfold restore. rewrite Hc2, Hh. destruct (_ || _); [done|]. destruct (negb _); [done|]. destruct (_ && _); [done|].
    change (negb (is_ok Status.OK)) with false. cbn [last]. cbv iota. intros [= <-].
    rewrite !(proj1 (Hcount _ _)), !(proj2 (Hcount _ _)).
    match goal with |- context [recover_registry contents ?x] => destruct (Hreg x) as [Hx He]; set (c3 := x) in * end.
    rewrite Hx. assert (ct_chain c3 = push s (ct_chain c)) as -> by (subst c3; by destruct c2).
    split; [done|]. unfold Snapshot.current, push. cbn [ch_history]. rewrite Hh. cbn [app]. intros cur Hcur'.
    destruct (trim_spec (ch_limit (ct_chain c)) [s]) as (_ & Hl & _); [done|done|]. rewrite Hl in Hcur'.
    injection Hcur' as <-. by apply He.
  - intros [= <-]. rewrite !(proj1 (Hcount _ _)). destruct (Hreg c2) as [-> _]. rewrite Hc2. split; [done|]. by rewrite Hcur.
Qed.

(** The first lease of an empty registry. *)
Lemma acquire_empty c gen now st t a :
  ct_authority c = empty_registry → 0 ≤ ct_epoch c → acquire c gen now = (st, t, a) → is_ok st = true →
  grants c gen now (st, t, a) ∧ cc_id (ct_config c) ≠ ""%string ∧ 0 < cc_lease_ttl_ms (ct_config c).
Proof.
  intros Hempty Hpos Ha Hok. unfold acquire in Ha.
  destruct (acquire_cases (cc_id (ct_config c)) (cc_site (ct_config c)) (ct_epoch c) (ct_incarnation c) gen now
    (cc_lease_ttl_ms (ct_config c)) (ct_authority c)) as [Hi|[(_ & _ & Hi)|(Hid & _ & _ & _ & Httl & _ & _ & Hi)]];
    rewrite Ha in Hi; [injection Hi as -> _ _; done..|].
  split; [|done]. rewrite Hempty in Hi. unfold acquire_lease, acquire_first, grant_new in Hi. cbn in Hi.
  rewrite !lookup_empty in Hi. injection Hi as -> -> ->. exists 1. split; [done|]. split; [done|].
  split.
  - unfold current_epoch. cbn. rewrite lookup_insert_eq. cbn. unfold current_epoch. cbn. rewrite lookup_empty. cbn. lia.
  - eexists. split; [cbn; by rewrite lookup_insert_eq|]. by split_and!.
Qed.

(** The widths of what was recovered: the counters are below the last values of their types. *)
Definition recovered_below (env : environment) (c : controller) : Prop :=
  ∀ c1, recover env c = Ok c1 → 0 ≤ ct_epoch c1 < max_value ∧ 0 ≤ ct_site_generation c1 < max_value.

(** [start] up to the moment its recomposition begins; [Err] is an early return. *)
Definition open_term (env : environment) (bound : status) (now : Z) (c : controller) : result (status * controller) controller :=
  if ct_running c then Err (Status.ALREADY_EXISTS, c)
  else match recover env c with
  | Err e => Err e
  | Ok c =>
      let c := set_term (ct_site_generation c) (ct_token c)
                 (if is_set (ct_epoch c) then epoch_next (ct_epoch c) else 1) c in
      let lease_generation := if is_set (ct_site_generation c) then ct_site_generation c else 1 in
      let '(acquired, granted, authority) :=
        acquire_site_authority (cc_id (ct_config c)) (cc_site (ct_config c)) (ct_epoch c) (ct_incarnation c)
          lease_generation now (cc_lease_ttl_ms (ct_config c)) (ct_authority c) in
      let c := set_token (default (ct_token c) granted) (set_authority authority c) in
      if negb (is_ok acquired) then Err (acquired, c)
      else if negb (is_ok bound) then Err (bound, c)
      else Ok (set_running true c)
  end.

Lemma start_open env io bound now later c :
  start env io bound now later c =
  match open_term env bound now c with
  | Err e => Some e
  | Ok c =>
      p ← recompose io later c;
      Some (Status.OK, if negb (is_ok (pr_status p.1)) && negb (bool_decide (pr_status p.1 = Status.NOT_FOUND))
                       then bump SnapshotsRefused p.2 else p.2)
  end.
Proof.
  unfold start, open_term. destruct (ct_running c); [done|]. destruct (recover env c) as [c1|[s c1]]; [|done]. cbv zeta.
  destruct (acquire_site_authority _ _ _ _ _ _ _ _) as [[acquired granted] authority].
  destruct (negb (is_ok acquired)); [done|]. by destruct (negb (is_ok bound)).
Qed.

(** A controller about to recompose for the first time is in its term. *)
Lemma open_in_term cfg boot f env bound now c c3 :
  fresh cfg boot f c → 0 ≤ cc_snapshot_history cfg → recovered_below env c →
  open_term env bound now c = Ok c3 → in_term c3 ∧ ct_site_generation c3 < max_value.
Proof.
  intros Hfresh Hhist Hbelow Hopen.
  destruct (fresh_fields _ _ _ _ Hfresh Hhist) as (Hauth & Hh & Hlim & _ & _ & Hrun & _).
  unfold open_term in Hopen. rewrite Hrun in Hopen. pose proof (recover_untouched env c) as Hu.
  pose proof (recover_chain env c) as Hrc. destruct (recover env c) as [c1|[s c1]] eqn:Hrec; [|done].
  destruct (Hbelow c1 Hrec) as [He Hg]. destruct Hu as (Hcfg & Hinc & Hca). destruct (Hrc c1 Hh Hlim eq_refl) as [Hl1 Hc1].
  cbv zeta in Hopen. set (e2 := if is_set (ct_epoch c1) then epoch_next (ct_epoch c1) else 1) in Hopen.
  assert (ct_epoch c1 < e2) as He2.
  { subst e2. unfold is_set, epoch_next. destruct (Z.eqb_spec (ct_epoch c1) 0); cbn [negb]; [lia|].
    destruct (Z.eqb_spec (ct_epoch c1) max_value); lia. }
  set (c2 := set_term _ _ e2 c1) in Hopen.
  assert (ct_config c2 = ct_config c1 ∧ ct_incarnation c2 = ct_incarnation c1 ∧ ct_authority c2 = ct_authority c1
    ∧ ct_chain c2 = ct_chain c1 ∧ ct_epoch c2 = e2 ∧ ct_site_generation c2 = ct_site_generation c1)
    as (H1 & H2 & H3 & H4 & H5 & H6) by (subst c2; by destruct c1).
  set (g := if is_set (ct_site_generation c2) then ct_site_generation c2 else 1) in Hopen.
  assert (g ≤ ct_site_generation c2 + 1) as Hg2.
  { subst g. unfold is_set. destruct (Z.eqb_spec (ct_site_generation c2) 0); cbn [negb]; lia. }
  fold (acquire c2 g now) in Hopen. destruct (acquire c2 g now) as [[acquired granted] authority] eqn:Ha.
  destruct (is_ok acquired) eqn:Hok; [|done]. destruct (is_ok bound) eqn:Hb; [|done]. cbn [negb] in Hopen.
  destruct (acquire_empty c2 g now acquired granted authority) as [Hgrants [Hid Httl]]; [congruence|lia|done|done|].
  destruct Hgrants as (id & _ & _ & Hepoch & l & Hl & Hown). cbn [snd] in Hepoch, Hl.
  set (c3' := set_running true _) in Hopen. injection Hopen as <-.
  assert (ct_config c3' = ct_config c2 ∧ ct_incarnation c3' = ct_incarnation c2 ∧ ct_authority c3' = authority
    ∧ ct_chain c3' = ct_chain c2 ∧ ct_epoch c3' = ct_epoch c2 ∧ ct_site_generation c3' = ct_site_generation c2)
    as (G1 & G2 & G3 & G4 & G5 & G6) by (subst c3'; by destruct c2).
  split; [|lia]. split; unfold own_key, own_lease, chain_in_term; rewrite ?G1, ?G2, ?G3, ?G4, ?G5, ?G6.
  - done.
  - lia.
  - done.
  - exists l. split; [done|]. split_and!; try apply Hown. destruct Hown as (_ & _ & _ & _ & _ & _ & ?). lia.
  - by rewrite H4.
  - intros cur Hcur. left. rewrite H4 in Hcur. specialize (Hc1 cur Hcur). lia.
Qed.
