(* ===== verification/Threads.v ===== *)
(** The controller's handler threads (src/controller/controller.cpp).

    Handlers and the host call the controller concurrently. No lock spans a whole entry point:
    each is a sequence of critical sections of the registry lock, the authority registry, the
    chain and the store, and those of different threads come in any order. A thread is what is
    left of an entry point, a [section] runs its next critical section, and a system is the
    controller with its threads. Work on a thread's own data is part of the section before or
    after it, and so are the counters, which are atomic and which no handler reads. A thread
    that runs alone does what the entry points of Controller.v do. *)

From stdpp Require Import sorting sets gmap.
From S2P Require Import Prelude Ordering Enums Sha256 Identity Canonical Evidence Capacity Claims Codec Canonicalize Authority Forest Site SiteCodec Snapshot StoreFormat Store Protocol Samples Admit Attribute Domains Maintenance Ledger Verdicts Compose Controller Execution Terms.

(** * Threads *)

(** The arguments of [publish], with the readings of the clock and the outcomes of appends. *)
Record submission := Submission {
  sb_io : entry → commit;
  sb_now : Z;
  sb_later : Z;
  sb_publisher : string;
  sb_incarnation : incarnation;
  sb_declaration : declaration;
  sb_attempt : publish_attempt;
}.

(** Where [recompose] returns to. *)
Inductive caller : Type :=
| InPublish (out : publish_response)
| InRetire (out : retire_response)
| InHost
| InSession
| InStart.

Inductive outcome : Type :=
| Published (out : publish_response)
| Retired (out : retire_response)
| Greeted (out : hello_response)
| Recomposed (r : publish_result)
| Refuses (code : status).

(** What a thread has still to do. *)
Inductive thread : Type :=
| PublishChecks (q : submission)
| PublishRegisters (q : submission) (sealed : declaration)
| PublishRecords (q : submission) (sealed : declaration) (record : publication_record)
| PublishPersists (q : submission) (record : publication_record)
| RetireChecks (io : entry → commit) (now later : Z) (request : retire_request)
| RetireRegisters (io : entry → commit) (now later : Z) (request : retire_request)
| RetireKills (io : entry → commit) (later : Z) (record : retirement_record)
| RetirePersists (io : entry → commit) (later : Z) (record : retirement_record)
| RetireBuries (io : entry → commit) (later : Z) (record : retirement_record) (persisted : status)
| RevokeAdds (io : entry → commit) (now : Z) (d : member_domain_key)
| HelloAdmits (now : Z) (q : hello_request)
| HelloForgets (q : hello_request) (assigned : Z)
| SessionRetires (io : entry → commit) (now later : Z) (d : member_domain_key) (i : incarnation)
| SessionBuries (io : entry → commit) (later : Z) (d : member_domain_key) (i : incarnation)
| SessionRemembers (io : entry → commit) (later : Z) (d : member_domain_key)
| Collects (io : entry → commit) (now : Z) (k : caller)
| Composes (io : entry → commit) (now : Z) (k : caller) (input : composition_input)
| Acquires (io : entry → commit) (now : Z) (k : caller) (gen : generation) (s : composed_site)
| Offers (io : entry → commit) (now : Z) (k : caller) (gen : generation) (t : token) (s : composed_site)
| Commits (io : entry → commit) (k : caller) (gen : generation) (snapshot : site_snapshot) (out : publish_result)
| Stamps (io : entry → commit) (k : caller) (snapshot : site_snapshot) (out : publish_result)
| Stores (io : entry → commit) (k : caller) (snapshot : site_snapshot) (out : publish_result)
| Returned (r : outcome).

(** What the entry point does with the result of [recompose], and returns. *)
Definition returns (k : caller) (r : publish_result) (c : controller) : outcome * controller :=
  let composed := pr_status r in
  match k with
  | InPublish out =>
      (Published
         (if is_ok composed && accepted r then
            PublishResponse (pp_status out) (pp_site out) (pp_epoch out) (ct_site_generation c)
              (pp_acceptance_sequence out) true (pp_factors out)
          else if negb (is_ok composed) then
            with_status (pp_status out) (factors_add_pair "recompose" (to_string composed) (pp_factors out)) out
          else out), c)
  | InRetire out =>
      (Retired (RetireResponse (rp_status out) (rp_site out) (rp_epoch out) (rp_acceptance_sequence out)
                  (note_persisted "recompose" composed (rp_factors out))), c)
  | InHost => (Recomposed r, c)
  | InSession => (Recomposed r, if is_ok composed then c else bump SnapshotsRefused c)
  | InStart =>
      (Recomposed r, if negb (is_ok composed) && negb (bool_decide (composed = Status.NOT_FOUND))
                     then bump SnapshotsRefused c else c)
  end.

Definition leave (k : caller) (r : publish_result) (c : controller) : option (thread * controller) :=
  let '(o, c) := returns k r c in Some (Returned o, c).

(** [compose_on_publish]. *)
Definition then_recompose (io : entry → commit) (later : Z) (k : caller) (o : outcome) (c : controller) : thread :=
  if cc_compose_on_publish (ct_config c) then Collects io later k else Returned o.

(** What [publish] offers for a sealed declaration. *)
Definition offer_of (q : submission) (sealed : declaration) : offer :=
  Offer (decl_observed_epoch (sb_declaration q)) (sb_incarnation q) (decl_generation sealed) (decl_digest sealed) (sb_attempt q).

(** ** The critical sections *)

(** [publish]: the fence. *)
Definition publish_checks (q : submission) (c : controller) : thread * controller :=
  match check_publication (sb_incarnation q) (sb_declaration q) (sb_attempt q) c with
  | Err (code, f) =>
      let refused := bump PublicationsRefused c in
      (Returned (Published (with_status code f (publish_reply c))),
       if is_replay code then bump PublicationsReplayed refused else refused)
  | Ok sealed => (PublishRegisters q sealed, c)
  end.

(** [publish]: the registry lock. *)
Definition publish_registers (q : submission) (sealed : declaration) (c : controller) : thread * controller :=
  let record := record_of (sb_publisher q) (sb_incarnation q) (sb_declaration q) sealed (sb_attempt q) (sb_now q)
                  (next_acceptance c) (cc_retain_declarations (ct_config c)) in
  (PublishRecords q sealed record,
   set_registry (om_set (pub_domain record) record (ct_publications c)) (ct_retirements c) (ct_revoked c)
     (forget (pub_domain record) (ct_reconstructed c)) (pub_acceptance_sequence record) c).

(** [publish]: the authority. *)
Definition publish_records (q : submission) (sealed : declaration) (record : publication_record) (c : controller)
    : thread * controller :=
  (PublishPersists q record,
   set_authority (record_publication (decl_domain sealed) (offer_of q sealed) (sb_now q) (ct_authority c)).2 c).

(** [publish]: the store, and the reply. *)
Definition publish_persists (q : submission) (record : publication_record) (c : controller) : thread * controller :=
  let '(persisted, c) := persist (sb_io q) (EPublication record) c in
  let c := bump PublicationsAccepted c in
  let out := PublishResponse Status.ACCEPTED (cc_site (ct_config c)) (ct_epoch c) (ct_site_generation c)
               (pub_acceptance_sequence record) false (note_persisted "persist_publication" persisted no_factors) in
  (then_recompose (sb_io q) (sb_later q) (InPublish out) (Published out) c, c).

Definition retire_checks (io : entry → commit) (now later : Z) (request : retire_request) (c : controller) : thread :=
  if negb (mdk_valid (rq_domain request)) then Returned (Retired (retire_reply Status.INVALID no_factors 0 c))
  else if negb (member_incarnation_live (rq_domain request) (rq_incarnation request) (ct_authority c))
  then Returned (Retired (retire_reply Status.FENCED_INCARNATION no_factors 0 c))
  else RetireRegisters io now later request.

Definition retire_registers (io : entry → commit) (now later : Z) (request : retire_request) (c : controller)
    : thread * controller :=
  let record := MemberRetirementRecord (rq_domain request) (rq_generation request) (rq_incarnation request) now
                  (next_acceptance c) (rq_reason request) in
  (RetireKills io later record,
   set_registry (ct_publications c) (ct_retirements c ++ [record]) (ct_revoked c)
     (forget (rq_domain request) (ct_reconstructed c)) (ret_acceptance_sequence record) c).

Definition retire_buries (io : entry → commit) (later : Z) (record : retirement_record) (persisted : status)
    (c : controller) : thread * controller :=
  let '(tombstoned, c) := persist io (ETombstone (tombstone_of (ret_domain record) (ret_incarnation record))) c in
  let f := note_persisted "persist_tombstone" tombstoned (note_persisted "persist_retirement" persisted no_factors) in
  let c := bump RetirementsAccepted c in
  let out := retire_reply Status.ACCEPTED f (ret_acceptance_sequence record) c in
  (then_recompose io later (InRetire out) (Retired out) c, c).

(** [respond_hello] once the request is decoded: the admission. *)
Definition hello_admits (now : Z) (q : hello_request) (c : controller) : thread * controller :=
  let refuse code f c := (Returned (Greeted (hello_reply code 0 0 f c)), bump HelloRefused c) in
  if negb (bool_decide (hq_site q = cc_site (ct_config c)))
  then refuse Status.SITE_MISMATCH (factors_add_pair "site" (hq_site q) no_factors) c
  else if ct_epoch c <? hq_observed_epoch q
  then refuse Status.EPOCH_MISMATCH (factors_add_pair "observed_epoch" (dec (hq_observed_epoch q)) no_factors) c
  else
    let '(admitted, assigned, authority) := admit_member_incarnation (hq_domain q) (hq_incarnation q) now (ct_authority c) in
    let c := set_authority authority c in
    if negb (is_ok admitted) && negb (bool_decide (admitted = Status.ALREADY_EXISTS)) then refuse admitted no_factors c
    else (HelloForgets q (default 0 assigned), bump HelloAccepted c).

(** [recompose]: the composer runs on the thread's own input; [None] is its crash. *)
Definition composes (io : entry → commit) (now : Z) (k : caller) (input : composition_input) (c : controller)
    : option (thread * controller) :=
  let c := bump Compositions c in
  match Compose.run input with
  | Crashed => None
  | Refused code => leave k (refused_result code "compose") (bump SnapshotsRefused c)
  | Composed s => Some (Acquires io now k (in_generation input) s, c)
  end.

(** [recompose]: the lease, under the authority's lock. *)
Definition acquires (io : entry → commit) (now : Z) (k : caller) (gen : generation) (s : composed_site) (c : controller)
    : option (thread * controller) :=
  let '(acquired, granted, authority) :=
    acquire_site_authority (cc_id (ct_config c)) (cc_site (ct_config c)) (ct_epoch c) (ct_incarnation c) gen now
      (cc_lease_ttl_ms (ct_config c)) (ct_authority c) in
  let c := set_authority authority c in
  if negb (is_ok acquired) then leave k (refused_result acquired "authority") (bump SnapshotsRefused c)
  else let t := default no_token granted in Some (Offers io now k gen t s, set_token t c).

(** [recompose]: the chain's lock. *)
Definition offers (io : entry → commit) (now : Z) (k : caller) (gen : generation) (t : token) (s : composed_site)
    (c : controller) : option (thread * controller) :=
  let '(digest_status, snapshot) := recompute_digest (snapshot_of now s) in
  if negb (is_ok digest_status) then leave k (SnapshotPublishResult digest_status 0 no_factors) (bump SnapshotsRefused c)
  else
    let '(out, chain) := Snapshot.publish snapshot t now (ct_chain c) in
    let c := set_chain chain c in
    let published := pr_status out in
    if negb (is_ok published) && negb (bool_decide (published = Status.ALREADY_EXISTS))
    then leave k out (bump SnapshotsRefused c)
    else if negb (bool_decide (published = Status.ALREADY_EXISTS)) then Some (Commits io k gen snapshot out, c)
    else leave k out c.

(** [recompose]: the stamped copy, read back from the chain, is stored. *)
Definition stamps (io : entry → commit) (k : caller) (snapshot : site_snapshot) (out : publish_result) (c : controller)
    : option (thread * controller) :=
  let snapshot := default snapshot (Snapshot.current (ct_chain c)) in
  match ct_store c with
  | None => leave k out c
  | Some _ => Some (Stores io k snapshot out, c)
  end.

Definition stores (io : entry → commit) (k : caller) (snapshot : site_snapshot) (out : publish_result) (c : controller)
    : option (thread * controller) :=
  let '(persisted, c) := persist io (ESnapshot snapshot) c in
  leave k (if is_ok persisted then out
           else SnapshotPublishResult (pr_status out) (pr_sequence out)
                  (factors_add_pair "persist_snapshot" (to_string persisted) (pr_factors out))) c.

(** The next critical section of a thread; [None] is the composer's crash. *)
Definition section (t : thread) (c : controller) : option (thread * controller) :=
  match t with
  | PublishChecks q => Some (publish_checks q c)
  | PublishRegisters q sealed => Some (publish_registers q sealed c)
  | PublishRecords q sealed record => Some (publish_records q sealed record c)
  | PublishPersists q record => Some (publish_persists q record c)
  | RetireChecks io now later request => Some (retire_checks io now later request c, c)
  | RetireRegisters io now later request => Some (retire_registers io now later request c)
  | RetireKills io later record =>
      Some (RetirePersists io later record,
            set_authority (retire_member_incarnation (ret_domain record) (ret_incarnation record) (ret_received_at_ms record)
                             (ct_authority c)).2 c)
  | RetirePersists io later record =>
      let '(persisted, c) := persist io (ERetirement record) c in Some (RetireBuries io later record persisted, c)
  | RetireBuries io later record persisted => Some (retire_buries io later record persisted c)
  | RevokeAdds io now d =>
      if negb (mdk_valid d) then Some (Returned (Refuses Status.INVALID), c)
      else Some (Collects io now InHost,
                 set_registry (ct_publications c) (ct_retirements c) (remember d (ct_revoked c)) (ct_reconstructed c)
                   (ct_acceptance_sequence c) c)
  | HelloAdmits now q => Some (hello_admits now q c)
  | HelloForgets q assigned =>
      let c := set_registry (ct_publications c) (ct_retirements c) (ct_revoked c)
                 (forget (hq_domain q) (ct_reconstructed c)) (ct_acceptance_sequence c) c in
      Some (Returned (Greeted (hello_reply Status.OK assigned (ct_site_generation c) no_factors c)), c)
  | SessionRetires io now later d i =>
      Some (SessionBuries io later d i, set_authority (retire_member_incarnation d i now (ct_authority c)).2 c)
  | SessionBuries io later d i =>
      let '(persisted, c) := persist io (ETombstone (tombstone_of d i)) c in
      Some (SessionRemembers io later d, if is_ok persisted then c else bump RecoveryRejections c)
  | SessionRemembers io later d =>
      Some (Collects io later InSession,
            set_registry (ct_publications c) (ct_retirements c) (ct_revoked c) (remember d (ct_reconstructed c))
              (ct_acceptance_sequence c) c)
  | Collects io now k => Some (Composes io now k (collect_input now c), c)
  | Composes io now k input => composes io now k input c
  | Acquires io now k gen s => acquires io now k gen s c
  | Offers io now k gen t s => offers io now k gen t s c
  | Commits io k gen snapshot out => Some (Stamps io k snapshot out, bump SnapshotsPublished (set_generation gen c))
  | Stamps io k snapshot out => stamps io k snapshot out c
  | Stores io k snapshot out => stores io k snapshot out c
  | Returned r => Some (Returned r, c)
  end.

(** * Systems *)

Record system := System {
  sy_controller : controller;
  sy_threads : gmap nat thread;
}.

(** The entry points of handlers and of the host. *)
Definition entry_point (t : thread) : bool :=
  match t with
  | PublishChecks _ | RetireChecks _ _ _ _ | RevokeAdds _ _ _ | HelloAdmits _ _ | SessionRetires _ _ _ _ _
  | Collects _ _ InHost => true
  | _ => false
  end.

Definition returned (t : thread) : bool := match t with Returned _ => true | _ => false end.

(** A thread enters the controller, or runs its next critical section; and the host's calls
    that wait for every handler, or come before them. *)
Inductive happening : Type :=
| Enters (i : nat) (t : thread)
| Runs (i : nat)
| Halts
| Closes (flushed : bool)
| Opens (env : environment) (io : entry → commit) (bound : status) (now later : Z) (i : nat).

Definition all_returned (s : system) : bool := bool_decide (map_Forall (λ _ t, returned t = true) (sy_threads s)).

Definition happen (s : system) (h : happening) : option system :=
  let c := sy_controller s in
  let ts := sy_threads s in
  match h with
  | Enters i t =>
      Some (if entry_point t && from_option returned true (ts !! i) then System c (<[i := t]> ts) else s)
  | Runs i =>
      match ts !! i with
      | None => Some s
      | Some t => '(t, c) ← section t c; Some (System c (<[i := t]> ts))
      end
  | Halts => Some (System (set_running false c) ts)
  | Closes flushed => Some (if all_returned s then System (stop flushed c).2 ts else s)
  | Opens env io bound now later i =>
      Some (if all_returned s then
              match open_term env bound now c with
              | Err (_, c) => System c ts
              | Ok c => System c (<[i := Collects io later InStart]> ts)
              end
            else s)
  end.

Definition happens (s : system) (hs : list happening) : option system := foldl (λ s h, s ≫= λ s, happen s h) (Some s) hs.

(** A thread with the controller to itself. *)
Fixpoint alone (fuel : nat) (t : thread) (c : controller) : option (thread * controller) :=
  match fuel with
  | 0%nat => Some (t, c)
  | S fuel => p ← section t c; alone fuel p.1 p.2
  end.
(** The sections of the longest entry points, [publish] and [retire] that recompose. *)
Definition whole : nat := 12.

(** * A thread alone *)

Lemma alone_returned n r c : alone n (Returned r) c = Some (Returned r, c).
Proof. induction n as [|n IH]; [done|]. exact IH. Qed.

Lemma alone_leave n k r c : (p ← leave k r c; alone n p.1 p.2) = leave k r c.
Proof. unfold leave. destruct (returns k r c) as [o c']. apply alone_returned. Qed.

Lemma alone_commits n io k gen snapshot out c :
  alone (3 + n) (Commits io k gen snapshot out) c
  = let '(r, c) := commit_snapshot io gen snapshot out c in leave k r c.
Proof.
  cbn [Nat.add alone section mbind option_bind fst snd]. unfold commit_snapshot. cbv zeta.
  set (c1 := bump SnapshotsPublished (set_generation gen c)). unfold stamps.
  destruct (ct_store c1) eqn:Hst.
  - cbn [mbind option_bind fst snd section]. unfold stores. destruct (persist io _ c1) as [persisted c2].
    rewrite alone_leave. by destruct (is_ok persisted).
  - unfold leave at 1. destruct (returns k out c1) as [o c2] eqn:Er. cbn [mbind option_bind fst snd section].
    rewrite alone_returned. unfold leave. by rewrite Er.
Qed.

Lemma alone_offers n io now k gen t s c :
  alone (4 + n) (Offers io now k gen t s) c
  = let '(r, c) := offer_snapshot io now gen t s c in leave k r c.
Proof.
  change (alone (4 + n) (Offers io now k gen t s) c) with (p ← offers io now k gen t s c; alone (3 + n) p.1 p.2).
  unfold offers, offer_snapshot. destruct (recompute_digest _) as [ds snapshot].
  destruct (negb (is_ok ds)); [apply alone_leave|]. destruct (Snapshot.publish _ _ _ _) as [out chain]. cbv zeta.
  destruct (_ && _); [apply alone_leave|]. destruct (negb _); [apply alone_commits|apply alone_leave].
Qed.

(** A recomposition that nothing interleaves with is [recompose]. *)
Lemma alone_recomposes n io now k c :
  alone (7 + n) (Collects io now k) c = (p ← recompose io now c; leave k p.1 p.2).
Proof.
  change (alone (7 + n) (Collects io now k) c)
    with (p ← composes io now k (collect_input now c) c; alone (5 + n) p.1 p.2).
  unfold composes, recompose, finish_recompose. cbv zeta. set (c1 := bump Compositions c).
  destruct (Compose.run (collect_input now c)) as [s|code|]; [|apply alone_leave|done].
  cbn [mbind option_bind fst snd].
  change (alone (5 + n) (Acquires io now k ?g s) c1) with (p ← acquires io now k g s c1; alone (4 + n) p.1 p.2).
  unfold acquires. destruct (acquire_site_authority _ _ _ _ _ _ _ _) as [[acquired granted] authority].
  destruct (negb (is_ok acquired)); [apply alone_leave|]. cbn [mbind option_bind fst snd].
  rewrite alone_offers. by destruct (offer_snapshot _ _ _ _ _ _).
Qed.

Lemma alone_then n io later k o c :
  alone (7 + n) (then_recompose io later k o c) c
  = if negb (cc_compose_on_publish (ct_config c)) then Some (Returned o, c)
    else p ← recompose io later c; leave k p.1 p.2.
Proof.
  unfold then_recompose. destruct (cc_compose_on_publish _); [apply alone_recomposes|apply alone_returned].
Qed.

(** So are the other entry points. *)
Lemma alone_publishes q c :
  alone whole (PublishChecks q) c
  = (p ← Controller.publish (sb_io q) (sb_now q) (sb_later q) (sb_publisher q) (sb_incarnation q) (sb_declaration q)
           (sb_attempt q) c;
     Some (Returned (Published p.1), p.2)).
Proof.
  change (alone whole (PublishChecks q) c) with (let p := publish_checks q c in alone 11 p.1 p.2).
  unfold publish_checks. destruct (check_publication _ _ _ c) as [sealed|[code f]] eqn:Hck.
  2: { unfold Controller.publish. rewrite Hck. cbv zeta. apply alone_returned. }
  rewrite (publish_accepted _ _ _ _ _ _ _ _ _ Hck). cbv zeta. cbn [fst snd].
  set (record := record_of _ _ _ _ _ _ _ _). fold (offer_of q sealed). set (c1 := accept_publication _ _ _ _).
  change (alone 11 (PublishRegisters q sealed) c) with (let p := publish_persists q record c1 in alone 8 p.1 p.2).
  unfold publish_persists. destruct (persist _ _ c1) as [persisted c2]. cbv zeta. cbn [fst snd].
  rewrite (alone_then 1). unfold after_publish. destruct (negb (cc_compose_on_publish _)); [done|].
  destruct (recompose _ _ _) as [[r c3]|]; [|done]. cbn [mbind option_bind fst snd]. unfold leave, returns. cbv zeta.
  destruct (_ && _); [done|]. by destruct (negb _).
Qed.

Lemma alone_retires io now later request c :
  alone whole (RetireChecks io now later request) c
  = (p ← Controller.retire io now later request c; Some (Returned (Retired p.1), p.2)).
Proof.
  change (alone whole (RetireChecks io now later request) c) with (alone 11 (retire_checks io now later request c) c).
  unfold retire_checks, Controller.retire. cbv zeta. destruct (negb (mdk_valid _)); [apply alone_returned|].
  destruct (negb _); [apply alone_returned|].
  set (record := MemberRetirementRecord _ _ _ _ _ _). set (c1 := set_authority _ _).
  change (alone 11 (RetireRegisters io now later request) c)
    with (p ← (let '(persisted, c) := persist io (ERetirement record) c1 in Some (RetireBuries io later record persisted, c));
          alone 8 p.1 p.2).
  destruct (persist _ _ c1) as [persisted c2]. cbn [mbind option_bind fst snd].
  change (alone 8 (RetireBuries io later record persisted) c2)
    with (let p := retire_buries io later record persisted c2 in alone 7 p.1 p.2).
  unfold retire_buries. cbn [ret_domain ret_incarnation ret_acceptance_sequence record].
  destruct (persist _ _ c2) as [tombstoned c3]. cbv zeta. cbn [fst snd]. rewrite (alone_then 0).
  destruct (negb (cc_compose_on_publish _)); [done|].
  by destruct (recompose _ _ _) as [[r c4]|].
Qed.

Lemma alone_revokes io now d c :
  alone whole (RevokeAdds io now d) c
  = if negb (mdk_valid d) then Some (Returned (Refuses Status.INVALID), c)
    else let c := set_registry (ct_publications c) (ct_retirements c) (remember d (ct_revoked c)) (ct_reconstructed c)
                    (ct_acceptance_sequence c) c in
         p ← recompose io now c; Some (Returned (Recomposed p.1), p.2).
Proof.
  unfold whole. cbn [alone section]. destruct (negb _); [apply (alone_returned 11)|]. cbv zeta. cbn [mbind option_bind fst snd].
  apply (alone_recomposes 4).
Qed.

Lemma alone_ends t se c :
  se_hello_done se = true →
  snd <$> alone whole (SessionRetires (mo_io t) (mo_now t) (mo_later t) (se_domain se) (se_incarnation se)) c
  = end_session t se c.
Proof.
  intros Hd. unfold end_session. rewrite Hd. cbn [negb]. cbv zeta. set (c1 := set_authority _ c).
  change (alone whole (SessionRetires (mo_io t) (mo_now t) (mo_later t) (se_domain se) (se_incarnation se)) c)
    with (p ← (let '(persisted, c) := persist (mo_io t) (ETombstone (tombstone_of (se_domain se) (se_incarnation se))) c1 in
               Some (SessionRemembers (mo_io t) (mo_later t) (se_domain se),
                     if is_ok persisted then c else bump RecoveryRejections c)); alone 10 p.1 p.2).
  destruct (persist _ _ c1) as [persisted c2]. cbn [mbind option_bind fst snd].
  set (c3 := if is_ok persisted then _ else _).
  match goal with |- context [recompose _ _ ?x] =>
    change (alone 10 (SessionRemembers (mo_io t) (mo_later t) (se_domain se)) c3)
      with (alone (7 + 2) (Collects (mo_io t) (mo_later t) InSession) x) end.
  rewrite alone_recomposes. by destruct (recompose _ _ _) as [[r c4]|].
Qed.

Lemma alone_hello t q payload se c :
  decode_message (A:=hello_request) payload = Ok q →
  ∃ out c', alone whole (HelloAdmits (mo_now t) q) c = Some (Returned (Greeted out), c')
    ∧ ∃ se', respond_hello t payload se c = answer (send_message (mo_sent t) out) se' c'.
Proof.
  intros Hq. unfold respond_hello. rewrite Hq.
  change (alone whole (HelloAdmits (mo_now t) q) c) with (let p := hello_admits (mo_now t) q c in alone 11 p.1 p.2).
  unfold hello_admits, refuse_hello. cbv zeta.
  assert (∀ code f x, hello_reply code 0 0 f x = hello_reply code 0 0 f (bump HelloRefused x)) as Hr by (by intros ?? []).
  destruct (negb _); [do 2 eexists; split; [apply alone_returned|]; rewrite <- Hr; by eexists|].
  destruct (_ <? _); [do 2 eexists; split; [apply alone_returned|]; rewrite <- Hr; by eexists|].
  destruct (admit_member_incarnation _ _ _ _) as [[admitted assigned] authority].
  destruct (_ && _); [do 2 eexists; split; [apply alone_returned|]; rewrite <- Hr; by eexists|].
  do 2 eexists. split; [apply (alone_returned 10)|]. eexists. do 2 f_equal.
Qed.

(** * What sections do to the registry *)

(** The publication a thread has yet to record: it passed the fence. *)
Definition pending (t : thread) : option (member_domain_key * offer) :=
  match t with
  | PublishRegisters q sealed | PublishRecords q sealed _ => Some (decl_domain sealed, offer_of q sealed)
  | _ => None
  end.

(** A section of [t] may make the call: only a thread with a pending publication records it. *)
Definition issues (c : controller) (t : thread) (o : op) : Prop :=
  own_call (ct_config c) (ct_incarnation c) o
  ∧ match o with Authority.Record d p _ => pending t = Some (d, p) | _ => True end.

Definition within (t : thread) (c c' : controller) : Prop :=
  untouched c c' ∨ ∃ o, issues c t o ∧ untouched (set_authority (apply_op (ct_authority c) o) c) c'.

Lemma returns_booked k r c : booked c (returns k r c).2.
Proof.
  destruct k; cbn; try done; [destruct (is_ok _)|destruct (_ && _)]; try done; apply bump_booked.
Qed.

Lemma leave_spec k r c t' c' : leave k r c = Some (t', c') → returned t' = true ∧ booked c c'.
Proof.
  unfold leave. pose proof (returns_booked k r c) as H. destruct (returns k r c) as [o c1].
  intros [<- <-]%some_pair. by split.
Qed.
Lemma leave_untouched k r c t' c' : leave k r c = Some (t', c') → untouched c c'.
Proof. intros [_ [? _]]%leave_spec. done. Qed.

Lemma acquires_within io now k gen s c t' c' :
  acquires io now k gen s c = Some (t', c') → within (Acquires io now k gen s) c c'.
Proof.
  unfold acquires. destruct (acquire_site_authority _ _ _ _ _ _ _ _) as [[acquired granted] authority] eqn:E.
  intros H. right. exists (Authority.Acquire (cc_id (ct_config c)) (cc_site (ct_config c)) (ct_epoch c) (ct_incarnation c) gen now
    (cc_lease_ttl_ms (ct_config c))).
  split; [by split|]. cbn [apply_op]. rewrite E. cbn [snd]. destruct (negb (is_ok acquired)).
  - apply leave_untouched in H. etrans; [apply bump_untouched|exact H].
  - apply some_pair in H as [_ <-]. apply set_term_untouched.
Qed.

Lemma offers_untouched io now k gen t s c t' c' : offers io now k gen t s c = Some (t', c') → untouched c c'.
Proof.
  unfold offers. destruct (recompute_digest _) as [ds snapshot].
  destruct (negb (is_ok ds)); [intros H%leave_untouched; etrans; [apply bump_untouched|exact H]|].
  destruct (Snapshot.publish _ _ _ _) as [out chain]. cbv zeta. destruct (_ && _).
  - intros H%leave_untouched. etrans; [apply set_chain_untouched|]. etrans; [apply bump_untouched|exact H].
  - destruct (negb _); [intros [_ <-]%some_pair; apply set_chain_untouched|].
    intros H%leave_untouched. etrans; [apply set_chain_untouched|exact H].
Qed.

Lemma composes_booked io now k input c t' c' : composes io now k input c = Some (t', c') → booked c c'.
Proof.
  unfold composes. cbv zeta. destruct (Compose.run input) as [s|code|]; [| |done].
  - intros [_ <-]%some_pair. apply bump_booked.
  - intros [_ H]%leave_spec. etrans; [apply bump_booked|]. etrans; [apply bump_booked|exact H].
Qed.

Lemma stores_booked io k snapshot out c t' c' : stores io k snapshot out c = Some (t', c') → booked c c'.
Proof.
  unfold stores. pose proof (persist_booked io (ESnapshot snapshot) c) as Hp. destruct (persist _ _ c) as [persisted c1].
  intros [_ H]%leave_spec. by etrans.
Qed.

(** The sections that are not part of a publication of a snapshot keep books, with at most one
    call of the registry that concerns a member. *)
Definition within_term (t : thread) (c c' : controller) : Prop :=
  booked c c' ∨ ∃ o, member_call o ∧ issues c t o ∧ booked (set_authority (apply_op (ct_authority c) o) c) c'.

Definition publishes (t : thread) : bool :=
  match t with Acquires _ _ _ _ _ | Offers _ _ _ _ _ _ | Commits _ _ _ _ _ => true | _ => false end.

Lemma within_call t o c c' :
  member_call o → issues c t o → booked (set_authority (apply_op (ct_authority c) o) c) c' → within_term t c c'.
Proof. intros. right. by exists o. Qed.

Lemma hello_within now q c : within_term (HelloAdmits now q) c (hello_admits now q c).2.
Proof.
  unfold hello_admits. cbv zeta. destruct (negb _); [left; apply bump_booked|].
  destruct (_ <? _); [left; apply bump_booked|].
  destruct (admit_member_incarnation _ _ _ _) as [[admitted assigned] authority] eqn:E.
  apply (within_call _ (Authority.Admit (hq_domain q) (hq_incarnation q) now)); [done|by split|]. cbn [apply_op]. rewrite E.
  cbn [snd]. destruct (_ && _); apply bump_booked.
Qed.

Lemma publish_checks_booked q c : booked c (publish_checks q c).2.
Proof.
  unfold publish_checks. destruct (check_publication _ _ _ c) as [sealed|[code f]]; [done|]. cbn [snd].
  destruct (is_replay code); [etrans|]; apply bump_booked.
Qed.

Lemma publish_persists_booked q record c : booked c (publish_persists q record c).2.
Proof.
  unfold publish_persists. pose proof (persist_booked (sb_io q) (EPublication record) c) as Hp.
  destruct (persist _ _ c) as [persisted c1]. etrans; [exact Hp|apply bump_booked].
Qed.

Lemma retire_buries_booked io later record persisted c : booked c (retire_buries io later record persisted c).2.
Proof.
  unfold retire_buries. pose proof (persist_booked io (ETombstone (tombstone_of (ret_domain record) (ret_incarnation record))) c) as Hp.
  destruct (persist _ _ c) as [tombstoned c1]. etrans; [exact Hp|apply bump_booked].
Qed.

Lemma stamps_booked io k snapshot out c t' c' : stamps io k snapshot out c = Some (t', c') → booked c c'.
Proof. unfold stamps. destruct (ct_store c); [by intros [_ <-]%some_pair|by intros [_ ?]%leave_spec]. Qed.

Lemma section_within_term t c t' c' : section t c = Some (t', c') → publishes t = false → within_term t c c'.
Proof.
  assert (∀ p (P : controller → Prop), P p.2 → Some p = Some (t', c') → P c') as Hsnd by (by intros p P HP [= ->]).
  destruct t; cbn [section]; intros H Hp; try discriminate Hp;
    try (left; apply some_pair in H as [_ <-]; reflexivity || apply set_registry_booked).
  - left. revert H. apply Hsnd, publish_checks_booked.
  - apply some_pair in H as [_ <-].
    apply (within_call _ (Authority.Record (decl_domain sealed) (offer_of q sealed) (sb_now q))); [done|by split|reflexivity].
  - left. revert H. apply Hsnd, publish_persists_booked.
  - apply some_pair in H as [_ <-].
    apply (within_call _ (Authority.Retire (ret_domain record) (ret_incarnation record) (ret_received_at_ms record)));
      [done|by split|reflexivity].
  - left. pose proof (persist_booked io (ERetirement record) c) as Hb. destruct (persist _ _ c) as [persisted c1].
    by apply some_pair in H as [_ <-].
  - left. revert H. apply Hsnd, retire_buries_booked.
  - left. destruct (negb _); apply some_pair in H as [_ <-]; [reflexivity|apply set_registry_booked].
  - revert H. apply Hsnd, hello_within.
  - apply some_pair in H as [_ <-]. apply (within_call _ (Authority.Retire d i now)); [done|by split|reflexivity].
  - left. pose proof (persist_booked io (ETombstone (tombstone_of d i)) c) as Hb. destruct (persist _ _ c) as [persisted c1].
    apply some_pair in H as [_ <-]. etrans; [exact Hb|]. destruct (is_ok persisted); [reflexivity|apply bump_booked].
  - left. by apply composes_booked in H.
  - left. by apply stamps_booked in H.
  - left. by apply stores_booked in H.
Qed.

Lemma section_within t c t' c' : section t c = Some (t', c') → within t c c'.
Proof.
  intros H. destruct (publishes t) eqn:Hp.
  - destruct t; try discriminate Hp; cbn [section] in H.
    + by apply acquires_within in H.
    + left. by apply offers_untouched in H.
    + left. apply some_pair in H as [_ <-]. etrans; [apply set_term_untouched|apply bump_untouched].
  - apply section_within_term in H as [[? _]|(o & _ & Ho & [? _])]; [by left|right; by exists o|done].
Qed.


(** A thread moves to a stage of a publication or of a recomposition only from the one before. *)
Definition staged (t : thread) : bool :=
  match t with
  | PublishRegisters _ _ | PublishRecords _ _ _ | Composes _ _ _ _ | Acquires _ _ _ _ _ | Offers _ _ _ _ _ _
  | Commits _ _ _ _ _ => true
  | _ => false
  end.

Inductive moves (c : controller) : thread → thread → controller → Prop :=
| MovesOn t t' c' : staged t' = false → moves c t t' c'
| Checked q sealed :
    check_publication (sb_incarnation q) (sb_declaration q) (sb_attempt q) c = Ok sealed →
    moves c (PublishChecks q) (PublishRegisters q sealed) c
| Registered q sealed record c' : moves c (PublishRegisters q sealed) (PublishRecords q sealed record) c'
| Collected io now k : moves c (Collects io now k) (Composes io now k (collect_input now c)) c
| HasComposed io now k input s c' :
    Compose.run input = Composed s → moves c (Composes io now k input) (Acquires io now k (in_generation input) s) c'
| Acquired io now k gen s token c' : moves c (Acquires io now k gen s) (Offers io now k gen token s) c'
| Offered io now k gen token s snapshot out c' :
    moves c (Offers io now k gen token s) (Commits io k gen snapshot out) c'.

Lemma section_moves t c t' c' : section t c = Some (t', c') → moves c t t' c'.
Proof.
  assert (∀ k r x, leave k r x = Some (t', c') → staged t' = false) as Hleave
    by (intros k r x [Hr _]%leave_spec; by destruct t').
  assert (∀ io later k r x, staged (then_recompose io later k (r : outcome) x) = false) as Hthen
    by (intros; unfold then_recompose; by destruct (cc_compose_on_publish _)).
  destruct t; cbn [section]; intros H;
    try (apply some_pair in H as [<- _]; apply MovesOn; reflexivity).
  - unfold publish_checks in H. destruct (check_publication _ _ _ c) as [sealed|[code f]] eqn:Hck;
      apply some_pair in H as [<- <-]; [by apply Checked|by apply MovesOn].
  - apply some_pair in H as [<- _]. apply Registered.
  - unfold publish_persists in H. destruct (persist _ _ c) as [persisted c1]. apply some_pair in H as [<- _]. apply MovesOn, Hthen.
  - apply some_pair in H as [<- _]. apply MovesOn. unfold retire_checks. destruct (negb _); [done|]. by destruct (negb _).
  - destruct (persist _ _ c) as [persisted c1]. apply some_pair in H as [<- _]. by apply MovesOn.
  - unfold retire_buries in H. destruct (persist _ _ c) as [persisted0 c1]. apply some_pair in H as [<- _]. apply MovesOn, Hthen.
  - apply MovesOn. destruct (negb _); by apply some_pair in H as [<- _].
  - apply MovesOn. unfold hello_admits in H. cbv zeta in H. destruct (negb _); [by apply some_pair in H as [<- _]|].
    destruct (_ <? _); [by apply some_pair in H as [<- _]|].
    destruct (admit_member_incarnation _ _ _ _) as [[admitted assigned'] authority].
    destruct (_ && _); by apply some_pair in H as [<- _].
  - destruct (persist _ _ c) as [persisted c1]. apply some_pair in H as [<- _]. by apply MovesOn.
  - apply some_pair in H as [<- <-]. apply Collected.
  - unfold composes in H. cbv zeta in H. destruct (Compose.run input) eqn:Hrun; [|by eapply MovesOn, Hleave|done].
    apply some_pair in H as [<- _]. by apply HasComposed.
  - unfold acquires in H. destruct (acquire_site_authority _ _ _ _ _ _ _ _) as [[acquired granted] authority].
    destruct (negb (is_ok acquired)); [by eapply MovesOn, Hleave|]. apply some_pair in H as [<- _]. apply Acquired.
  - unfold offers in H. destruct (recompute_digest _) as [ds snapshot]. destruct (negb (is_ok ds)); [by eapply MovesOn, Hleave|].
    destruct (Snapshot.publish _ _ _ _) as [out chain]. cbv zeta in H. destruct (_ && _); [by eapply MovesOn, Hleave|].
    destruct (negb _); [apply some_pair in H as [<- _]; apply Offered|by eapply MovesOn, Hleave].
  - unfold stamps in H. destruct (ct_store c); [apply some_pair in H as [<- _]; by apply MovesOn|by eapply MovesOn, Hleave].
  - unfold stores in H. destruct (persist _ _ c) as [persisted c1]. by eapply MovesOn, Hleave.
Qed.

(** A publication becomes pending when it passes the check, and stays so until it is recorded. *)
Lemma section_next t c t' c' :
  section t c = Some (t', c') →
  pending t' = None
  ∨ (∃ q sealed, t = PublishChecks q ∧ t' = PublishRegisters q sealed ∧ c' = c
       ∧ check_publication (sb_incarnation q) (sb_declaration q) (sb_attempt q) c = Ok sealed)
  ∨ (∃ q sealed record, t = PublishRegisters q sealed ∧ t' = PublishRecords q sealed record).
Proof.
  intros H%section_moves. destruct H as [t t' c' Hs|q sealed Hck|q sealed record c'| | | |]; try (by left).
  - left. by destruct t'.
  - right. left. by exists q, sealed.
  - right. right. by exists q, sealed, record.
Qed.

(** * Publications *)

(** A pending publication: it was sealed and its offer well-formed, and its sender was the live
    incarnation when it was asked, so that it still is or is dead for good. *)
Definition ticket_ok (r : registry) (t : thread) : Prop :=
  match t with
  | PublishRegisters q sealed | PublishRecords q sealed _ =>
      seal (sb_declaration q) = (Status.OK, sealed) ∧ mdk_valid (decl_domain sealed) = true
      ∧ is_set (decl_generation sealed) = true ∧ digest_is_zero (decl_digest sealed) = false
      ∧ held (decl_domain sealed) (sb_incarnation q) (λ _, True) r
  | _ => True
  end.
Definition tickets_ok (s : system) : Prop := map_Forall (λ _, ticket_ok (ct_authority (sy_controller s))) (sy_threads s).

Lemma own_held cfg i d j r o :
  own_call cfg i o → held d j (λ _, True) r → held d j (λ _, True) (apply_op r o).
Proof.
  intros Ho Hh. destruct o; try done; try (refine (held_step d j _ r _ _ Hh); exact I).
  cbn [apply_op]. by apply (held_record _ _ (λ _, True) (λ _, True)).
Qed.

Lemma within_held d j t c c' :
  within t c c' → held d j (λ _, True) (ct_authority c) → held d j (λ _, True) (ct_authority c').
Proof.
  intros [(_ & _ & ->)|(o & [Ho _] & _ & _ & Ha)] Hh; [done|].
  replace (ct_authority c') with (apply_op (ct_authority c) o) by (by rewrite Ha; destruct c).
  by eapply own_held.
Qed.

Lemma ticket_mono t r r' :
  (∀ d j, held d j (λ _, True) r → held d j (λ _, True) r') → ticket_ok r t → ticket_ok r' t.
Proof. intros H. destruct t; try done; intros (? & ? & ? & ? & ?); split_and!; auto. Qed.

Lemma open_within env bound now c t :
  match open_term env bound now c with Ok c' | Err (_, c') => within t c c' end.
Proof.
  unfold open_term. destruct (ct_running c); [by left|]. pose proof (recover_untouched env c) as Hu.
  destruct (recover env c) as [c1|[s c1]]; [|by left]. cbv zeta. set (c2 := set_term _ _ _ c1).
  assert (untouched c c2) as (Hcfg & Hinc & Ha) by (etrans; [exact Hu|apply set_term_untouched]).
  destruct (acquire_site_authority _ _ _ _ _ _ _ _) as [[acquired granted] authority] eqn:E.
  set (c3 := set_token _ _).
  assert (within t c c3) as H3.
  { right. exists (Authority.Acquire (cc_id (ct_config c2)) (cc_site (ct_config c2)) (ct_epoch c2) (ct_incarnation c2)
      (if is_set (ct_site_generation c2) then ct_site_generation c2 else 1) now (cc_lease_ttl_ms (ct_config c2))).
    split; [split; [|done]; cbn; by rewrite Hcfg|]. cbn [apply_op]. rewrite <- Ha, E. cbn [snd]. subst c3.
    split_and!.
    - transitivity (ct_config c2); [by destruct c2|]. rewrite Hcfg. by destruct c.
    - transitivity (ct_incarnation c2); [by destruct c2|]. rewrite Hinc. by destruct c.
    - by destruct c2, c. }
  destruct (negb (is_ok acquired)); [exact H3|]. destruct (negb (is_ok bound)); [exact H3|].
  destruct H3 as [H3|(o & Ho & H3)]; [left|right; exists o; split; [exact Ho|]]; (etrans; [exact H3|apply set_running_untouched]).
Qed.

(** What happens is a section of one thread, or leaves the registry to a thread without a
    pending publication. *)
Lemma happen_cases s h s' :
  happen s h = Some s' →
  (∃ i t t', h = Runs i ∧ sy_threads s !! i = Some t ∧ section t (sy_controller s) = Some (t', sy_controller s')
     ∧ sy_threads s' = <[i := t']> (sy_threads s))
  ∨ (∀ t, within t (sy_controller s) (sy_controller s'))
    ∧ (sy_threads s' = sy_threads s ∨ ∃ i t, sy_threads s' = <[i := t]> (sy_threads s) ∧ pending t = None
         ∧ from_option returned true (sy_threads s !! i) = true).
Proof.
  destruct h as [i t|i| |flushed|env io bound now later i]; cbn [happen]; intros H.
  - right. destruct (entry_point t) eqn:He; cbn [andb] in H; [|injection H as <-; split; [by left|by left]].
    destruct (from_option _ _ _) eqn:Hr; injection H as <-; (split; [by left|]); [|by left].
    right. exists i, t. split; [done|]. split; [by destruct t|done].
  - destruct (sy_threads s !! i) as [t|] eqn:Hi; [|right; injection H as <-; split; by left].
    destruct (section t (sy_controller s)) as [[t' c']|] eqn:Hs; [|done]. injection H as <-. left. by exists i, t, t'.
  - right. injection H as <-. split; [|by left]. intros t. left. apply set_running_untouched.
  - right. destruct (all_returned s); injection H as <-; (split; [|by left]); intros t; left; [|done]. apply stop_booked.
  - right. destruct (all_returned s) eqn:Hall; [|injection H as <-; split; by left].
    pose proof (λ t, open_within env bound now (sy_controller s) t) as Ho.
    destruct (open_term _ _ _ _) as [c'|[code c']]; injection H as <-; (split; [exact Ho|]); [|by left].
    right. eexists i, _. split; [done|]. split; [done|]. apply bool_decide_eq_true in Hall.
    destruct (sy_threads s !! i) as [t|] eqn:Hi; [|done]. by apply (Hall i t).
Qed.

Lemma ticket_none r t : pending t = None → ticket_ok r t. Proof. by destruct t. Qed.

Lemma happen_tickets s h s' : happen s h = Some s' → tickets_ok s → tickets_ok s'.
Proof.
  intros H Hok. unfold tickets_ok in *. destruct (happen_cases _ _ _ H) as [(i & t & t' & _ & Hi & Hs & ->)|[Hw Hts]].
  - pose proof (section_within _ _ _ _ Hs) as Hw. apply map_Forall_insert_2.
    + destruct (section_next _ _ _ _ Hs) as [Hn|[(q & sealed & -> & -> & Hc & Hck)|(q & sealed & record & -> & ->)]].
      * by apply ticket_none.
      * apply check_publication_ok in Hck as (Hseal & _ & Hf). apply fence_held in Hf as Hh.
        apply fence_ok_valid in Hf as (Hv & Hg & Hz). rewrite Hc. by split_and!.
      * specialize (Hok i _ Hi). cbn in Hok. destruct Hok as (? & ? & ? & ? & ?). split_and!; try done. by eapply within_held.
    + eapply map_Forall_impl; [exact Hok|]. intros j t0. apply ticket_mono. intros. by eapply within_held.
  - assert (map_Forall (λ _, ticket_ok (ct_authority (sy_controller s'))) (sy_threads s)) as Hok'.
    { eapply map_Forall_impl; [exact Hok|]. intros j t0. apply ticket_mono. intros. by eapply (within_held _ _ t0). }
    destruct Hts as [->|(i & t & -> & Hn & _)]; [done|]. apply map_Forall_insert_2; [by apply ticket_none|done].
Qed.

(** An invariant of every happening is one of every execution; a crash stops it. *)
Lemma happens_none hs : foldl (λ s h, s ≫= λ s, happen s h) None hs = None.
Proof. by induction hs. Qed.
Lemma happens_cons s h hs : happens s (h :: hs) = (s' ← happen s h; happens s' hs).
Proof. unfold happens. cbn [foldl mbind option_bind]. destruct (happen s h); [done|]. apply happens_none. Qed.

Lemma happens_invariant (P : system → Prop) hs :
  (∀ s h s', h ∈ hs → happen s h = Some s' → P s → P s') → ∀ s s', happens s hs = Some s' → P s → P s'.
Proof.
  induction hs as [|h hs IH]; intros Hstep s s'; [by intros [= <-]|].
  rewrite happens_cons. destruct (happen s h) as [s1|] eqn:E; [|done]. cbn [mbind option_bind]. intros H HP.
  apply (IH (λ s h s' Hh, Hstep s h s' (list_elem_of_further _ _ _ Hh)) _ _ H). by apply (Hstep s h); [left| |].
Qed.

(** Once [o] is barred: what is pending of its domain is later, or its sender is dead. *)
Definition barred_in (d : member_domain_key) (o : offer) (s : system) : Prop :=
  barred d o (ct_authority (sy_controller s))
  ∧ (is_dead d (of_incarnation o) (ct_authority (sy_controller s)) = true
     ∨ ∀ i t p, sy_threads s !! i = Some t → pending t = Some (d, p) → past o p).

Lemma within_dead d i t c c' : within t c c' → is_dead d i (ct_authority c) = true → is_dead d i (ct_authority c') = true.
Proof.
  intros [(_ & _ & ->)|(o & _ & _ & _ & Ha)] Hd; [done|].
  replace (ct_authority c') with (apply_op (ct_authority c) o) by (by rewrite Ha; destruct c). by apply dead_step.
Qed.

Lemma within_barred d o t c c' :
  within t c c' → is_dead d (of_incarnation o) (ct_authority c) = true ∨ (∀ p, pending t = Some (d, p) → past o p) →
  barred d o (ct_authority c) → barred d o (ct_authority c').
Proof.
  intros [(_ & _ & ->)|(op & [Ho Hp] & _ & _ & Ha)] Hpast Hb; [done|].
  replace (ct_authority c') with (apply_op (ct_authority c) op) by (by rewrite Ha; destruct c).
  destruct Hpast as [Hd|Hpast]; [left; by apply dead_step|].
  destruct op as [| | | | |d' p now|]; try done; try (refine (held_step d _ _ (ct_authority c) _ _ Hb); exact I).
  cbn [apply_op]. apply record_past; [|exact Hb]. intros ->. by apply Hpast.
Qed.

Lemma happen_barred d o s h s' : happen s h = Some s' → barred_in d o s → barred_in d o s'.
Proof.
  intros H [Hb Hp]. unfold barred_in.
  destruct (happen_cases _ _ _ H) as [(i & t & t' & _ & Hi & Hs & Hts)|[Hw Hts]].
  - pose proof (section_within _ _ _ _ Hs) as Hw. split.
    { eapply within_barred; [exact Hw| |exact Hb]. destruct Hp as [?|Hp]; [by left|right]. intros p. by apply (Hp i). }
    destruct Hp as [Hd|Hp]; [left; by eapply within_dead|].
    destruct (is_dead d (of_incarnation o) (ct_authority (sy_controller s'))) eqn:Hdead; [by left|right].
    intros j t0 p. rewrite Hts. destruct (decide (j = i)) as [->|Hj]; [|rewrite lookup_insert_ne by done; by apply Hp].
    rewrite lookup_insert_eq. intros [= <-] Hpend.
    destruct (section_next _ _ _ _ Hs) as [Hn|[(q & sealed & -> & -> & Hc & Hck)|(q & sealed & record & -> & ->)]].
    + congruence.
    + injection Hpend as <- <-. apply check_publication_ok in Hck as (_ & _ & Hf). fold (offer_of q sealed) in Hf.
      destruct (fence_past _ _ _ _ Hb Hf) as [?|?]; [|done]. rewrite Hc in Hdead. congruence.
    + by apply (Hp i _ p Hi).
  - set (idle := Returned (Refuses Status.INVALID)). split; [by eapply (within_barred _ _ idle); [apply Hw|by right|]|].
    destruct Hp as [Hd|Hp]; [left; by eapply (within_dead _ _ idle)|right].
    destruct Hts as [->|(i & t & -> & Hn & _)]; [done|]. intros j t0 p.
    destruct (decide (j = i)) as [->|Hj]; [|rewrite lookup_insert_ne by done; by apply Hp].
    rewrite lookup_insert_eq. intros [= <-] Hpend. congruence.
Qed.

(** The record of a pending publication that no other one of its domain is pending beside. *)
Lemma run_records s i q sealed record s' :
  tickets_ok s → sy_threads s !! i = Some (PublishRecords q sealed record) →
  (∀ j t p, j ≠ i → sy_threads s !! j = Some t → pending t ≠ Some (decl_domain sealed, p)) →
  happen s (Runs i) = Some s' → barred_in (decl_domain sealed) (offer_of q sealed) s'.
Proof.
  intros Hok Hi Hothers H. cbn [happen] in H. rewrite Hi in H. cbn [section mbind option_bind] in H. injection H as <-.
  destruct (Hok i _ Hi) as (_ & Hd & Hg & Hz & Hh). unfold barred_in, publish_records. cbn [sy_controller sy_threads fst snd]. split.
  - replace (ct_authority (set_authority _ _)) with
      (record_publication (decl_domain sealed) (offer_of q sealed) (sb_now q) (ct_authority (sy_controller s))).2
      by (by destruct (sy_controller s)).
    by apply recorded_barred.
  - right. intros j t p. destruct (decide (j = i)) as [->|Hj]; [rewrite lookup_insert_eq; by intros [= <-]|].
    rewrite lookup_insert_ne by done. intros Ht Hp. by destruct (Hothers j t p Hj Ht).
Qed.

(** C10: a publication is accepted at most once in the life of a controller, whatever its
    handler threads and the host do: once a thread has recorded it, no other publication of
    its member domain being between its fence and its record at that moment, then after any
    further critical sections of any threads - publications, retirements, hellos, ends of
    sessions and recompositions that interleave freely, restarts too - a thread that submits
    the same declaration again under the same incarnation and attempt is refused by its first
    section, which changes neither the publications, the registry nor the published site. The
    condition on the moment of the record is needed: see [interleaved_publications_regress]. *)
Theorem publication_accepted_once (c0 : controller) (before after : list happening) (s s' : system) (i : nat)
    (q q' : submission) (sealed : declaration) (record : publication_record) :
  happens (System c0 ∅) before = Some s → sy_threads s !! i = Some (PublishRecords q sealed record) →
  (∀ j t p, j ≠ i → sy_threads s !! j = Some t → pending t ≠ Some (decl_domain sealed, p)) →
  happens s (Runs i :: after) = Some s' →
  sb_declaration q' = sb_declaration q → sb_incarnation q' = sb_incarnation q → sb_attempt q' = sb_attempt q →
  ∃ out c', section (PublishChecks q') (sy_controller s') = Some (Returned (Published out), c')
    ∧ is_ok (pp_status out) = false
    ∧ ct_publications c' = ct_publications (sy_controller s') ∧ ct_authority c' = ct_authority (sy_controller s')
    ∧ ct_chain c' = ct_chain (sy_controller s') ∧ ct_acceptance_sequence c' = ct_acceptance_sequence (sy_controller s').
Proof.
  intros Hbefore Hi Hothers Hafter Hd Hinc Hat.
  assert (tickets_ok s) as Hok.
  { apply (happens_invariant tickets_ok before (λ s h s' _, happen_tickets s h s') _ _ Hbefore). by apply map_Forall_empty. }
  rewrite happens_cons in Hafter. destruct (happen s (Runs i)) as [s1|] eqn:E; [|done]. cbn [mbind option_bind] in Hafter.
  pose proof (run_records s i q sealed record s1 Hok Hi Hothers E) as Hb.
  apply (happens_invariant (barred_in _ _) after (λ s h s' _, happen_barred _ _ s h s') _ _ Hafter) in Hb as [Hb _].
  destruct (Hok i _ Hi) as (Hseal & _).
  destruct (barred_refused (sb_incarnation q') (sb_declaration q') (sb_attempt q') (sy_controller s') sealed) as (code & f & Hck).
  { by rewrite Hd. }
  { by rewrite Hd, Hinc, Hat. }
  cbn [section]. unfold publish_checks. rewrite Hck. do 2 eexists. split; [reflexivity|].
  apply check_publication_err in Hck. split; [exact Hck|].
  destruct (is_replay code), (sy_controller s'); done.
Qed.

(** Two threads of one member submit; the second, a newer generation, asks the fence after the
    first is recorded and before the first has answered. *)
Lemma publication_accepted_once_witness :
  let q n := Submission Running.committed 3000 3001 "member-1" Running.boot (Running.declared n) (PublishAttempt n 1) in
  ∃ s s' q0 sealed record out c',
    happens (System Running.admitted ∅) [Enters 0 (PublishChecks (q 1)); Enters 1 (PublishChecks (q 2)); Runs 0; Runs 0] = Some s
    ∧ sy_threads s !! 0%nat = Some (PublishRecords q0 sealed record)
    ∧ happens s [Runs 0; Runs 1; Runs 1; Runs 0; Halts; Runs 1] = Some s'
    ∧ section (PublishChecks q0) (sy_controller s') = Some (Returned (Published out), c') ∧ is_ok (pp_status out) = false.
Proof.
  intros q.
  set (before := [Enters 0 (PublishChecks (q 1)); Enters 1 (PublishChecks (q 2)); Runs 0; Runs 0]).
  set (after := [Runs 1; Runs 1; Runs 0; Halts; Runs 1]).
  assert (match happens (System Running.admitted ∅) before with
    | Some s =>
        match sy_threads s !! 0%nat with
        | Some (PublishRecords q0 sealed record) =>
            bool_decide (map_Forall (λ j t, j = 0%nat ∨ pending t = None) (sy_threads s))
            && match happens s (Runs 0 :: after) with Some _ => true | None => false end
        | _ => false
        end
    | None => false
    end = true) as Hrun by (vm_compute; reflexivity).
  change ([Runs 0; Runs 1; Runs 1; Runs 0; Halts; Runs 1]) with (Runs 0 :: after).
  revert Hrun. generalize before after Running.admitted. clear. intros before after c Hrun.
  destruct (happens (System c ∅) before) as [s|] eqn:Hb; [|discriminate Hrun].
  destruct (sy_threads s !! 0%nat) as [t|] eqn:Hi; [|discriminate Hrun].
  destruct t as [| |q0 sealed record| | | | | | | | | | | | | | | | | | | |]; try discriminate Hrun.
  apply andb_true_iff in Hrun as [Hall%bool_decide_eq_true Hrun].
  destruct (happens s (Runs 0 :: after)) as [s'|] eqn:Ha; [|discriminate Hrun].
  assert (∀ j t p, j ≠ 0%nat → sy_threads s !! j = Some t → pending t ≠ Some (decl_domain sealed, p)) as Hothers.
  { intros j t p Hj Ht Hp. destruct (Hall j t Ht) as [?|Hn]; [by apply Hj|]. rewrite Hn in Hp. discriminate Hp. }
  destruct (publication_accepted_once c before after s s' 0 q0 q0 sealed record Hb Hi Hothers Ha eq_refl eq_refl eq_refl)
    as (out & c' & H1 & H2 & _).
  exists s, s', q0, sealed, record, out, c'. split; [reflexivity|]. split; [exact Hi|]. split; [exact Ha|]. by split.
Defined.
