(* ===== verification/Recompositions.v ===== *)
(** Recompositions that interleave (src/controller/controller.cpp, [recompose] and [start]).

    [recompose] holds no lock while it composes, so two handlers can collect the same next
    generation. In a controller that started and is in its term, a recomposition that composed
    a site publishes it, or is overtaken: another one published this generation or a later one
    in the meantime. Nothing else fences it; and one that nothing interleaves with is never
    fenced. *)

From stdpp Require Import sorting sets gmap.
From S2P Require Import Prelude Ordering Enums Sha256 Identity Canonical Evidence Capacity Claims Codec Canonicalize Authority Forest Site SiteCodec Snapshot StoreFormat Store Protocol Samples Admit Attribute Domains Maintenance Ledger Verdicts Compose Controller Execution Terms Threads.

(** * The invariant *)

(** The snapshot is of the controller's own term. *)
Definition own_snapshot (c : controller) (cur : site_snapshot) : Prop :=
  snap_epoch cur = ct_epoch c ∧ snap_incarnation cur = ct_incarnation c.

(** The controller has already published this generation or a later one. *)
Definition overtaken (c : controller) (gen : generation) : Prop :=
  ∃ cur, Snapshot.current (ct_chain c) = Some cur ∧ own_snapshot c cur ∧ gen ≤ snap_generation cur.

Definition commits (t : thread) : bool := match t with Commits _ _ _ _ _ => true | _ => false end.

(** A generation collected since the term began at [g0]. *)
Definition counted (g0 : generation) (c : controller) (gen : generation) : Prop :=
  g0 < gen ≤ max_value ∧ gen ≤ ct_site_generation c + 1.

(** A site composed for this controller. *)
Definition composed_for (c : controller) (now : Z) (gen : generation) (s : composed_site) : Prop :=
  site_id s = cc_site (ct_config c) ∧ site_epoch s = ct_epoch c ∧ site_incarnation s = ct_incarnation c
  ∧ site_generation s = gen ∧ is_valid_identifier (cc_site (ct_config c)) = true ∧ ct_epoch c ≠ 0
  ∧ incarnation_valid (ct_incarnation c) = true ∧ 0 < now.

Definition thread_in_term (g0 : generation) (c : controller) (t : thread) : Prop :=
  match t with
  | Composes io now k input =>
      in_site input = cc_site (ct_config c) ∧ in_epoch input = ct_epoch c ∧ in_incarnation input = ct_incarnation c
      ∧ in_now_ms input = now ∧ counted g0 c (in_generation input)
  | Acquires io now k gen s => composed_for c now gen s ∧ counted g0 c gen
  | Offers io now k gen t s =>
      composed_for c now gen s ∧ counted g0 c gen ∧ ∃ id, id ≠ 0 ∧ t = granted_token c gen id now
  | Commits io k gen snapshot out =>
      gen = ct_site_generation c + 1 ∧ gen ≤ max_value
      ∧ ∃ cur, Snapshot.current (ct_chain c) = Some cur ∧ own_snapshot c cur ∧ snap_generation cur = gen
  | _ => True
  end.

(** The published snapshot and the generation agree but for the one thread, if any, that has
    published and is about to take the generation. *)
Record in_course (g0 : generation) (c : controller) (ts : gmap nat thread) : Prop := InCourse {
  course_named : cc_id (ct_config c) ≠ ""%string ∧ 0 < cc_lease_ttl_ms (ct_config c);
  course_generation : 0 ≤ g0 < max_value ∧ g0 ≤ ct_site_generation c ≤ max_value;
  course_epoch : current_epoch (cc_site (ct_config c)) (ct_authority c) = ct_epoch c;
  course_lease : ∃ l, leases (ct_authority c) !! own_key c = Some l ∧ own_lease c (ct_site_generation c + 1) l;
  course_limit : 0 < ch_limit (ct_chain c);
  course_chain : ∀ cur, Snapshot.current (ct_chain c) = Some cur → snap_epoch cur < ct_epoch c ∨ own_snapshot c cur;
  course_progress : g0 < ct_site_generation c → overtaken c (ct_site_generation c);
  course_head : ∀ cur, Snapshot.current (ct_chain c) = Some cur → own_snapshot c cur →
    snap_generation cur ≤ ct_site_generation c ∨ ∃ i t, ts !! i = Some t ∧ commits t = true;
  course_one : ∀ i j t t', ts !! i = Some t → ts !! j = Some t' → commits t = true → commits t' = true → i = j;
  course_threads : map_Forall (λ _, thread_in_term g0 c) ts;
}.

(** When nobody is about to take a generation, the term's invariant holds. *)
Lemma course_in_term g0 c ts :
  in_course g0 c ts → map_Forall (λ _ t, commits t = false) ts → in_term c.
Proof.
  intros [] Hno. split; try done; [lia|]. intros cur Hcur. destruct (course_chain0 cur Hcur) as [?|Hown]; [by left|right].
  destruct (course_head0 cur Hcur Hown) as [?|(i & t & Hi & Ht)]; [by destruct Hown|].
  specialize (Hno i t Hi). cbn in Hno. congruence.
Qed.

Lemma in_term_course g0 c ts :
  in_term c → g0 = ct_site_generation c → g0 < max_value →
  map_Forall (λ _ t, commits t = false ∧ thread_in_term g0 c t) ts → in_course g0 c ts.
Proof.
  intros [] -> Hlt Hts. split; try done; try lia.
  - intros cur Hcur. destruct (term_chain cur Hcur) as [?|(? & ? & _)]; [by left|by right].
  - intros cur Hcur [He Hi]. left. destruct (term_chain cur Hcur) as [?|(_ & _ & ?)]; [lia|done].
  - intros i j t t' Hi _ Ht. destruct (Hts i t Hi) as [? _]. congruence.
  - intros i t Hi. by apply (Hts i t).
Qed.

Lemma thread_same g0 c c' t : same_term c c' → thread_in_term g0 c t → thread_in_term g0 c' t.
Proof.
  intros (Hcfg & Hi & Hch & He & Hg & _).
  destruct t; unfold thread_in_term, composed_for, counted, own_snapshot, granted_token; rewrite ?Hcfg, ?Hi, ?Hch, ?He, ?Hg; tauto.
Qed.

Lemma course_same g0 c c' ts : same_term c c' → in_course g0 c ts → in_course g0 c' ts.
Proof.
  intros Hsame [H1 H2 H3 H4 H5 H6 H7 H8 H9 H10]. pose proof Hsame as (Hcfg & Hi & Hch & He & Hg & Hl & Hs).
  split; unfold own_key, own_lease, current_epoch, overtaken, own_snapshot in *;
    rewrite ?Hcfg, ?Hi, ?Hch, ?He, ?Hg, ?Hl, ?Hs; try done.
  eapply map_Forall_impl; [exact H10|]. intros i t. by apply thread_same.
Qed.

(** A thread that neither was nor is about to take a generation. *)
Lemma course_insert g0 c ts i t :
  thread_in_term g0 c t → commits t = false → from_option commits false (ts !! i) = false →
  in_course g0 c ts → in_course g0 c (<[i := t]> ts).
Proof.
  intros Ht Hc Hi []. split; try done.
  - intros cur Hcur Hown. destruct (course_head0 cur Hcur Hown) as [?|(j & t' & Hj & Ht')]; [by left|right].
    exists j, t'. rewrite lookup_insert_ne; [done|]. intros ->. rewrite Hj in Hi. cbn in Hi. congruence.
  - intros j1 j2 t1 t2 H1 H2 Hc1 Hc2. apply lookup_insert_Some in H1 as [[_ <-]|[_ H1]]; [congruence|].
    apply lookup_insert_Some in H2 as [[_ <-]|[_ H2]]; [congruence|]. by apply (course_one0 j1 j2 t1 t2).
  - by apply map_Forall_insert_2.
Qed.

(** * The sections that publish *)

Lemma course_authority g0 c a ts :
  in_course g0 c ts → current_epoch (cc_site (ct_config c)) a = ct_epoch c →
  (∃ l, leases a !! own_key c = Some l ∧ own_lease c (ct_site_generation c + 1) l) → in_course g0 (set_authority a c) ts.
Proof. intros [] Hep Hl. destruct c. by split. Qed.

Lemma set_token_same t c : same_term c (set_token t c). Proof. by destruct c. Qed.
Lemma bump_same x c : same_term c (bump x c). Proof. apply booked_same, bump_booked. Qed.

(** What a thread leaves when it returns. *)
Lemma leave_course g0 k r x ts i t' c' :
  leave k r x = Some (t', c') → from_option commits false (ts !! i) = false → in_course g0 x ts →
  in_course g0 c' (<[i := t']> ts) ∧ ct_chain c' = ct_chain x ∧ ct_epoch c' = ct_epoch x ∧ ct_incarnation c' = ct_incarnation x.
Proof.
  intros [Hr Hb]%leave_spec Hi H. pose proof (booked_same _ _ Hb) as Hs. split.
  - apply course_insert; [by destruct t'|by destruct t'|done|]. by eapply course_same.
  - destruct Hb as ((_ & ? & _) & ? & ? & _). done.
Qed.

(** The lease: granted, unless a later generation was granted already. *)
Lemma acquires_course g0 c ts i io now k gen s t' c' :
  in_course g0 c ts → ts !! i = Some (Acquires io now k gen s) → acquires io now k gen s c = Some (t', c') →
  in_course g0 c' (<[i := t']> ts) ∧ ct_chain c' = ct_chain c
  ∧ ((∃ t, t' = Offers io now k gen t s ∧ evaluate_at t now = Status.OK)
     ∨ (∃ x, leave k (refused_result Status.FENCED_GENERATION "authority") x = Some (t', c')) ∧ overtaken c' gen).
Proof.
  intros Hc Hi Ha. pose proof Hc as [[Hid Httl] Hg Hep (l & Hl & Hown) _ _ Hprog _ _ Hts].
  destruct (Hts i _ Hi) as [(Hs & He & Hinc & Hgen & Hsite & Hepne & Hincv & Hnow) Hcount].
  assert (from_option commits false (ts !! i) = false) as Hic by (by rewrite Hi).
  unfold acquires in Ha. fold (acquire c gen now) in Ha.
  assert (own_lease c (tok_generation (lr_token l)) l) as Hown'
    by (destruct Hown as (? & ? & ? & ? & ? & ? & _); by split_and!).
  destruct (Z.lt_ge_cases gen (tok_generation (lr_token l))) as [Hlt|Hge].
  - destruct (acquire_late c gen now l) as (Hacq & Hep' & Hl'); try done.
    destruct (acquire c gen now) as [[acquired granted] authority]. cbn [fst snd] in *. injection Hacq as -> ->.
    change (negb (is_ok Status.FENCED_GENERATION)) with true in Ha. cbv iota in Ha.
    assert (in_course g0 (bump SnapshotsRefused (set_authority authority c)) ts) as Hc1.
    { eapply course_same; [apply bump_same|]. apply course_authority; [done|done|]. by exists l. }
    destruct (leave_course _ _ _ _ _ i _ _ Ha Hic Hc1) as (Hc2 & Hch & He2 & Hi2).
    replace (ct_chain (bump _ _)) with (ct_chain c) in Hch by (by destruct c).
    replace (ct_epoch (bump _ _)) with (ct_epoch c) in He2 by (by destruct c).
    replace (ct_incarnation (bump _ _)) with (ct_incarnation c) in Hi2 by (by destruct c).
    split; [exact Hc2|]. split; [exact Hch|]. right. split; [by eexists|].
    destruct Hown as (_ & _ & _ & _ & _ & _ & Hlg). destruct Hcount as [? _].
    destruct Hprog as (cur & Hcur & Hown & Hcg); [lia|]. exists cur. unfold own_snapshot. rewrite Hch, He2, Hi2.
    split; [done|]. split; [done|]. lia.
  - destruct (acquire_own c gen now l) as (id & Hidne & Hgr & Hep' & l' & Hl' & Hown2); try done.
    { destruct Hown as (? & ? & ? & ? & ? & ? & _). by split_and!. }
    destruct (acquire c gen now) as [[acquired granted] authority]. cbn [fst snd] in *. injection Hgr as -> ->.
    change (negb (is_ok Status.GRANTED)) with false in Ha. cbv iota zeta in Ha. apply some_pair in Ha as [<- <-].
    change (default no_token (Some ?t)) with t.
    assert (same_term (set_authority authority c) (set_token (granted_token c gen id now) (set_authority authority c)))
      as Hsame by apply set_token_same.
    split; [|split; [by destruct c|]].
    + apply course_insert; [| |done|].
      * eapply thread_same; [exact Hsame|]. destruct c. cbn. split; [done|]. split; [done|]. by exists id.
      * done.
      * eapply course_same; [exact Hsame|]. apply course_authority; [done|done|]. exists l'. split; [done|].
        destruct Hown2 as (? & ? & ? & ? & ? & ? & ?), Hcount as [_ ?]. split_and!; done || lia.
    + left. eexists. split; [reflexivity|]. by apply grants_evaluates.
Qed.

(** Another history in which the published snapshot is the same. *)
Lemma course_chain_same g0 c ch ts :
  ch_history ch = ch_history (ct_chain c) → ch_limit ch = ch_limit (ct_chain c) → in_course g0 c ts →
  in_course g0 (set_chain ch c) ts.
Proof.
  intros Hh Hl []. assert (Snapshot.current ch = Snapshot.current (ct_chain c)) as Hcur by (unfold Snapshot.current; by rewrite Hh).
  destruct c. cbn in Hcur, Hl. unfold overtaken in *. cbn in *.
  split; unfold overtaken; cbn; rewrite ?Hcur, ?Hl; try done.
  eapply map_Forall_impl; [exact course_threads0|]. intros j []; unfold thread_in_term; cbn; by rewrite ?Hcur.
Qed.

(** The published snapshot is a new one: the generation it took was the next. *)
Lemma publishes_next g0 c ts gen t :
  in_course g0 c ts → counted g0 c gen → (tok_epoch t = ct_epoch c ∧ tok_incarnation t = ct_incarnation c ∧ tok_generation t = gen) →
  (∀ cur, Snapshot.current (ct_chain c) = Some cur → advances t cur) → gen = ct_site_generation c + 1.
Proof.
  intros Hc [Hg1 Hg2] (He & Hi & Hg) Hadv.
  destruct (Z.lt_ge_cases g0 (ct_site_generation c)) as [Hlt|]; [|lia].
  destruct (course_progress _ _ _ Hc Hlt) as (cur & Hcur & [Hce Hci] & Hcg).
  destruct (Hadv cur Hcur) as [?|[_ [[? _]|[_ ?]]]]; [lia|congruence|lia].
Qed.

Lemma course_publish g0 c ts i io k gen snapshot out ch cur :
  in_course g0 c ts → gen = ct_site_generation c + 1 → gen ≤ max_value → g0 < gen →
  (∀ old, Snapshot.current (ct_chain c) = Some old → own_snapshot c old → snap_generation old < gen) →
  Snapshot.current ch = Some cur → own_snapshot c cur → snap_generation cur = gen → ch_limit ch = ch_limit (ct_chain c) →
  in_course g0 (set_chain ch c) (<[i := Commits io k gen snapshot out]> ts).
Proof.
  intros [] Hgen Hmax Hg0 Hold Hcur Hown Hcg Hl.
  assert (∀ j t, ts !! j = Some t → commits t = false) as Hno.
  { intros j t Hj. destruct (commits t) eqn:Ht; [|done]. specialize (course_threads0 j t Hj).
    destruct t; try discriminate Ht. cbn in course_threads0. destruct course_threads0 as (-> & _ & old & Ho & Hoo & Hog).
    specialize (Hold old Ho Hoo). lia. }
  destruct c. cbn in *. unfold overtaken, own_snapshot in *. cbn in *. split; unfold overtaken, own_snapshot; cbn; rewrite ?Hl; try done.
  - intros x. rewrite Hcur. intros [= <-]. by right.
  - intros _. exists cur. split; [done|]. split; [done|]. lia.
  - intros x _ _. right. exists i. eexists. rewrite lookup_insert_eq. by split.
  - intros j1 j2 t1 t2 H1 H2 Hc1 Hc2. apply lookup_insert_Some in H1 as [[<- _]|[_ H1]]; [|by rewrite (Hno _ _ H1) in Hc1].
    by apply lookup_insert_Some in H2 as [[<- _]|[_ H2]]; [|rewrite (Hno _ _ H2) in Hc2].
  - apply map_Forall_insert_2; [cbn; split; [done|]; split; [done|]; by exists cur|].
    intros j t Hj. specialize (course_threads0 j t Hj). specialize (Hno j t Hj). by destruct t.
Qed.

(** The chain: published, unless this generation or a later one was. *)
Lemma offers_course g0 c ts i io now k gen t s t' c' :
  in_course g0 c ts → ts !! i = Some (Offers io now k gen t s) → offers io now k gen t s c = Some (t', c') →
  in_course g0 c' (<[i := t']> ts)
  ∧ ((∃ snapshot out q, t' = Commits io k gen snapshot out ∧ pr_status out = Status.PUBLISHED
        ∧ gen = ct_site_generation c + 1 ∧ Snapshot.current (ct_chain c') = Some (published_as now s q))
     ∨ (∃ out x, leave k out x = Some (t', c') ∧ pr_status out ∈ [Status.FENCED_GENERATION; Status.ALREADY_EXISTS])
       ∧ ch_history (ct_chain c') = ch_history (ct_chain c) ∧ overtaken c' gen).
Proof.
  intros Hc Hi Ho. pose proof (course_threads _ _ _ Hc i _ Hi) as [(Hs & He & Hinc & Hgen & Hsite & Hepne & Hincv & Hnow)
    [Hcount (id & Hidne & Ht)]].
  destruct (course_named _ _ _ Hc) as [Hid Httl].
  assert (from_option commits false (ts !! i) = false) as Hic by (by rewrite Hi).
  assert (check_snapshot (seal_digests (composed_site_digest s) (snapshot_of now s)) t now = Ok (composed_site_digest s)) as Hck.
  { apply check_fresh; [by rewrite Hs|by rewrite He|by rewrite Hs, Ht|]. rewrite Ht, grants_evaluates; done. }
  unfold offers in Ho. rewrite recompute_fresh in Ho. change (negb (is_ok Status.OK)) with false in Ho. cbv iota beta zeta in Ho.
  assert (tok_epoch t = ct_epoch c ∧ tok_incarnation t = ct_incarnation c ∧ tok_generation t = gen) as Htok by (by rewrite Ht).
  assert (overtaken c gen ∨ ∀ cur, Snapshot.current (ct_chain c) = Some cur →
            advances t cur ∧ (own_snapshot c cur → snap_generation cur < gen)) as [Hover|Hadv].
  { destruct (Snapshot.current (ct_chain c)) as [cur|] eqn:Hcur; [|by right]. destruct Htok as (Hte & Hti & Htg).
    destruct (course_chain _ _ _ Hc cur Hcur) as [Hlt|[Hce Hci]].
    - right. intros x [= <-]. split; [left; lia|]. intros [? _]. lia.
    - destruct (Z.le_gt_cases gen (snap_generation cur)); [left; by exists cur|right].
      intros x [= <-]. split; [|done]. right. split; [congruence|]. right. split; [congruence|]. lia. }
  - destruct Hover as (cur & Hcur & [Hce Hci] & Hcg). destruct Htok as (Hte & Hti & Htg).
    pose proof (publish_late _ t now (ct_chain c) cur Hck Hcur ltac:(congruence) ltac:(congruence) ltac:(lia)) as Hl.
    destruct (Snapshot.publish _ t now (ct_chain c)) as [out ch]. destruct Hl as (Hst & Hh & Hlim).
    pose proof (course_chain_same _ _ ch _ Hh Hlim Hc) as Hc1.
    assert (∃ x, leave k out x = Some (t', c') ∧ ct_chain x = ch ∧ ct_epoch x = ct_epoch c ∧ ct_incarnation x = ct_incarnation c
      ∧ in_course g0 x ts) as (x & Hx & Hxc & Hxe & Hxi & Hxin).
    { assert (pr_status out = Status.FENCED_GENERATION ∨ pr_status out = Status.ALREADY_EXISTS) as [E|E] by set_solver;
        rewrite E in Ho.
      - change (negb (is_ok Status.FENCED_GENERATION) && negb (bool_decide (Status.FENCED_GENERATION = Status.ALREADY_EXISTS)))
          with true in Ho. cbv iota in Ho. eexists. split; [exact Ho|].
        split; [by destruct c|]. split; [by destruct c|]. split; [by destruct c|].
        eapply course_same; [apply bump_same|exact Hc1].
      - change (negb (is_ok Status.ALREADY_EXISTS) && negb (bool_decide (Status.ALREADY_EXISTS = Status.ALREADY_EXISTS)))
          with false in Ho.
        change (negb (bool_decide (Status.ALREADY_EXISTS = Status.ALREADY_EXISTS))) with false in Ho. cbv iota in Ho.
        eexists. split; [exact Ho|]. split; [by destruct c|]. split; [by destruct c|]. split; [by destruct c|]. exact Hc1. }
    destruct (leave_course _ _ _ _ _ i _ _ Hx Hic Hxin) as (Hc2 & Hch & He2 & Hi2). split; [exact Hc2|]. right.
    split; [by exists out, x|]. rewrite Hch, Hxc. split; [exact Hh|].
    exists cur. unfold own_snapshot. rewrite Hch, Hxc, He2, Hi2, Hxe, Hxi. split; [|by split].
    unfold Snapshot.current in *. by rewrite Hh.
  - pose proof (publish_advances _ t now (ct_chain c) Hck (course_limit _ _ _ Hc) (λ cur Hcur, proj1 (Hadv cur Hcur))) as Hp.
    pose proof (publishes_next _ _ _ _ _ Hc Hcount Htok (λ cur Hcur, proj1 (Hadv cur Hcur))) as Hnext.
    destruct (Snapshot.publish _ t now (ct_chain c)) as [out ch]. destruct Hp as (Hst & Hl & q & Hq). rewrite Hst in Ho.
    change (negb (is_ok Status.PUBLISHED) && negb (bool_decide (Status.PUBLISHED = Status.ALREADY_EXISTS))) with false in Ho.
    change (negb (bool_decide (Status.PUBLISHED = Status.ALREADY_EXISTS))) with true in Ho. cbv iota in Ho.
    apply some_pair in Ho as [<- <-]. split.
    + eapply course_publish; [exact Hc|exact Hnext|apply Hcount|apply Hcount|by intros old Hold; apply Hadv|exact Hq| | |exact Hl].
      * by split.
      * exact Hgen.
    + left. eexists _, out, q. split; [reflexivity|]. split; [exact Hst|]. split; [exact Hnext|]. destruct c. exact Hq.
Qed.

(** The generation is taken. *)
Lemma commits_course g0 c ts i io k gen snapshot out :
  in_course g0 c ts → ts !! i = Some (Commits io k gen snapshot out) →
  in_course g0 (bump SnapshotsPublished (set_generation gen c)) (<[i := Stamps io k snapshot out]> ts).
Proof.
  intros Hc Hi. eapply course_same; [apply bump_same|]. destruct Hc.
  destruct (course_threads0 i _ Hi) as (Hgen & Hmax & cur & Hcur & Hown & Hcg).
  destruct c. cbn in *. unfold overtaken, own_snapshot in *. cbn in *. split; unfold overtaken, own_snapshot; cbn; try done.
  - lia.
  - destruct course_lease0 as (l & Hl & ? & ? & ? & ? & ? & ? & ?). exists l. split; [done|]. split_and!; try done. cbn in *. lia.
  - intros _. exists cur. split; [done|]. split; [done|]. lia.
  - intros x. rewrite Hcur. intros [= <-] _. left. lia.
  - intros j1 j2 t1 t2 H1 H2 Hc1 Hc2. apply lookup_insert_Some in H1 as [[_ <-]|[_ H1]]; [done|].
    apply lookup_insert_Some in H2 as [[_ <-]|[_ H2]]; [done|]. by apply (course_one0 j1 j2 t1 t2).
  - intros j t [[_ <-]|[Hne Hj]]%lookup_insert_Some; [done|]. specialize (course_threads0 j t Hj).
    destruct t; try done; cbn in course_threads0 |- *; unfold counted in *; cbn in *.
    + destruct course_threads0 as (? & ? & ? & ? & ? & ?). split_and!; try done; lia.
    + destruct course_threads0 as (? & ? & ?). split_and!; try done; lia.
    + destruct course_threads0 as (? & [? ?] & ?). split; [done|]. split; [lia|done].
    + by destruct (Hne (course_one0 i j _ _ Hi Hj eq_refl eq_refl)).
Qed.

(** The sections that do not publish. *)
Lemma within_term_same t c c' : within_term t c c' → same_term c c'.
Proof.
  intros [Hb|(o & Hm & _ & Hb)]; [by apply booked_same|]. apply booked_same in Hb.
  pose proof (member_ops_leases (ct_authority c) o) as Hl.
  assert (same_term c (set_authority (apply_op (ct_authority c) o) c)) as (H1 & H2 & H3 & H4 & H5 & H6 & H7).
  { destruct c, o; try done; split_and!; try done; by apply Hl. }
  destruct Hb as (? & ? & ? & ? & ? & ? & ?). split_and!; congruence.
Qed.

Lemma section_course g0 c ts i t t' c' :
  in_course g0 c ts → ts !! i = Some t → section t c = Some (t', c') → in_course g0 c' (<[i := t']> ts).
Proof.
  intros Hc Hi Hs. destruct (publishes t) eqn:Hp.
  - destruct t; try discriminate Hp; cbn [section] in Hs.
    + by eapply acquires_course in Hs as [? _].
    + by eapply offers_course in Hs as [? _].
    + apply some_pair in Hs as [<- <-]. by apply commits_course.
  - pose proof (within_term_same _ _ _ (section_within_term _ _ _ _ Hs Hp)) as Hsame.
    apply course_insert; [| |rewrite Hi; by destruct t|by eapply course_same].
    + eapply thread_same; [exact Hsame|]. pose proof (course_threads _ _ _ Hc i t Hi) as Ht.
      apply section_moves in Hs. destruct Hs as [t t' c' Hst| | |io now k|io now k input s c' Hrun| |]; try done; [by destruct t'|..].
      * cbn. split_and!; try done. destruct (course_generation _ _ _ Hc). unfold counted, generation_next.
        destruct (Z.eqb_spec (ct_site_generation c) max_value); lia.
      * destruct Ht as (H1 & H2 & H3 & H4 & H5). apply run_header in Hrun as (E1 & E2 & E3 & E4 & ? & ? & _ & ? & ? & _).
        cbn [thread_in_term]. unfold composed_for. rewrite E1, E2, E3, E4, <- H1, <- H2, <- H3, <- H4. by split_and!.
    + apply section_moves in Hs. by destruct Hs as [t t' c' Hst| | | | | |]; [destruct t'|..].
Qed.

Definition opens (h : happening) : Prop := match h with Opens _ _ _ _ _ _ => True | _ => False end.

Lemma happen_course g0 s h s' :
  happen s h = Some s' → ¬ opens h → in_course g0 (sy_controller s) (sy_threads s) →
  in_course g0 (sy_controller s') (sy_threads s').
Proof.
  intros H Hno Hc. destruct h as [i t|i| |flushed|env io bound now later i]; cbn [happen] in H; [..|by destruct Hno].
  - destruct (entry_point t) eqn:He; cbn [andb] in H; [|by injection H as <-].
    destruct (from_option returned true _) eqn:Hr; [|by injection H as <-]. injection H as <-.
    apply course_insert; [by destruct t as [| | | | | | | | | | | | | | |?? []| | | | | | |]|by destruct t| |done].
    destruct (sy_threads s !! i) as [t'|]; [by destruct t'|done].
  - destruct (sy_threads s !! i) as [t|] eqn:Hi; [|by injection H as <-].
    destruct (section t (sy_controller s)) as [[t' c']|] eqn:Hs; [|done]. injection H as <-. by eapply section_course.
  - injection H as <-. eapply course_same; [apply booked_same, set_running_booked|done].
  - destruct (all_returned s); injection H as <-; [|done]. eapply course_same; [apply booked_same, stop_booked|done].
Qed.

(** From the start of a term on, whatever its threads do. *)
Lemma opened_course cfg boot f env io bound now later c0 c i hs s :
  fresh cfg boot f c0 → 0 ≤ cc_snapshot_history cfg → recovered_below env c0 → open_term env bound now c0 = Ok c →
  happens (System c0 ∅) (Opens env io bound now later i :: hs) = Some s → Forall (λ h, ¬ opens h) hs →
  in_course (ct_site_generation c) (sy_controller s) (sy_threads s).
Proof.
  intros Hfresh Hhist Hbelow Hopen Hex Hno. destruct (open_in_term _ _ _ _ _ _ _ _ Hfresh Hhist Hbelow Hopen) as [Hterm Hlt].
  rewrite happens_cons in Hex. cbn [happen sy_controller sy_threads] in Hex.
  assert (all_returned (System c0 ∅) = true) as Hall by (apply bool_decide_eq_true_2, map_Forall_empty).
  rewrite Hall, Hopen in Hex. cbn [mbind option_bind] in Hex.
  pose proof (happens_invariant (λ s, in_course (ct_site_generation c) (sy_controller s) (sy_threads s)) hs) as Hinv.
  cbn beta in Hinv. eapply Hinv; [|exact Hex|].
  - intros s1 h s2 Hh Hs. apply (happen_course _ _ h); [done|]. rewrite Forall_forall in Hno. by apply Hno.
  - cbn [sy_controller sy_threads]. apply in_term_course; [done|done|done|]. intros j t. rewrite lookup_insert_Some, lookup_empty.
    intros [[_ <-]|[_ ?]]; done.
Qed.

(** * The property *)

(** C13: a controller's recompositions never fence themselves, and are fenced only by one
    another. In an execution that begins with the start of a controller - whatever its store
    held - and in which critical sections of any threads follow in any order, publications,
    retirements, hellos, ends of sessions and recompositions: a recomposition that composed a
    site is granted its lease, or another one has already published this generation or a
    later one of the same term; once granted, it publishes exactly the composed site - sealed,
    under the next generation, as the chain's current snapshot - or again another one has
    published this generation or a later one, and the history is unchanged; and when no other
    thread is between publishing and taking the generation, a recomposition that nothing
    interleaves with publishes what it composes. The counters the store held are assumed below
    the last values of their types. *)
Theorem recomposition_publishes (cfg : controller_config) (boot : string) (f : option bytes) (env : environment)
    (io : entry → commit) (bound : status) (now later : Z) (c0 c : controller) (i j : nat) (hs : list happening)
    (s s' : system) :
  fresh cfg boot f c0 → 0 ≤ cc_snapshot_history cfg → recovered_below env c0 → open_term env bound now c0 = Ok c →
  happens (System c0 ∅) (Opens env io bound now later i :: hs) = Some s → Forall (λ h, ¬ opens h) hs →
  happen s (Runs j) = Some s' →
  (∀ io now k gen site, sy_threads s !! j = Some (Acquires io now k gen site) →
     ct_chain (sy_controller s') = ct_chain (sy_controller s)
     ∧ ((∃ t, sy_threads s' !! j = Some (Offers io now k gen t site) ∧ evaluate_at t now = Status.OK)
        ∨ (∃ t x, leave k (refused_result Status.FENCED_GENERATION "authority") x = Some (t, sy_controller s')
             ∧ sy_threads s' !! j = Some t) ∧ overtaken (sy_controller s') gen))
  ∧ (∀ io now k gen t site, sy_threads s !! j = Some (Offers io now k gen t site) →
       (∃ snapshot out q, sy_threads s' !! j = Some (Commits io k gen snapshot out) ∧ pr_status out = Status.PUBLISHED
          ∧ gen = ct_site_generation (sy_controller s) + 1 ∧ site_generation site = gen
          ∧ Snapshot.current (ct_chain (sy_controller s')) = Some (published_as now site q))
       ∨ (∃ t x out, leave k out x = Some (t, sy_controller s') ∧ sy_threads s' !! j = Some t
            ∧ pr_status out ∈ [Status.FENCED_GENERATION; Status.ALREADY_EXISTS])
         ∧ ch_history (ct_chain (sy_controller s')) = ch_history (ct_chain (sy_controller s))
         ∧ overtaken (sy_controller s') gen)
  ∧ (map_Forall (λ _ t, commits t = false) (sy_threads s) → ct_site_generation (sy_controller s) < max_value →
     ∀ io now r c', alone whole (Collects io now InHost) (sy_controller s) = Some (Returned (Recomposed r), c') →
     recomposed now (sy_controller s) r c').
Proof.
  intros Hfresh Hhist Hbelow Hopen Hex Hno Hrun.
  pose proof (opened_course _ _ _ _ _ _ _ _ _ _ _ _ _ Hfresh Hhist Hbelow Hopen Hex Hno) as Hc. cbn [happen] in Hrun. split_and!.
  - intros io' now' k gen site Hj. rewrite Hj in Hrun.
    destruct (section _ _) as [[t' c']|] eqn:Hs; [|done]. injection Hrun as <-. cbn [section] in Hs.
    destruct (acquires_course _ _ _ _ _ _ _ _ _ _ _ Hc Hj Hs) as (_ & Hch & Hout). cbn [sy_controller sy_threads].
    rewrite lookup_insert_eq. split; [exact Hch|]. destruct Hout as [(t & -> & He)|[(x & Hx) Hover]].
    + left. by exists t.
    + right. split; [|done]. by exists t', x.
  - intros io' now' k gen t site Hj. rewrite Hj in Hrun.
    destruct (section _ _) as [[t' c']|] eqn:Hs; [|done]. injection Hrun as <-. cbn [section] in Hs.
    destruct (offers_course _ _ _ _ _ _ _ _ _ _ _ _ Hc Hj Hs) as (_ & Hout). cbn [sy_controller sy_threads].
    rewrite lookup_insert_eq. destruct Hout as [(snapshot & out & q & -> & Hst & Hg & Hcur)|[(out & x & Hx & Hst) Hover]].
    + left. destruct (course_threads _ _ _ Hc j _ Hj) as [(_ & _ & _ & Hsg & _) _]. by exists snapshot, out, q.
    + right. split; [|done]. by exists t', x, out.
  - intros Hnc Hlt io' now' r c' Ha. pose proof (alone_recomposes 5 io' now' InHost (sy_controller s)) as Hr.
    change (7 + 5)%nat with whole in Hr. rewrite Ha in Hr.
    destruct (recompose io' now' (sy_controller s)) as [[r' c1]|] eqn:E; [|done]. cbn in Hr. injection Hr as <- <-.
    eapply recompose_in_term; [by eapply course_in_term|done|exact E].
Qed.

(** The first recomposition of a controller and one of its host collect the same generation;
    the second to offer is overtaken. *)
Lemma recomposition_publishes_witness :
  let io := Running.committed in
  let opening := Opens sound_environment io Status.OK 1000 2000 0 in
  let hs := [Enters 1 (Collects io 2001 InHost); Runs 0; Runs 1; Runs 0; Runs 1; Runs 0; Runs 1; Runs 0] in
  ∃ c s s' gen, open_term sound_environment Status.OK 1000 Running.created = Ok c
    ∧ happens (System Running.created ∅) (opening :: hs) = Some s ∧ happen s (Runs 1) = Some s'
    ∧ overtaken (sy_controller s') gen ∧ ch_history (ct_chain (sy_controller s')) = ch_history (ct_chain (sy_controller s)).
Proof.
  intros io opening hs.
  assert (recovered_below sound_environment Running.created) as Hbelow.
  { intros c1 Hc1. assert (recover sound_environment Running.created = Ok Running.created) as E by reflexivity.
    rewrite E in Hc1. injection Hc1 as <-. by vm_compute. }
  assert (match open_term sound_environment Status.OK 1000 Running.created, happens (System Running.created ∅) (opening :: hs) with
    | Ok _, Some s =>
        match sy_threads s !! 1%nat, happen s (Runs 1) with
        | Some (Offers _ _ _ _ _ _), Some s' =>
            match sy_threads s' !! 1%nat with Some (Returned _) => true | _ => false end
        | _, _ => false
        end
    | _, _ => false
    end = true) as Hrun by (vm_compute; reflexivity).
  assert (fresh Running.config "boot-x" None Running.created) as Hfresh by (exists Running.created; split; reflexivity).
  assert (Forall (λ h, ¬ opens h) hs) as Hno by (repeat constructor; intros []).
  revert Hrun Hfresh Hbelow Hno. subst opening. generalize hs Running.created. clear hs. intros hs c0 Hrun Hfresh Hbelow Hno.
  destruct (open_term _ _ _ c0) as [c|] eqn:Hopen; [|discriminate Hrun].
  destruct (happens _ _) as [s|] eqn:Hex; [|discriminate Hrun].
  destruct (sy_threads s !! 1%nat) as [t|] eqn:Ht; [|discriminate Hrun].
  destruct t as [| | | | | | | | | | | | | | | | | |io' now k gen t site| | | |]; try discriminate Hrun.
  destruct (happen s (Runs 1)) as [s'|] eqn:Hrun1; [|discriminate Hrun].
  destruct (recomposition_publishes _ _ _ _ _ _ _ _ _ _ 0 1 _ _ _ Hfresh ltac:(vm_compute; discriminate) Hbelow Hopen Hex Hno Hrun1)
    as (_ & Hoffers & _).
  exists c, s, s', gen. split; [reflexivity|]. split; [reflexivity|]. split; [exact Hrun1|].
  destruct (Hoffers io' now k gen t site Ht) as [(snapshot & out & q & H & _)|(_ & Hh & Hover)].
  - rewrite H in Hrun. discriminate Hrun.
  - by split.
Defined.
