(* ===== verification/Sessions.v ===== *)
(** Boundaries of the sessions (src/controller/controller.cpp, [accept_loop], [handle_connection]
    and the handlers of hello and publish): how many connections a controller serves, and what a
    session can leave behind. *)

From stdpp Require Import sorting sets gmap.
From S2P Require Import Prelude Ordering Enums Sha256 Identity Canonical Evidence Capacity Claims Codec Canonicalize Authority Forest Site SiteCodec Snapshot StoreFormat Store Protocol Samples Admit Attribute Domains Maintenance Ledger Verdicts Compose Controller Execution.

(** * The connection limit *)

Definition is_incoming (e : acceptor_event) : Prop := e = Incoming.
#[export] Instance is_incoming_dec e : Decision (is_incoming e).
Proof. destruct e; [by left|by right]. Defined.

Lemma accept_loop_counts max_connections events : ∀ a n,
  ac_active_connections a = Z.min (Z.of_nat n) max_connections ∨ (max_connections ≤ 0 ∧ ac_active_connections a = 0) →
  (accept_loop max_connections events a).1
  = (λ k, bool_decide (Z.of_nat k < max_connections)) <$> seq n (length (filter is_incoming events)).
Proof.
  induction events as [|[|i] events IH]; intros a n Hn; [done| |].
  - cbn [accept_loop]. unfold accept_connection. cbn [reap ac_active_connections ac_handlers].
    rewrite filter_cons_True by done. cbn [length seq fmap list_fmap].
    destruct (Z.leb_spec max_connections (ac_active_connections a)) as [Hle|Hlt].
    + rewrite bool_decide_eq_false_2 by lia.
      destruct (accept_loop _ events _) as [more a'] eqn:E. specialize (IH (reap a) (S n)).
      unfold reap in IH at 2. rewrite E in IH. cbn [fst] in *. f_equal. apply IH. cbn. lia.
    + rewrite bool_decide_eq_true_2 by lia.
      match goal with |- context [accept_loop _ events ?x] => specialize (IH x (S n)); destruct (accept_loop _ events x) end.
      cbn [fst] in *. f_equal. apply IH. cbn. lia.
  - cbn [accept_loop]. rewrite filter_cons_False by done. by apply IH.
Qed.

(** Connections are counted once and for ever: between a start and a stop the controller
    serves exactly the first [max_connections] connections that come in, and refuses every
    later one, however many of the served ones have ended - no matter that their handlers are
    reaped, the count of active connections never goes down. *)
Theorem connections_exhausted (max_connections : Z) (events : list acceptor_event) :
  (accept_loop max_connections events new_acceptor).1
  = (λ k, bool_decide (Z.of_nat k < max_connections)) <$> seq 0 (length (filter is_incoming events)).
Proof. apply accept_loop_counts. cbn. lia. Qed.

(** One seat: the second connection is refused although the first one has ended. *)
Lemma ended_session_keeps_its_seat :
  accept_loop 1 [Incoming; Finished 0; Incoming] new_acceptor = ([true; false], Acceptor [] 1).
Proof. reflexivity. Qed.

(** * What a session can leave behind *)

Definition rack (id : string) : member_domain_key := MemberDomainKey MemberDomainKind.RACK id.
(** Session [i] receives a hello, and its connection breaks. *)
Definition greets (i : nat) (d : member_domain_key) (boot : string) (now : Z) : event :=
  Round i (Running.at_ now) (Running.say (Running.hello d boot)) (Running.at_ now).
Definition breaks (i : nat) (now : Z) : event :=
  Round i (Running.at_ now) (Broken Status.TRUNCATED) (Running.at_ now).

(** A second hello replaces the session's identity: when the session ends, the member of the
    first hello is still live, and its domain does not await a report. *)
Lemma second_hello_abandons_first :
  match execute (Node Running.listening ∅)
          [Connect 0; greets 0 (rack "rack-1") "boot-1" 2000; greets 0 (rack "rack-2") "boot-1" 2001; breaks 0 2002] with
  | Some n =>
      let c := nd_controller n in
      member_incarnation_live (rack "rack-1") Running.boot (ct_authority c)
      && negb (member_incarnation_live (rack "rack-2") Running.boot (ct_authority c))
      && bool_decide (ct_reconstructed c = [rack "rack-2"])
  | None => false
  end = true.
Proof. vm_compute. reflexivity. Qed.

(** The end of a session that was taken over hides the member that took over: it is live, and
    yet its domain awaits a report. *)
Lemma late_end_hides_successor :
  match execute (Node Running.listening ∅)
          [Connect 0; greets 0 (rack "rack-1") "boot-1" 2000; Connect 1; Round 1 (Running.at_ 2001)
             (Running.say (HelloRequest (rack "rack-1") "site-a" (Incarnation 2 "boot-2") "member-1" 0 supported_schema 0))
             (Running.at_ 2001); breaks 0 2002] with
  | Some n =>
      let c := nd_controller n in
      member_incarnation_live (rack "rack-1") (Incarnation 2 "boot-2") (ct_authority c)
      && bool_decide (ct_reconstructed c = [rack "rack-1"])
  | None => false
  end = true.
Proof. vm_compute. reflexivity. Qed.
