(* ===== verification/Recovery.v ===== *)
(** Restarting a controller from the file of its store (src/controller/controller.cpp [start],
    src/persistence/persistence.cpp).

    The store promises that a file cut anywhere is read back as the longest prefix of the log
    whose records survived (StoreFormat, Store). Here the controller's recovery is composed with
    that promise: what a restarted controller knows, as a function of the log. *)

From stdpp Require Import sorting sets gmap.
From S2P Require Import Prelude Ordering Enums Sha256 Identity Canonical Evidence Capacity Claims Codec Canonicalize Authority Forest Site SiteCodec Snapshot StoreFormat Store Protocol Samples Admit Attribute Domains Maintenance Ledger Verdicts Compose Controller Execution Terms.

(** * The recovered contents, as entries of the log *)

Lemma contents_elem log e : Forall loggable log → e ∈ entries_of (contents_of log) ↔ e ∈ entry_on_wire <$> log.
Proof.
  intros Hl. unfold contents_of. rewrite entries_of_sort, entries_of_collect_all.
  - unfold entries_of. cbn. by rewrite app_nil_r.
  - apply Forall_fmap. eapply Forall_impl; [exact Hl|]. intros x [_ Hx]. by destruct x.
Qed.

Lemma contents_snapshots log s : Forall loggable log →
  s ∈ co_snapshot_history (contents_of log) ↔ ∃ s0, ESnapshot s0 ∈ log ∧ s = on_wire s0.
Proof.
  intros Hl. pose proof (contents_elem log (ESnapshot s) Hl) as H.
  rewrite list_elem_of_fmap in H. unfold entries_of in H. split.
  - intros Hs. destruct (proj1 H) as (e & He & Hin).
    { apply elem_of_app. left. apply list_elem_of_fmap. by exists s. }
    destruct e; try done. injection He as ->. eauto.
  - intros (s0 & Hin & ->). destruct H as [_ H]. specialize (H ltac:(by exists (ESnapshot s0))).
    repeat apply elem_of_app in H as [H|H]; apply list_elem_of_fmap in H as (x & [=] & Hx). by subst.
Qed.

Lemma contents_publications log p : Forall loggable log →
  p ∈ co_publications (contents_of log) ↔ ∃ p0, EPublication p0 ∈ log ∧ p = publication_on_wire p0.
Proof.
  intros Hl. pose proof (contents_elem log (EPublication p) Hl) as H.
  rewrite list_elem_of_fmap in H. unfold entries_of in H. split.
  - intros Hs. destruct (proj1 H) as (e & He & Hin).
    { apply elem_of_app. right. apply elem_of_app. left. apply list_elem_of_fmap. by exists p. }
    destruct e; try done. injection He as ->. eauto.
  - intros (p0 & Hin & ->). destruct H as [_ H]. specialize (H ltac:(by exists (EPublication p0))).
    repeat apply elem_of_app in H as [H|H]; apply list_elem_of_fmap in H as (x & [=] & Hx). by subst.
Qed.

Lemma contents_retirements log r : Forall loggable log → r ∈ co_retirements (contents_of log) ↔ ERetirement r ∈ log.
Proof.
  intros Hl. pose proof (contents_elem log (ERetirement r) Hl) as H.
  rewrite list_elem_of_fmap in H. unfold entries_of in H. split.
  - intros Hs. destruct (proj1 H) as (e & He & Hin).
    { apply elem_of_app. right. apply elem_of_app. right. apply elem_of_app. left. apply list_elem_of_fmap. by exists r. }
    destruct e; try done. by injection He as ->.
  - intros Hin. destruct H as [_ H]. specialize (H ltac:(by exists (ERetirement r))).
    repeat apply elem_of_app in H as [H|H]; apply list_elem_of_fmap in H as (x & [=] & Hx). by subst.
Qed.

(** The snapshot of the log that recovery publishes: none has a higher sequence. *)
Definition newest_snapshot (log : list entry) (s : site_snapshot) : Prop :=
  ESnapshot s ∈ log ∧ ∀ s', ESnapshot s' ∈ log → snap_sequence s' ≤ snap_sequence s.

Lemma last_sorted l (s : site_snapshot) :
  StronglySorted (λ x y, snap_sequence x ≤ snap_sequence y) l → last l = Some s →
  ∀ x, x ∈ l → snap_sequence x ≤ snap_sequence s.
Proof.
  intros Hs Hl x Hx. apply last_Some in Hl as [k ->]. apply elem_of_app in Hx as [Hx|Hx].
  - apply StronglySorted_app in Hs as (Hs & _ & _). apply Hs; [done|]. apply list_elem_of_here.
  - by apply list_elem_of_singleton in Hx as ->.
Qed.

Lemma latest_newest log : Forall loggable log →
  match latest_snapshot (contents_of log) with
  | Some s => ∃ s0, newest_snapshot log s0 ∧ s = on_wire s0
  | None => ∀ s, ESnapshot s ∉ log
  end.
Proof.
  intros Hl. pose proof (contents_snapshots log) as Hin. unfold latest_snapshot.
  destruct (last (co_snapshot_history (contents_of log))) as [s|] eqn:E.
  - assert (s ∈ co_snapshot_history (contents_of log)) as Hs.
    { apply last_Some in E as [k ->]. apply elem_of_app. right. apply list_elem_of_here. }
    apply Hin in Hs as (s0 & Hs0 & ->); [|done]. exists s0. split; [|done]. split; [done|]. intros s' Hs'.
    change (snap_sequence (on_wire s') ≤ snap_sequence (on_wire s0)).
    eapply last_sorted; [|exact E|by apply Hin; [|exists s']]. exact (sort_by_sorted snap_sequence _).
  - apply last_None in E. intros s Hs. assert (on_wire s ∈ co_snapshot_history (contents_of log)) as H
      by (apply Hin; [done|eauto]). rewrite E in H. by apply elem_of_nil in H.
Qed.

(** * What recovery sets *)

(** The newest publication of each domain, by generation. *)
Definition no_newer_generation (q r : publication_record) : Prop := pub_generation q ≤ pub_generation r.

Lemma keep_recovered_spec rs : kept_in no_newer_generation rs (foldl keep_recovered [] rs).
Proof.
  apply (keep_all_spec (λ found r, pub_generation found <? pub_generation r)); unfold no_newer_generation.
  - done.
  - intros found r q ?%Z.ltb_lt. lia.
  - intros found r. apply Z.ltb_ge.
Qed.

(** A snapshot the chain accepts back. *)
Definition restorable (e : entry) : Prop :=
  match e with
  | ESnapshot s => is_valid_identifier (snap_site s) = true ∧ snap_epoch s ≠ 0 ∧ snap_sequence s ≠ 0
  | _ => True
  end.

Lemma restore_logged s ch :
  entry_ok (ESnapshot s) → restorable (ESnapshot s) → ch_history ch = [] → 0 < ch_limit ch →
  ∃ ch', restore (on_wire s) ch = (Status.OK, ch') ∧ Snapshot.current ch' = Some (on_wire s).
Proof.
  intros (_ & _ & Hdig) (Hid & Hep & Hseq) Hh Hlim. exists (push (on_wire s) ch). split.
  - unfold restore, is_set. cbn [on_wire snapshot_on_wire snap_site snap_epoch snap_sequence snap_site_digest snap_snapshot_digest snap_state].
    assert (composed_site_digest (on_wire (snap_state s)) = snap_site_digest s) as ->.
    { rewrite <- Hdig. unfold composed_site_digest. by rewrite write_site_on_wire. }
    rewrite Hid, (proj2 (Z.eqb_neq _ _) Hep), (proj2 (Z.eqb_neq _ _) Hseq), bool_decide_eq_true_2 by done.
    change (digest_is_zero zero_digest) with true. cbn [negb orb andb]. by rewrite Hh.
  - unfold Snapshot.current, push. cbn [ch_history]. rewrite Hh.
    destruct (trim_spec (ch_limit ch) [on_wire s]) as (_ & Hl & _); [done|done|exact Hl].
Qed.

(** What the controller knows after recovering [contents]. *)
Definition knows (log : list entry) (c : controller) : Prop :=
  match latest_snapshot (contents_of log) with
  | Some s => Snapshot.current (ct_chain c) = Some s ∧ ct_site_generation c = snap_generation s ∧ snap_epoch s ≤ ct_epoch c
  | None => Snapshot.current (ct_chain c) = None ∧ ct_site_generation c = 0 ∧ 0 ≤ ct_epoch c
  end
  ∧ ct_epoch c = foldl raise_epoch (from_option snap_epoch 0 (latest_snapshot (contents_of log))) (co_leases (contents_of log))
  ∧ kept_in no_newer_generation (co_publications (contents_of log)) (ct_publications c)
  ∧ ct_retirements c = co_retirements (contents_of log)
  ∧ ct_reconstructed c = pub_domain <$> co_publications (contents_of log)
  ∧ ct_acceptance_sequence c
    = foldl (λ n r, Z.max n (pub_acceptance_sequence r)) 0 (co_publications (contents_of log)).

Lemma recover_registry_knows log c :
  Forall loggable log → ct_publications c = [] → ct_reconstructed c = [] → ct_epoch c = 0 → ct_site_generation c = 0 →
  Snapshot.current (ct_chain c) = latest_snapshot (contents_of log) →
  knows log (recover_registry (contents_of log) c).
Proof.
  intros Hl Hp Hr He Hg Hcur. pose proof (keep_recovered_spec (co_publications (contents_of log))) as Hkept.
  unfold knows, recover_registry. generalize dependent (contents_of log). intros contents Hcur Hkept.
  destruct c. cbn in *. subst. destruct (latest_snapshot contents) as [s|]; cbn; (split; [split; [done|]|by split_and!]).
  - split; [done|]. apply raise_all_mono.
  - split; [done|]. apply raise_all_mono.
Qed.

Lemma knows_counted log n x c : knows log c → knows log (add_count n x c).
Proof. by destruct c. Qed.

(** The log that survives a crash that leaves [n] bytes of the file. *)
Definition survivors (n : Z) (log : list entry) : list entry := fitting (n - kFileHeaderBytes) log.

Lemma survivors_keep (P : entry → Prop) n log : Forall P log → Forall P (survivors n log).
Proof. intros H. destruct (fitting_prefix (n - kFileHeaderBytes) log) as [k Hk]. rewrite Hk in H. by apply Forall_app in H as [? _]. Qed.

Lemma recover_log cfg boot log n c :
  fresh cfg boot (Some (take (Z.to_nat n) (image_of log))) c → 0 ≤ cc_snapshot_history cfg → cc_persistent cfg = true →
  config_ok (recovery_config cfg) → Forall loggable log → Forall restorable log →
  image_size log ≤ cfg_max_bytes (recovery_config cfg) → zlen log ≤ cfg_max_records (recovery_config cfg) →
  kFileHeaderBytes ≤ n →
  ∃ c1, recover sound_environment c = Ok c1 ∧ ct_file c1 = Some (image_of (survivors n log)) ∧ knows (survivors n log) c1.
Proof.
  intros Hfresh Hhist Hpers Hcfg Hl Hrest Hb Hr Hn.
  destruct (fresh_fields _ _ _ _ Hfresh Hhist) as (_ & Hh & Hlim & _ & Hfile & _ & He & Hg & Hp & _ & _ & Hrec & _ & Hcp & Hcs & Hch & _).
  pose proof (survivors_keep _ n _ Hl) as Hl'. pose proof (survivors_keep _ n _ Hrest) as Hrest'.
  destruct (take_image log n (loggable_ok _ Hl) Hn) as (p & Htake & Hlen & Hp').
  destruct (fitting_all (recovery_config cfg) n log Hl Hb Hr Hn) as (_ & Hm' & Hn').
  fold (survivors n log) in Htake, Hlen, Hm', Hn'. set (kept := survivors n log) in *.
  pose proof (open_image (recovery_config cfg) kept p Hcfg Hl' ltac:(lia) Hn' Hp') as Hopen.
  assert (recovery_config (ct_config c) = recovery_config cfg) as Hrc by (unfold recovery_config; by rewrite Hcs, Hch).
  assert (cfg_path (cc_store (ct_config c)) ≠ ""%string) as Hpath.
  { destruct Hcfg as [Hpath _]. revert Hpath. unfold recovery_config. rewrite Hcs. by destruct (_ =? _). }
  unfold recover. rewrite Hcp, Hpers. cbn [negb]. rewrite bool_decide_eq_false_2 by exact Hpath.
  rewrite Hrc, Hfile, Htake. destruct (Store.open (recovery_config cfg) sound_environment _) as [[opened st] f].
  destruct Hopen as [-> Hholds]. change (negb (is_ok Status.OK)) with false. cbv iota zeta.
  set (c2 := bump Recoveries _).
  assert (ct_chain c2 = ct_chain c ∧ ct_publications c2 = [] ∧ ct_reconstructed c2 = [] ∧ ct_epoch c2 = 0
    ∧ ct_site_generation c2 = 0 ∧ ct_file c2 = f) as (Hc2 & Hp2 & Hr2 & He2 & Hg2 & Hf2)
    by (subst c2; destruct c; by split_and!).
  pose proof (load_holds _ _ _ Hcfg Hholds) as (Hcont & _ & Hst & _). cbn [snd] in Hcont, Hst.
  assert (f = Some (image_of kept)) as Hf by apply Hholds.
  assert (recovers (rc_status (load sound_environment f)) = true) as -> by (by rewrite Hst). cbn [negb]. rewrite Hcont.
  pose proof (latest_newest kept Hl') as Hlat.
  destruct (latest_snapshot (contents_of kept)) as [s|] eqn:Es.
  - destruct Hlat as (s0 & (Hin & _) & ->).
    destruct (restore_logged s0 (ct_chain c2)) as (ch' & -> & Hcur); [| |by rewrite Hc2|by rewrite Hc2|].
    { eapply Forall_forall in Hl' as [? _]; [|exact Hin]. done. }
    { eapply Forall_forall in Hrest'; [|exact Hin]. done. }
    change (negb (is_ok Status.OK)) with false. cbv iota. eexists. split; [reflexivity|]. split.
    + rewrite <- Hf, <- Hf2. unfold recover_registry. rewrite Es. generalize (contents_of kept). intros contents.
      clear. by destruct c2.
    + apply knows_counted, recover_registry_knows; try (by destruct c2). by rewrite Es; destruct c2.
  - eexists. split; [reflexivity|]. split.
    + rewrite <- Hf, <- Hf2. unfold recover_registry. rewrite Es. generalize (contents_of kept). intros contents.
      clear. by destruct c2.
    + apply knows_counted, recover_registry_knows; try done. rewrite Es, Hc2. unfold Snapshot.current. by rewrite Hh.
Qed.

(** * The restarted controller *)

Lemma offer_epoch io now gen t s c : ct_epoch (offer_snapshot io now gen t s c).2 = ct_epoch c.
Proof.
  unfold offer_snapshot. destruct (recompute_digest _) as [ds snapshot].
  destruct (negb (is_ok ds)); [by destruct c|]. destruct (Snapshot.publish _ _ _ _) as [out ch]. cbv zeta.
  destruct (_ && _); [by destruct c|]. destruct (negb _); [|by destruct c].
  destruct (commit_booked io gen snapshot out (set_chain ch c)) as [_ (_ & _ & -> & _)]. by destruct c.
Qed.

Lemma recompose_epoch io now c r c' : recompose io now c = Some (r, c') → ct_epoch c' = ct_epoch c.
Proof.
  unfold recompose, finish_recompose. cbv zeta. destruct (Compose.run _) as [s|code|]; [| |done].
  2: { intros [_ <-]%some_pair. by destruct c. }
  destruct (acquire_site_authority _ _ _ _ _ _ _ _) as [[acquired granted] authority].
  destruct (negb (is_ok acquired)); [intros [_ <-]%some_pair; by destruct c|].
  intros H. apply (inj Some) in H. apply (f_equal snd) in H. cbn [snd] in H. rewrite <- H, offer_epoch. by destruct c.
Qed.

Lemma offer_generation io now gen t s c :
  ct_site_generation (offer_snapshot io now gen t s c).2 ∈ [ct_site_generation c; gen].
Proof.
  unfold offer_snapshot. destruct (recompute_digest _) as [ds snapshot].
  destruct (negb (is_ok ds)); [destruct c; set_solver|]. destruct (Snapshot.publish _ _ _ _) as [out ch]. cbv zeta.
  destruct (_ && _); [destruct c; set_solver|]. destruct (negb _); [|destruct c; set_solver].
  destruct (commit_booked io gen snapshot out (set_chain ch c)) as [_ (_ & _ & _ & Hg)]. rewrite Hg.
  destruct c. set_solver.
Qed.

Lemma recompose_generation io now c r c' :
  recompose io now c = Some (r, c') → ct_site_generation c' ∈ [ct_site_generation c; generation_next (ct_site_generation c)].
Proof.
  unfold recompose, finish_recompose. cbv zeta. destruct (Compose.run _) as [s|code|]; [| |done].
  2: { intros [_ <-]%some_pair. destruct c. set_solver. }
  destruct (acquire_site_authority _ _ _ _ _ _ _ _) as [[acquired granted] authority].
  destruct (negb (is_ok acquired)); [intros [_ <-]%some_pair; destruct c; set_solver|].
  intros H. apply (inj Some) in H. apply (f_equal snd) in H. cbn [snd] in H. rewrite <- H.
  match goal with |- context [offer_snapshot io now ?g ?t s ?x] => pose proof (offer_generation io now g t s x) as Ho end.
  destruct c. exact Ho.
Qed.

(** Whatever follows recovery, the controller stands at the next epoch. *)
Lemma start_epoch env io bound now later c c1 st c2 :
  ct_running c = false → recover env c = Ok c1 → 0 ≤ ct_epoch c1 < max_value →
  start env io bound now later c = Some (st, c2) → ct_epoch c2 = ct_epoch c1 + 1.
Proof.
  intros Hrun Hrec He. unfold start. rewrite Hrun, Hrec. cbv zeta.
  set (e2 := if is_set (ct_epoch c1) then _ else 1). assert (e2 = ct_epoch c1 + 1) as <-.
  { subst e2. unfold is_set, epoch_next. destruct (Z.eqb_spec (ct_epoch c1) 0); cbn [negb]; [lia|].
    destruct (Z.eqb_spec (ct_epoch c1) max_value); lia. }
  destruct (acquire_site_authority _ _ _ _ _ _ _ _) as [[acquired granted] authority].
  destruct (negb (is_ok acquired)); [intros [_ <-]%some_pair; by destruct c1|].
  destruct (negb (is_ok bound)); [intros [_ <-]%some_pair; by destruct c1|].
  destruct (recompose _ _ _) as [[r c3]|] eqn:Hr; [|done]. cbn [mbind option_bind fst snd].
  intros H. apply some_pair in H as [_ <-]. apply recompose_epoch in Hr.
  replace (ct_epoch (if _ : bool then _ else _)) with (ct_epoch c3) by (by destruct (_ && _), c3). rewrite Hr. by destruct c1.
Qed.

(** What recovery folds over the log, as bounds that determine it. *)
Lemma acceptance_bound ps : ∀ n m, foldl (λ n r, Z.max n (pub_acceptance_sequence r)) n ps ≤ m
  ↔ n ≤ m ∧ ∀ p, p ∈ ps → pub_acceptance_sequence p ≤ m.
Proof.
  induction ps as [|p ps IH]; intros n m; cbn [foldl]; [split; [split; [done|]; by intros ? ?%elem_of_nil|by intros [? _]]|].
  rewrite IH. setoid_rewrite elem_of_cons. split; [intros [? H]; split; [lia|]; intros q [->|Hq]; [lia|by apply H]|].
  intros [? H]. split; [|by auto]. specialize (H p (or_introl eq_refl)). lia.
Qed.

Lemma epoch_bound ts : ∀ e m, foldl raise_epoch e ts ≤ m
  ↔ e ≤ m ∧ ∀ t, t ∈ ts → tok_kind t = AuthorityKind.SITE_CONTROLLER → tok_epoch t ≤ m.
Proof.
  induction ts as [|t ts IH]; intros e m; cbn [foldl]; [split; [split; [done|]; by intros ? ?%elem_of_nil|by intros [? _]]|].
  rewrite IH. setoid_rewrite elem_of_cons. unfold raise_epoch.
  destruct (bool_decide_reflect (tok_kind t = AuthorityKind.SITE_CONTROLLER)) as [Hk|Hk]; cbn [andb].
  - destruct (Z.ltb_spec e (tok_epoch t)); (split; [intros [? H1]; split; [lia|]; intros x [->|Hx] ?; [lia|by apply H1]|]);
      intros [? H1]; (split; [|by auto]); specialize (H1 t (or_introl eq_refl) Hk); lia.
  - split; [intros [? H1]; split; [done|]; intros x [->|Hx] ?; [done|by apply H1]|]. intros [? H1]. split; [done|]. by auto.
Qed.

Lemma contents_leases log t : Forall loggable log → t ∈ co_leases (contents_of log) ↔ ELease t ∈ log.
Proof.
  intros Hl. pose proof (contents_elem log (ELease t) Hl) as H.
  rewrite list_elem_of_fmap in H. unfold entries_of in H. split.
  - intros Hs. destruct (proj1 H) as (e & He & Hin).
    { do 4 (apply elem_of_app; right). apply list_elem_of_fmap. by exists t. }
    destruct e; try done. by injection He as ->.
  - intros Hin. destruct H as [_ H]. specialize (H ltac:(by exists (ELease t))).
    repeat apply elem_of_app in H as [H|H]; apply list_elem_of_fmap in H as (x & [=] & Hx). by subst.
Qed.

(** A file too short for the store's header is refused, and left as it is. *)
Lemma start_short cfg boot image c io bound now later :
  fresh cfg boot (Some image) c → 0 ≤ cc_snapshot_history cfg → cc_persistent cfg = true →
  config_ok (recovery_config cfg) → zlen image < kFileHeaderBytes →
  ∃ c', start sound_environment io bound now later c = Some (Status.NOT_FOUND, c') ∧ ct_file c' = Some image
    ∧ ct_running c' = false ∧ ct_epoch c' = 0.
Proof.
  intros Hfresh Hhist Hpers Hcfg Hn.
  destruct (fresh_fields _ _ _ _ Hfresh Hhist) as (_ & _ & _ & _ & Hfile & Hrun & He & _ & _ & _ & _ & _ & _ & Hcp & Hcs & Hch & _).
  assert (recovery_config (ct_config c) = recovery_config cfg) as Hrc by (unfold recovery_config; by rewrite Hcs, Hch).
  assert (cfg_path (cc_store (ct_config c)) ≠ ""%string) as Hpath.
  { destruct Hcfg as [Hpath _]. revert Hpath. unfold recovery_config. rewrite Hcs. by destruct (_ =? _). }
  assert (∃ st, Store.open (recovery_config cfg) sound_environment (Some image) = (Status.NOT_FOUND, st, Some image)) as [st Ho].
  { unfold Store.open. rewrite (config_valid_ok _ Hcfg). cbn [negb env_directory sound_environment].
    change (is_ok Status.OK) with true. cbn [negb]. unfold prepare_file, read_image. cbn [env_read sound_environment].
    rewrite (proj2 (Z.ltb_ge kMaxMaxStoreBytes (zlen image))).
    2: { destruct Hcfg as (_ & Hb & _). lia. }
    unfold scan_image. rewrite (proj2 (Z.ltb_lt _ _) Hn). eexists. reflexivity. }
  unfold start. rewrite Hrun. unfold recover. rewrite Hcp, Hpers. cbn [negb]. rewrite bool_decide_eq_false_2 by exact Hpath.
  rewrite Hrc, Hfile, Ho. change (negb (is_ok Status.NOT_FOUND)) with true. cbv iota.
  eexists. split; [reflexivity|]. by destruct c.
Qed.

(** C14: a restart knows exactly what reached the disk. When a controller is started from a
    file of its store cut after any number of bytes, and the cut falls into the file's header,
    the start is refused with [NOT_FOUND] and the file left alone. Otherwise the file is cut
    back to the longest prefix of whole records, and the controller knows exactly what that
    prefix says: a snapshot with its highest sequence is the published one, and sets the site
    generation, or there is none; of each domain the publication kept has the highest
    generation, and domains without a publication have none; the domains that await a report
    are those with a publication; the retirements are those of the log; the acceptance number
    is the highest of the publications, and the epoch the highest of the snapshot's and of the
    leases of site controllers, from zero; and the epoch of the new term is one higher. *)
Theorem restart_recovers (cfg : controller_config) (boot : string) (log : list entry) (n : Z) (c : controller) :
  fresh cfg boot (Some (take (Z.to_nat n) (image_of log))) c → 0 ≤ cc_snapshot_history cfg → cc_persistent cfg = true →
  config_ok (recovery_config cfg) → Forall loggable log → Forall restorable log →
  image_size log ≤ cfg_max_bytes (recovery_config cfg) → zlen log ≤ cfg_max_records (recovery_config cfg) →
  let kept := survivors n log in
  (n < kFileHeaderBytes → ∀ io bound now later, ∃ c',
     start sound_environment io bound now later c = Some (Status.NOT_FOUND, c')
     ∧ ct_file c' = Some (take (Z.to_nat n) (image_of log)) ∧ ct_running c' = false ∧ ct_epoch c' = 0)
  ∧ (kFileHeaderBytes ≤ n → ∃ c1 e0,
       recover sound_environment c = Ok c1 ∧ ct_file c1 = Some (image_of kept)
       ∧ ((∀ s, ESnapshot s ∉ kept) ∧ Snapshot.current (ct_chain c1) = None ∧ ct_site_generation c1 = 0 ∧ e0 = 0
          ∨ ∃ s, newest_snapshot kept s ∧ Snapshot.current (ct_chain c1) = Some (on_wire s)
              ∧ ct_site_generation c1 = snap_generation s ∧ e0 = snap_epoch s)
       ∧ (∀ d, match om_find d (ct_publications c1) with
               | Some r => ∃ p, EPublication p ∈ kept ∧ r = publication_on_wire p ∧ pub_domain p = d
                             ∧ ∀ q, EPublication q ∈ kept → pub_domain q = d → pub_generation q ≤ pub_generation p
               | None => ∀ q, EPublication q ∈ kept → pub_domain q ≠ d
               end)
       ∧ (∀ d, d ∈ ct_reconstructed c1 ↔ ∃ p, EPublication p ∈ kept ∧ pub_domain p = d)
       ∧ (∀ r, r ∈ ct_retirements c1 ↔ ERetirement r ∈ kept)
       ∧ (∀ m, ct_acceptance_sequence c1 ≤ m ↔
            0 ≤ m ∧ ∀ p, EPublication p ∈ kept → pub_acceptance_sequence p ≤ m)
       ∧ (∀ m, ct_epoch c1 ≤ m ↔
            e0 ≤ m ∧ ∀ t, ELease t ∈ kept → tok_kind t = AuthorityKind.SITE_CONTROLLER → tok_epoch t ≤ m)
       ∧ (∀ io bound now later st c2, start sound_environment io bound now later c = Some (st, c2) →
            0 ≤ ct_epoch c1 < max_value → ct_epoch c2 = ct_epoch c1 + 1)).
Proof.
  intros Hfresh Hhist Hpers Hcfg Hl Hrest Hb Hr kept. split.
  { intros Hn io bound now later. eapply start_short; try done.
    unfold zlen. rewrite length_take. unfold kFileHeaderBytes in *. lia. }
  intros Hn. destruct (recover_log _ _ _ _ _ Hfresh Hhist Hpers Hcfg Hl Hrest Hb Hr Hn) as (c1 & Hrec & Hf & Hk). fold kept in Hf, Hk.
  pose proof (survivors_keep _ n _ Hl) as Hl'. fold kept in Hl'. pose proof (contents_publications kept) as Hpubs.
  destruct Hk as (Hsnap & Hepoch & (_ & Hkept & Hall) & Hret & Hrecon & Hacc).
  exists c1, (from_option snap_epoch 0 (latest_snapshot (contents_of kept))).
  split; [exact Hrec|]. split; [exact Hf|]. split; [|split; [|split; [|split; [|split; [|split]]]]].
  - pose proof (latest_newest kept Hl') as Hlat. destruct (latest_snapshot (contents_of kept)) as [s|].
    + right. destruct Hlat as (s0 & Hnew & ->). exists s0. split; [exact Hnew|]. destruct Hsnap as (? & ? & _). done.
    + left. split; [exact Hlat|]. destruct Hsnap as (? & ? & _). done.
  - intros d. destruct (om_find d (ct_publications c1)) as [r|] eqn:Hd.
    + destruct (Hkept d r Hd) as (Hin & Hdom & Hmax). apply Hpubs in Hin as (p & Hp & ->); [|exact Hl'].
      exists p. split_and!; [exact Hp|reflexivity|exact Hdom|]. intros q Hq Hqd.
      exact (Hmax (publication_on_wire q) (proj2 (Hpubs _ Hl') (ex_intro _ q (conj Hq eq_refl))) Hqd).
    + intros q Hq Hqd. destruct (Hall (publication_on_wire q)) as [r Hr']; [apply Hpubs; eauto|].
      change (pub_domain (publication_on_wire q)) with (pub_domain q) in Hr'. congruence.
  - intros d. rewrite Hrecon, list_elem_of_fmap. split.
    + intros (r & -> & Hin). apply Hpubs in Hin as (p & Hp & ->); [|exact Hl']. by exists p.
    + intros (p & Hp & <-). exists (publication_on_wire p). split; [done|]. apply Hpubs; eauto.
  - intros r. rewrite Hret. by apply contents_retirements.
  - intros m. rewrite Hacc, acceptance_bound. apply and_iff_compat_l. split.
    + intros H p Hp. apply (H (publication_on_wire p)). apply Hpubs; eauto.
    + intros H r Hin. apply Hpubs in Hin as (p & Hp & ->); [|exact Hl']. exact (H p Hp).
  - intros m. rewrite Hepoch, epoch_bound. apply and_iff_compat_l. by setoid_rewrite contents_leases.
  - intros io bound now later st c2 Hstart He. eapply start_epoch; [|exact Hrec|exact He|exact Hstart].
    apply (fresh_fields _ _ _ _ Hfresh Hhist).
Qed.

(** A site that keeps its store, and a crash inside the third record of its log. *)
Definition persistent_config : controller_config :=
  ControllerConfig "site-a" (SiteExpectation "site-a" supported_schema 0 (Scenario.expected <$> ["rack-1"; "rack-2"]) false)
    "ctl-1" (Incarnation 0 "boot-c") 60000 8 true true sample_config 16 false.
Definition crashed : controller :=
  set_store None (Some (take (Z.to_nat sample_cut) (image_of sample_entries)))
    match create persistent_config "boot-x" with Ok c => c | Err _ => new_controller persistent_config "" end.

Lemma restart_recovers_witness :
  ∃ c1 s, recover sound_environment crashed = Ok c1 ∧ ct_file c1 = Some (image_of (take 2 sample_entries))
    ∧ Snapshot.current (ct_chain c1) = Some (on_wire s) ∧ ESnapshot s ∈ take 2 sample_entries.
Proof.
  assert (survivors sample_cut sample_entries = take 2 sample_entries) as Hkept by (vm_compute; reflexivity).
  pose proof (restart_recovers persistent_config "boot-x" sample_entries sample_cut crashed) as H. cbv zeta in H.
  rewrite Hkept in H.
  assert (fresh persistent_config "boot-x" (Some (take (Z.to_nat sample_cut) (image_of sample_entries))) crashed) as Hf.
  { eexists. split; [vm_compute; reflexivity|]. unfold crashed. f_equal. }
  destruct (H Hf) as [_ Hlong]; [| | | | | | |destruct Hlong as (c1 & e0 & Hrec & Hfile & Hsnap & _)].
  - vm_compute; discriminate.
  - reflexivity.
  - repeat split; vm_compute; congruence.
  - pose proof sample_entries_ok as Hok. unfold sample_entries in *.
    repeat (constructor; [split; [by eapply Forall_inv|done]|apply Forall_inv_tail in Hok]); constructor.
  - repeat constructor; vm_compute; congruence.
  - vm_compute; discriminate.
  - vm_compute; discriminate.
  - vm_compute; discriminate.
  - destruct Hsnap as [[Hnone _]|(s & [Hin _] & Hcur & _)].
    + exfalso. apply (Hnone SampleSite.snapshot). cbn [take sample_entries]. apply list_elem_of_here.
    + exists c1, s. split; [exact Hrec|]. split; [exact Hfile|]. split; [exact Hcur|exact Hin].
Defined.
