(* ===== verification/Invalidate.v ===== *)
(** Dependency-precise invalidation (compose.cpp, [invalidate_for_source],
    [invalidate_for_domain] and [InvalidationReport::invalidates_everything]).

    Every decision of a composed site carries the sources it rests on; a change of one source
    splits the decisions into those that must be recomputed and those that stand. *)

From stdpp Require Import sorting sets.
From S2P Require Import Prelude Ordering Enums Sha256 Identity Canonical Evidence Capacity Claims Codec Canonicalize Forest Site Samples Admit Attribute Domains Maintenance Ledger Verdicts Compose.

Record invalidation_report := InvalidationReport {
  rep_domain : member_domain_key;
  rep_changed : source_ref;
  rep_invalidated : list decision_id;
  rep_retained : list decision_id;
  rep_recomposition_required : list decision_kind;
  rep_affected_domains : list member_domain_key;
  rep_affected_resources : list resource_key;
}.

(** The loop over the decisions: invalidated, retained and the kinds to recompute. *)
Definition split_decision (depends : site_decision → bool)
    (st : list decision_id * list decision_id * list decision_kind) (d : site_decision)
    : list decision_id * list decision_id * list decision_kind :=
  let '(invalidated, retained, kinds) := st in
  if depends d then
    (invalidated ++ [dec_id d], retained,
     if decide (did_kind (dec_id d) ∈ kinds) then kinds else kinds ++ [did_kind (dec_id d)])
  else (invalidated, retained ++ [dec_id d], kinds).

Definition split_decisions (depends : site_decision → bool) (s : composed_site) :=
  foldl (split_decision depends) ([], [], []) (site_decisions s).

(** The resources a predicate on attestors selects. *)
Definition attested_resources (attests : source_set → bool) (s : composed_site) : list resource_key :=
  ra_key <$> List.filter (λ a, attests (ra_attestors a)) (site_ownership s).

Definition invalidate_for_source (s : composed_site) (changed : source_ref) : invalidation_report :=
  let '(invalidated, retained, kinds) := split_decisions (depends_on changed) s in
  let domains :=
    match find_member (sr_domain changed) s with
    | Some m => if bool_decide (ms_source m = changed) then [sr_domain changed] else []
    | None => []
    end in
  InvalidationReport (sr_domain changed) changed (sort_by id invalidated) (sort_by id retained) (sort_by id kinds)
    (sort_by id domains) (sort_by id (attested_resources (λ a, ss_contains a changed) s)).

Definition invalidate_for_domain (s : composed_site) (domain : member_domain_key) : invalidation_report :=
  let '(invalidated, retained, kinds) := split_decisions (depends_on_domain domain) s in
  let '(changed, domains) :=
    match find_member domain s with
    | Some m => (ms_source m, [domain])
    | None => (no_source_ref, [])
    end in
  InvalidationReport domain changed (sort_by id invalidated) (sort_by id retained) (sort_by id kinds)
    (sort_by id domains) (sort_by id (attested_resources (λ a, contains_domain a domain) s)).

Definition invalidates_everything (r : invalidation_report) : bool :=
  existsb (λ d, bool_decide (did_kind d = DecisionKind.SITE_LIFECYCLE)) (rep_invalidated r).

(** ** The split *)

Section split.
Context (depends : site_decision → bool).

(** The ids of the decisions that do, and do not, depend on the change. *)
Definition ids_where (b : bool) (l : list site_decision) : list decision_id :=
  dec_id <$> List.filter (λ d, Bool.eqb (depends d) b) l.

Lemma split_spec l :
  ∃ kinds, foldl (split_decision depends) ([], [], []) l = (ids_where true l, ids_where false l, kinds)
  ∧ NoDup kinds ∧ ∀ k, k ∈ kinds ↔ k ∈ did_kind <$> ids_where true l.
Proof using Type.
  unfold ids_where. induction l as [|d l IH] using rev_ind.
  { exists []. split; [done|]. split; [constructor|done]. }
  destruct IH as (kinds & Heq & Hnd & Hk). rewrite foldl_app, Heq. simpl.
  rewrite !List.filter_app, !fmap_app. simpl. destruct (depends d); simpl; rewrite ?app_nil_r.
  - case_decide as Hin; eexists; (split; [reflexivity|]).
    + split; [done|]. intros k. rewrite elem_of_app, list_elem_of_singleton, <- Hk. naive_solver.
    + split; [apply NoDup_app; split_and!; [done|set_solver|apply NoDup_singleton]|].
      intros k. by rewrite !elem_of_app, Hk.
  - exists kinds. split; [done|]. by split.
Qed.

Lemma ids_where_perm l : ids_where true l ++ ids_where false l ≡ₚ dec_id <$> l.
Proof using Type.
  unfold ids_where. induction l as [|d l IH]; [done|]. simpl. destruct (depends d); simpl.
  - by rewrite IH.
  - by rewrite <- Permutation_middle, IH.
Qed.

Lemma ids_where_elem b l x :
  x ∈ ids_where b l ↔ ∃ d, d ∈ l ∧ depends d = b ∧ dec_id d = x.
Proof using Type.
  unfold ids_where. rewrite list_elem_of_fmap. split.
  - intros (d & -> & Hd). apply list_elem_of_In, filter_In in Hd as [Hd He]. apply Bool.eqb_prop in He.
    exists d. by rewrite list_elem_of_In.
  - intros (d & Hd & <- & <-). exists d. split; [done|]. apply list_elem_of_In, filter_In.
    split; [by apply list_elem_of_In|apply Bool.eqb_reflx].
Qed.
End split.

Lemma kinds_sorted (l : list decision_kind) : NoDup l → StronglySorted lt_key (sort_by id l).
Proof. intros H. apply le_sorted_NoDup_lt; [apply sort_by_sorted|]. by rewrite sort_by_perm. Qed.

(** What a report promises about the decisions that a change touches. *)
Definition splits (depends : site_decision → bool) (s : composed_site) (r : invalidation_report) : Prop :=
  rep_invalidated r ++ rep_retained r ≡ₚ dec_id <$> site_decisions s
  ∧ StronglySorted le_key (rep_invalidated r) ∧ StronglySorted le_key (rep_retained r)
  ∧ (∀ x, x ∈ rep_invalidated r ↔ ∃ d, d ∈ site_decisions s ∧ depends d = true ∧ dec_id d = x)
  ∧ (∀ x, x ∈ rep_retained r ↔ ∃ d, d ∈ site_decisions s ∧ depends d = false ∧ dec_id d = x)
  ∧ StronglySorted lt_key (rep_recomposition_required r)
  ∧ (∀ k, k ∈ rep_recomposition_required r ↔ k ∈ did_kind <$> rep_invalidated r).

Lemma splits_intro depends s r kinds :
  NoDup kinds → (∀ k, k ∈ kinds ↔ k ∈ did_kind <$> ids_where depends true (site_decisions s)) →
  rep_invalidated r = sort_by id (ids_where depends true (site_decisions s)) →
  rep_retained r = sort_by id (ids_where depends false (site_decisions s)) →
  rep_recomposition_required r = sort_by id kinds → splits depends s r.
Proof.
  intros Hnd Hk Hi Hr Hq. unfold splits. rewrite Hi, Hr, Hq. split_and!.
  - by rewrite !sort_by_perm, ids_where_perm.
  - apply (sort_by_sorted id).
  - apply (sort_by_sorted id).
  - intros x. by rewrite sort_by_elem, ids_where_elem.
  - intros x. by rewrite sort_by_elem, ids_where_elem.
  - by apply kinds_sorted.
  - intros k. rewrite sort_by_elem, Hk, !list_elem_of_fmap. by setoid_rewrite sort_by_elem.
Qed.

(** The decisions a change may touch are split exactly. *)
Lemma source_splits s changed : splits (depends_on changed) s (invalidate_for_source s changed).
Proof.
  unfold invalidate_for_source, split_decisions.
  destruct (split_spec (depends_on changed) (site_decisions s)) as (kinds & -> & Hnd & Hk).
  by apply splits_intro with kinds.
Qed.

Lemma domain_splits s domain : splits (depends_on_domain domain) s (invalidate_for_domain s domain).
Proof.
  unfold invalidate_for_domain, split_decisions.
  destruct (split_spec (depends_on_domain domain) (site_decisions s)) as (kinds & -> & Hnd & Hk).
  destruct (find_member domain s); by apply splits_intro with kinds.
Qed.

(** The resources a predicate on attestors selects, as a report lists them. *)
Lemma affected_resources_elem attests s key :
  key ∈ sort_by id (attested_resources attests s)
  ↔ ∃ a, a ∈ site_ownership s ∧ ra_key a = key ∧ attests (ra_attestors a) = true.
Proof.
  rewrite sort_by_elem. unfold attested_resources. rewrite list_elem_of_fmap. split.
  - intros (a & -> & Ha). apply list_elem_of_In, filter_In in Ha as [Ha He]. exists a. by rewrite list_elem_of_In.
  - intros (a & Ha & <- & He). exists a. split; [done|]. apply list_elem_of_In, filter_In.
    by rewrite <- list_elem_of_In.
Qed.

Lemma contains_domain_elem (l : source_set) domain :
  contains_domain l domain = true ↔ ∃ ref, ref ∈ ss_items l ∧ sr_domain ref = domain.
Proof.
  unfold contains_domain. rewrite existsb_exists. setoid_rewrite <- list_elem_of_In. by setoid_rewrite bool_decide_eq_true.
Qed.

(** C32: invalidation is dependency-precise: over any composed site, a report splits the
    decisions exactly - those whose sources hold the changed source, or a source of the changed
    domain, are invalidated, all others retained, each list in order and together every
    decision - and the kinds to recompute are those of the invalidated decisions, each once.
    The affected resources are exactly those the changed source, or a source of the changed
    domain, attests; the affected domain is the changed one, when the site has it as a member -
    for a changed source, when the member was composed from just that source. *)
Theorem invalidation_exact (s : composed_site) (changed : source_ref) (domain : member_domain_key) :
  splits (depends_on changed) s (invalidate_for_source s changed)
  ∧ splits (depends_on_domain domain) s (invalidate_for_domain s domain)
  ∧ (∀ key, key ∈ rep_affected_resources (invalidate_for_source s changed) ↔
       ∃ a, a ∈ site_ownership s ∧ ra_key a = key ∧ ss_contains (ra_attestors a) changed = true)
  ∧ (∀ key, key ∈ rep_affected_resources (invalidate_for_domain s domain) ↔
       ∃ a ref, a ∈ site_ownership s ∧ ra_key a = key ∧ ref ∈ ss_items (ra_attestors a) ∧ sr_domain ref = domain)
  ∧ (∀ d, d ∈ rep_affected_domains (invalidate_for_source s changed) ↔
       d = sr_domain changed ∧ ∃ m, find_member d s = Some m ∧ ms_source m = changed)
  ∧ (∀ d, d ∈ rep_affected_domains (invalidate_for_domain s domain) ↔ d = domain ∧ is_Some (find_member d s)).
Proof.
  split_and!; [apply source_splits|apply domain_splits| | | |].
  - intros key. unfold invalidate_for_source. destruct (split_decisions _ _) as [[? ?] ?]. apply affected_resources_elem.
  - intros key. unfold invalidate_for_domain. destruct (split_decisions _ _) as [[? ?] ?].
    destruct (find_member domain s); cbn [rep_affected_resources]; rewrite affected_resources_elem;
      setoid_rewrite contains_domain_elem; naive_solver.
  - intros d. unfold invalidate_for_source. destruct (split_decisions _ _) as [[? ?] ?]. cbn [rep_affected_domains].
    rewrite sort_by_elem. destruct (find_member (sr_domain changed) s) as [m|] eqn:E.
    + case_bool_decide as Hm; rewrite ?list_elem_of_singleton, ?elem_of_nil; naive_solver.
    + rewrite elem_of_nil. naive_solver.
  - intros d. unfold invalidate_for_domain. destruct (split_decisions _ _) as [[? ?] ?].
    destruct (find_member domain s) as [m|] eqn:E; cbn [rep_affected_domains]; rewrite sort_by_elem.
    + rewrite list_elem_of_singleton. naive_solver.
    + rewrite elem_of_nil. split; [done|]. intros [-> [m Hm]]. congruence.
Qed.

(** ** The lifecycle rests on everything *)

Definition all_sources (l : list site_decision) : source_set :=
  foldl (λ s x, ss_union s (dec_sources x)) ss_empty l.

Lemma all_sources_wf l : ss_wf (all_sources l).
Proof.
  unfold all_sources. induction l as [|d l IH] using rev_ind; [apply ss_wf_empty|].
  rewrite foldl_app. simpl. by apply ss_union_wf.
Qed.

Lemma all_sources_keeps l d ref :
  ss_truncated (all_sources l) = false → d ∈ l → ref ∈ ss_items (dec_sources d) → ref ∈ ss_items (all_sources l).
Proof.
  intros Ht Hd Href. induction l as [|x l IH] using rev_ind; [by apply elem_of_nil in Hd|].
  assert (all_sources (l ++ [x]) = ss_union (all_sources l) (dec_sources x)) as Heq
    by (unfold all_sources; by rewrite foldl_app).
  rewrite Heq in *. destruct (ss_union_keeps _ _ (all_sources_wf l) Ht) as (H1 & _ & H2). rewrite H2.
  apply elem_of_app in Hd as [Hd | ->%list_elem_of_singleton]; auto.
Qed.

(** The last decision of a composition is its lifecycle. *)
Lemma run_decisions i s :
  run i = Composed s →
  ∃ (d : decisions_so_far) st, site_decisions s =
    sort_by dec_id (site_decision_on DecisionKind.SITE_LIFECYCLE st (all_sources d.1) no_factors d).1.
Proof.
  unfold run. destruct (prepare i) as [e|]; [|done]. cbv zeta.
  destruct (attribute_resources _ _ _) as [[resources ownership] n1].
  destruct (build_failure_domains _ _ _ _) as [[forest dm] n2].
  destruct (build_maintenance _ _ _ _ _) as [[[effects capacity] ind] n3].
  destruct (build_obligations _ _ _) as [obligations|]; [|done].
  destruct (build_membership _ _ _ _) as [members n4]. unfold build_decisions.
  destruct (foldl decide_ownership _ _) as [g d0]. intros [= <-]. cbn [site_decisions fst]. by do 2 eexists.
Qed.

Lemma lifecycle_decided i s :
  run i = Composed s → zlen (site_decisions s) < kMaxDecisions →
  ∃ l life, site_decisions s ≡ₚ l ++ [life] ∧ did_kind (dec_id life) = DecisionKind.SITE_LIFECYCLE
    ∧ dec_sources life = all_sources l.
Proof.
  intros Hrun Hlen. destruct (run_decisions i s Hrun) as (d & st & Heq).
  assert (zlen (site_decisions s) = zlen (site_decision_on DecisionKind.SITE_LIFECYCLE st (all_sources d.1) no_factors d).1)
    as Hl by (unfold zlen; by rewrite Heq, sort_by_length).
  rewrite Hl in Hlen. unfold site_decision_on, add_decision in *.
  destruct (Z.leb_spec kMaxDecisions (zlen d.1)); cbn [fst] in *; [lia|].
  exists d.1. eexists. split; [rewrite Heq, sort_by_perm; reflexivity|done].
Qed.

(** A change that some decision depends on reaches the lifecycle. *)
Lemma lifecycle_depends i s (depends : site_decision → bool) :
  run i = Composed s → zlen (site_decisions s) < kMaxDecisions →
  (∀ d, d ∈ site_decisions s → did_kind (dec_id d) = DecisionKind.SITE_LIFECYCLE → ss_truncated (dec_sources d) = false) →
  (∀ d life, ss_wf (dec_sources life) → (∀ ref, ref ∈ ss_items (dec_sources d) → ref ∈ ss_items (dec_sources life)) →
     depends d = true → depends life = true) →
  (∃ d, d ∈ site_decisions s ∧ depends d = true) →
  ∃ life, life ∈ site_decisions s ∧ depends life = true ∧ did_kind (dec_id life) = DecisionKind.SITE_LIFECYCLE.
Proof.
  intros Hrun Hlen Htr Hmono (d & Hd & Hdep). destruct (lifecycle_decided i s Hrun Hlen) as (l & life & Hp & Hk & Hs).
  assert (life ∈ site_decisions s) as Hin by (rewrite Hp, elem_of_app, list_elem_of_singleton; auto).
  exists life. split; [done|]. split; [|done].
  rewrite Hp, elem_of_app, list_elem_of_singleton in Hd. destruct Hd as [Hd|<-]; [|done].
  apply (Hmono d); [rewrite Hs; apply all_sources_wf| |done]. intros ref Href. specialize (Htr life Hin Hk).
  rewrite Hs in *. by apply all_sources_keeps with d.
Qed.

(** The invalidated decisions of a split report hold the lifecycle. *)
Lemma splits_everything depends s r :
  splits depends s r →
  (∃ life, life ∈ site_decisions s ∧ depends life = true ∧ did_kind (dec_id life) = DecisionKind.SITE_LIFECYCLE) →
  invalidates_everything r = true.
Proof.
  intros (_ & _ & _ & Hi & _) (life & Hin & Hd & Hk). unfold invalidates_everything. rewrite existsb_exists.
  exists (dec_id life). rewrite <- list_elem_of_In, Hi, bool_decide_eq_true. eauto.
Qed.

Lemma splits_some depends s r :
  splits depends s r → rep_invalidated r ≠ [] → ∃ d, d ∈ site_decisions s ∧ depends d = true.
Proof.
  intros (_ & _ & _ & Hi & _) Hne. destruct (rep_invalidated r) as [|x l]; [done|].
  destruct (proj1 (Hi x)) as (d & ? & ? & _); [left|]. eauto.
Qed.

(** No change is silent at the site level: in a composed site whose decisions and whose
    lifecycle sources were not cut off at their bounds, any change that invalidates some
    decision invalidates the lifecycle, so the report answers that everything is invalidated. *)
Theorem change_reaches_lifecycle (i : composition_input) (s : composed_site) (changed : source_ref)
    (domain : member_domain_key) :
  run i = Composed s → zlen (site_decisions s) < kMaxDecisions →
  (∀ d, d ∈ site_decisions s → did_kind (dec_id d) = DecisionKind.SITE_LIFECYCLE → ss_truncated (dec_sources d) = false) →
  (rep_invalidated (invalidate_for_source s changed) ≠ [] →
     invalidates_everything (invalidate_for_source s changed) = true)
  ∧ (rep_invalidated (invalidate_for_domain s domain) ≠ [] →
     invalidates_everything (invalidate_for_domain s domain) = true).
Proof.
  intros Hrun Hlen Htr. split; intros Hne.
  - apply (splits_everything _ _ _ (source_splits s changed)), (lifecycle_depends i); [done..| |].
    + intros d life Hwf Hsub Hd. apply (ss_contains_elem _ _ Hwf), Hsub. by apply ss_contains_in.
    + by apply (splits_some _ _ _ (source_splits s changed)).
  - apply (splits_everything _ _ _ (domain_splits s domain)), (lifecycle_depends i); [done..| |].
    + intros d life _ Hsub. unfold depends_on_domain, contains_domain. rewrite !existsb_exists.
      intros (ref & Href & Heq). exists ref. split; [|done]. apply list_elem_of_In, Hsub. by apply list_elem_of_In.
    + by apply (splits_some _ _ _ (domain_splits s domain)).
Qed.

Lemma change_reaches_lifecycle_witness :
  ∃ s, run (Scenario.maintained MaintenanceState.ACTIVE) = Composed s
       ∧ invalidates_everything
           (invalidate_for_domain s (MemberDomainKey MemberDomainKind.RACK "rack-2")) = true.
Proof.
  set (i := Scenario.maintained MaintenanceState.ACTIVE). set (d := MemberDomainKey _ "rack-2").
  assert (match run i with
          | Composed s => (zlen (site_decisions s) <? kMaxDecisions)
              && forallb (λ d, negb (ss_truncated (dec_sources d))) (site_decisions s)
              && negb (zlen (rep_invalidated (invalidate_for_domain s d)) =? 0) = true
          | _ => False end) as H by (vm_compute; reflexivity).
  destruct (run i) as [s| |] eqn:E; [|destruct H..].
  apply andb_prop in H as [[H1 H2]%andb_prop H3]. exists s. split; [reflexivity|].
  refine (proj2 (change_reaches_lifecycle i s no_source_ref d E _ _) _).
  - by apply Z.ltb_lt.
  - intros x Hx%list_elem_of_In _. rewrite forallb_forall in H2. apply negb_true_iff, (H2 x Hx).
  - intros Hnil. by rewrite Hnil in H3.
Defined.

(** ** What the dependencies of the capacity decisions leave out *)

(** The available capacity can change while its decision stands: with a second member
    that only declares a maintenance zone over a rack of the first, the available capacity
    depends on that member's declaration, but invalidating the member's domain retains the
    decisions on total and available capacity. *)
Theorem capacity_decision_unsound :
  let d := MemberDomainKey MemberDomainKind.RACK "rack-2" in
  let available := DecisionId DecisionKind.CAPACITY_AVAILABLE no_resource in
  match run (Scenario.maintained MaintenanceState.ACTIVE), run (Scenario.maintained MaintenanceState.SCHEDULED) with
  | Composed s, Composed s' =>
      cl_available (site_capacity s) ≠ cl_available (site_capacity s')
      ∧ available ∈ rep_retained (invalidate_for_domain s d)
      ∧ available ∉ rep_invalidated (invalidate_for_domain s d)
  | _, _ => False
  end.
Proof.
  cbv zeta. set (available := DecisionId _ no_resource). set (d := MemberDomainKey _ "rack-2").
  assert (match run (Scenario.maintained MaintenanceState.ACTIVE), run (Scenario.maintained MaintenanceState.SCHEDULED) with
          | Composed s, Composed s' =>
              bool_decide (cl_available (site_capacity s) = cl_available (site_capacity s')) = false
              ∧ bool_decide (available ∈ rep_retained (invalidate_for_domain s d)) = true
              ∧ bool_decide (available ∈ rep_invalidated (invalidate_for_domain s d)) = false
          | _, _ => False end) as H by (vm_compute; split_and!; reflexivity).
  destruct (run (Scenario.maintained MaintenanceState.ACTIVE)) as [s| |]; [|done..].
  destruct (run (Scenario.maintained MaintenanceState.SCHEDULED)) as [s'| |]; [|done..].
  destruct H as (H1 & H2 & H3). split_and!; [by apply bool_decide_eq_false in H1
    |by apply bool_decide_eq_true in H2|by apply bool_decide_eq_false in H3].
Qed.
