(* ===== verification/Intake.v ===== *)
(** What a running controller holds fits the formats (src/controller/controller.cpp with
    src/compose/validate.cpp, src/persistence/persistence.cpp and src/core/codec.cpp).

    Values enter a controller from four sides: its configuration, the frames of its sessions,
    the calls of its host and the file of its store. From each of them they are within the
    formats' bounds: a reader returns no others ([Decoded]), sealing keeps them there, and so
    does every event of the controller. So the composer's input always is one for which
    [Encodable] speaks, and what the controller composes can be stored, sent and read back. *)

From stdpp Require Import sorting sets gmap.
From S2P Require Import Prelude Ordering Enums Sha256 Identity Canonical Evidence Capacity Claims Codec Canonicalize Authority Forest Site SiteCodec Snapshot StoreFormat Store Protocol Samples Admit Attribute Domains Maintenance Ledger Verdicts Compose Encodable Decoded Transport Publisher Controller Execution Terms Recovery.

(** * Sealing *)

(** A step that keeps a property of what it accepts. *)
Definition preserves {S} (P : S → Prop) (f : Canonicalize.step S) : Prop := ∀ x y, accepts f x y → P x → P y.

Lemma preserves_list {A} `{Claim A} (P : A → Prop) (f : Canonicalize.step A) (key_of : A → string) bound b :
  Canonicalize.stable f key_of → preserves P f → preserves (list_ok b P) (claim_list f key_of bound).
Proof.
  intros Hst Hf l l' Ha [Hl HP]. pose proof (claim_list_canonical f key_of bound Hst l l' Ha) as [_ Hlen].
  split; [lia|]. apply claim_list_accepts in Ha as (l1 & Hall & _ & Hc).
  apply collapse_spec in Hc as (_ & Hin & _); [|apply sort_by_sorted].
  assert (Forall P l1) as H1.
  { clear -Hall HP Hf. induction Hall; [constructor|]. apply Forall_cons in HP as [? ?]. constructor; eauto. }
  rewrite Forall_forall in *. intros y Hy. apply H1. rewrite <- (sort_by_elem key_of). by apply Hin.
Qed.

Lemma sort_unique_ok {A} `{Ord A, EqDecision A} b (P : A → Prop) l : list_ok b P l → list_ok b P (sort_unique l).
Proof.
  intros [Hl HP]. split; [pose proof (zlen_sort_unique l); lia|]. rewrite Forall_forall in *.
  intros x Hx. apply HP. by apply sort_unique_elem.
Qed.

(** The accepted loop body leaves the claim as it is, or with its members in canonical form. *)
Ltac open_accepted :=
  let Heq := fresh "Heq" in let Hok := fresh "Hok" in
  intros x y (st & Heq & Hok); cbv beta zeta in Heq;
  repeat (match type of Heq with (if ?b then _ else _) = _ => destruct b end;
          [injection Heq as <- <-; first [done | by rewrite Hok in *]|]);
  injection Heq as _ <-.

(** The claim's fields one by one: kept, or put in canonical form. *)
Ltac kept := first [assumption | cbn; apply sort_unique_ok; assumption].
Ltac keep := hnf; repeat (split; [solve [kept]|]); kept.

Lemma cluster_preserves : preserves cluster_ok cluster_step.
Proof. unfold cluster_step. open_accepted. intros (? & ? & ? & ? & ?). keep. Qed.
Lemma pod_preserves : preserves pod_ok pod_step.
Proof. unfold pod_step. open_accepted. intros (? & ? & ? & ?). keep. Qed.
Lemma failure_domain_preserves : preserves failure_domain_ok failure_domain_step.
Proof. unfold failure_domain_step. open_accepted. intros (? & ? & ? & ? & ?). keep. Qed.
Lemma zone_preserves : preserves zone_ok zone_step.
Proof. unfold zone_step. open_accepted. intros (? & ? & ? & ? & ? & ? & ?). keep. Qed.
Lemma obligation_preserves : preserves obligation_ok obligation_step.
Proof. unfold obligation_step. open_accepted. done. Qed.
Lemma capacity_preserves {A} `{Claim A} (P : A → Prop) (valid : A → bool) ev cap declared :
  preserves P (λ c, capacity_step (valid c) (ev c) (cap c) (declared c) c).
Proof. unfold capacity_step. open_accepted. done. Qed.

Lemma canonicalize_preserves : preserves decl_ok canonicalize.
Proof.
  intros d d' (_ & cs & ps & rs & ls & gs & ks & fs & zs & os & (Hc & Hp & Hr & Hl & Hg & Hk & Hf & Hz & Ho) & ->)%canonicalize_accepts.
  intros (? & ? & ? & ? & ? & ? & H1 & H2 & H3 & H4 & H5 & H6 & H7 & H8 & H9).
  do 6 (split; [assumption|]).
  split; [eapply (preserves_list cluster_ok); [apply cluster_stable_step|apply cluster_preserves|exact Hc|exact H1]|].
  split; [eapply (preserves_list pod_ok); [apply pod_stable_step|apply pod_preserves|exact Hp|exact H2]|].
  split; [eapply (preserves_list rack_ok); [apply rack_stable_step|apply capacity_preserves|exact Hr|exact H3]|].
  split; [eapply (preserves_list link_ok); [apply link_stable_step|apply capacity_preserves|exact Hl|exact H4]|].
  split; [eapply (preserves_list gateway_ok); [apply gateway_stable_step|apply capacity_preserves|exact Hg|exact H5]|].
  split; [eapply (preserves_list contribution_ok); [apply contribution_stable_step|apply capacity_preserves|exact Hk|exact H6]|].
  split; [eapply (preserves_list failure_domain_ok); [apply failure_domain_stable_step|apply failure_domain_preserves|exact Hf|exact H7]|].
  split; [eapply (preserves_list zone_ok); [apply zone_stable_step|apply zone_preserves|exact Hz|exact H8]|].
  eapply (preserves_list obligation_ok); [apply obligation_stable_step|apply obligation_preserves|exact Ho|exact H9].
Qed.

Lemma seal_fits d sealed : seal d = (Status.OK, sealed) → decl_ok d → decl_ok sealed ∧ digest_wf (decl_digest sealed).
Proof.
  unfold seal. destruct (canonicalize d) as [st d'] eqn:E. destruct (is_ok st) eqn:Hok; intros H Hd.
  - injection H as <-. assert (decl_ok d') as Hd' by (eapply canonicalize_preserves; [by exists st|done]).
    split; [exact Hd'|]. apply digest_bytes_length.
  - injection H as -> _. done.
Qed.

(** Sealing does not check the members of pods and clusters: a declaration that names a rack
    without an identity is sealed, and its own bytes are then refused. Only the host can publish
    one, as no reader returns it. *)
Definition nameless_member : declaration :=
  MemberDomainDeclaration (Sample.domain MemberDomainKind.RACK "rack-1") "site-a" 1 supported_schema zero_digest 1
    [] [PodClaim "pod-1" 1 zero_digest [""%string] Sample.observed] [] [] [] [] [] [] [] Sample.observed.

Lemma sealed_undecodable :
  (seal nameless_member).1 = Status.OK
  ∧ read_declaration (write_declaration_content (seal nameless_member).2) = Err Status.MALFORMED.
Proof. by vm_compute. Qed.

(** * Recovery *)

(** Everything the scan of an image collects, whatever the image. *)
Definition contents_ok (k : store_contents) : Prop :=
  Forall snapshot_ok (co_snapshot_history k) ∧ Forall publication_ok (co_publications k)
  ∧ Forall retirement_ok (co_retirements k) ∧ Forall text_ok (co_tombstones k) ∧ Forall token_ok (co_leases k).

Definition entry_fits (e : entry) : Prop :=
  match e with
  | ESnapshot s => snapshot_ok s | EPublication p => publication_ok p | ERetirement r => retirement_ok r
  | ETombstone t => text_ok t | ELease t => token_ok t | ECheckpoint => True
  end.

Lemma yields_entry type : yields entry_fits (read_entry type).
Proof.
  destruct type; cbn [read_entry]; try (by apply yields_fail); try (by apply yields_ret);
    (eapply yields_bind; [by eauto with yields|]); intros x Hx; by apply yields_ret.
Qed.

Lemma decode_record_fits type payload e : decode_record type payload = Ok e → entry_fits e.
Proof.
  unfold decode_record. intros ([e' rest] & Hr & [= <-])%result_bind_Ok. cbn [fst]. revert payload e' rest Hr.
  apply (yields_bind entry_fits entry_fits); [apply yields_entry|]. intros e' He. apply yields_then. intros _. by apply yields_ret.
Qed.

Lemma examine_fits rest e size : examine rest = Ok (e, size) → entry_fits e.
Proof.
  unfold examine. intros ([type n] & _ & H)%result_bind_Ok. apply result_bind_Ok in H as (_ & _ & H).
  cbv zeta in H. apply result_bind_Ok in H as (_ & _ & H). destruct (decode_record _ _) as [e'|s] eqn:E; [|done].
  apply result_bind_Ok in H as (_ & _ & H). injection H as <- _. by eapply decode_record_fits.
Qed.

Lemma collect_fits k e : contents_ok k → entry_fits e → contents_ok (collect k e).
Proof.
  destruct k. intros (? & ? & ? & ? & ?) He. destruct e; split_and!; cbn; try done; by apply Forall_snoc.
Qed.

Lemma scan_fits fuel : ∀ rest st, contents_ok (sc_contents st) → contents_ok (sc_contents (scan_records fuel rest st).1).
Proof.
  induction fuel as [|fuel IH]; intros [|b rest] st Hst; cbn [scan_records fst]; try done.
  destruct (examine _) as [[e size]|s] eqn:E; [|done]. apply IH. cbn [sc_contents accept_entry].
  apply collect_fits; [done|]. by eapply examine_fits.
Qed.

Lemma Forall_sort_by {A K} `{Ord K} (key : A → K) (P : A → Prop) l : Forall P l → Forall P (sort_by key l).
Proof. rewrite !Forall_forall. intros HP x Hx. apply HP. by rewrite <- (sort_by_elem key). Qed.

Lemma scan_image_fits image : contents_ok (rc_contents (scan_image image)).
Proof.
  assert (contents_ok no_contents) as H0 by (split_and!; constructor).
  unfold scan_image. destruct (_ <? _); [done|]. destruct (verify_file_header image) as [v|]; [|done].
  destruct (negb _); [done|]. pose proof (scan_fits (length image) (drop (Z.to_nat kFileHeaderBytes) image) scan_start H0) as H.
  destruct (scan_records _ _ _) as [st stop]. destruct H as (? & ? & ? & ? & ?).
  split_and!; try done; by apply Forall_sort_by.
Qed.

Lemma load_fits env f : contents_ok (rc_contents (load env f)).
Proof.
  assert (contents_ok no_contents) as H0 by (split_and!; constructor).
  unfold load, read_file. destruct f as [image|]; [|done]. destruct (read_image _ _ _); [apply scan_image_fits|done].
Qed.

(** * What the controller holds *)

(** The registry counts incarnations in 64 bits. *)
Definition registry_ok (r : registry) : Prop := map_Forall (λ _ s, in_u 64 (ds_next_sequence s)) (domains r).

Lemma registry_set_domain d s r : in_u 64 (ds_next_sequence s) → registry_ok r → registry_ok (set_domain d s r).
Proof. intros. by apply map_Forall_insert_2. Qed.

Lemma registry_next d r : registry_ok r → in_u 64 (ds_next_sequence (default new_domain (domains r !! d))).
Proof. intros Hr. destruct (domains r !! d) as [s|] eqn:E; [by eapply (Hr d)|done]. Qed.

Lemma registry_ok_op r o : registry_ok r → registry_ok (apply_op r o).
Proof.
  intros Hr. destruct o as [| | |d i now|d i now|d o now|d];
    try (match goal with |- registry_ok (apply_op r ?o) => destruct (lease_ops_domains r o) as [E _]; [exact I|] end;
         unfold registry_ok; rewrite E; exact Hr); cbn [apply_op].
  - unfold admit_member_incarnation. destruct (_ || _); [done|]. cbv zeta. pose proof (registry_next d r Hr) as Hn.
    set (s := default new_domain _) in *. assert (registry_ok (set_domain d s r)) as Hs by (by apply registry_set_domain).
    repeat (match goal with |- registry_ok (if ?b then _ else _).2 => destruct b end; try exact Hs);
      (apply registry_set_domain; [by apply (wrap_range 64)|exact Hs]).
  - unfold retire_member_incarnation. destruct (_ || _); [done|]. cbv zeta. change (domains (bury d i r)) with (domains r).
    destruct (domains r !! d) as [s|] eqn:E; [|exact Hr]. destruct (_ && _); [|exact Hr].
    apply registry_set_domain; [|exact Hr]. exact (Hr d s E).
  - unfold record_publication. destruct (_ || _); [done|]. cbv zeta.
    apply registry_set_domain; [|exact Hr]. by apply registry_next.
  - by apply map_Forall_delete.
Qed.

Lemma drives_registry c c' : drives c c' → registry_ok (ct_authority c) → registry_ok (ct_authority c').
Proof.
  intros (_ & _ & ops & _ & ->). apply (run_invariant registry_ok (λ _, True)); [|by apply Forall_true].
  intros r o _. apply registry_ok_op.
Qed.

(** A snapshot the format can carry, as far as the composer bounds it. *)
Definition snapshot_fits (s : site_snapshot) : Prop := sizes_fit (snap_state s) → snapshot_ok s.
Definition chain_fits (ch : snapshot_chain) : Prop := Forall snapshot_fits (ch_history ch).

(** What the controller holds beside its registry. *)
Record books_fit (c : controller) : Prop := BooksFit {
  bf_site : id_ok (cc_site (ct_config c));
  bf_members : Forall expected_ok (se_members (cc_expectation (ct_config c)));
  bf_incarnation : incarnation_wf (ct_incarnation c);
  bf_epoch : in_u 64 (ct_epoch c);
  bf_generation : in_u 64 (ct_site_generation c);
  bf_acceptance : in_u 64 (ct_acceptance_sequence c);
  bf_publications : Forall publication_ok (ct_publications c).*2;
  bf_chain : chain_fits (ct_chain c);
}.

Definition keeps_books (c c' : controller) : Prop :=
  ct_config c' = ct_config c ∧ ct_incarnation c' = ct_incarnation c ∧ ct_epoch c' = ct_epoch c
  ∧ ct_site_generation c' = ct_site_generation c ∧ ct_acceptance_sequence c' = ct_acceptance_sequence c
  ∧ ct_publications c' = ct_publications c ∧ ct_chain c' = ct_chain c.
#[export] Instance keeps_books_preorder : PreOrder keeps_books.
Proof. split; [done|]. intros c1 c2 c3 (? & ? & ? & ? & ? & ? & ?) (? & ? & ? & ? & ? & ? & ?). split_and!; congruence. Qed.

Lemma keeps_books_fit c c' : keeps_books c c' → books_fit c → books_fit c'.
Proof. intros (E1 & E2 & E3 & E4 & E5 & E6 & E7) []. constructor; by rewrite ?E1, ?E2, ?E3, ?E4, ?E5, ?E6, ?E7. Qed.

Lemma persist_keeps io e c : keeps_books c (persist io e c).2.
Proof.
  pose proof (persist_records io e c) as (E1 & _ & _ & _ & E2).
  pose proof (persist_booked io e c) as ((E3 & E4 & _) & E5 & E6 & E7). by split_and!.
Qed.

Lemma bump_keeps x c : keeps_books c (bump x c). Proof. by destruct c. Qed.
Lemma set_authority_keeps a c : keeps_books c (set_authority a c). Proof. by destruct c. Qed.
Lemma set_store_keeps st f c : keeps_books c (set_store st f c). Proof. by destruct c. Qed.
Lemma add_count_keeps n x c : keeps_books c (add_count n x c). Proof. by destruct c. Qed.
Lemma set_running_keeps r c : keeps_books c (set_running r c). Proof. by destruct c. Qed.
Lemma set_token_keeps t c : keeps_books c (set_token t c). Proof. by destruct c. Qed.

Lemma generation_next_range g : in_u 64 g → in_u 64 (generation_next g).
Proof.
  unfold generation_next, max_value, in_u. intros. destruct (Z.eqb_spec g 0xFFFFFFFFFFFFFFFF); lia.
Qed.

Lemma collected_ok now c : in_i64 now → books_fit c → input_ok (collect_input now c).
Proof.
  intros Hn []. split; [done|]. split; [by apply generation_next_range|]. by do 3 (split; [done|]).
Qed.

(** ** Snapshots *)

Lemma sources_of_decisions ds : Forall decision_ok ds → source_set_ok (foldl (λ acc d, ss_union acc (dec_sources d)) ss_empty ds).
Proof.
  intros Hds. apply sources_ok_set, (union_all_ok dec_sources); [|apply ss_empty_ok].
  eapply Forall_impl; [exact Hds|]. by intros d (_ & ? & _).
Qed.

Lemma snapshot_of_fits now s d q :
  in_i64 now → in_u 64 q → (sizes_fit s → site_ok s) → digest_wf d →
  snapshot_fits (seal_digests d (with_sequence q (seal_digests d (snapshot_of now s)))).
Proof.
  intros Hn Hq Hs Hd Hsz. pose proof (Hs Hsz) as (? & ? & ? & ? & ? & _ & _ & _ & _ & _ & _ & _ & _ & _ & [_ Hdec] & ?).
  do 4 (split; [assumption|]). split; [exact Hq|]. split; [exact Hd|]. split; [exact Hn|].
  split; [by apply sources_of_decisions|]. split; [assumption|by apply Hs].
Qed.


Lemma push_fits s ch : snapshot_fits s → chain_fits ch → chain_fits (push s ch).
Proof.
  intros Hs Hch. unfold chain_fits, push. cbn [ch_history].
  assert (Forall snapshot_fits (ch_history ch ++ [s])) as H by (by apply Forall_snoc).
  induction H as [|x l Hx Hl IH]; [constructor|]. cbn [trim]. destruct (_ <? _); [exact IH|by constructor].
Qed.

Lemma refusal_keeps code ch : chain_fits ch → chain_fits (count_refusal code ch).
Proof. done. Qed.

(** A chain that is offered a site takes it numbered and with its digests, or stays as it was. *)
Lemma publish_chain_fits now s t ch :
  in_i64 now → (sizes_fit s → site_ok s) → chain_fits ch →
  chain_fits (Snapshot.publish (seal_digests (composed_site_digest s) (snapshot_of now s)) t now ch).2.
Proof.
  intros Hn Hs Hch. unfold Snapshot.publish. destruct (check_snapshot _ _ _) as [d|[code f]] eqn:Hck; [|exact Hch].
  apply check_snapshot_ok in Hck as (_ & _ & _ & _ & _ & _ & _ & -> & _).
  change (snap_state (seal_digests _ _)) with s.
  assert (digest_wf (composed_site_digest s)) as Hd by apply digest_bytes_length.
  destruct (last (ch_history ch)) as [cur|].
  - destruct (fence_against _ _ _); [|exact Hch..]. cbn [snd]. apply push_fits; [|exact Hch].
    apply snapshot_of_fits; [exact Hn|by apply wrap_range|exact Hs|exact Hd].
  - cbn [snd]. apply Forall_snoc; [exact Hch|]. by apply snapshot_of_fits.
Qed.

Lemma restore_fits s ch : snapshot_ok s → chain_fits ch → chain_fits (restore s ch).2.
Proof.
  intros Hs Hch. assert (chain_fits (push s ch)) as Hp by (apply push_fits; [by intros _|exact Hch]).
  unfold restore. repeat (match goal with |- chain_fits (if ?b then _ else _).2 => destruct b; [exact Hch|] end).
  destruct (last _) as [newest|]; [|exact Hp]. destruct (_ =? _); [exact Hch|]. by destruct (_ <? _).
Qed.

(** ** Recomposition *)

Lemma commit_chain io gen s out c : ct_chain (commit_snapshot io gen s out c).2 = ct_chain c.
Proof.
  unfold commit_snapshot. cbv zeta. destruct (ct_store _); [|by destruct c].
  match goal with |- context [persist io ?e ?x] => pose proof (persist_keeps io e x) as Hp; destruct (persist io e x) end.
  destruct Hp as (_ & _ & _ & _ & _ & _ & Hp). cbn [snd] in *. rewrite Hp. by destruct c.
Qed.

Lemma offer_chain_fits io now gen t s c :
  in_i64 now → (sizes_fit s → site_ok s) → chain_fits (ct_chain c) → chain_fits (ct_chain (offer_snapshot io now gen t s c).2).
Proof.
  intros Hn Hs Hch. pose proof (publish_chain_fits now s t (ct_chain c) Hn Hs Hch) as Hp.
  unfold offer_snapshot. rewrite recompute_fresh. destruct (Snapshot.publish _ _ _ _) as [out ch]. cbn [snd] in Hp. cbv zeta.
  change (negb (is_ok Status.OK)) with false. cbv iota.
  assert (ct_chain (set_chain ch c) = ch) as Hset by (by destruct c).
  destruct (_ && _); [by destruct c|]. destruct (negb _); [rewrite commit_chain|cbn [snd]]; rewrite Hset; exact Hp.
Qed.

Lemma recompose_fits io now c r c' : recompose io now c = Some (r, c') → in_i64 now → books_fit c → books_fit c'.
Proof.
  intros H Hn Hb. pose proof (collected_ok now c Hn Hb) as Hin.
  pose proof (recompose_records _ _ _ _ _ H) as (E1 & _ & _ & _ & E2).
  pose proof (recompose_epoch _ _ _ _ _ H) as E3. pose proof (recompose_drives _ _ _ _ _ H) as (E4 & E5 & _).
  pose proof (recompose_generation _ _ _ _ _ H) as E6.
  assert (chain_fits (ct_chain c')) as Hch.
  { destruct Hb as [_ _ _ _ _ _ _ Hch]. unfold recompose, finish_recompose in H. cbv zeta in H.
    destruct (Compose.run _) as [s|code|] eqn:Hrun; [| |done].
    2: { apply some_pair in H as [_ <-]. by destruct c. }
    pose proof (composed_site_ok _ _ Hin Hrun) as Hs.
    destruct (acquire_site_authority _ _ _ _ _ _ _ _) as [[acquired granted] authority].
    destruct (negb (is_ok acquired)); [apply some_pair in H as [_ <-]; by destruct c|].
    apply (inj Some) in H. apply (f_equal snd) in H. cbn [snd] in H. rewrite <- H.
    apply offer_chain_fits; [exact Hn|exact Hs|]. by destruct c. }
  destruct Hb as [? ? ? ? Hg ? ? _]. constructor; rewrite ?E1, ?E2, ?E3, ?E4, ?E5; try done.
  apply elem_of_cons in E6 as [->|E6]; [done|]. apply list_elem_of_singleton in E6 as ->. by apply generation_next_range.
Qed.

(** * Every event keeps the books *)

Definition attempt_ok (a : publish_attempt) : Prop := in_u 64 (pa_sequence a) ∧ in_u 32 (pa_attempt a).

Lemma record_fits publisher inc d sealed attempt now acceptance retain :
  seal d = (Status.OK, sealed) → decl_ok d → id_ok publisher → incarnation_wf inc → attempt_ok attempt → in_i64 now →
  in_u 64 acceptance → publication_ok (record_of publisher inc d sealed attempt now acceptance retain).
Proof.
  intros Hs Hd Hp Hi [? ?] Hn Ha. destruct (seal_fits d sealed Hs Hd) as [Hk Hdig].
  pose proof Hk as (? & ? & ? & ? & _). destruct Hd as (_ & _ & _ & _ & ? & _).
  do 12 (split; [assumption|]). by destruct retain.
Qed.

(** Setting one key puts nothing but the new value into the map. *)
Lemma om_set_Forall {K V} `{Ord K} (P : V → Prop) (k : K) (v : V) (m : omap_t K V) :
  P v → Forall P m.*2 → Forall P (om_set k v m).*2.
Proof.
  intros Hv. induction m as [|[k' v'] m IH]; cbn [om_set]; [by repeat constructor|].
  intros [Hv' Hm]%Forall_cons. destruct (cmp k k'); cbn [fmap list_fmap snd]; repeat constructor; auto.
Qed.

(** The records with a new acceptance number. *)
Lemma set_registry_fits ps rs rv rc acc c :
  in_u 64 acc → Forall publication_ok ps.*2 → books_fit c → books_fit (set_registry ps rs rv rc acc c).
Proof. intros Ha Hp []. by destruct c. Qed.

Lemma set_records_keeps rs rv rc c : keeps_books c (set_registry (ct_publications c) rs rv rc (ct_acceptance_sequence c) c).
Proof. by destruct c. Qed.

Lemma accept_fits record o now c : publication_ok record → books_fit c → books_fit (accept_publication record o now c).
Proof.
  intros Hrec Hb. eapply keeps_books_fit; [apply set_authority_keeps|]. apply set_registry_fits; [apply Hrec| |exact Hb].
  apply om_set_Forall; [exact Hrec|apply Hb].
Qed.

Lemma after_publish_fits io now out c r c' :
  after_publish io now out c = Some (r, c') → in_i64 now → books_fit c → books_fit c'.
Proof.
  unfold after_publish. intros H Hn Hb. destruct (negb _); [by apply some_pair in H as [_ <-]|].
  destruct (recompose io now c) as [[result c1]|] eqn:E; [|done]. cbn [mbind option_bind] in H. cbv zeta in H.
  apply recompose_fits in E; [|exact Hn|exact Hb].
  destruct (_ && _); [|destruct (negb _)]; by apply some_pair in H as [_ <-].
Qed.

Lemma publish_fits io now later publisher inc d attempt c r c' :
  Controller.publish io now later publisher inc d attempt c = Some (r, c') → in_i64 now → in_i64 later →
  decl_ok d → id_ok publisher → incarnation_wf inc → attempt_ok attempt → books_fit c → books_fit c'.
Proof.
  intros H Hn Hl Hd Hp Hi Ha Hb. destruct (check_publication inc d attempt c) as [sealed|[code f]] eqn:Hck.
  - rewrite (publish_accepted _ _ _ _ _ _ _ _ _ Hck) in H. cbv zeta in H.
    apply check_publication_ok in Hck as (Hseal & _ & _).
    set (record := record_of _ _ _ _ _ _ _ _) in H. set (c1 := accept_publication record _ now c) in H.
    assert (books_fit c1) as H1 by (by apply accept_fits; [apply record_fits; [..|apply wrap_range]|]).
    match type of H with context [persist io ?e c1] =>
      pose proof (persist_keeps io e c1) as Hk; destruct (persist io e c1) as [persisted c2] end. cbn [snd] in Hk.
    apply after_publish_fits in H; [exact H|exact Hl|].
    eapply keeps_books_fit; [etrans; [exact Hk|apply bump_keeps]|exact H1].
  - unfold Controller.publish in H. rewrite Hck in H. cbv zeta in H. apply some_pair in H as [_ <-].
    eapply keeps_books_fit; [|exact Hb]. destruct (is_replay code); [etrans|]; apply bump_keeps.
Qed.

Lemma retire_fits io now later q c r c' :
  Controller.retire io now later q c = Some (r, c') → in_i64 later → books_fit c → books_fit c'.
Proof.
  unfold Controller.retire. cbv zeta. intros H Hl Hb.
  destruct (negb (mdk_valid _)); [by apply some_pair in H as [_ <-]|]. destruct (negb _); [by apply some_pair in H as [_ <-]|].
  match type of H with context [persist io (ERetirement _) ?x] => assert (books_fit x) as Hx; [|generalize dependent x; intros c1 H Hx] end.
  { eapply keeps_books_fit; [apply set_authority_keeps|]. apply set_registry_fits; [by apply wrap_range|apply Hb|exact Hb]. }
  match type of H with context [persist io ?e c1] => pose proof (persist_keeps io e c1) as H1; destruct (persist io e c1) as [s1 c2] end.
  match type of H with context [persist io ?e c2] => pose proof (persist_keeps io e c2) as H2; destruct (persist io e c2) as [s2 c3] end.
  assert (books_fit (bump RetirementsAccepted c3)) as H3
    by (eapply keeps_books_fit; [etrans; [exact H1|etrans; [exact H2|apply bump_keeps]]|exact Hx]).
  destruct (negb _); [by apply some_pair in H as [_ <-]|].
  destruct (recompose _ _ _) as [[r' c4]|] eqn:E; [|done]. cbn [mbind option_bind] in H. apply some_pair in H as [_ <-].
  by apply recompose_fits in E.
Qed.

Lemma revoke_fits io now d c r c' :
  revoke_member io now d c = Some (r, c') → in_i64 now → books_fit c → books_fit c'.
Proof.
  unfold revoke_member. intros H Hn Hb. destruct (negb _); [by apply some_pair in H as [_ <-]|]. cbv zeta in H.
  destruct (recompose _ _ _) as [[r' c4]|] eqn:E; [|done]. cbn [mbind option_bind] in H. apply some_pair in H as [_ <-].
  apply recompose_fits in E; [exact E|exact Hn|]. eapply keeps_books_fit; [apply set_records_keeps|exact Hb].
Qed.

Definition moment_ok (t : moment) : Prop := in_i64 (mo_now t) ∧ in_i64 (mo_later t).

Lemma end_session_fits t se c c' : end_session t se c = Some c' → moment_ok t → books_fit c → books_fit c'.
Proof.
  unfold end_session. intros H [_ Hl] Hb. destruct (negb _); [by injection H as <-|]. cbv zeta in H.
  match type of H with context [persist (mo_io t) ?e ?x] =>
    pose proof (persist_keeps (mo_io t) e x) as Hp; destruct (persist (mo_io t) e x) as [persisted c1] end.
  set (c2 := if is_ok persisted then c1 else bump RecoveryRejections c1) in H.
  assert (keeps_books c1 c2) as H2 by (subst c2; destruct (is_ok _); [done|apply bump_keeps]).
  destruct (recompose _ _ _) as [[r c3]|] eqn:E; [|done]. cbn [mbind option_bind fst snd] in H. apply (inj Some) in H.
  apply recompose_fits in E; [|exact Hl|].
  - subst c'. destruct (is_ok (pr_status r)); [exact E|]. eapply keeps_books_fit; [apply bump_keeps|exact E].
  - eapply keeps_books_fit; [|exact Hb]. etrans; [apply set_authority_keeps|]. etrans; [exact Hp|].
    etrans; [exact H2|apply set_records_keeps].
Qed.

(** ** Frames *)

(** A greeted session publishes under an incarnation and a name the format can carry. *)
Definition session_fits (se : session) : Prop :=
  se_hello_done se = true → incarnation_wf (se_incarnation se) ∧ id_ok (se_publisher se).

(** What a handler leaves. *)
Definition handled_fits (h : handled) : Prop := books_fit h.2 ∧ session_fits h.1.2.

Lemma answer_fits r se c h : answer r se c = Some h → books_fit c → session_fits se → handled_fits h.
Proof. by intros [= <-]. Qed.

Lemma bump_fits x c : books_fit c → books_fit (bump x c).
Proof. apply keeps_books_fit, bump_keeps. Qed.

(** The sequence a hello is assigned. *)
Lemma admitted_sequence d i now r st q r' :
  registry_ok r → in_u 64 (inc_sequence i) → admit_member_incarnation d i now r = (st, q, r') → in_u 64 (default 0 q).
Proof.
  intros Hr Hi. unfold admit_member_incarnation. destruct (_ || _); [by intros [= _ <- _]|]. cbv zeta.
  pose proof (registry_next d r Hr) as Hn. set (s := default new_domain _) in *.
  assert (in_u 64 (inc_sequence (if inc_sequence i =? 0 then Incarnation (ds_next_sequence s) (inc_boot i) else i))) as Hc
    by (by destruct (_ =? _)).
  repeat match goal with |- (if ?b then _ else _) = _ → _ => destruct b end; by intros [= _ <- _].
Qed.

Lemma hello_fits t payload se c h :
  respond_hello t payload se c = Some h → registry_ok (ct_authority c) → books_fit c → session_fits se → handled_fits h.
Proof.
  unfold respond_hello, refuse_hello. cbv zeta. intros H Hc Hb Hs.
  destruct (decode_message _) as [q|s] eqn:Hq; [|by eapply answer_fits].
  apply decode_message_ok in Hq as (_ & _ & [Hseq Hboot] & Hpub & _).
  pose proof (bump_fits HelloRefused c Hb) as Hr.
  destruct (negb _); [by eapply answer_fits|]. destruct (_ <? _); [by eapply answer_fits|].
  destruct (admit_member_incarnation _ _ _ _) as [[admitted assigned] authority] eqn:E.
  apply admitted_sequence in E; [|exact Hc|exact Hseq].
  assert (books_fit (set_authority authority c)) as Ha by (eapply keeps_books_fit; [apply set_authority_keeps|exact Hb]).
  destruct (_ && _); [eapply answer_fits; [exact H|by apply bump_fits|exact Hs]|].
  eapply answer_fits; [exact H| |].
  - eapply keeps_books_fit; [etrans; [apply bump_keeps|apply set_records_keeps]|exact Ha].
  - intros _. cbn [se_incarnation se_publisher]. split; [split; [exact E|exact Hboot]|exact Hpub].
Qed.

Lemma publish_frame_fits t payload se c h :
  respond_publish t payload se c = Some h → moment_ok t → books_fit c → session_fits se → handled_fits h.
Proof.
  unfold respond_publish. intros H [Hn Hl] Hb Hs. destruct (decode_message _) as [q|s] eqn:Hq; [|by eapply answer_fits].
  apply decode_message_ok in Hq as (Hd & Ha).
  destruct (se_hello_done se) eqn:Hh; cbn [negb] in H; [|eapply answer_fits; [exact H|by apply bump_fits|exact Hs]].
  destruct (Controller.publish _ _ _ _ _ _ _ _) as [[r c1]|] eqn:E; [|done]. cbn [mbind option_bind] in H.
  destruct (Hs Hh) as [Hi Hp]. apply publish_fits in E; try done. cbv zeta in H. destruct (negb _); by eapply answer_fits.
Qed.

Lemma retire_frame_fits t payload se c h :
  respond_retire t payload se c = Some h → moment_ok t → books_fit c → session_fits se → handled_fits h.
Proof.
  unfold respond_retire. intros H [_ Hl] Hb Hs. destruct (decode_message _) as [q|s]; [|by eapply answer_fits].
  destruct (_ || _); [by eapply answer_fits|].
  destruct (Controller.retire _ _ _ _ _) as [[r c1]|] eqn:E; [|done]. cbn [mbind option_bind] in H.
  apply retire_fits in E; [|done..]. cbv zeta in H. destruct (negb _); by eapply answer_fits.
Qed.

(** The handlers that only look. *)
Lemma looking_fits t type payload se c h :
  handle_frame t type payload se c = Some h →
  type ∉ [MessageType.HELLO_REQUEST; MessageType.PUBLISH_REQUEST; MessageType.RETIRE_REQUEST] →
  books_fit c → session_fits se → handled_fits h.
Proof.
  unfold handle_frame. cbv zeta. intros H Ht Hb Hs. pose proof (bump_fits FramesReceived c Hb) as H1.
  generalize dependent (bump FramesReceived c). intros c1 H H1. pose proof (bump_fits Heartbeats c1 H1) as H2.
  destruct type; try (exfalso; apply Ht; set_solver); try (by eapply answer_fits);
    revert H; unfold respond_ping, respond_fetch_site, respond_heartbeat; cbv zeta;
    repeat first [ let H := fresh in intros H; by eapply answer_fits | destruct (decode_message _) | destruct (negb _) ].
Qed.

Lemma handle_frame_fits t type payload se c h :
  handle_frame t type payload se c = Some h → moment_ok t → registry_ok (ct_authority c) → books_fit c →
  session_fits se → handled_fits h.
Proof.
  intros H Ht Hc Hb Hs. pose proof (bump_fits FramesReceived c Hb) as H1.
  assert (registry_ok (ct_authority (bump FramesReceived c))) as H2 by (by destruct c).
  destruct (decide (type ∈ [MessageType.HELLO_REQUEST; MessageType.PUBLISH_REQUEST; MessageType.RETIRE_REQUEST])) as [Hin|Hni].
  - rewrite !elem_of_cons, elem_of_nil in Hin. destruct Hin as [->|[->|[->|[]]]]; cbn [handle_frame] in H; cbv zeta in H.
    + by eapply hello_fits.
    + by eapply publish_frame_fits.
    + by eapply retire_frame_fits.
  - by eapply looking_fits.
Qed.

Lemma serve_one_fits t e se c rs go se' c' :
  serve_one t e se c = Some (rs, go, se', c') → moment_ok t → registry_ok (ct_authority c) → books_fit c →
  session_fits se → books_fit c' ∧ session_fits se'.
Proof.
  unfold serve_one. intros H Ht Hc Hb Hs. destruct (negb _); [by injection H as _ _ <- <-|]. destruct e as [type payload| |code].
  - destruct (handle_frame t type payload se c) as [[[[st r] se1] c1]|] eqn:E; [|done]. cbn [mbind option_bind] in H.
    injection H as _ _ <- <-. by apply handle_frame_fits in E.
  - by injection H as _ _ <- <-.
  - injection H as _ _ <- <-. split; [|exact Hs]. destruct (bool_decide _); [exact Hb|by apply bump_fits].
Qed.

(** ** Recovery and start *)

Lemma keep_recovered_fits ps : ∀ m : omap_t member_domain_key publication_record,
  Forall publication_ok ps → Forall publication_ok m.*2 → Forall publication_ok (foldl keep_recovered m ps).*2.
Proof.
  induction ps as [|p ps IH]; intros m Hps Hm; [done|]. apply Forall_cons in Hps as [Hp Hps]. cbn [foldl]. apply IH; [done|].
  unfold keep_recovered. destruct (om_find _ _); [destruct (_ <? _); [|done]|]; by apply om_set_Forall.
Qed.

Lemma raise_all_range ts : ∀ e, Forall token_ok ts → in_u 64 e → in_u 64 (foldl raise_epoch e ts).
Proof.
  intros e Hts He. apply (foldl_ok (in_u 64) token_ok); [|done|done]. intros e' t He' (_ & _ & Ht & _).
  unfold raise_epoch. by destruct (_ && _).
Qed.

Lemma highest_range ps : Forall publication_ok ps →
  in_u 64 (foldl (λ n r, Z.max n (pub_acceptance_sequence r)) 0 ps).
Proof.
  intros Hps. apply (foldl_ok (in_u 64) publication_ok); [|done|done].
  intros n p Hn (_ & _ & _ & _ & _ & _ & _ & _ & _ & _ & _ & Hp & _). unfold in_u in *. lia.
Qed.

Lemma latest_fits k s : contents_ok k → latest_snapshot k = Some s → snapshot_ok s.
Proof. intros [Hs _] Hl. rewrite Forall_forall in Hs. apply Hs. by apply last_Some_elem_of. Qed.

Lemma set_term_fits g t e c : in_u 64 g → in_u 64 e → books_fit c → books_fit (set_term g t e c).
Proof. intros ? ? []. by destruct c. Qed.

Lemma recover_registry_fits k c : contents_ok k → books_fit c → books_fit (recover_registry k c).
Proof.
  intros Hk Hb. pose proof (λ s, latest_fits k s Hk) as Hlast. destruct Hk as (_ & Hp & _ & _ & Ht).
  unfold recover_registry. cbv zeta. set (c1 := match latest_snapshot k with Some _ => _ | None => _ end).
  assert (books_fit c1) as H1.
  { subst c1. destruct (latest_snapshot k) as [s|]; [|exact Hb]. destruct (Hlast s eq_refl) as (_ & Hse & Hsg & _).
    by apply set_term_fits. }
  clearbody c1. assert (books_fit (set_term (ct_site_generation c1) (ct_token c1) (foldl raise_epoch (ct_epoch c1) (co_leases k)) c1)) as H2
    by (apply set_term_fits; [apply H1|apply raise_all_range; [exact Ht|apply H1]|exact H1]).
  generalize dependent (set_term (ct_site_generation c1) (ct_token c1) (foldl raise_epoch (ct_epoch c1) (co_leases k)) c1).
  intros c2 H2. apply set_registry_fits; [by apply highest_range|apply keep_recovered_fits; [exact Hp|apply H2]|exact H2].
Qed.

Lemma set_chain_fits ch c : chain_fits ch → books_fit c → books_fit (set_chain ch c).
Proof. intros ? []. by destruct c. Qed.

Lemma recover_fits env c : books_fit c →
  match recover env c with Ok c' => books_fit c' | Err (_, c') => books_fit c' end.
Proof.
  intros Hb. unfold recover. destruct (negb _); [done|]. cbv zeta. destruct (bool_decide _); [done|].
  destruct (Store.open _ _ _) as [[opened st] f].
  destruct (negb _); [apply bump_fits; eapply keeps_books_fit; [apply set_store_keeps|exact Hb]|].
  pose proof (load_fits env f) as Hk. set (k := rc_contents (load env f)) in *.
  assert (books_fit (bump Recoveries (set_store (Some st) f c))) as H1
    by (apply bump_fits; eapply keeps_books_fit; [apply set_store_keeps|exact Hb]).
  generalize dependent (bump Recoveries (set_store (Some st) f c)). intros c1 H1.
  destruct (negb (recovers _)); [eapply keeps_books_fit; [apply add_count_keeps|exact H1]|].
  destruct (latest_snapshot k) as [s|] eqn:Hs; [|eapply keeps_books_fit; [apply add_count_keeps|by apply recover_registry_fits]].
  assert (chain_fits (restore s (ct_chain c1)).2) as Hch by (apply restore_fits; [by eapply latest_fits|apply H1]).
  destruct (restore s (ct_chain c1)) as [restored chain]. cbn [snd] in Hch.
  assert (books_fit (set_chain chain c1)) as H2 by (by apply set_chain_fits).
  destruct (negb (is_ok restored)).
  - apply bump_fits. eapply keeps_books_fit; [apply set_store_keeps|exact H2].
  - eapply keeps_books_fit; [apply add_count_keeps|]. by apply recover_registry_fits.
Qed.

Lemma start_fits env io bound now later c r c' :
  start env io bound now later c = Some (r, c') → in_i64 later → books_fit c → books_fit c'.
Proof.
  unfold start. intros H Hl Hb. destruct (ct_running c); [by apply some_pair in H as [_ <-]|].
  pose proof (recover_fits env c Hb) as H1. destruct (recover env c) as [c1|[s c1]]; [|by apply some_pair in H as [_ <-]].
  cbv zeta in H. set (e := if is_set (ct_epoch c1) then epoch_next (ct_epoch c1) else 1) in H.
  set (c2 := set_term _ _ e c1) in H. assert (books_fit c2) as H2.
  { apply set_term_fits; [apply H1| |exact H1]. subst e. pose proof (bf_epoch c1 H1). unfold is_set, epoch_next, max_value, in_u in *.
    destruct (Z.eqb_spec (ct_epoch c1) 0); cbn [negb]; [lia|]. destruct (Z.eqb_spec (ct_epoch c1) 0xFFFFFFFFFFFFFFFF); lia. }
  destruct (acquire_site_authority _ _ _ _ _ _ _ _) as [[acquired granted] authority].
  set (c3 := set_token _ _) in H. assert (books_fit c3) as H3
    by (eapply keeps_books_fit; [etrans; [apply set_authority_keeps|apply set_token_keeps]|exact H2]).
  destruct (negb (is_ok acquired)); [by apply some_pair in H as [_ <-]|].
  destruct (negb (is_ok bound)); [by apply some_pair in H as [_ <-]|].
  destruct (recompose _ _ _) as [[q c4]|] eqn:Er; [|done]. cbn [mbind option_bind fst snd] in H.
  apply some_pair in H as [_ <-]. apply recompose_fits in Er; [|exact Hl|by eapply keeps_books_fit; [apply set_running_keeps|]].
  destruct (_ && _); [by apply bump_fits|exact Er].
Qed.

Lemma stop_fits flushed c : books_fit c → books_fit (stop flushed c).2.
Proof.
  intros Hb. unfold stop. cbv zeta.
  destruct (ct_store _) as [st|]; [|by eapply keeps_books_fit; [apply set_running_keeps|]].
  destruct (Store.close _ _) as [closed st']. cbn [snd].
  eapply keeps_books_fit; [|exact Hb]. etrans; [apply set_running_keeps|]. etrans; [apply set_store_keeps|].
  destruct (is_ok closed); [reflexivity|apply bump_keeps].
Qed.

(** * Executions *)

(** What the types of the host's arguments and of its clock promise. The frames and the file
    are arbitrary bytes, the outcomes of files and sockets arbitrary. *)
Definition event_ok (e : event) : Prop :=
  match e with
  | Round _ t _ last => moment_ok t ∧ moment_ok last
  | HostPublish _ now later publisher inc d attempt =>
      in_i64 now ∧ in_i64 later ∧ decl_ok d ∧ id_ok publisher ∧ incarnation_wf inc ∧ attempt_ok attempt
  | HostRetire _ _ later _ | HostStart _ _ _ _ later => in_i64 later
  | HostRevoke _ now _ | HostRecompose _ now => in_i64 now
  | Connect _ | HostHalt | HostClose _ => True
  end.

Record node_fits (n : node) : Prop := NodeFits {
  nf_registry : registry_ok (ct_authority (nd_controller n));
  nf_books : books_fit (nd_controller n);
  nf_sessions : map_Forall (λ _, session_fits) (nd_sessions n);
}.

Lemma step_books n e n' :
  step n e = Some n' → event_ok e → node_fits n →
  books_fit (nd_controller n') ∧ map_Forall (λ _, session_fits) (nd_sessions n').
Proof.
  intros H He [Hr Hb Hs]. destruct e; cbn [step event_ok] in *.
  - injection H as <-. split; [exact Hb|]. by apply map_Forall_insert_2.
  - destruct He as [Ht Hlast]. destruct (nd_sessions n !! i) as [se|] eqn:Hi; [|by injection H as <-].
    destruct (serve_one _ _ _ _) as [[[[rs go] se'] c1]|] eqn:E; [|done]. cbn [mbind option_bind] in H.
    apply serve_one_fits in E as [Hb1 Hs1]; [|done..|by eapply (Hs i)]. destruct go.
    + injection H as <-. split; [exact Hb1|]. by apply map_Forall_insert_2.
    + destruct (end_session _ _ _) as [c2|] eqn:E2; [|done]. injection H as <-.
      split; [by eapply end_session_fits|]. by apply map_Forall_delete.
  - destruct He as (? & ? & ? & ? & ? & ?). destruct (Controller.publish _ _ _ _ _ _ _ _) as [[r c1]|] eqn:E; [|done].
    injection H as <-. split; [|exact Hs]. by apply publish_fits in E.
  - destruct (Controller.retire _ _ _ _ _) as [[r c1]|] eqn:E; [|done]. injection H as <-. split; [|exact Hs]. by apply retire_fits in E.
  - destruct (revoke_member _ _ _ _) as [[r c1]|] eqn:E; [|done]. injection H as <-. split; [|exact Hs]. by apply revoke_fits in E.
  - destruct (recompose _ _ _) as [[r c1]|] eqn:E; [|done]. injection H as <-. split; [|exact Hs]. by apply recompose_fits in E.
  - injection H as <-. split; [|exact Hs]. by eapply keeps_books_fit; [apply set_running_keeps|].
  - destruct (decide _); injection H as <-; split; try done. by apply stop_fits.
  - destruct (decide _); [|by injection H as <-]. destruct (start _ _ _ _ _ _) as [[r c1]|] eqn:E; [|done].
    injection H as <-. split; [|exact Hs]. by apply start_fits in E.
Qed.

Lemma step_fits n e n' : step n e = Some n' → event_ok e → node_fits n → node_fits n'.
Proof.
  intros H He Hn. destruct (step_books n e n' H He Hn) as [Hb Hs]. constructor; [|exact Hb|exact Hs].
  eapply drives_registry; [by eapply step_drives|apply Hn].
Qed.

Lemma execute_fits events : ∀ n n', execute n events = Some n' → Forall event_ok events → node_fits n → node_fits n'.
Proof.
  induction events as [|e events IH]; intros n n' H He Hn; [by injection H as <-|].
  rewrite execute_cons in H. destruct (step n e) as [n1|] eqn:E; [|done]. cbn [mbind option_bind] in H.
  apply Forall_cons in He as [? ?]. eapply IH; [exact H|done|]. by eapply step_fits.
Qed.

(** The widths of a configuration's numbers, and its boot nonce. *)
Definition config_typed (cfg : controller_config) (boot : string) : Prop :=
  in_u 64 (inc_sequence (cc_incarnation cfg)) ∧ id_ok boot
  ∧ Forall (λ m, in_u 64 (em_generation m) ∧ digest_wf (em_digest m)) (se_members (cc_expectation cfg)).

Lemma created_fits cfg boot f c : fresh cfg boot f c → config_typed cfg boot → node_fits (Node c ∅).
Proof.
  intros (c0 & Hc & ->) (Hseq & Hboot & Hms). unfold create in Hc.
  destruct (is_valid_identifier (cc_site cfg)) eqn:Hsite; [|done]. cbn [negb] in Hc.
  destruct (_ <=? 0); [done|]. destruct (_ || _); [done|]. destruct (_ <? _); [done|]. cbv zeta in Hc.
  set (e0 := if bool_decide _ then _ else _) in Hc.
  assert (se_members e0 = se_members (cc_expectation cfg)) as Hm by (subst e0; by destruct (bool_decide _)).
  destruct (expectation_canonicalize e0) as [canonical e] eqn:He.
  destruct (bool_decide_reflect (canonical = Status.OK)) as [->|]; [|done]. injection Hc as <-.
  destruct (expectation_canonical e0 e) as (_ & Hperm & _ & Hall); [by exists Status.OK|]. rewrite Hm in Hperm.
  constructor; [apply map_Forall_empty| |apply map_Forall_empty].
  constructor; try done; [| |by constructor..]; cbn.
  - apply Forall_forall. intros m Hin. rewrite Forall_forall in Hall, Hms.
    destruct (Hall m Hin) as [Hv _]. rewrite Hperm in Hin. destruct (Hms m Hin). by split; [right|].
  - split; [by destruct (_ =? 0)|]. cbn. destruct (boot_valid _) eqn:Hb; by apply identifier_fits.
Qed.

(** C16: a running controller never holds what it could not store, send or read back, whatever
    bytes its peers send it and whatever its file holds: after any execution, every publication
    it recorded is read back from its record; a composed site is read back from the snapshot
    format; and every snapshot it serves decodes at the client - of the last two, as long as
    the lists the composer does not bound are within the format's. *)
Theorem controller_holds_encodable (cfg : controller_config) (boot : string) (f : option bytes) (c : controller)
    (events : list event) (n : node) :
  fresh cfg boot f c → config_typed cfg boot → Forall event_ok events → execute (Node c ∅) events = Some n →
  let c' := nd_controller n in
  Forall (λ p, ∀ rest, read_publication_record (write_publication p ++ rest) = Ok (publication_on_wire p, rest))
    (ct_publications c').*2
  ∧ (∀ now s rest, in_i64 now → compose_now now c' = Composed s → sizes_fit s →
       read_composed_site (write_composed_site s ++ rest) = Ok (on_wire s, rest))
  ∧ (∀ q s, snapshot_at q c' = Ok s ∨ current_snapshot c' = Ok s → sizes_fit (snap_state s) →
       let m := FetchSiteResponse Status.OK true (Some s) no_factors in
       decode_message (encode_message m) = Ok (on_wire m)).
Proof.
  intros Hf Hcfg He Hx c'. pose proof (execute_fits _ _ _ Hx He (created_fits _ _ _ _ Hf Hcfg)) as [_ Hb _]. fold c' in Hb.
  clearbody c'. split; [|split].
  - eapply Forall_impl; [apply Hb|]. intros p Hp rest. by apply decodes_publication.
  - intros now s rest Hn Hrun Hsz. apply decodes_composed_site. by eapply composed_site_ok; [apply (collected_ok now c')| |].
  - intros q s Hs Hsz m. apply decode_encode_message. split; [apply no_factors_ok|]. exists s. split; [done|].
    assert (s ∈ ch_history (ct_chain c')) as Hin.
    { destruct Hs as [Hs|Hs]; [unfold snapshot_at in Hs|unfold current_snapshot in Hs].
      - destruct (at_sequence q (ct_chain c')) as [x|] eqn:E; [|done]. injection Hs as ->.
        unfold at_sequence in E. by apply List.find_some in E as [Hin%list_elem_of_In _].
      - destruct (Snapshot.current (ct_chain c')) as [x|] eqn:E; [|done]. injection Hs as ->.
        by apply last_Some_elem_of. }
    pose proof (bf_chain c' Hb) as Hch. unfold chain_fits in Hch. rewrite Forall_forall in Hch. by apply Hch.
Qed.

(** What [Publisher] asks of a controller whose answers it decodes. *)
Lemma reachable_answers (cfg : controller_config) (boot : string) (f : option bytes) (c : controller)
    (events : list event) (n : node) :
  fresh cfg boot f c → config_typed cfg boot → Forall event_ok events → execute (Node c ∅) events = Some n →
  answers_fit (nd_controller n).
Proof.
  intros Hf Hcfg He Hx. pose proof (execute_fits _ _ _ Hx He (created_fits _ _ _ _ Hf Hcfg)) as [Hr Hb _].
  split; [|intros d s; apply Hr]. destruct Hb. by do 3 (split; [done|]).
Qed.

(** A site started, a member greeted and its declaration published. *)
Definition member_events : list event :=
  HostStart sound_environment Running.committed Status.OK 1000 1001 :: Running.greeting
  ++ [Round 0 (Running.at_ 2500) (Running.say (PublishRequest (Running.declared 1) Running.attempt)) (Running.at_ 2501)].

Definition holds_member (c : controller) : bool :=
  (zlen (ct_publications c) =? 1)
  && match current_snapshot c with Ok s => bool_decide (sizes_fit (snap_state s)) | Err _ => false end.

Lemma member_events_ok : Forall event_ok member_events.
Proof. repeat constructor; by vm_compute. Qed.

Lemma running_fresh : fresh Running.config "boot-x" None (set_store None None Running.created).
Proof. exists Running.created. split; [vm_compute; reflexivity|reflexivity]. Qed.

Lemma running_typed : config_typed Running.config "boot-x".
Proof.
  split; [split; by vm_compute|]. split; [reflexivity|].
  change (Forall (λ m, in_u 64 (em_generation m) ∧ digest_wf (em_digest m)) (Scenario.expected <$> ["rack-1"; "rack-2"])).
  apply Forall_fmap, Forall_true. intros id. split; [split; by vm_compute|reflexivity].
Qed.

Lemma controller_holds_encodable_witness :
  ∃ n s, execute (Node (set_store None None Running.created) ∅) member_events = Some n
    ∧ zlen (ct_publications (nd_controller n)) = 1 ∧ current_snapshot (nd_controller n) = Ok s
    ∧ let m := FetchSiteResponse Status.OK true (Some s) no_factors in
      decode_message (encode_message m) = Ok (on_wire m).
Proof.
  assert (match execute (Node (set_store None None Running.created) ∅) member_events with
          | Some n => holds_member (nd_controller n) | None => false end = true) as H by (vm_compute; reflexivity).
  pose proof running_fresh as Hf. pose proof running_typed as Hc.
  pose proof member_events_ok as He. revert H He. generalize member_events. intros events H He.
  destruct (execute _ events) as [n|] eqn:E; [|discriminate H].
  apply andb_true_iff in H as [H1%Z.eqb_eq H2]. destruct (current_snapshot (nd_controller n)) as [s|] eqn:Es; [|discriminate H2].
  apply bool_decide_eq_true in H2. exists n, s. split; [reflexivity|]. split; [exact H1|]. split; [exact Es|].
  exact (proj2 (proj2 (controller_holds_encodable _ _ _ _ _ _ Hf Hc He E)) 0 s (or_intror Es) H2).
Defined.
