(* ===== verification/CommandLine.v ===== *)
(** Command lines (the [parse] functions of src/tools/).

    The tools read their options with one loop: an option that takes a value consumes the next
    argument, a switch does not, and a text that is no option, or an option whose value is
    missing, ends the tool with its usage. Numbers are read with [strtoul], [strtoull] and
    [strtoll] in base 10, whose answers are then cast to the width of the option. *)

From Stdlib Require Import Ascii.
From S2P Require Import Prelude.

(** * [strtoul], [strtoull], [strtoll]

    Leading white space, an optional sign, then the longest run of digits, which may be empty:
    the answer is then 0. An answer out of range saturates; a negative [strtoull] is the two's
    complement of its magnitude. [unsigned long] has 64 bits, as on the POSIX platforms the
    tools are built for. *)

Definition char_code (c : ascii) : Z := Z.of_N (Ascii.N_of_ascii c).

Definition is_space (c : ascii) : bool :=
  (char_code c =? 32) || ((9 <=? char_code c) && (char_code c <=? 13)).
Definition digit_of (c : ascii) : option Z :=
  if (48 <=? char_code c) && (char_code c <=? 57) then Some (char_code c - 48) else None.

Fixpoint skip_space (text : string) : string :=
  match text with
  | EmptyString => EmptyString
  | String c rest => if is_space c then skip_space rest else text
  end.

(** The digits at the front of [text], read after the digits of [n]. *)
Fixpoint decimal (n : Z) (text : string) : Z :=
  match text with
  | EmptyString => n
  | String c rest => match digit_of c with Some d => decimal (10 * n + d) rest | None => n end
  end.

(** The sign and the magnitude of the number at the front of a text. *)
Definition magnitude (text : string) : bool * Z :=
  match skip_space text with
  | String "-" rest => (true, decimal 0 rest)
  | String "+" rest => (false, decimal 0 rest)
  | rest => (false, decimal 0 rest)
  end.

Definition kMaxU64 : Z := 2 ^ 64 - 1.
Definition kMaxI64 : Z := 2 ^ 63 - 1.

Definition strtoull (text : string) : Z :=
  let '(negative, n) := magnitude text in
  if kMaxU64 <? n then kMaxU64 else if negative then wrap 64 (- n) else n.
Definition strtoul (text : string) : Z := strtoull text.
Definition strtoll (text : string) : Z :=
  let '(negative, n) := magnitude text in
  if negative then Z.max (- 2 ^ 63) (- n) else Z.min kMaxI64 n.

(** * The loop over the arguments *)

Inductive option_effect (O : Type) : Type :=
| Takes (set : string → O → O)
| Switch (set : O → O).
Global Arguments Takes {O} set.
Global Arguments Switch {O} set.

(** The options, or the line that names what is wrong with the command line. *)
Fixpoint parse_options {O} (effect_of : string → option (option_effect O)) (args : list string) (o : O) : result string O :=
  match args with
  | [] => Ok o
  | argument :: rest =>
      match effect_of argument with
      | Some (Takes set) =>
          match rest with
          | [] => Err ("missing value for " +:+ argument)%string
          | text :: rest => parse_options effect_of rest (set text o)
          end
      | Some (Switch set) => parse_options effect_of rest (set o)
      | None => Err ("unknown option: " +:+ argument)%string
      end
  end.

(** * What the numbers are *)

Lemma decimal_nonneg text : ∀ n, 0 ≤ n → 0 ≤ decimal n text.
Proof.
  induction text as [|c text IH]; intros n Hn; cbn [decimal]; [done|]. unfold digit_of.
  destruct (Z.leb_spec 48 (char_code c)); [|done]. destruct (Z.leb_spec (char_code c) 57); [|done].
  apply IH. lia.
Qed.

Lemma magnitude_nonneg text : 0 ≤ (magnitude text).2.
Proof.
  unfold magnitude. destruct (skip_space text) as [|[[] [] [] [] [] [] [] []] rest]; cbn [snd];
    first [done | apply decimal_nonneg; lia].
Qed.

Lemma strtoull_range text : in_u 64 (strtoull text).
Proof.
  unfold strtoull. pose proof (magnitude_nonneg text) as Hn. destruct (magnitude text) as [negative n]. cbn [snd] in Hn.
  destruct (Z.ltb_spec kMaxU64 n); [done|]. destruct negative; [by apply wrap_range|].
  unfold in_u, kMaxU64 in *. lia.
Qed.
Lemma strtoul_range text : in_u 64 (strtoul text).
Proof. apply strtoull_range. Qed.
Lemma strtoll_range text : in_i64 (strtoll text).
Proof.
  unfold strtoll. pose proof (magnitude_nonneg text) as Hn. destruct (magnitude text) as [negative n]. cbn [snd] in Hn.
  unfold in_i64, kMaxI64 in *. destruct negative; lia.
Qed.

#[export] Hint Resolve strtoull_range strtoul_range strtoll_range : fabric.

Lemma digit_of_char d : (d < 10)%N → digit_of (pretty_N_char d) = Some (Z.of_N d).
Proof.
  intros Hd. assert (d ∈ [0; 1; 2; 3; 4; 5; 6; 7; 8; 9]%N) as Hin by (rewrite !elem_of_cons; lia).
  repeat (apply elem_of_cons in Hin as [->|Hin]; [done|]). by apply elem_of_nil in Hin.
Qed.

(** Reading back a number that was printed. *)
Lemma decimal_pretty (s : string) (x : N) : decimal 0 (pretty_N_go x s) = decimal (Z.of_N x) s.
Proof.
  revert s. induction (N.lt_wf_0 x) as [x _ IH]. intros s. destruct (decide (0 < x)%N) as [Hx|Hx].
  - rewrite pretty_N_go_step by done. rewrite IH by (apply N.div_lt; lia). cbn [decimal].
    rewrite digit_of_char by (by apply N.mod_lt). f_equal. pose proof (N.div_mod x 10 ltac:(done)). lia.
  - assert (x = 0%N) as -> by lia. by rewrite pretty_N_go_0.
Qed.

Lemma dec_head z : ∃ c rest, dec z = String c rest ∧ is_Some (digit_of c).
Proof.
  unfold dec. generalize (Z.to_N z). intros n. destruct (decide (n = 0%N)) as [->|Hn]; [by exists "0"%char, ""%string|].
  change (pretty n) with (if decide (n = 0)%N then "0"%string else pretty_N_go n "").
  rewrite decide_False by done. clear z.
  assert (∀ x s, (0 < x)%N → ∃ c rest, pretty_N_go x s = String c rest ∧ is_Some (digit_of c)) as H; [|apply H; lia].
  intros x. induction (N.lt_wf_0 x) as [x _ IH]. intros s Hx. rewrite pretty_N_go_step by done.
  destruct (decide (0 < x `div` 10)%N) as [Hd|Hd].
  - apply IH; [apply N.div_lt; lia|done].
  - apply N.nlt_ge, N.le_0_r in Hd. rewrite Hd, pretty_N_go_0. eexists _, _. split; [done|].
    rewrite digit_of_char by (by apply N.mod_lt). by eexists.
Qed.

Lemma decimal_dec z : 0 ≤ z → decimal 0 (dec z) = z.
Proof.
  intros Hz. unfold dec. destruct (decide (Z.to_N z = 0%N)) as [H0|H0].
  - rewrite H0. change (decimal 0 (pretty 0%N)) with 0. lia.
  - change (pretty (Z.to_N z)) with (if decide (Z.to_N z = 0)%N then "0"%string else pretty_N_go (Z.to_N z) "").
    rewrite decide_False by done. rewrite decimal_pretty. cbn [decimal]. lia.
Qed.

Lemma magnitude_dec z : 0 ≤ z → magnitude (dec z) = (false, z) ∧ magnitude ("-" +:+ dec z) = (true, z).
Proof.
  intros Hz. split; [|change (magnitude ("-" +:+ dec z)) with (true, decimal 0 (dec z)); by rewrite decimal_dec].
  rewrite <- (decimal_dec z Hz) at 2. destruct (dec_head z) as (c & rest & -> & [d Hd]).
  revert Hd. unfold digit_of. destruct c as [[] [] [] [] [] [] [] []]; vm_compute (_ && _); intros [= <-]; reflexivity.
Qed.

(** What a printed number becomes: itself, as far as the type reaches. *)
Lemma strtoull_dec z : 0 ≤ z → strtoull (dec z) = Z.min kMaxU64 z.
Proof.
  intros Hz. unfold strtoull. rewrite (proj1 (magnitude_dec z Hz)). destruct (Z.ltb_spec kMaxU64 z); lia.
Qed.
Lemma strtoll_dec z : 0 ≤ z → strtoll (dec z) = Z.min kMaxI64 z ∧ strtoll ("-" +:+ dec z) = Z.max (- 2 ^ 63) (- z).
Proof. intros Hz. unfold strtoll. destruct (magnitude_dec z Hz) as [-> ->]. done. Qed.

(** * What the loop keeps *)

Section parsing.
Context {O : Type} (effect_of : string → option (option_effect O)) (P : O → Prop).
Hypothesis effects : ∀ a o, P o →
  match effect_of a with Some (Takes set) => ∀ text, P (set text o) | Some (Switch set) => P (set o) | None => True end.

Lemma parse_options_keeps args o o' : P o → parse_options effect_of args o = Ok o' → P o'.
Proof using effects.
  revert o. remember (length args) as n eqn:Hn. revert args Hn. induction (lt_wf n) as [n _ IH]. intros args -> o Ho.
  destruct args as [|a args]; cbn [parse_options]; [by intros [= <-]|]. specialize (effects a o Ho).
  destruct (effect_of a) as [[set|set]|]; [|intros H; eapply IH; [|done|exact effects|exact H]; simpl; lia|done].
  destruct args as [|text args]; [done|]. intros H. eapply IH; [|done|exact (effects text)|exact H]. simpl; lia.
Qed.
End parsing.

(** A command line that is accepted can be continued. *)
Lemma parse_options_app {O} (effect_of : string → option (option_effect O)) args more o o' :
  parse_options effect_of args o = Ok o' → parse_options effect_of (args ++ more) o = parse_options effect_of more o'.
Proof.
  revert o. remember (length args) as n eqn:Hn. revert args Hn. induction (lt_wf n) as [n _ IH]. intros args -> o.
  destruct args as [|a args]; cbn [app parse_options]; [by intros [= <-]|].
  destruct (effect_of a) as [[set|set]|]; [|intros H; eapply IH; [|done|exact H]; simpl; lia|done].
  destruct args as [|text args]; [done|]. intros H. cbn [app]. eapply IH; [|done|exact H]. simpl; lia.
Qed.
