(* ===== verification/MemberTool.v ===== *)
(** The member tool (src/tools/member_main.cpp): one member domain's publisher as a process.

    The tool reads its options, builds and seals a declaration of one claim, connects, publishes
    it once and may hold the session with heartbeats. What the process meets outside - clocks,
    the network - is a [member_world]; what it leaves is its output, the frames it wrote and
    how it ended. *)

From stdpp Require Import sorting sets gmap.
From S2P Require Import Prelude Ordering Enums Sha256 Identity Canonical Evidence Capacity Claims Codec Canonicalize Authority Forest Site SiteCodec Snapshot StoreFormat Store Protocol Samples Admit Attribute Domains Maintenance Ledger Verdicts Compose Encodable Controller Transport Execution Publisher CommandLine.

(** * Options *)

Record member_options := MemberOptions {
  mo_host : string;
  mo_port : Z;
  mo_site : string;
  mo_domain : string;
  mo_publisher : string;
  mo_boot_nonce : string;
  mo_capacity_bps : Z;
  mo_hold_ms : Z;
  mo_ttl_ms : Z;
  mo_external : bool;
  mo_scope : string;
  mo_quiet : bool;
  mo_schema_major : Z;
  mo_generation : Z;
  mo_sequence : Z;
}.

Definition set_host (x : string) (o : member_options) : member_options :=
  MemberOptions x (mo_port o) (mo_site o) (mo_domain o) (mo_publisher o) (mo_boot_nonce o) (mo_capacity_bps o)
    (mo_hold_ms o) (mo_ttl_ms o) (mo_external o) (mo_scope o) (mo_quiet o) (mo_schema_major o) (mo_generation o)
    (mo_sequence o).
Definition set_port (x : Z) (o : member_options) : member_options :=
  MemberOptions (mo_host o) x (mo_site o) (mo_domain o) (mo_publisher o) (mo_boot_nonce o) (mo_capacity_bps o)
    (mo_hold_ms o) (mo_ttl_ms o) (mo_external o) (mo_scope o) (mo_quiet o) (mo_schema_major o) (mo_generation o)
    (mo_sequence o).
Definition set_site (x : string) (o : member_options) : member_options :=
  MemberOptions (mo_host o) (mo_port o) x (mo_domain o) (mo_publisher o) (mo_boot_nonce o) (mo_capacity_bps o)
    (mo_hold_ms o) (mo_ttl_ms o) (mo_external o) (mo_scope o) (mo_quiet o) (mo_schema_major o) (mo_generation o)
    (mo_sequence o).
Definition set_domain (x : string) (o : member_options) : member_options :=
  MemberOptions (mo_host o) (mo_port o) (mo_site o) x (mo_publisher o) (mo_boot_nonce o) (mo_capacity_bps o)
    (mo_hold_ms o) (mo_ttl_ms o) (mo_external o) (mo_scope o) (mo_quiet o) (mo_schema_major o) (mo_generation o)
    (mo_sequence o).
Definition set_publisher (x : string) (o : member_options) : member_options :=
  MemberOptions (mo_host o) (mo_port o) (mo_site o) (mo_domain o) x (mo_boot_nonce o) (mo_capacity_bps o)
    (mo_hold_ms o) (mo_ttl_ms o) (mo_external o) (mo_scope o) (mo_quiet o) (mo_schema_major o) (mo_generation o)
    (mo_sequence o).
Definition set_boot_nonce (x : string) (o : member_options) : member_options :=
  MemberOptions (mo_host o) (mo_port o) (mo_site o) (mo_domain o) (mo_publisher o) x (mo_capacity_bps o)
    (mo_hold_ms o) (mo_ttl_ms o) (mo_external o) (mo_scope o) (mo_quiet o) (mo_schema_major o) (mo_generation o)
    (mo_sequence o).
Definition set_capacity_bps (x : Z) (o : member_options) : member_options :=
  MemberOptions (mo_host o) (mo_port o) (mo_site o) (mo_domain o) (mo_publisher o) (mo_boot_nonce o) x
    (mo_hold_ms o) (mo_ttl_ms o) (mo_external o) (mo_scope o) (mo_quiet o) (mo_schema_major o) (mo_generation o)
    (mo_sequence o).
Definition set_hold_ms (x : Z) (o : member_options) : member_options :=
  MemberOptions (mo_host o) (mo_port o) (mo_site o) (mo_domain o) (mo_publisher o) (mo_boot_nonce o)
    (mo_capacity_bps o) x (mo_ttl_ms o) (mo_external o) (mo_scope o) (mo_quiet o) (mo_schema_major o)
    (mo_generation o) (mo_sequence o).
Definition set_ttl_ms (x : Z) (o : member_options) : member_options :=
  MemberOptions (mo_host o) (mo_port o) (mo_site o) (mo_domain o) (mo_publisher o) (mo_boot_nonce o)
    (mo_capacity_bps o) (mo_hold_ms o) x (mo_external o) (mo_scope o) (mo_quiet o) (mo_schema_major o)
    (mo_generation o) (mo_sequence o).
Definition set_external (x : bool) (o : member_options) : member_options :=
  MemberOptions (mo_host o) (mo_port o) (mo_site o) (mo_domain o) (mo_publisher o) (mo_boot_nonce o)
    (mo_capacity_bps o) (mo_hold_ms o) (mo_ttl_ms o) x (mo_scope o) (mo_quiet o) (mo_schema_major o)
    (mo_generation o) (mo_sequence o).
Definition set_scope (x : string) (o : member_options) : member_options :=
  MemberOptions (mo_host o) (mo_port o) (mo_site o) (mo_domain o) (mo_publisher o) (mo_boot_nonce o)
    (mo_capacity_bps o) (mo_hold_ms o) (mo_ttl_ms o) (mo_external o) x (mo_quiet o) (mo_schema_major o)
    (mo_generation o) (mo_sequence o).
Definition set_quiet (x : bool) (o : member_options) : member_options :=
  MemberOptions (mo_host o) (mo_port o) (mo_site o) (mo_domain o) (mo_publisher o) (mo_boot_nonce o)
    (mo_capacity_bps o) (mo_hold_ms o) (mo_ttl_ms o) (mo_external o) (mo_scope o) x (mo_schema_major o)
    (mo_generation o) (mo_sequence o).
Definition set_schema_major (x : Z) (o : member_options) : member_options :=
  MemberOptions (mo_host o) (mo_port o) (mo_site o) (mo_domain o) (mo_publisher o) (mo_boot_nonce o)
    (mo_capacity_bps o) (mo_hold_ms o) (mo_ttl_ms o) (mo_external o) (mo_scope o) (mo_quiet o) x (mo_generation o)
    (mo_sequence o).
Definition set_generation (x : Z) (o : member_options) : member_options :=
  MemberOptions (mo_host o) (mo_port o) (mo_site o) (mo_domain o) (mo_publisher o) (mo_boot_nonce o)
    (mo_capacity_bps o) (mo_hold_ms o) (mo_ttl_ms o) (mo_external o) (mo_scope o) (mo_quiet o) (mo_schema_major o)
    x (mo_sequence o).
Definition set_sequence (x : Z) (o : member_options) : member_options :=
  MemberOptions (mo_host o) (mo_port o) (mo_site o) (mo_domain o) (mo_publisher o) (mo_boot_nonce o)
    (mo_capacity_bps o) (mo_hold_ms o) (mo_ttl_ms o) (mo_external o) (mo_scope o) (mo_quiet o) (mo_schema_major o)
    (mo_generation o) x.

Definition default_options : member_options :=
  MemberOptions "127.0.0.1" 0 "site-alpha" "RACK:rack-0" "member" "" 1000000000 0 60000 true "ingress" false
    kModelSchemaMajor 1 0.

(** One turn of the chain of comparisons in [parse]. *)
Definition effect_of (argument : string) : option (option_effect member_options) :=
  if bool_decide (argument = "--host"%string) then Some (Takes set_host)
  else if bool_decide (argument = "--port"%string) then Some (Takes (λ text, set_port (wrap 16 (strtoul text))))
  else if bool_decide (argument = "--site"%string) then Some (Takes set_site)
  else if bool_decide (argument = "--domain"%string) then Some (Takes set_domain)
  else if bool_decide (argument = "--publisher"%string) then Some (Takes set_publisher)
  else if bool_decide (argument = "--boot-nonce"%string) then Some (Takes set_boot_nonce)
  else if bool_decide (argument = "--capacity-bps"%string) then Some (Takes (λ text, set_capacity_bps (strtoull text)))
  else if bool_decide (argument = "--hold-ms"%string) then Some (Takes (λ text, set_hold_ms (strtoll text)))
  else if bool_decide (argument = "--ttl-ms"%string) then Some (Takes (λ text, set_ttl_ms (strtoll text)))
  else if bool_decide (argument = "--schema-major"%string) then Some (Takes (λ text, set_schema_major (wrap 32 (strtoul text))))
  else if bool_decide (argument = "--generation"%string) then Some (Takes (λ text, set_generation (strtoull text)))
  else if bool_decide (argument = "--sequence"%string) then Some (Takes (λ text, set_sequence (strtoull text)))
  else if bool_decide (argument = "--scope"%string) then Some (Takes set_scope)
  else if bool_decide (argument = "--internal"%string) then Some (Switch (set_external false))
  else if bool_decide (argument = "--quiet"%string) then Some (Switch (set_quiet true))
  else None.

Definition parse (args : list string) : result string member_options := parse_options effect_of args default_options.

Definition usage : list string :=
  ["usage: site_fabric_member --port N [--host H] [--site S] --domain KIND:ID";
   "       [--publisher NAME] [--boot-nonce NONCE] [--capacity-bps N]";
   "       [--hold-ms N] [--ttl-ms N] [--internal]";
   "       [--scope ingress|egress|internal|gateway] [--schema-major N]";
   "exit codes: 0 published, 2 usage, 3 refused locally,";
   "            4 transport or handshake refused, 5 publication refused";
   "       [--generation N] [--sequence N] [--quiet]"]%string.

(** * The declaration *)

Definition evidence_of (now_ms : Z) (o : member_options) : evidence :=
  Evidence Provenance.REPORTED now_ms (u64_of_i64 (mo_ttl_ms o)) no_source_ref zero_digest.

Definition capacity_of (o : member_options) : capacity_vector :=
  if mo_external o
  then CapacityVector (known_bps (mo_capacity_bps o)) (known_bps (mo_capacity_bps o)) cv_unknown
  else CapacityVector cv_unknown cv_unknown (known_bps (mo_capacity_bps o)).

(** The declaration before its claims. [Epoch::initial] is 1. *)
Definition envelope_of (now_ms : Z) (key : member_domain_key) (o : member_options) : declaration :=
  MemberDomainDeclaration key (mo_site o) (mo_generation o) (SchemaVersion (mo_schema_major o) kModelSchemaMinor)
    zero_digest 1 [] [] [] [] [] [] [] [] [] (evidence_of now_ms o).

Definition pool_of (scope : capacity_scope) (id : string) (ev : evidence) (o : member_options) : capacity_contribution :=
  CapacityContribution (ResourceKey ResourceKind.CAPACITY_POOL id) scope (mo_generation o) zero_digest (capacity_of o) ev.

Definition with_claims (d : declaration) cs ps rs gs ks : declaration :=
  set_lists d cs ps rs (decl_shared_links d) gs ks (decl_failure_domains d) (decl_maintenance_zones d) (decl_obligations d).

(** The switch over the kind of the domain. *)
Definition declare_kind (ev : evidence) (key : member_domain_key) (o : member_options) (d : declaration) : option declaration :=
  let id := mdk_id key in
  let gen := mo_generation o in
  match mdk_kind key with
  | MemberDomainKind.RACK =>
      Some (with_claims d [] [] [RackClaim id gen zero_digest (capacity_of o) ConnectivityState.UP ev] [] [])
  | MemberDomainKind.POD => Some (with_claims d [] [PodClaim id gen zero_digest [] ev] [] [] [])
  | MemberDomainKind.CLUSTER => Some (with_claims d [ClusterClaim id gen zero_digest [] [] ev] [] [] [] [])
  | MemberDomainKind.SHARED_RESOURCE =>
      let scope := if mo_external o then CapacityScope.SITE_INGRESS else CapacityScope.SITE_INTERNAL in
      Some (with_claims d [] [] [] [] [pool_of scope id ev o])
  | _ => None
  end.

(** What a shared resource declares in the end: a gateway, or a pool of the scope asked for. *)
Definition scope_of (o : member_options) : capacity_scope :=
  if bool_decide (mo_scope o = "egress"%string) then CapacityScope.SITE_EGRESS
  else if bool_decide (mo_scope o = "internal"%string) then CapacityScope.SITE_INTERNAL
  else CapacityScope.SITE_INGRESS.
Definition declare_shared (ev : evidence) (key : member_domain_key) (o : member_options) (d : declaration) : declaration :=
  if bool_decide (mdk_kind key = MemberDomainKind.SHARED_RESOURCE) then
    if bool_decide (mo_scope o = "gateway"%string) then
      with_claims d (decl_clusters d) (decl_pods d) (decl_racks d)
        [GatewayClaim (mdk_id key) (mo_generation o) zero_digest (capacity_of o) ConnectivityState.UP ev] []
    else with_claims d (decl_clusters d) (decl_pods d) (decl_racks d) (decl_gateways d) [pool_of (scope_of o) (mdk_id key) ev o]
  else d.

Definition declare (now_ms : Z) (key : member_domain_key) (o : member_options) : option declaration :=
  let ev := evidence_of now_ms o in
  declare_shared ev key o <$> declare_kind ev key o (envelope_of now_ms key o).

(** * The process *)

(** What the process meets: the steady clock when it names itself, the wall clock, the outcome
    of connecting, the wires of the hello and of the publication, the steady clock (in
    nanoseconds) when it begins to hold, and for each turn of the hold the clock and the wire
    of the heartbeat. *)
Record member_world := MemberWorld {
  mw_boot_clock : Z;
  mw_now_ms : Z;
  mw_opened : status;
  mw_hello : wire;
  mw_publish : wire;
  mw_hold_clock : Z;
  mw_turns : list (Z * wire);
}.

(** How the process ends: with an exit code; not within the turns at hand; or in a signed
    overflow, for which the language promises nothing. *)
Inductive process_end : Type :=
| Exited (code : Z)
| Holding
| Overflowed.

Record process_run := ProcessRun {
  run_out : list string;
  run_err : list string;
  run_frames : list (message_type * bytes);
  run_end : process_end;
}.

(** [static_cast<unsigned long long>] of the clock's count. *)
Definition boot_of (clock : Z) (o : member_options) : string :=
  if bool_decide (mo_boot_nonce o = ""%string) then ("member-" +:+ dec (u64_of_i64 clock))%string else mo_boot_nonce o.

Definition config_of (clock : Z) (key : member_domain_key) (d : declaration) (o : member_options) : publisher_config :=
  PublisherConfig (mo_port o) (mo_site o) key (mo_publisher o) (Incarnation (mo_sequence o) (boot_of clock o)) (decl_schema d)
    10000 5000.

(** [main] up to the publisher: the options as used, the sealed declaration and the publisher,
    or the exit code and what is written to the error stream. *)
Definition prepare (args : list string) (clock now_ms : Z) : result (Z * list string) (member_options * declaration * publisher) :=
  match parse args with
  | Err line => Err (2, line :: usage)
  | Ok o =>
      if mo_port o =? 0 then Err (2, usage)
      else
        let o := if bool_decide (mo_scope o = "internal"%string) then set_external false o else o in
        match mdk_parse (mo_domain o) with
        | None => Err (2, ["invalid --domain: " +:+ mo_domain o]%string)
        | Some key =>
            match declare now_ms key o with
            | None => Err (2, ["unsupported domain kind"%string])
            | Some d =>
                let '(sealed, d) := seal d in
                if negb (is_ok sealed) then Err (3, ["declaration refused: " +:+ to_string sealed]%string)
                else match create (config_of clock key d o) with
                | Err created => Err (3, ["publisher refused: " +:+ to_string created]%string)
                | Ok p => Ok (o, d, p)
                end
            end
        end
  end.

(** [response.status] after [publish]: a status read from the reply stays when the rest of the
    reply does not decode. *)
Definition status_field (payload : bytes) : status :=
  match payload with
  | [] => Status.UNKNOWN
  | code :: _ => default Status.UNKNOWN (enum_of_code (byte_val code))
  end.
Definition response_status (w : wire) (d : declaration) (attempt : publish_attempt) (p : publisher) : status :=
  match publish w d attempt p with
  | (Declined _, _, _) => Status.UNKNOWN
  | (NoReply s, _, _) => s
  | (Replied m, _, _) => pp_status m
  | (Garbled _, _, _) =>
      let '(effective, p) := number_attempt attempt p in
      match exchange w MessageType.PUBLISH_REQUEST (encode_message (PublishRequest (seal d).2 effective))
              MessageType.PUBLISH_RESPONSE p with
      | (Ok payload, _, _) => status_field payload
      | (Err s, _, _) => s
      end
  end.

(** The loop of [--hold-ms]: the heartbeats written, and whether it ends within the turns. *)
Fixpoint hold (deadline : Z) (turns : list (Z * wire)) (p : publisher) : list reply * bool :=
  match turns with
  | [] => ([], false)
  | (now, w) :: turns =>
      if now <? deadline then
        let '(answer, frame, p) := heartbeat w p in
        if is_ok (returned bp_status answer)
        then let '(frames, ended) := hold deadline turns p in (frame :: frames, ended)
        else ([frame], true)
      else ([], true)
  end.

(** A millisecond in the ticks of [steady_clock]. *)
Definition kNanosPerMilli : Z := 1000000.

Definition frames_of (l : list reply) : list (message_type * bytes) := omap id l.

(** [main] from the connection on. *)
Definition speak (o : member_options) (d : declaration) (p : publisher) (w : member_world) : process_run :=
  let say (line : string) : list string := if mo_quiet o then [] else [line] in
  let '(connected, greeting, p) := connect (mw_opened w) (mw_hello w) p in
  if negb (is_ok connected)
  then ProcessRun [] ["connect failed: " +:+ to_string connected]%string (frames_of [greeting]) (Exited 4)
  else
    let hello := say ("MEMBER_HELLO domain=" +:+ mo_domain o +:+ " status=" +:+ to_string (ps_status (pb_session p))
                      +:+ " sequence=" +:+ dec (ps_assigned_sequence (pb_session p)))%string in
    let response := response_status (mw_publish w) d (PublishAttempt 1 1) p in
    let '(published, offer, p) := publish (mw_publish w) d (PublishAttempt 1 1) p in
    let out := hello ++ say ("MEMBER_PUBLISH domain=" +:+ mo_domain o +:+ " status=" +:+ to_string response)%string in
    let published := returned pp_status published in
    if negb (is_ok published) && negb (bool_decide (response = Status.ALREADY_EXISTS)) then
      ProcessRun out ["publish refused: " +:+ to_string published]%string (frames_of [greeting; offer]) (Exited 5)
    else
      let done := say ("MEMBER_DONE domain=" +:+ mo_domain o)%string in
      if 0 <? mo_hold_ms o then
        let wait := mo_hold_ms o * kNanosPerMilli in
        let deadline := mw_hold_clock w + wait in
        if negb (bool_decide (in_i64 wait)) || negb (bool_decide (in_i64 deadline))
        then ProcessRun out [] (frames_of [greeting; offer]) Overflowed
        else
          let '(beats, ended) := hold deadline (mw_turns w) p in
          let frames := frames_of (greeting :: offer :: beats) in
          if ended then ProcessRun (out ++ done) [] frames (Exited 0) else ProcessRun out [] frames Holding
      else ProcessRun (out ++ done) [] (frames_of [greeting; offer]) (Exited 0).

Definition main (args : list string) (w : member_world) : process_run :=
  match prepare args (mw_boot_clock w) (mw_now_ms w) with
  | Err (code, lines) => ProcessRun [] lines [] (Exited code)
  | Ok (o, d, p) => speak o d p w
  end.

(** * The options *)

(** Every number is in the range of its field. *)
Definition options_wf (o : member_options) : Prop :=
  in_u 16 (mo_port o) ∧ in_u 64 (mo_capacity_bps o) ∧ in_i64 (mo_hold_ms o) ∧ in_i64 (mo_ttl_ms o)
  ∧ in_u 32 (mo_schema_major o) ∧ in_u 64 (mo_generation o) ∧ in_u 64 (mo_sequence o).

Lemma default_options_wf : options_wf default_options.
Proof. by split_and!. Qed.

Lemma effects_wf a o : options_wf o →
  match effect_of a with
  | Some (Takes set) => ∀ text, options_wf (set text o) | Some (Switch set) => options_wf (set o) | None => True
  end.
Proof.
  intros (H1 & H2 & H3 & H4 & H5 & H6 & H7). unfold effect_of.
  repeat (case_bool_decide; [cbn; try intros text; unfold options_wf; cbn; split_and?; eauto using wrap_range with fabric; by apply wrap_range|]).
  done.
Qed.

Lemma parse_wf args o : parse args = Ok o → options_wf o.
Proof. apply (parse_options_keeps effect_of options_wf); [apply effects_wf|apply default_options_wf]. Qed.

(** C35: whatever the arguments, every number the member tool takes from its command line fits
    the field it is stored in, and a number printed in decimal is stored in the field its option
    names: as it is for the capacity, the generation and the sequence up to the limit of
    [strtoull], and with its sign for the hold and the time to live up to the limits of
    [strtoll], where they saturate; the port and the schema's major version keep what is left
    modulo 2^16 and 2^32, so that one out of range is accepted as another one. *)
Theorem member_options_fit (args : list string) (o : member_options) (n : Z) :
  parse args = Ok o → 0 ≤ n →
  options_wf o
  ∧ parse (args ++ ["--port"; dec n]%string) = Ok (set_port (Z.min kMaxU64 n mod 2 ^ 16) o)
  ∧ parse (args ++ ["--schema-major"; dec n]%string) = Ok (set_schema_major (Z.min kMaxU64 n mod 2 ^ 32) o)
  ∧ parse (args ++ ["--capacity-bps"; dec n]%string) = Ok (set_capacity_bps (Z.min kMaxU64 n) o)
  ∧ parse (args ++ ["--generation"; dec n]%string) = Ok (set_generation (Z.min kMaxU64 n) o)
  ∧ parse (args ++ ["--sequence"; dec n]%string) = Ok (set_sequence (Z.min kMaxU64 n) o)
  ∧ parse (args ++ ["--hold-ms"; dec n]%string) = Ok (set_hold_ms (Z.min kMaxI64 n) o)
  ∧ parse (args ++ ["--hold-ms"; "-" +:+ dec n]%string) = Ok (set_hold_ms (Z.max (- 2 ^ 63) (- n)) o)
  ∧ parse (args ++ ["--ttl-ms"; dec n]%string) = Ok (set_ttl_ms (Z.min kMaxI64 n) o)
  ∧ parse (args ++ ["--ttl-ms"; "-" +:+ dec n]%string) = Ok (set_ttl_ms (Z.max (- 2 ^ 63) (- n)) o).
Proof.
  intros Hp Hn. split; [by apply (parse_wf args)|]. unfold parse in *. rewrite !(parse_options_app _ _ _ _ _ Hp).
  destruct (strtoll_dec n Hn) as [Hs Hm]. rewrite <- (strtoull_dec n Hn), <- Hs, <- Hm. by split_and!.
Qed.

Lemma member_options_fit_witness :
  parse ["--quiet"; "--port"; "65537"]%string = Ok (set_port 1 (set_quiet true default_options)).
Proof.
  apply (member_options_fit ["--quiet"]%string (set_quiet true default_options) 65537); [reflexivity|discriminate].
Defined.

(** * The declaration *)

Lemma claim_list_nil {A} `{Claim A} (f : Canonicalize.step A) (key_of : A → string) bound :
  0 ≤ bound → claim_list f key_of bound [] = (Status.OK, []).
Proof.
  intros Hb. unfold claim_list, and_then, canonicalize_list, require_bound. cbn [each].
  change (zlen (@nil A)) with 0. by rewrite (proj2 (Z.ltb_ge _ _)).
Qed.

(** A list of one claim that its step leaves as it was. *)
Lemma claim_list_one {A} `{Claim A} (f : Canonicalize.step A) (key_of : A → string) bound c st :
  1 ≤ bound → f c = (st, c) → claim_list f key_of bound [c] = (if is_ok st then Status.OK else st, [c]).
Proof.
  intros Hb Hf. unfold claim_list, and_then. cbn [each]. rewrite Hf. destruct (is_ok st) eqn:Hst; [|by rewrite Hst].
  change (is_ok Status.OK) with true. cbv iota. unfold canonicalize_list, require_bound.
  change (zlen [c]) with 1. by rewrite (proj2 (Z.ltb_ge _ _)).
Qed.

(** The status of a claim with a capacity, and of one without. *)
Definition claim_status (valid : bool) (ev : evidence) (cap : option capacity_vector) : status :=
  if negb valid then Status.MALFORMED
  else if negb (is_ok (validate_evidence ev false)) then validate_evidence ev false
  else if negb (from_option valid_capacity true cap) then Status.CAPACITY_OVERFLOW
  else Status.OK.

Lemma undeclared_digest g : check_record_digest zero_digest g = Status.OK.
Proof. reflexivity. Qed.

Lemma capacity_step_status {A} `{Claim A} valid ev cap (c : A) :
  capacity_step valid ev cap zero_digest c = (claim_status valid ev (Some cap), c).
Proof.
  unfold capacity_step, claim_status. destruct valid; [|done]. cbn [negb from_option].
  destruct (is_ok _); [|done]. by destruct (valid_capacity cap).
Qed.
Lemma pod_step_status id gen ev : is_valid_identifier id = true →
  pod_step (PodClaim id gen zero_digest [] ev) = (claim_status (is_set gen) ev None, PodClaim id gen zero_digest [] ev).
Proof.
  intros Hid. unfold pod_step, claim_status. cbn [pod_id pod_generation pod_evidence]. rewrite Hid.
  destruct (is_set gen); [|done]. cbn [negb orb]. by destruct (is_ok _).
Qed.
Lemma cluster_step_status id gen ev : is_valid_identifier id = true →
  cluster_step (ClusterClaim id gen zero_digest [] [] ev)
  = (claim_status (is_set gen) ev None, ClusterClaim id gen zero_digest [] [] ev).
Proof.
  intros Hid. unfold cluster_step, claim_status. cbn [cluster_id cluster_generation cluster_evidence]. rewrite Hid.
  destruct (is_set gen); [|done]. cbn [negb orb]. by destruct (is_ok _).
Qed.

(** Canonicalisation of a declaration whose lists are left as they are: the first refusal. *)
Fixpoint first_refusal (l : list status) : status :=
  match l with [] => Status.OK | s :: l => if is_ok s then first_refusal l else s end.

Lemma and_then_unchanged {S} (f g : Canonicalize.step S) x s l :
  f x = (s, x) → g x = (first_refusal l, x) → and_then f g x = (first_refusal (s :: l), x).
Proof. intros Hf Hg. unfold and_then. rewrite Hf. cbn [first_refusal]. by destruct (is_ok s). Qed.

Lemma canonicalize_unchanged d s1 s2 s3 s4 s5 s6 s7 s8 :
  canon_clusters (decl_clusters d) = (s1, decl_clusters d) → canon_pods (decl_pods d) = (s2, decl_pods d) →
  canon_racks (decl_racks d) = (s3, decl_racks d) → canon_links (decl_shared_links d) = (s4, decl_shared_links d) →
  canon_gateways (decl_gateways d) = (s5, decl_gateways d) → canon_capacity (decl_capacity d) = (s6, decl_capacity d) →
  canon_failure_domains (decl_failure_domains d) = (s7, decl_failure_domains d) →
  canon_zones (decl_maintenance_zones d) = (s8, decl_maintenance_zones d) →
  canon_obligations (decl_obligations d) = (Status.OK, decl_obligations d) →
  canonicalize d = (first_refusal [check_envelope d; s1; s2; s3; s4; s5; s6; s7; s8], d).
Proof.
  intros H1 H2 H3 H4 H5 H6 H7 H8 H9. unfold canonicalize.
  repeat (apply and_then_unchanged;
          [first [reflexivity | unfold on_clusters, on_pods, on_racks, on_links, on_gateways, on_capacity, on_failure_domains,
                    on_zones, on_list; first [rewrite H1|rewrite H2|rewrite H3|rewrite H4|rewrite H5|rewrite H6|rewrite H7|rewrite H8];
                  by destruct d]|]).
  unfold on_obligations, on_list. rewrite H9. by destruct d.
Qed.

(** The capacity the tool's claim carries, if its kind has one. *)
Definition claim_capacity (key : member_domain_key) (o : member_options) : option capacity_vector :=
  match mdk_kind key with
  | MemberDomainKind.RACK | MemberDomainKind.SHARED_RESOURCE => Some (capacity_of o)
  | _ => None
  end.

Lemma scope_of_valid o : valid_capacity_scope (scope_of o) = true.
Proof. unfold scope_of. by repeat case_bool_decide. Qed.

(** One claim is within the bound, and the other lists are empty. *)
Lemma first_refusal_envelope d l st :
  resource_claim_count d = 1 → first_refusal l = (if is_ok st then Status.OK else st) →
  first_refusal (check_envelope d :: l) = first_refusal [check_header d; st].
Proof.
  intros Hc Hl. unfold check_envelope. cbn [first_refusal]. rewrite Hc, Hl.
  destruct (is_ok (check_header d)) eqn:Hh; cbn [negb]; [done|by rewrite Hh].
Qed.

Lemma declare_canonical now key o d :
  mdk_valid key = true → declare now key o = Some d →
  resource_claim_count d = 1
  ∧ canonicalize d =
      (first_refusal [check_header d; claim_status (is_set (mo_generation o)) (evidence_of now o) (claim_capacity key o)], d).
Proof.
  intros [Hk Hid]%andb_true_iff. unfold declare, declare_kind, declare_shared, claim_capacity.
  assert (rk_valid (ResourceKey ResourceKind.CAPACITY_POOL (mdk_id key)) = true) as Hpool by exact Hid.
  destruct (mdk_kind key); [done|..]; cbn [fmap option_fmap option_map]; intros [= <-];
    repeat case_bool_decide; try done; (split; [done|]).
  all: erewrite canonicalize_unchanged;
    [|first [by apply claim_list_nil
            | apply claim_list_one; [done|first [by apply cluster_step_status | by apply pod_step_status | apply capacity_step_status]]]..].
  all: unfold pool_of; cbn [rack_id rack_generation rack_evidence rack_local_capacity gateway_id gateway_generation gateway_evidence
    gateway_capacity contrib_owner contrib_scope contrib_generation contrib_evidence contrib_capacity]; rewrite ?Hid, ?Hpool, ?scope_of_valid; cbn [andb].
  all: f_equal; apply first_refusal_envelope; [done|]; generalize (claim_status (is_set (mo_generation o)) (evidence_of now o)); intros st;
    match goal with |- context [st ?x] => generalize (st x) end; intros s;
    destruct (is_ok s) eqn:E; [reflexivity|]; cbn [first_refusal]; change (is_ok Status.OK) with true; cbv iota; by rewrite E.
Qed.

Lemma check_header_ok d :
  is_ok (check_header d) = mdk_valid (decl_domain d) && is_valid_identifier (decl_site d) && is_set (decl_generation d)
    && compatible_with (decl_schema d) supported_schema && is_ok (validate_evidence (decl_evidence d) false).
Proof.
  unfold check_header. destruct (mdk_valid _); [|done]. destruct (is_valid_identifier _); [|done].
  destruct (is_set _); [|done]. by destruct (compatible_with _ _).
Qed.
Lemma validate_evidence_ok e : 0 ≤ ev_ttl_ms e → is_ok (validate_evidence e false) = evidence_valid e.
Proof.
  intros Ht. unfold validate_evidence, evidence_valid. case_bool_decide as Hu.
  - by rewrite bool_decide_false by (intros Hne; exact (Hne Hu)).
  - rewrite bool_decide_true by done. cbn [andb]. rewrite (Z.ltb_antisym (ev_observed_at_ms e)).
    destruct (ev_observed_at_ms e <=? 0); [done|]. cbn [negb andb].
    destruct (Z.eqb_spec (ev_ttl_ms e) 0) as [->|Hne]; [done|]. cbn [orb]. rewrite (Z.leb_antisym kMaxEvidenceTtlMs).
    destruct (kMaxEvidenceTtlMs <? ev_ttl_ms e) eqn:Hmax; [by rewrite andb_false_r|].
    by rewrite (proj2 (Z.ltb_lt _ _)) by lia.
Qed.
Lemma claim_status_ok valid ev cap :
  is_ok (claim_status valid ev cap) = valid && is_ok (validate_evidence ev false) && from_option valid_capacity true cap.
Proof.
  unfold claim_status. destruct valid; [|done]. cbn [negb andb].
  destruct (is_ok (validate_evidence ev false)) eqn:He; cbn [negb andb]; [|done]. by destruct (from_option _ _ _).
Qed.

Lemma evidence_of_valid now o : in_i64 (mo_ttl_ms o) →
  evidence_valid (evidence_of now o) = true ↔ 0 < now ∧ 0 < mo_ttl_ms o ≤ kMaxEvidenceTtlMs.
Proof.
  intros Ht. unfold evidence_valid, evidence_of, u64_of_i64, wrap, in_i64, kMaxEvidenceTtlMs in *.
  cbn [ev_provenance ev_observed_at_ms ev_ttl_ms]. rewrite bool_decide_true by done. cbn [andb].
  rewrite !andb_true_iff, !Z.ltb_lt, Z.leb_le. destruct (decide (0 ≤ mo_ttl_ms o)).
  - rewrite Z.mod_small by lia. lia.
  - rewrite <- (Z.mod_add _ 1) by lia. rewrite Z.mod_small by lia. lia.
Qed.

Lemma capacity_of_valid o : valid_capacity (capacity_of o) = true ↔ mo_capacity_bps o ≤ kMaxCapacityBps.
Proof.
  unfold valid_capacity, capacity_of, value_in_bound. destruct (mo_external o);
    cbn [ingress egress internal cv_known cv_bps known_bps cv_unknown andb negb]; rewrite ?andb_true_r, ?andb_true_iff, ?negb_true_iff, ?Z.ltb_ge; tauto.
Qed.

(** The kinds whose claim carries a capacity. *)
Definition carries_capacity (key : member_domain_key) : bool :=
  bool_decide (mdk_kind key = MemberDomainKind.RACK) || bool_decide (mdk_kind key = MemberDomainKind.SHARED_RESOURCE).

Lemma declare_header now key o d : declare now key o = Some d →
  decl_domain d = key ∧ decl_site d = mo_site o ∧ decl_generation d = mo_generation o
  ∧ decl_schema d = SchemaVersion (mo_schema_major o) kModelSchemaMinor ∧ decl_evidence d = evidence_of now o.
Proof.
  unfold declare, declare_kind, declare_shared. destruct (mdk_kind key); cbn [fmap option_fmap option_map]; intros [= <-];
    by repeat case_bool_decide.
Qed.

(** The declaration of each kind of domain, in full. *)
Lemma declare_exact now key o :
  valid_member_domain_kind (mdk_kind key) = true →
  declare now key o = Some (MemberDomainDeclaration key (mo_site o) (mo_generation o)
    (SchemaVersion (mo_schema_major o) kModelSchemaMinor) zero_digest 1
    (if bool_decide (mdk_kind key = MemberDomainKind.CLUSTER)
     then [ClusterClaim (mdk_id key) (mo_generation o) zero_digest [] [] (evidence_of now o)] else [])
    (if bool_decide (mdk_kind key = MemberDomainKind.POD)
     then [PodClaim (mdk_id key) (mo_generation o) zero_digest [] (evidence_of now o)] else [])
    (if bool_decide (mdk_kind key = MemberDomainKind.RACK)
     then [RackClaim (mdk_id key) (mo_generation o) zero_digest (capacity_of o) ConnectivityState.UP (evidence_of now o)] else [])
    []
    (if bool_decide (mdk_kind key = MemberDomainKind.SHARED_RESOURCE) && bool_decide (mo_scope o = "gateway"%string)
     then [GatewayClaim (mdk_id key) (mo_generation o) zero_digest (capacity_of o) ConnectivityState.UP (evidence_of now o)] else [])
    (if bool_decide (mdk_kind key = MemberDomainKind.SHARED_RESOURCE) && negb (bool_decide (mo_scope o = "gateway"%string))
     then [pool_of (scope_of o) (mdk_id key) (evidence_of now o) o] else [])
    [] [] [] (evidence_of now o)).
Proof.
  unfold declare, declare_kind, declare_shared. destruct key as [kind id]. cbn [mdk_kind mdk_id].
  destruct kind; [done|..]; intros _; try reflexivity. cbn. by destruct (bool_decide (mo_scope o = "gateway"%string)).
Qed.

(** C36: the member tool's declaration is one claim about the domain it names: beside the
    header of the options it holds a rack, a pod or a cluster of the domain's id, or - of a
    shared resource - a gateway of that id when the scope asked for is a gateway, else a
    capacity pool of that id and scope; the capacity is the one asked for, on both external
    channels or on the internal one; nothing else is declared. It is sealed exactly when the
    site is an identifier, the generation is set, the schema is the current one, the clock is
    past the epoch, the time to live is positive and within a week, and - of a rack or a shared
    resource - the capacity is within the bound. Sealing adds the digest and changes nothing
    else. *)
Theorem member_declaration_seals (o : member_options) (key : member_domain_key) (now : Z) :
  options_wf o → mdk_parse (mo_domain o) = Some key →
  let of_kind kind := bool_decide (mdk_kind key = kind) in
  let asks scope := bool_decide (mo_scope o = scope) in
  let ev := Evidence Provenance.REPORTED now (u64_of_i64 (mo_ttl_ms o)) no_source_ref zero_digest in
  let bps := known_bps (mo_capacity_bps o) in
  let capacity := if mo_external o then CapacityVector bps bps cv_unknown else CapacityVector cv_unknown cv_unknown bps in
  let shared := of_kind MemberDomainKind.SHARED_RESOURCE in
  let gateway := asks "gateway"%string in
  let scope := if asks "egress"%string then CapacityScope.SITE_EGRESS
               else if asks "internal"%string then CapacityScope.SITE_INTERNAL else CapacityScope.SITE_INGRESS in
  let d := MemberDomainDeclaration key (mo_site o) (mo_generation o) (SchemaVersion (mo_schema_major o) kModelSchemaMinor)
    zero_digest 1
    (if of_kind MemberDomainKind.CLUSTER then [ClusterClaim (mdk_id key) (mo_generation o) zero_digest [] [] ev] else [])
    (if of_kind MemberDomainKind.POD then [PodClaim (mdk_id key) (mo_generation o) zero_digest [] ev] else [])
    (if of_kind MemberDomainKind.RACK
     then [RackClaim (mdk_id key) (mo_generation o) zero_digest capacity ConnectivityState.UP ev] else [])
    []
    (if shared && gateway
     then [GatewayClaim (mdk_id key) (mo_generation o) zero_digest capacity ConnectivityState.UP ev] else [])
    (if shared && negb gateway
     then [CapacityContribution (ResourceKey ResourceKind.CAPACITY_POOL (mdk_id key)) scope (mo_generation o) zero_digest capacity ev]
     else [])
    [] [] [] ev in
  declare now key o = Some d ∧ resource_claim_count d = 1
  ∧ ((seal d).1 = Status.OK ↔
       is_valid_identifier (mo_site o) = true ∧ mo_generation o ≠ 0 ∧ mo_schema_major o = kModelSchemaMajor
       ∧ 0 < now ∧ 0 < mo_ttl_ms o ≤ kMaxEvidenceTtlMs
       ∧ (carries_capacity key = true → mo_capacity_bps o ≤ kMaxCapacityBps))
  ∧ ((seal d).1 = Status.OK → (seal d).2 = set_digest (compute_digest d) d).
Proof.
  intros (_ & _ & _ & Httl & _) Hkey. apply (key_text_exact _ _ no_resource) in Hkey as [_ Hkey].
  cbv zeta. set (d := MemberDomainDeclaration key _ _ _ _ _ _ _ _ _ _ _ _ _ _ _).
  assert (declare now key o = Some d) as Hd by (apply declare_exact; by apply andb_true_iff in Hkey as [? _]).
  clearbody d. destruct (declare_canonical now key o d Hkey Hd) as [Hcount Hc].
  destruct (declare_header now key o d Hd) as (Hdom & Hsite & Hgen & Hschema & Hev).
  split; [done|]. split; [done|]. unfold seal. rewrite Hc. cbn [first_refusal].
  assert (is_ok (check_header d) && is_ok (claim_status (is_set (mo_generation o)) (evidence_of now o) (claim_capacity key o)) = true
    ↔ is_valid_identifier (mo_site o) = true ∧ mo_generation o ≠ 0 ∧ mo_schema_major o = kModelSchemaMajor
      ∧ 0 < now ∧ 0 < mo_ttl_ms o ≤ kMaxEvidenceTtlMs
      ∧ (carries_capacity key = true → mo_capacity_bps o ≤ kMaxCapacityBps)) as <-.
  { rewrite check_header_ok, claim_status_ok, Hdom, Hsite, Hgen, Hschema, Hev, Hkey. cbn [andb].
    rewrite (validate_evidence_ok (evidence_of now o)) by apply u64_of_i64_range.
    assert (compatible_with (SchemaVersion (mo_schema_major o) kModelSchemaMinor) supported_schema = true
      ↔ mo_schema_major o = kModelSchemaMajor) as Hs by (unfold compatible_with; cbn; rewrite andb_true_r; apply Z.eqb_eq).
    assert (is_set (mo_generation o) = true ↔ mo_generation o ≠ 0) as Hg by (unfold is_set; rewrite negb_true_iff; apply Z.eqb_neq).
    assert (from_option valid_capacity true (claim_capacity key o) = true
      ↔ (carries_capacity key = true → mo_capacity_bps o ≤ kMaxCapacityBps)) as Hcap.
    { unfold claim_capacity, carries_capacity. destruct (mdk_kind key); cbn [from_option bool_decide orb]; rewrite ?capacity_of_valid; naive_solver. }
    rewrite !andb_true_iff, Hs, Hg, Hcap, (evidence_of_valid now o Httl). tauto. }
  generalize (check_header d) (claim_status (is_set (mo_generation o)) (evidence_of now o) (claim_capacity key o)).
  intros h s. destruct (is_ok h) eqn:Hh; [destruct (is_ok s) eqn:Hs|]; cbv beta iota zeta; [done|rewrite Hs|rewrite Hh];
    cbn [andb fst snd]; (split; [split; [intros ->; discriminate|done]|intros ->; discriminate]).
Qed.

Lemma member_declaration_seals_witness :
  ∃ d, declare 1000 (MemberDomainKey MemberDomainKind.RACK "rack-0") default_options = Some d ∧ (seal d).1 = Status.OK.
Proof.
  destruct (member_declaration_seals default_options (MemberDomainKey MemberDomainKind.RACK "rack-0") 1000)
    as (Hd & _ & Hs & _).
  - apply default_options_wf.
  - vm_compute; reflexivity.
  - eexists. split; [exact Hd|]. apply Hs. vm_compute. repeat split; congruence.
Defined.

(** * Publishing *)

(** A request that was not written is answered by a status no caller takes for success. *)
Definition refusing (s : status) : Prop := is_ok s = false ∧ s ≠ Status.ALREADY_EXISTS.

Lemma exchange_unsent w ty payload expected p a p' :
  exchange w ty payload expected p = (a, None, p') → ∃ s, a = Err s ∧ refusing s.
Proof.
  unfold exchange, send_frame, encode_frame. destruct (pb_connection p) as [pending|].
  - destruct (negb (known_message ty)); [|destruct (kMaxFrameBytes <? zlen payload)]; cbv iota beta zeta.
    + intros [= <- _]. by eexists.
    + intros [= <- _]. by eexists.
    + destruct (negb (is_ok (wr_sent w))); [done|]. by destruct (receive _ _ _).
  - destruct (negb (known_message ty)); [|destruct (kMaxFrameBytes <? zlen payload)]; cbv iota beta zeta;
      intros [= <- _]; by eexists.
Qed.

(** What the tool takes for a published declaration. *)
Definition taken_for_published (w : wire) (d : declaration) (attempt : publish_attempt) (p : publisher) : bool :=
  is_ok (returned pp_status (publish w d attempt p).1.1)
  || bool_decide (response_status w d attempt p = Status.ALREADY_EXISTS).

Lemma published_written w d attempt p :
  (seal d).1 = Status.OK → taken_for_published w d attempt p = true →
  ps_established (pb_session p) = true
  ∧ (publish w d attempt p).1.2
    = Some (MessageType.PUBLISH_REQUEST, encode_message (PublishRequest (seal d).2 (number_attempt attempt p).1)).
Proof.
  unfold taken_for_published, response_status, publish. destruct (ps_established (pb_session p)); [|done]. cbn [negb].
  destruct (seal d) as [st sealed]. cbn [fst snd]. intros ->. change (negb (is_ok Status.OK)) with false. cbv iota.
  destruct (number_attempt attempt p) as [effective p1]. cbn [fst snd]. unfold call.
  change (message_type_of publish_request) with MessageType.PUBLISH_REQUEST.
  destruct (exchange w _ _ _ p1) as [[answer [m|]] p2] eqn:He.
  - intros _. split; [done|]. apply exchange_keeps in He as (_ & _ & Hm). destruct (Hm m eq_refl) as [_ ->].
    by destruct answer as [payload|s]; [destruct (decode_message payload)|].
  - apply exchange_unsent in He as (s & -> & Hs & Hne). cbn [fst snd returned]. rewrite Hs, bool_decide_false by done. done.
Qed.

Lemma hold_writes deadline turns : ∀ p,
  Forall (λ m, m.1 = MessageType.HEARTBEAT_REQUEST) (frames_of (hold deadline turns p).1).
Proof.
  induction turns as [|[now w] turns IH]; intros p; cbn [hold]; [constructor|]. destruct (now <? deadline); [|constructor].
  destruct (heartbeat w p) as [[a f] p1] eqn:E. apply heartbeat_writes in E.
  destruct (is_ok _); [specialize (IH p1); destruct (hold deadline turns p1) as [frames ended]|]; cbn [fst] in *;
    destruct f as [m|]; cbn in *; by repeat constructor.
Qed.

(** The loop ends at the first reading of the clock that is not before the deadline. *)
Lemma hold_ends deadline turns i : ∀ p,
  from_option (λ t, deadline ≤ t.1) False (turns !! i) →
  (hold deadline turns p).2 = true ∧ (length (hold deadline turns p).1 ≤ i)%nat.
Proof.
  revert i. induction turns as [|[now w] turns IH]; intros i p; [by rewrite lookup_nil|]. cbn [hold].
  destruct (Z.ltb_spec now deadline); [|intros _; cbn; split; [done|lia]]. destruct i as [|i]; cbn; [lia|]. intros Hi.
  destruct (heartbeat w p) as [[a f] p1]. destruct (is_ok _); [|cbn; split; [done|lia]].
  specialize (IH i p1 Hi) as [He Hl]. destruct (hold deadline turns p1) as [frames ended]. cbn in *. split; [done|lia].
Qed.

(** * How the process ends *)

Lemma seal_idempotent d0 d : seal d0 = (Status.OK, d) → seal d = (Status.OK, d).
Proof.
  unfold seal. destruct (canonicalize d0) as [st d1] eqn:Hc. destruct (is_ok st) eqn:Hst; [|intros [= -> _]; discriminate Hst].
  intros [= <-]. assert (canonical_declaration d1) as Hd by (apply (canonicalize_canonical_form d0); by exists st).
  destruct (canonical_fixed _ (canonical_set_digest (compute_digest d1) d1 Hd)) as (st' & -> & ->). done.
Qed.

Lemma prepare_sealed args clock now o d p : prepare args clock now = Ok (o, d, p) →
  ∃ d0 key, mdk_parse (mo_domain o) = Some key ∧ declare now key o = Some d0 ∧ seal d0 = (Status.OK, d).
Proof.
  unfold prepare. destruct (parse args) as [o0|]; [|done]. destruct (mo_port o0 =? 0); [done|].
  set (o1 := if bool_decide _ then _ else o0). destruct (mdk_parse (mo_domain o1)) as [key|] eqn:Hk; [|done].
  destruct (declare now key o1) as [d0|] eqn:Hd; [|done]. destruct (seal d0) as [st d1] eqn:Hs.
  destruct (is_ok st) eqn:Hst; cbn [negb]; [|done]. destruct (create _); [|done]. intros [= <- <- <-].
  exists d0, key. split; [done|]. split; [done|]. rewrite Hs. f_equal. unfold seal in Hs.
  destruct (canonicalize d0) as [st' d']. destruct (is_ok st') eqn:E; injection Hs as <- <-; [done|congruence].
Qed.

Lemma prepare_refused args clock now code lines :
  prepare args clock now = Err (code, lines) → code = 2 ∨ code = 3.
Proof.
  unfold prepare. destruct (parse args) as [o0|]; [|intros [= <- _]; by left]. destruct (mo_port o0 =? 0); [intros [= <- _]; by left|].
  set (o1 := if bool_decide _ then _ else o0). destruct (mdk_parse (mo_domain o1)) as [key|]; [|intros [= <- _]; by left].
  destruct (declare now key o1) as [d0|]; [|intros [= <- _]; by left]. destruct (seal d0) as [st d1].
  destruct (is_ok st); cbn [negb]; [|intros [= <- _]; by right]. by destruct (create _); intros [= <- _]; right.
Qed.

(** What the tool has done once its publication was answered. *)
Definition published (args : list string) (w : member_world) (frames : list (message_type * bytes)) : Prop :=
  ∃ o key d0 d p greeting p1 s beats,
    prepare args (mw_boot_clock w) (mw_now_ms w) = Ok (o, d, p)
    ∧ mdk_parse (mo_domain o) = Some key ∧ declare (mw_now_ms w) key o = Some d0 ∧ seal d0 = (Status.OK, d)
    ∧ connect (mw_opened w) (mw_hello w) p = (s, greeting, p1) ∧ is_ok s = true ∧ ps_established (pb_session p1) = true
    ∧ frames = frames_of [greeting]
               ++ (MessageType.PUBLISH_REQUEST, encode_message (PublishRequest d (PublishAttempt 1 1))) :: beats
    ∧ Forall (λ m, m.1 = MessageType.HEARTBEAT_REQUEST) beats
    ∧ taken_for_published (mw_publish w) d (PublishAttempt 1 1) p1 = true.

Lemma speak_ends o key d0 d p w args :
  prepare args (mw_boot_clock w) (mw_now_ms w) = Ok (o, d, p) → mdk_parse (mo_domain o) = Some key →
  declare (mw_now_ms w) key o = Some d0 → seal d0 = (Status.OK, d) →
  (run_end (speak o d p w) = Exited 4 ∧ Forall (λ m, m.1 = MessageType.HELLO_REQUEST) (run_frames (speak o d p w)))
  ∨ run_end (speak o d p w) = Exited 5
  ∨ (published args w (run_frames (speak o d p w))
     ∧ (run_end (speak o d p w) = Exited 0 ∨ (0 < mo_hold_ms o ∧ run_end (speak o d p w) ∈ [Holding; Overflowed]))).
Proof.
  intros Hp Hk Hd Hs. unfold speak. destruct (connect _ _ p) as [[s greeting] p1] eqn:Hc.
  destruct (is_ok s) eqn:Hok; cbn [negb].
  2:{ left. split; [done|]. apply connect_writes in Hc. cbn [run_frames]. destruct greeting; cbn in *; by repeat constructor. }
  right. destruct (publish _ d _ p1) as [[answer offer] p2] eqn:Hpub.
  destruct (taken_for_published (mw_publish w) d (PublishAttempt 1 1) p1) eqn:Ht.
  2:{ left. unfold taken_for_published in Ht. rewrite Hpub in Ht. cbn [fst] in Ht. apply orb_false_iff in Ht as [Ha Hr].
      by rewrite Ha, Hr. }
  right. destruct (published_written (mw_publish w) d (PublishAttempt 1 1) p1) as [He Hoffer]; [by rewrite (seal_idempotent d0 d Hs)|done|].
  rewrite Hpub, (seal_idempotent d0 d Hs) in Hoffer. cbn [fst snd] in Hoffer. subst offer.
  assert (∀ beats, Forall (λ m, m.1 = MessageType.HEARTBEAT_REQUEST) beats →
            published args w (frames_of [greeting]
              ++ (MessageType.PUBLISH_REQUEST, encode_message (PublishRequest d (PublishAttempt 1 1))) :: beats)) as Hall
    by (intros beats Hb; by exists o, key, d0, d, p, greeting, p1, s, beats).
  assert (negb (is_ok (returned pp_status answer))
          && negb (bool_decide (response_status (mw_publish w) d (PublishAttempt 1 1) p1 = Status.ALREADY_EXISTS)) = false) as ->.
  { unfold taken_for_published in Ht. rewrite Hpub in Ht. cbn [fst] in Ht. by rewrite <- negb_orb, Ht. }
  change ((number_attempt (PublishAttempt 1 1) p1).1) with (PublishAttempt 1 1).
  set (offer := (MessageType.PUBLISH_REQUEST, _)) in *.
  assert (∀ beats, frames_of (greeting :: Some offer :: beats) = frames_of [greeting] ++ offer :: frames_of beats) as Hframes
    by (intros beats; by destruct greeting).
  destruct (Z.ltb_spec 0 (mo_hold_ms o)) as [Hh|_].
  2:{ split; [|by left]. cbn [run_frames]. rewrite Hframes. apply Hall. constructor. }
  destruct (_ || _).
  { split; [|right; split; [done|set_solver]]. cbn [run_frames]. rewrite Hframes. apply Hall. constructor. }
  pose proof (hold_writes (mw_hold_clock w + mo_hold_ms o * kNanosPerMilli) (mw_turns w) p2) as Hbeats.
  destruct (hold _ _ p2) as [beats ended]. cbn [fst] in Hbeats. rewrite Hframes.
  destruct ended; (split; [by apply Hall|]); [by left|right; split; [done|set_solver]].
Qed.

(** The member tool's exit code says what happened: 2 and 3 come before anything is sent or
    printed, 4 after nothing but a hello; whoever gets past the publication - exit code 0 in
    particular - had its declaration built from its options, sealed, and written as the one
    publication of an established session, after which only heartbeats are written; and no
    other code occurs. The answer taken for success is a success or ALREADY_EXISTS. *)
Theorem member_exit_codes (args : list string) (w : member_world) :
  (run_end (main args w) ∈ [Holding; Overflowed] ∨ ∃ c, c ∈ [0; 2; 3; 4; 5] ∧ run_end (main args w) = Exited c)
  ∧ (run_end (main args w) = Exited 2 ∨ run_end (main args w) = Exited 3 →
       run_out (main args w) = [] ∧ run_frames (main args w) = [])
  ∧ (run_end (main args w) = Exited 4 → Forall (λ m, m.1 = MessageType.HELLO_REQUEST) (run_frames (main args w)))
  ∧ (run_end (main args w) ∈ [Exited 0; Holding; Overflowed] → published args w (run_frames (main args w))).
Proof.
  unfold main. destruct (prepare args (mw_boot_clock w) (mw_now_ms w)) as [[[o d] p]|[code lines]] eqn:Hp.
  2:{ cbn [run_end run_out run_frames]. apply prepare_refused in Hp. split_and!; [right; exists code|done|..].
      - split; [destruct Hp as [->| ->]; set_solver|done].
      - intros [= ->]. by destruct Hp.
      - intros Hin. repeat (apply elem_of_cons in Hin as [Hin|Hin]; [try discriminate Hin|]); [|by apply elem_of_nil in Hin].
        injection Hin as ->. by destruct Hp. }
  pose proof Hp as Hs. apply prepare_sealed in Hs as (d0 & key & Hk & Hd & Hs).
  destruct (speak_ends o key d0 d p w args Hp Hk Hd Hs) as [[He Hf]|[He|[Hpub [He|[_ He]]]]].
  - rewrite He. split_and!; [right; exists 4; set_solver|by intros []|done|set_solver].
  - rewrite He. split_and!; [right; exists 5; set_solver|by intros []|done|set_solver].
  - rewrite He. split_and!; [right; exists 0; set_solver|by intros []|done|done].
  - split_and!; [by left|intros [H|H]; rewrite H in He; set_solver|intros H; rewrite H in He; set_solver|done].
Qed.

(** The heartbeats among the frames. *)
Definition heartbeats (frames : list (message_type * bytes)) : Z :=
  zlen (List.filter (λ m, bool_decide (m.1 = MessageType.HEARTBEAT_REQUEST)) frames).

Lemma heartbeats_le frames : heartbeats frames ≤ zlen frames.
Proof. unfold heartbeats, zlen. pose proof (List.filter_length_le (λ m, bool_decide (m.1 = MessageType.HEARTBEAT_REQUEST)) frames). lia. Qed.

Lemma heartbeats_none ty frames (l : list reply) :
  ty ≠ MessageType.HEARTBEAT_REQUEST → from_option (λ m, m.1 = ty) True frames →
  heartbeats (frames_of (frames :: l)) = heartbeats (frames_of l).
Proof.
  intros Hne. destruct frames as [[ty' payload]|]; [|done]. cbn. intros ->. unfold heartbeats. cbn. by rewrite bool_decide_false.
Qed.

Lemma frames_of_le (l : list reply) : zlen (frames_of l) ≤ zlen l.
Proof.
  unfold zlen. apply inj_le. induction l as [|[m|] l IH]; cbn; [done| |]; unfold frames_of in IH; cbn in IH; lia.
Qed.

(** A process that holds its session ends: if its turns of the clock are at least 100 ms
    apart, as the sleep in the loop makes them, the tool does not outlive the turns that cover
    [--hold-ms], and it sends at most one heartbeat per 100 ms of it. *)
Theorem member_hold_ends (args : list string) (w : member_world) (o : member_options) (d : declaration) (p : publisher) :
  prepare args (mw_boot_clock w) (mw_now_ms w) = Ok (o, d, p) → 0 < mo_hold_ms o →
  (∀ k t, mw_turns w !! k = Some t → mw_hold_clock w + Z.of_nat k * 100 * kNanosPerMilli ≤ t.1) →
  (mo_hold_ms o + 99) / 100 < zlen (mw_turns w) →
  run_end (main args w) ≠ Holding
  ∧ heartbeats (run_frames (main args w)) ≤ (mo_hold_ms o + 99) / 100.
Proof.
  intros Hp Hh Hclock Hlen. unfold main. rewrite Hp. unfold speak.
  assert (0 ≤ (mo_hold_ms o + 99) / 100) as Hpos by (apply Z.div_pos; lia).
  destruct (connect _ _ p) as [[s greeting] p1] eqn:Hc. apply connect_writes in Hc.
  destruct (publish _ d _ p1) as [[answer offer] p2] eqn:Hpub. apply publish_writes in Hpub.
  assert (∀ l, heartbeats (frames_of (greeting :: offer :: l)) = heartbeats (frames_of l)) as Hskip.
  { intros l. rewrite (heartbeats_none MessageType.HELLO_REQUEST) by done. by rewrite (heartbeats_none MessageType.PUBLISH_REQUEST). }
  assert (heartbeats (frames_of [greeting]) = 0) as Hone by (by rewrite (heartbeats_none MessageType.HELLO_REQUEST)).
  destruct (negb (is_ok s)); [cbn [run_end run_frames]; by rewrite Hone|].
  destruct (negb _ && negb _); [cbn [run_end run_frames]; by rewrite Hskip|].
  rewrite (proj2 (Z.ltb_lt _ _)) by done. destruct (_ || _); [cbn [run_end run_frames]; by rewrite Hskip|].
  set (i := Z.to_nat ((mo_hold_ms o + 99) / 100)).
  destruct (lookup_lt_is_Some_2 (mw_turns w) i) as [t Ht]; [unfold zlen in Hlen; unfold i; lia|].
  destruct (hold_ends (mw_hold_clock w + mo_hold_ms o * kNanosPerMilli) (mw_turns w) i p2) as [He Hl].
  { rewrite Ht. cbn. pose proof (Hclock i t Ht) as Hi. unfold kNanosPerMilli in *.
    assert (mo_hold_ms o ≤ Z.of_nat i * 100); [|lia]. unfold i. rewrite Z2Nat.id by done.
    pose proof (Z.div_mod (mo_hold_ms o + 99) 100 ltac:(done)). pose proof (Z.mod_pos_bound (mo_hold_ms o + 99) 100 ltac:(done)). lia. }
  destruct (hold _ _ p2) as [beats ended]. cbn [fst snd] in *. subst ended. cbn [run_end run_frames]. split; [done|].
  rewrite Hskip. pose proof (heartbeats_le (frames_of beats)). pose proof (frames_of_le beats). unfold zlen in *. lia.
Qed.

(** * Witnesses *)

Module Publishing.

(** The next frame of the peer. *)
Definition frame {A} `{Message A} (m : A) : wire :=
  Wire Status.OK [Bytes (match encode_frame (message_type_of A) (encode_message m) 0 with Ok f => f | Err _ => [] end)].

Definition greeting : hello_response :=
  HelloResponse Status.OK "site-alpha" 1 (Incarnation 1 "boot-c") 1 0 no_factors.
Definition args : list string := ["--port"; "7000"; "--boot-nonce"; "boot-1"; "--hold-ms"; "150"]%string.
(** Accepted, and the peer is gone when the tool sends its first heartbeat. *)
Definition world : member_world :=
  MemberWorld 5 1000 Status.OK (frame greeting) (frame (Talking.reply 1)) 0
    [(0, Wire Status.OK []); (100 * kNanosPerMilli, Wire Status.OK []); (200 * kNanosPerMilli, Wire Status.OK [])].

End Publishing.

Lemma member_exit_codes_witness : published Publishing.args Publishing.world (run_frames (main Publishing.args Publishing.world)).
Proof.
  assert (run_end (main Publishing.args Publishing.world) = Exited 0) as Hend by (vm_compute; reflexivity).
  apply (member_exit_codes Publishing.args Publishing.world). apply elem_of_cons. left. exact Hend.
Defined.

Lemma member_hold_ends_witness : heartbeats (run_frames (main Publishing.args Publishing.world)) ≤ 2.
Proof.
  assert (match prepare Publishing.args (mw_boot_clock Publishing.world) (mw_now_ms Publishing.world) with
          | Ok (o, _, _) => mo_hold_ms o =? 150 | Err _ => false end = true) as Hrun by (vm_compute; reflexivity).
  destruct (prepare _ _ _) as [[[o d] p]|] eqn:Hp; [|discriminate Hrun]. apply Z.eqb_eq in Hrun.
  change 2 with ((150 + 99) / 100). rewrite <- Hrun. apply (member_hold_ends Publishing.args Publishing.world o d p Hp).
  - rewrite Hrun. reflexivity.
  - intros k t Ht. destruct k as [|[|[|k]]]; cbn in Ht; try discriminate Ht; injection Ht as <-; cbn; unfold kNanosPerMilli; lia.
  - rewrite Hrun. reflexivity.
Defined.
