(* ===== verification/Display.v ===== *)
(** Display text: the [to_string] of composite records, the site summary and the version lines
    (src/core/model.cpp, capacity.cpp, snapshot.cpp, src/compose/validate.cpp, compose.cpp,
    src/persistence/persistence.cpp, src/protocol/protocol.cpp, src/publisher/publisher.cpp,
    src/authority/authority.cpp), as the command-line tools print it. *)

From stdpp Require Import sorting sets gmap.
From S2P Require Import Prelude Ordering Enums Sha256 Identity Canonical Evidence Capacity Claims Codec Canonicalize Authority Forest Site SiteCodec Snapshot StoreFormat Store Protocol Samples Admit Attribute Domains Maintenance Ledger Verdicts Compose Invalidate Encodable Controller Transport Execution Publisher.

(** * Pieces *)

(** [std::to_string] of a signed number, of a size, and the two boolean words of the tools. *)
Definition dec_signed (z : Z) : string := if z <? 0 then ("-" +:+ dec (Z.abs z))%string else dec z.
Definition count {A} (l : list A) : string := dec (zlen l).
Definition word (b : bool) : string := if b then "true" else "false".

(** [" [" + factors.join(separator) + "]"] when there are any. *)
Definition bracketed (separator : string) (f : factors) : string :=
  match fac_items f with [] => ""%string | _ => (" [" +:+ factors_join separator f +:+ "]")%string end.

(** * The model (model.cpp, status.hpp) *)

Definition outcome_to_string (o : outcome) : string :=
  (to_string (out_status o)
   +:+ (if bool_decide (out_detail o = "") then "" else " (" +:+ out_detail o +:+ ")")
   +:+ bracketed ", " (out_factors o))%string.

(** The body of [SourceSet::to_string] between the brackets. *)
Fixpoint comma_separated (items : list string) : string :=
  match items with
  | [] => ""
  | [item] => item
  | item :: rest => (item +:+ "," +:+ comma_separated rest)%string
  end.
Definition source_set_to_string (s : source_set) : string :=
  ("[" +:+ comma_separated (sr_to_string <$> ss_items s) +:+ "]" +:+ (if ss_truncated s then "+truncated" else ""))%string.

Definition attempt_to_string (a : publish_attempt) : string := (dec (pa_sequence a) +:+ "/" +:+ dec (pa_attempt a))%string.

(** version.hpp *)
Definition kVersionMajor : Z := 1.
Definition kVersionMinor : Z := 0.
Definition kVersionPatch : Z := 0.

Definition model_version : string := (dec kModelSchemaMajor +:+ "." +:+ dec kModelSchemaMinor)%string.
Definition version_string : string := (dec kVersionMajor +:+ "." +:+ dec kVersionMinor +:+ "." +:+ dec kVersionPatch)%string.
Definition version_tuple : string :=
  (version_string +:+ " (wire " +:+ dec kWireProtocolVersion +:+ ", store " +:+ dec kPersistenceFormatVersion
   +:+ ", model " +:+ model_version +:+ ")")%string.
(** [release] says whether NDEBUG is defined. *)
Definition build_description (release : bool) : string :=
  ("Site Fabric " +:+ version_string +:+ (if release then " Release" else " Debug")
   +:+ " | wire " +:+ dec kWireProtocolVersion +:+ " | store " +:+ dec kPersistenceFormatVersion
   +:+ " | model " +:+ model_version)%string.
Definition format_versions : string :=
  ("wire=" +:+ dec kWireProtocolVersion +:+ " persistence=" +:+ dec kPersistenceFormatVersion +:+ " model=" +:+ model_version)%string.

(** * Declarations, records and the parts of a site (validate.cpp) *)

Definition declaration_to_string (d : declaration) : string :=
  (mdk_to_string (decl_domain d) +:+ "@" +:+ dec (decl_generation d) +:+ "#" +:+ short_hex (decl_digest d)
   +:+ " claims=" +:+ dec (resource_claim_count d))%string.

Definition failure_domain_node_to_string (n : failure_domain_node) : string :=
  (fdn_id n +:+ "(" +:+ to_string (fdn_domain_class n) +:+ ",depth=" +:+ dec (fdn_depth n)
   +:+ ",members=" +:+ count (fdn_members n) +:+ ",children=" +:+ count (fdn_children n)
   +:+ "," +:+ to_string (fdn_status n) +:+ ")")%string.

Definition member_state_to_string (m : member_domain_state) : string :=
  (mdk_to_string (ms_domain m) +:+ " " +:+ to_string (ms_lifecycle m) +:+ " gen=" +:+ dec (ms_generation m)
   +:+ " digest=" +:+ short_hex (ms_digest m) +:+ " evidence=" +:+ to_string (ms_evidence_state m)
   +:+ bracketed "," (ms_factors m))%string.

Definition publication_to_string (r : publication_record) : string :=
  (sr_to_string (pub_source r) +:+ " by=" +:+ pub_publisher r +:+ " incarnation=" +:+ incarnation_to_string (pub_incarnation r)
   +:+ " accepted=" +:+ dec (pub_acceptance_sequence r))%string.
Definition retirement_to_string (r : retirement_record) : string :=
  (mdk_to_string (ret_domain r) +:+ "@" +:+ dec (ret_generation r) +:+ " reason=" +:+ ret_reason r)%string.

(** [ResourceKey::empty]. *)
Definition rk_empty (k : resource_key) : bool := bool_decide (rk_id k = ""%string).

Definition decision_id_to_string (d : decision_id) : string :=
  (to_string (did_kind d) +:+ (if rk_empty (did_subject d) then "" else "/" +:+ rk_to_string (did_subject d)))%string.
Definition decision_to_string (d : site_decision) : string :=
  (decision_id_to_string (dec_id d) +:+ " " +:+ to_string (dec_status d) +:+ " sources=" +:+ count (ss_items (dec_sources d))
   +:+ bracketed "," (dec_factors d))%string.

Definition attribution_to_string (a : resource_attribution) : string :=
  (rk_to_string (ra_key a) +:+ " " +:+ to_string (ra_status a) +:+ " attestors=" +:+ count (ss_items (ra_attestors a))
   +:+ " contents=" +:+ dec (ra_distinct_contents a))%string.

Definition ledger_entry_to_string (e : capacity_ledger_entry) : string :=
  (rk_to_string (le_owner e) +:+ "/" +:+ to_string (le_scope e) +:+ " " +:+ to_string (le_status e)
   +:+ " " +:+ capacity_to_string (le_capacity e) +:+ (if le_counted_in_total e then " counted" else " excluded"))%string.
Definition ledger_to_string (l : capacity_ledger) : string :=
  ("entries=" +:+ count (cl_entries l) +:+ " total[" +:+ capacity_to_string (cl_total l)
   +:+ "] available[" +:+ capacity_to_string (cl_available l)
   +:+ "] excluded[" +:+ capacity_to_string (cl_excluded_by_maintenance l)
   +:+ "] indeterminate[" +:+ capacity_to_string (cl_indeterminate l) +:+ "]"
   +:+ (if cl_closes_exactly l then " closes" else " does-not-close") +:+ " " +:+ to_string (cl_status l))%string.

Definition connectivity_to_string (c : connectivity_summary) : string :=
  ("links=" +:+ dec (cs_shared_links c) +:+ "(up=" +:+ dec (cs_shared_links_up c)
   +:+ ",down=" +:+ dec (cs_shared_links_down c) +:+ ",degraded=" +:+ dec (cs_shared_links_degraded c)
   +:+ ",unknown=" +:+ dec (cs_shared_links_unknown c) +:+ ")"
   +:+ " gateways=" +:+ dec (cs_gateways c) +:+ "(up=" +:+ dec (cs_gateways_up c)
   +:+ ",down=" +:+ dec (cs_gateways_down c) +:+ ",degraded=" +:+ dec (cs_gateways_degraded c)
   +:+ ",unknown=" +:+ dec (cs_gateways_unknown c) +:+ ")" +:+ " " +:+ to_string (cs_status c))%string.

Definition conflict_to_string (c : site_conflict) : string :=
  (to_string (sc_code c) +:+ (if rk_empty (sc_subject c) then "" else " " +:+ rk_to_string (sc_subject c))
   +:+ " parties=" +:+ count (ss_items (sc_parties c))
   +:+ match sc_variants c with [] => "" | _ => " variants=" +:+ count (sc_variants c) end)%string.
Definition deficit_to_string (d : site_deficit) : string :=
  (to_string (sd_code d) +:+ " " +:+ mdk_to_string (sd_domain d) +:+ ": " +:+ sd_detail d)%string.

Definition effect_to_string (e : maintenance_effect) : string :=
  (me_id e +:+ " " +:+ to_string (me_state e) +:+ " excluded=" +:+ count (me_excluded e)
   +:+ " indeterminate=" +:+ count (me_indeterminate e) +:+ " " +:+ to_string (me_status e))%string.
Definition verdict_to_string (v : obligation_verdict) : string :=
  (ov_id v +:+ " " +:+ to_string (ov_kind v) +:+ " " +:+ to_string (ov_status v) +:+ " required=" +:+ dec (ov_required v)
   +:+ (if ov_observed_known v then " observed=" +:+ dec (ov_observed v) else " observed=UNKNOWN"))%string.

Definition site_to_string (s : composed_site) : string :=
  (site_id s +:+ " epoch=" +:+ dec (site_epoch s) +:+ " gen=" +:+ dec (site_generation s)
   +:+ " " +:+ to_string (site_lifecycle_state s) +:+ " members=" +:+ count (site_members s)
   +:+ " conflicts=" +:+ count (site_conflicts s) +:+ " deficits=" +:+ count (site_deficits s)
   +:+ " " +:+ ledger_to_string (site_capacity s))%string.

(** * The summary of a site (the end of compose.cpp) *)

Definition newline : string := String (Ascii.ascii_of_nat 10) "".

Definition summarize (s : composed_site) : string :=
  (site_id s +:+ " epoch=" +:+ dec (site_epoch s) +:+ " gen=" +:+ dec (site_generation s)
   +:+ " " +:+ to_string (site_lifecycle_state s) +:+ " members=" +:+ count (site_members s)
   +:+ " conflicts=" +:+ count (site_conflicts s) +:+ " deficits=" +:+ count (site_deficits s)
   +:+ " " +:+ ledger_to_string (site_capacity s))%string.

(** One of the loops that append a line per item. *)
Fixpoint append_lines {A} (label : string) (render : A → string) (items : list A) (out : string) : string :=
  match items with
  | [] => out
  | item :: rest => append_lines label render rest (out +:+ newline +:+ label +:+ render item)%string
  end.

Definition explain (s : composed_site) : string :=
  let out := summarize s in
  let out := (out +:+ newline +:+ "  capacity: " +:+ ledger_to_string (site_capacity s))%string in
  let out := (out +:+ newline +:+ "  connectivity: " +:+ connectivity_to_string (site_connectivity s))%string in
  let out := (out +:+ newline +:+ "  failure domains: " +:+ count (ff_nodes (site_failure_domains s))
              +:+ " nodes, status " +:+ to_string (ff_status (site_failure_domains s)))%string in
  let out := (out +:+ newline +:+ "  decisions: " +:+ count (site_decisions s))%string in
  let out := append_lines "  conflict: " conflict_to_string (site_conflicts s) out in
  let out := append_lines "  deficit: " deficit_to_string (site_deficits s) out in
  let out := append_lines "  obligation: " verdict_to_string (site_obligations s) out in
  append_lines "  factor: " id (fac_items (site_factors s)) out.

Definition report_to_string (r : invalidation_report) : string :=
  ("changed=" +:+ sr_to_string (rep_changed r) +:+ " invalidated=" +:+ count (rep_invalidated r)
   +:+ " retained=" +:+ count (rep_retained r) +:+ " domains=" +:+ count (rep_affected_domains r)
   +:+ " resources=" +:+ count (rep_affected_resources r))%string.

(** * Snapshots, recovery, authority, sessions *)

Definition snapshot_to_string (s : site_snapshot) : string :=
  (snap_site s +:+ " seq=" +:+ dec (snap_sequence s) +:+ " epoch=" +:+ dec (snap_epoch s)
   +:+ " gen=" +:+ dec (snap_generation s) +:+ " " +:+ to_string (snap_lifecycle s)
   +:+ (if snap_complete s then " complete" else " incomplete"))%string.
Definition publish_result_to_string (r : publish_result) : string :=
  (to_string (pr_status r) +:+ " sequence=" +:+ dec (pr_sequence r) +:+ bracketed "," (pr_factors r))%string.

Definition recovery_to_string (r : recovery_report) : string :=
  (to_string (rep_status r) +:+ " scanned=" +:+ dec (rep_records_scanned r) +:+ " accepted=" +:+ dec (rep_records_accepted r)
   +:+ " rejected=" +:+ dec (rep_records_rejected r) +:+ " bytes=" +:+ dec (rep_bytes_consumed r)
   +:+ (if rep_tail_truncated r then " tail_truncated=" +:+ dec (rep_bytes_truncated r) else "")
   +:+ (if rep_version_incompatible r then " version_incompatible" else "")
   +:+ (if rep_digest_mismatch r then " digest_mismatch" else ""))%string.

Definition token_to_string (t : token) : string :=
  (to_string (tok_kind t) +:+ ":" +:+ tok_holder t +:+ "@" +:+ tok_site t +:+ " epoch=" +:+ dec (tok_epoch t)
   +:+ " incarnation=" +:+ incarnation_to_string (tok_incarnation t) +:+ " gen=" +:+ dec (tok_generation t)
   +:+ " lease=" +:+ dec (tok_lease_id t) +:+ " until=" +:+ dec_signed (tok_expires_at_ms t))%string.

Definition session_to_string (s : publisher_session) : string :=
  ((if ps_established s then "established" else "not-established") +:+ " " +:+ to_string (ps_status s)
   +:+ " epoch=" +:+ dec (ps_epoch s) +:+ " assigned=" +:+ dec (ps_assigned_sequence s))%string.

(** * Frames and messages (protocol.cpp) *)

Definition frame_header_to_string (h : frame_header) : string :=
  (to_string (fh_type h) +:+ " v" +:+ dec (fh_protocol_version h) +:+ " bytes=" +:+ dec (fh_payload_bytes h)
   +:+ " flags=" +:+ dec (fh_flags h) +:+ " digest=" +:+ short_hex (fh_payload_digest h))%string.

Definition hello_request_to_string (m : hello_request) : string :=
  (mdk_to_string (hq_domain m) +:+ " site=" +:+ hq_site m +:+ " incarnation=" +:+ incarnation_to_string (hq_incarnation m)
   +:+ " publisher=" +:+ hq_publisher m)%string.
Definition hello_response_to_string (m : hello_response) : string :=
  (to_string (hr_status m) +:+ " epoch=" +:+ dec (hr_epoch m) +:+ " assigned=" +:+ dec (hr_assigned_sequence m))%string.
Definition publish_request_to_string (m : publish_request) : string :=
  (declaration_to_string (pq_declaration m) +:+ " attempt=" +:+ attempt_to_string (pq_attempt m))%string.
Definition publish_response_to_string (m : publish_response) : string :=
  (to_string (pp_status m) +:+ " epoch=" +:+ dec (pp_epoch m) +:+ " site_generation=" +:+ dec (pp_site_generation m)
   +:+ " accepted=" +:+ dec (pp_acceptance_sequence m))%string.
Definition retire_request_to_string (m : retire_request) : string := mdk_to_string (rq_domain m).
Definition retire_response_to_string (m : retire_response) : string :=
  (to_string (rp_status m) +:+ " accepted=" +:+ dec (rp_acceptance_sequence m))%string.
Definition fetch_site_request_to_string (m : fetch_site_request) : string :=
  ("site=" +:+ fq_site m +:+ " sequence=" +:+ dec (fq_sequence m))%string.
(** The sequence of a response without a snapshot is that of [SiteSnapshot{}]. *)
Definition fetch_site_response_to_string (m : fetch_site_response) : string :=
  (to_string (fp_status m) +:+ " has_snapshot=" +:+ word (fp_has_snapshot m)
   +:+ " sequence=" +:+ dec (from_option snap_sequence 0 (fp_snapshot m)))%string.
Definition heartbeat_request_to_string (m : heartbeat_request) : string :=
  (mdk_to_string (bq_domain m) +:+ " incarnation=" +:+ incarnation_to_string (bq_incarnation m))%string.
Definition heartbeat_response_to_string (m : heartbeat_response) : string :=
  (to_string (bp_status m) +:+ " epoch=" +:+ dec (bp_epoch m) +:+ " invalidated=" +:+ count (bp_invalidated m))%string.
Definition invalidate_notice_to_string (m : invalidate_notice) : string :=
  (iv_site m +:+ " sources=" +:+ count (ss_items (iv_sources m)) +:+ " " +:+ iv_reason m)%string.
Definition revoke_notice_to_string (m : revoke_notice) : string :=
  (mdk_to_string (rn_domain m) +:+ " " +:+ rn_reason m)%string.
Definition error_response_to_string (m : error_response) : string :=
  (to_string (er_status m) +:+ (if bool_decide (er_detail m = "") then "" else " " +:+ er_detail m))%string.
Definition shutdown_request_to_string (m : shutdown_request) : string := (sq_site m +:+ " " +:+ sq_reason m)%string.
Definition shutdown_response_to_string (m : shutdown_response) : string := to_string (sp_status m).
Definition ping_to_string (m : ping_message) : string := ("nonce=" +:+ dec (ping_nonce m))%string.

(** * Reports of the registry (authority.cpp) *)

(** [leases()]: ordered by the text of the token, which names the lease. *)
Definition registry_leases (r : registry) : list lease_record :=
  sort_by (λ l, token_to_string (lr_token l)) (map_to_list (leases r)).*2.
(** [tombstones()], and [domain_count()]. *)
Definition registry_tombstones (r : registry) : list string :=
  sort_by id (map_to_list (tombstones r) ≫= λ p, (λ i, mdk_to_string p.1 +:+ "/" +:+ i)%string <$> elements p.2).
Definition domain_count (r : registry) : Z := Z.of_nat (size (domains r)).
Definition registry_to_string (r : registry) : string :=
  ("leases=" +:+ dec (Z.of_nat (size (leases r))) +:+ " sites=" +:+ dec (Z.of_nat (size (site_epochs r)))
   +:+ " domains=" +:+ dec (domain_count r)
   +:+ " tombstones=" +:+ dec (Z.of_nat (sum_list ((λ p, size p.2) <$> map_to_list (tombstones r)))))%string.
