(* ===== verification/ControllerTool.v ===== *)
(** The controller tool (src/tools/controller_main.cpp): a site's controller as a process.

    The tool configures a controller from its options, starts it, and then only watches the
    clock and a stop file while the controller's own threads serve; what they do between two
    turns of the watch is a list of events of [Execution]. At the end it reports the current
    snapshot and stops the controller. *)

From stdpp Require Import sorting sets gmap.
From S2P Require Import Prelude Ordering Enums Sha256 Identity Canonical Evidence Capacity Claims Codec Canonicalize Authority Forest Site SiteCodec Snapshot StoreFormat Store Protocol Samples Admit Attribute Domains Maintenance Ledger Verdicts Compose Invalidate Encodable Controller Transport Execution Publisher CommandLine Display.

(** * Options *)

Record controller_options := ControllerOptions {
  co_site : string;
  co_host : string;
  co_port : Z;
  co_store : string;
  co_id : string;
  co_run_ms : Z;
  co_persistent : bool;
  co_quiet : bool;
  co_print_snapshots : bool;
  co_expect : list string;
  co_stop_file : string;
}.

Definition set_site (x : string) (o : controller_options) : controller_options :=
  ControllerOptions x (co_host o) (co_port o) (co_store o) (co_id o) (co_run_ms o) (co_persistent o) (co_quiet
    o) (co_print_snapshots o) (co_expect o) (co_stop_file o).
Definition set_host (x : string) (o : controller_options) : controller_options :=
  ControllerOptions (co_site o) x (co_port o) (co_store o) (co_id o) (co_run_ms o) (co_persistent o) (co_quiet
    o) (co_print_snapshots o) (co_expect o) (co_stop_file o).
Definition set_port (x : Z) (o : controller_options) : controller_options :=
  ControllerOptions (co_site o) (co_host o) x (co_store o) (co_id o) (co_run_ms o) (co_persistent o) (co_quiet
    o) (co_print_snapshots o) (co_expect o) (co_stop_file o).
Definition set_store (x : string) (o : controller_options) : controller_options :=
  ControllerOptions (co_site o) (co_host o) (co_port o) x (co_id o) (co_run_ms o) (co_persistent o) (co_quiet o)
    (co_print_snapshots o) (co_expect o) (co_stop_file o).
Definition set_id (x : string) (o : controller_options) : controller_options :=
  ControllerOptions (co_site o) (co_host o) (co_port o) (co_store o) x (co_run_ms o) (co_persistent o) (co_quiet
    o) (co_print_snapshots o) (co_expect o) (co_stop_file o).
Definition set_run_ms (x : Z) (o : controller_options) : controller_options :=
  ControllerOptions (co_site o) (co_host o) (co_port o) (co_store o) (co_id o) x (co_persistent o) (co_quiet o)
    (co_print_snapshots o) (co_expect o) (co_stop_file o).
Definition set_persistent (x : bool) (o : controller_options) : controller_options :=
  ControllerOptions (co_site o) (co_host o) (co_port o) (co_store o) (co_id o) (co_run_ms o) x (co_quiet o)
    (co_print_snapshots o) (co_expect o) (co_stop_file o).
Definition set_quiet (x : bool) (o : controller_options) : controller_options :=
  ControllerOptions (co_site o) (co_host o) (co_port o) (co_store o) (co_id o) (co_run_ms o) (co_persistent o) x
    (co_print_snapshots o) (co_expect o) (co_stop_file o).
Definition set_print_snapshots (x : bool) (o : controller_options) : controller_options :=
  ControllerOptions (co_site o) (co_host o) (co_port o) (co_store o) (co_id o) (co_run_ms o) (co_persistent o)
    (co_quiet o) x (co_expect o) (co_stop_file o).
Definition set_expect (x : list string) (o : controller_options) : controller_options :=
  ControllerOptions (co_site o) (co_host o) (co_port o) (co_store o) (co_id o) (co_run_ms o) (co_persistent o)
    (co_quiet o) (co_print_snapshots o) x (co_stop_file o).
Definition set_stop_file (x : string) (o : controller_options) : controller_options :=
  ControllerOptions (co_site o) (co_host o) (co_port o) (co_store o) (co_id o) (co_run_ms o) (co_persistent o)
    (co_quiet o) (co_print_snapshots o) (co_expect o) x.

Module ControllerTool.

Definition default_options : controller_options :=
  ControllerOptions "site-alpha" "127.0.0.1" 0 "" "controller-1" 0 false false false [] "".

(** One turn of the chain of comparisons in [parse]. *)
Definition effect_of (argument : string) : option (option_effect controller_options) :=
  if bool_decide (argument = "--site"%string) then Some (Takes set_site)
  else if bool_decide (argument = "--host"%string) then Some (Takes set_host)
  else if bool_decide (argument = "--port"%string) then Some (Takes (λ text, set_port (wrap 16 (strtoul text))))
  else if bool_decide (argument = "--id"%string) then Some (Takes set_id)
  else if bool_decide (argument = "--store"%string) then Some (Takes (λ text o, set_persistent true (set_store text o)))
  else if bool_decide (argument = "--expect"%string) then Some (Takes (λ text o, set_expect (co_expect o ++ [text]) o))
  else if bool_decide (argument = "--stop-file"%string) then Some (Takes set_stop_file)
  else if bool_decide (argument = "--run-ms"%string) then Some (Takes (λ text, set_run_ms (strtoll text)))
  else if bool_decide (argument = "--print"%string) then Some (Switch (set_print_snapshots true))
  else if bool_decide (argument = "--quiet"%string) then Some (Switch (set_quiet true))
  else None.

Definition parse (args : list string) : result string controller_options := parse_options effect_of args default_options.

Definition usage : list string :=
  ["usage: site_fabric_controller --port N [--host H] [--site S]";
   "       [--id NAME] [--store PATH] [--expect KIND:ID]...";
   "       [--stop-file PATH] [--run-ms N] [--print] [--quiet]"]%string.

(** * The configuration *)

Definition kDefaultMaxStoreBytes : Z := 64 * 1024 * 1024.
Definition kDefaultMaxStoreRecords : Z := 65536.

Definition expected_of (key : member_domain_key) : expected_member := ExpectedMember key false 0 zero_digest true.

(** The loop over [--expect]: the members, or the first text that names no domain. *)
Fixpoint expected_members (texts : list string) : result string (list expected_member) :=
  match texts with
  | [] => Ok []
  | text :: texts =>
      match mdk_parse text with
      | None => Err text
      | Some key => match expected_members texts with Ok ms => Ok (expected_of key :: ms) | Err e => Err e end
      end
  end.

Definition config_of (o : controller_options) (members : list expected_member) : controller_config :=
  ControllerConfig (co_site o) (SiteExpectation (co_site o) supported_schema 0 members false) (co_id o) (Incarnation 0 "")
    60000 64 true (co_persistent o)
    (StoreConfig (co_store o) kDefaultMaxStoreBytes kDefaultMaxStoreRecords kDefaultSnapshotHistory true)
    kDefaultSnapshotHistory true.

(** * The process *)

(** A turn of the watch: what the controller's threads did meanwhile, the milliseconds since
    the start, and whether the stop file can be opened. *)
Record watch_turn := WatchTurn {
  wt_events : list event;
  wt_elapsed_ms : Z;
  wt_stop_file : bool;
}.

(** What the process meets: the random boot nonce, what [start] takes, the port the listener is
    bound to, the turns of the watch, what the sessions still do while the controller stops,
    and whether the store's last flush succeeds. *)
Record controller_world := ControllerWorld {
  cw_boot : string;
  cw_environment : environment;
  cw_io : entry → commit;
  cw_bound : status;
  cw_bound_port : Z;
  cw_now : Z;
  cw_later : Z;
  cw_turns : list watch_turn;
  cw_closing : list event;
  cw_flushed : bool;
}.

(** How the process ends: with an exit code; not within the turns at hand; or by a crash of the
    composer. *)
Inductive controller_end : Type :=
| Exited (code : Z)
| Watching
| Crashed.

Record controller_run := ControllerRun {
  cr_out : list string;
  cr_err : list string;
  cr_end : controller_end;
  cr_node : option node;
}.

(** The controller before [start], or the exit code and the error output. *)
Definition prepare (args : list string) (boot : string) : result (Z * list string) (controller_options * controller) :=
  match parse args with
  | Err line => Err (2, line :: usage)
  | Ok o =>
      if co_port o =? 0 then Err (2, usage)
      else match expected_members (co_expect o) with
      | Err text => Err (2, ["invalid --expect: " +:+ text]%string)
      | Ok members =>
          match Controller.create (config_of o members) boot with
          | Err created => Err (3, ["controller refused: " +:+ to_string created]%string)
          | Ok c => Ok (o, c)
          end
      end
  end.

(** [endpoint()]. *)
Definition endpoint (o : controller_options) (port : Z) : string :=
  ((if bool_decide (co_host o = "") then "127.0.0.1" else co_host o) +:+ ":" +:+ dec port)%string.

(** The line of [--print], if there is a snapshot. *)
Definition snapshot_lines (c : controller) : list string :=
  match current_snapshot c with
  | Ok s => ["SNAPSHOT sequence=" +:+ dec (snap_sequence s) +:+ " lifecycle=" +:+ to_string (snap_lifecycle s)
             +:+ " " +:+ ledger_to_string (site_capacity (snap_state s))]%string
  | Err _ => []
  end.

(** Is the watch over at this turn? Nothing ever sets [g_stop]. *)
Definition watch_over (o : controller_options) (t : watch_turn) : bool :=
  ((0 <? co_run_ms o) && (co_run_ms o <=? wt_elapsed_ms t))
  || (negb (bool_decide (co_stop_file o = ""%string)) && wt_stop_file t).

(** The watch: the lines it prints, the node it leaves - [None] after a crash - and whether it
    is over. *)
Fixpoint watch (o : controller_options) (turns : list watch_turn) (n : node) : list string * option node * bool :=
  match turns with
  | [] => ([], Some n, false)
  | t :: turns =>
      match execute n (wt_events t) with
      | None => ([], None, false)
      | Some n =>
          if watch_over o t then ([], Some n, true)
          else
            let lines := if co_print_snapshots o then snapshot_lines (nd_controller n) else [] in
            let '(more, n, over) := watch o turns n in (lines ++ more, n, over)
      end
  end.

(** The report at the end, whatever [--quiet] says. *)
Definition final_lines (c : controller) : list string :=
  match current_snapshot c with
  | Ok s =>
      ["CONTROLLER_FINAL sequence=" +:+ dec (snap_sequence s) +:+ " lifecycle=" +:+ to_string (snap_lifecycle s)
       +:+ " complete=" +:+ word (snap_complete s) +:+ " members=" +:+ count (site_members (snap_state s));
       "CONTROLLER_CAPACITY " +:+ ledger_to_string (site_capacity (snap_state s))
       +:+ " closes=" +:+ word (cl_closes_exactly (site_capacity (snap_state s)))]%string
  | Err _ => ["CONTROLLER_FINAL sequence=0 lifecycle=UNKNOWN complete=false members=0"%string]
  end.

(** [stop]: the controller is halted, its sessions come to their end, the store is closed. *)
Definition stop_node (closing : list event) (flushed : bool) (n : node) : option (status * node) :=
  n ← execute (with_controller n (set_running false (nd_controller n))) closing;
  let '(stopped, c) := stop flushed (nd_controller n) in
  Some (stopped, with_controller n c).

Definition serve (o : controller_options) (c : controller) (w : controller_world) : controller_run :=
  match start (cw_environment w) (cw_io w) (cw_bound w) (cw_now w) (cw_later w) c with
  | None => ControllerRun [] [] Crashed None
  | Some (started, c) =>
      if negb (is_ok started)
      then ControllerRun [] ["controller failed to start: " +:+ to_string started]%string (Exited 4) (Some (Node c ∅))
      else
        let ready :=
          if co_quiet o then []
          else ["CONTROLLER_READY site=" +:+ co_site o +:+ " endpoint=" +:+ endpoint o (cw_bound_port w)
                +:+ " epoch=" +:+ dec (ct_epoch c) +:+ " incarnation=" +:+ incarnation_to_string (ct_incarnation c)]%string in
        let '(lines, n, over) := watch o (cw_turns w) (Node c ∅) in
        match n with
        | None => ControllerRun (ready ++ lines) [] Crashed None
        | Some n =>
            if negb over then ControllerRun (ready ++ lines) [] Watching (Some n)
            else
              let out := ready ++ lines ++ final_lines (nd_controller n) in
              match stop_node (cw_closing w) (cw_flushed w) n with
              | None => ControllerRun out [] Crashed None
              | Some (stopped, n) =>
                  if negb (is_ok stopped)
                  then ControllerRun out ["stop returned " +:+ to_string stopped]%string (Exited 5) (Some n)
                  else ControllerRun out [] (Exited 0) (Some n)
              end
        end
  end.

Definition main (args : list string) (w : controller_world) : controller_run :=
  match prepare args (cw_boot w) with
  | Err (code, lines) => ControllerRun [] lines (Exited code) None
  | Ok (o, c) => serve o c w
  end.

(** * What the options configure *)

Lemma expected_members_parsed texts ks :
  Forall2 (λ text k, mdk_parse text = Some k) texts ks → expected_members texts = Ok (expected_of <$> ks).
Proof. induction 1 as [|text k texts ks Hk _ IH]; [done|]. cbn [expected_members]. by rewrite Hk, IH. Qed.

Lemma parsed_valid texts ks :
  Forall2 (λ text k, mdk_parse text = Some k) texts ks → Forall (λ k, mdk_valid k = true) ks.
Proof.
  induction 1 as [|text k texts ks Hk _ IH]; constructor; [|done]. by apply (key_text_exact _ _ no_resource) in Hk as [_ Hk].
Qed.

Lemma adjacent_duplicate_NoDup l : adjacent_duplicate l = true → ¬ NoDup (em_domain <$> l).
Proof.
  induction l as [|m [|m' l] IH]; [done..|]. cbn [adjacent_duplicate fmap list_fmap]. intros [Hd|Hd]%orb_true_iff Hnd.
  - apply bool_decide_eq_true in Hd. apply NoDup_cons in Hnd as [Hn _]. apply Hn. rewrite Hd. by left.
  - apply NoDup_cons in Hnd as [_ Hnd]. by apply IH.
Qed.

Lemma strict_NoDup l : StronglySorted (key_lt em_domain) l → NoDup (em_domain <$> l).
Proof.
  induction 1 as [|m l _ IH Hf]; cbn [fmap list_fmap]; constructor; [|done]. intros Hin.
  apply list_elem_of_fmap in Hin as (m' & Heq & Hin). rewrite Forall_forall in Hf. specialize (Hf m' Hin).
  unfold key_lt, lt_key in Hf. rewrite Heq, (proj2 (cmp_eq_iff _ _) eq_refl) in Hf. done.
Qed.

Lemma check_members_expected l :
  Forall (λ m, mdk_valid (em_domain m) = true ∧ em_pinned m = false) l → check_members l = Status.OK.
Proof. induction 1 as [|m l [Hv Hp] _ IH]; [done|]. cbn [check_members]. by rewrite Hv, Hp. Qed.

Lemma expected_domains (ks : list member_domain_key) : em_domain <$> (expected_of <$> ks) = ks.
Proof. induction ks as [|k ks IH]; [done|]. cbn in *. by rewrite IH. Qed.

Lemma expectation_accepted site (ks : list member_domain_key) :
  is_valid_identifier site = true → Forall (λ k, mdk_valid k = true) ks → zlen ks ≤ kMaxExpectedMembers →
  let e := SiteExpectation site supported_schema 0 (expected_of <$> ks) false in
  expectation_canonicalize e
  = (if adjacent_duplicate (sort_by em_domain (expected_of <$> ks)) then Status.CONFLICTING else Status.OK,
     expectation_set_members e (sort_by em_domain (expected_of <$> ks))).
Proof.
  intros Hs Hv Hl e. unfold expectation_canonicalize. cbn [se_site se_schema se_members e]. rewrite Hs.
  change (compatible_with supported_schema supported_schema) with true. cbn [negb].
  assert (zlen (expected_of <$> ks) = zlen ks) as -> by (unfold zlen; by rewrite length_fmap).
  rewrite (proj2 (Z.ltb_ge _ _)) by done. destruct (adjacent_duplicate _); [done|]. f_equal.
  apply check_members_expected. rewrite sort_by_perm. apply Forall_fmap. eapply Forall_impl; [exact Hv|]. by intros k Hk.
Qed.

(** The controller tool takes its command line for what it says: with every [--expect]
    a member domain, the controller is created exactly when the site is an identifier and no
    domain is named twice nor more than the bound, and it then expects exactly the domains
    named, each required, none pinned, in canonical order. *)
Theorem controller_expects_arguments (args : list string) (boot : string) (o : controller_options) (ks : list member_domain_key) :
  parse args = Ok o → co_port o ≠ 0 → Forall2 (λ text k, mdk_parse text = Some k) (co_expect o) ks →
  ((∃ c, prepare args boot = Ok (o, c)) ↔
     is_valid_identifier (co_site o) = true ∧ NoDup ks ∧ zlen ks ≤ kMaxExpectedMembers)
  ∧ ∀ c, prepare args boot = Ok (o, c) →
      let e := cc_expectation (ct_config c) in
      se_site e = co_site o ∧ StronglySorted (key_lt em_domain) (se_members e) ∧ se_members e ≡ₚ expected_of <$> ks.
Proof.
  intros Hp Hport Hks. unfold prepare. rewrite Hp, (proj2 (Z.eqb_neq _ _) Hport), (expected_members_parsed _ _ Hks).
  unfold Controller.create. cbn [config_of cc_site cc_lease_ttl_ms cc_max_connections cc_snapshot_history cc_expectation se_site].
  destruct (is_valid_identifier (co_site o)) eqn:Hsite; cbn [negb].
  2:{ split; [|by intros c [= ]]. split; [by intros [c [= ]]|by intros [[= ] _]]. }
  change (60000 <=? 0) with false. change ((64 =? 0) || (kMaxConnections <? 64)) with false.
  change (kMaxSnapshotHistory <? kDefaultSnapshotHistory) with false. cbv iota.
  rewrite bool_decide_false by (intros Hempty; rewrite Hempty in Hsite; discriminate Hsite).
  destruct (decide (zlen ks ≤ kMaxExpectedMembers)) as [Hl|Hl].
  2:{ unfold expectation_canonicalize. cbn [se_site se_schema se_members]. rewrite Hsite.
      change (compatible_with supported_schema supported_schema) with true. cbn [negb].
      assert (zlen (expected_of <$> ks) = zlen ks) as -> by (unfold zlen; by rewrite length_fmap).
      rewrite (proj2 (Z.ltb_lt _ _)) by lia. rewrite bool_decide_false by done. cbn [negb].
      split; [|by intros c [= ]]. split; [by intros [c [= ]]|by intros (_ & _ & Hle)]. }
  rewrite (expectation_accepted _ _ Hsite (parsed_valid _ _ Hks) Hl).
  destruct (adjacent_duplicate _) eqn:Hd.
  - rewrite bool_decide_false by done. cbn [negb]. split; [|by intros c [= ]]. split; [by intros [c [= ]]|].
    intros (_ & Hnd & _). exfalso. apply adjacent_duplicate_NoDup in Hd. apply Hd. rewrite sort_by_perm.
    by rewrite expected_domains.
  - rewrite bool_decide_true by done. cbn [negb].
    assert (StronglySorted (key_lt em_domain) (sort_by em_domain (expected_of <$> ks))) as Hstrict
      by (apply adjacent_duplicate_strict; [apply sort_by_sorted|done]).
    split.
    + split; [|by eexists]. intros _. split; [done|]. split; [|done]. pose proof (strict_NoDup _ Hstrict) as Hnd.
      by rewrite sort_by_perm, expected_domains in Hnd.
    + intros c [= <-]. cbn [new_controller ct_config cc_expectation with_expectation expectation_set_members se_site se_members].
      split; [done|]. split; [done|]. apply sort_by_perm.
Qed.

Lemma controller_expects_arguments_witness :
  ∃ c, prepare ["--port"; "7000"; "--expect"; "RACK:rack-2"; "--expect"; "POD:pod-1"]%string "boot" = Ok
    (set_expect ["RACK:rack-2"; "POD:pod-1"]%string (set_port 7000 default_options), c).
Proof.
  apply (controller_expects_arguments _ _ _
    [MemberDomainKey MemberDomainKind.RACK "rack-2"; MemberDomainKey MemberDomainKind.POD "pod-1"]).
  - reflexivity.
  - discriminate.
  - repeat constructor; vm_compute; reflexivity.
  - split; [vm_compute; reflexivity|]. split; [|vm_compute; discriminate].
    apply NoDup_cons. split; [|apply NoDup_singleton]. intros H. apply list_elem_of_singleton in H. discriminate H.
Defined.

(** * The watch *)

Lemma execute_app events more : ∀ n, execute n (events ++ more) = (n' ← execute n events; execute n' more).
Proof.
  induction events as [|e events IH]; intros n; [done|]. cbn [app]. rewrite !execute_cons.
  destruct (step n e) as [n1|]; [exact (IH n1)|done].
Qed.

(** The watch is over at the first turn that says so, and only there; the node it leaves is
    what the events up to that turn made of it. *)
Lemma watch_spec o turns : ∀ n lines n1 over,
  watch o turns n = (lines, Some n1, over) →
  if over : bool
  then ∃ before t after, turns = before ++ t :: after ∧ Forall (λ t, watch_over o t = false) before ∧ watch_over o t = true
         ∧ execute n (concat (wt_events <$> before) ++ wt_events t) = Some n1
  else Forall (λ t, watch_over o t = false) turns ∧ execute n (concat (wt_events <$> turns)) = Some n1.
Proof.
  induction turns as [|t turns IH]; intros n lines n1 over; cbn [watch]; [by intros [= <- <- <-]|].
  destruct (execute n (wt_events t)) as [n'|] eqn:He; [|done]. destruct (watch_over o t) eqn:Ho.
  - intros [= <- <- <-]. exists [], t, turns. by split_and!.
  - specialize (IH n'). destruct (watch o turns n') as [[more n''] over'] eqn:Hw. cbv zeta. intros [= _ -> ->].
    specialize (IH _ _ _ eq_refl). destruct over.
    + destruct IH as (before & t' & after & -> & Hb & Ht & Hx). exists (t :: before), t', after.
      split; [done|]. split; [by constructor|]. split; [done|]. cbn [fmap list_fmap concat]. rewrite <- app_assoc, execute_app, He. exact Hx.
    + destruct IH as [Hb Hx]. split; [by constructor|]. cbn [fmap list_fmap concat]. by rewrite execute_app, He.
Qed.

Lemma stop_halts flushed c : (stop flushed c).1 = Status.OK ∧ ct_running (stop flushed c).2 = false
  ∧ from_option (λ st, st_handle st = false) True (ct_store (stop flushed c).2).
Proof.
  destruct c as [cfg auth chain st]. unfold stop. cbn [set_running ct_store]. destruct st as [st|]; [|by repeat split].
  unfold Store.close. destruct (st_handle st) eqn:Hh; [destruct flushed|]; cbn; rewrite ?Hh; by repeat split.
Qed.

(** C37: the controller tool stops when it is told to and only then. It ends well exactly after
    the first turn of its watch at which [--run-ms] has passed or the stop file is there: no
    earlier turn says so, no later one happens, and the node is what the events up to that
    turn and of the stop made of the started controller, halted and its store closed. It is
    still watching when no turn says so, and then every turn happened; so without either option
    it never ends. Beside that it refuses to start, with exit code 4, or the composer crashes;
    exit code 5 does not occur. *)
Theorem controller_watch_ends (args : list string) (w : controller_world) (o : controller_options) (c : controller) :
  prepare args (cw_boot w) = Ok (o, c) →
  let r := main args w in
  let starts c1 := ∃ started, start (cw_environment w) (cw_io w) (cw_bound w) (cw_now w) (cw_later w) c = Some (started, c1)
                     ∧ is_ok started = true in
  (cr_end r = Exited 0 → ∃ c1 before t after n n1,
     starts c1 ∧ cw_turns w = before ++ t :: after ∧ Forall (λ t, watch_over o t = false) before ∧ watch_over o t = true
     ∧ execute (Node c1 ∅) (concat (wt_events <$> before) ++ wt_events t) = Some n
     ∧ stop_node (cw_closing w) (cw_flushed w) n = Some (Status.OK, n1)
     ∧ cr_node r = Some n1 ∧ ct_running (nd_controller n1) = false
     ∧ from_option (λ st, st_handle st = false) True (ct_store (nd_controller n1)))
  ∧ (cr_end r = Watching → ∃ c1 n,
       starts c1 ∧ Forall (λ t, watch_over o t = false) (cw_turns w)
       ∧ execute (Node c1 ∅) (concat (wt_events <$> cw_turns w)) = Some n ∧ cr_node r = Some n)
  ∧ (co_run_ms o ≤ 0 → co_stop_file o = ""%string → cr_end r ≠ Exited 0)
  ∧ cr_end r ∈ [Exited 0; Exited 4; Watching; Crashed].
Proof.
  intros Hp r starts. subst r. unfold main. rewrite Hp. unfold serve.
  destruct (start _ _ _ _ _ c) as [[started c1]|] eqn:Hstart; [|cbn [cr_end]; split_and!; [done|done|done|set_solver]].
  destruct (is_ok started) eqn:Hok; cbn [negb]; [|cbn [cr_end]; split_and!; [done|done|done|set_solver]].
  assert (starts c1) as Hs by (by exists started).
  destruct (watch o (cw_turns w) _) as [[lines [n|]] over] eqn:Hw;
    [|cbn [cr_end]; split_and!; [done|done|done|set_solver]].
  apply watch_spec in Hw. destruct over; cbn [negb].
  2:{ cbn [cr_end cr_node]. destruct Hw as [Hall Hx]. split_and!; [done| |done|set_solver]. intros _. by exists c1, n. }
  destruct Hw as (before & t & after & Hturns & Hbefore & Ht & Hx).
  destruct (stop_node (cw_closing w) (cw_flushed w) n) as [[stopped n1]|] eqn:Hstop;
    [|cbn [cr_end]; split_and!; [done|done|done|set_solver]].
  pose proof Hstop as Hstop'. unfold stop_node in Hstop'. destruct (execute _ (cw_closing w)) as [n'|]; [|done].
  cbn [mbind option_bind] in Hstop'. pose proof (stop_halts (cw_flushed w) (nd_controller n')) as (Hst & Hr & Hh).
  destruct (stop _ _) as [stopped' c2]. cbn [fst snd] in *. subst stopped'. apply some_pair in Hstop' as [<- <-].
  change (negb (is_ok Status.OK)) with false. cbv iota. cbn [cr_end cr_node]. split_and!; [|done| |set_solver].
  - intros _. exists c1, before, t, after, n, (with_controller n' c2). by split_and!.
  - intros Hrun Hfile _. unfold watch_over in Ht. rewrite Hfile, (proj2 (Z.ltb_ge _ _)) in Ht by done.
    by rewrite bool_decide_true in Ht by done.
Qed.

(** A controller without members, stopped after 100 ms. *)
Definition sample_args : list string := ["--port"; "7000"; "--id"; "controller-1"; "--run-ms"; "100"]%string.
Definition sample_world : controller_world :=
  ControllerWorld "boot-1" (Environment Status.OK None None None Opened) (λ _, Committed) Status.OK 7000 1000 1001
    [WatchTurn [] 50 false; WatchTurn [] 100 false] [] true.

Lemma controller_watch_ends_witness :
  ∃ n, cr_node (main sample_args sample_world) = Some n ∧ ct_running (nd_controller n) = false.
Proof.
  assert (match prepare sample_args (cw_boot sample_world) with Ok _ => true | Err _ => false end = true) as Hp
    by (vm_compute; reflexivity).
  assert (cr_end (main sample_args sample_world) = Exited 0) as He by (vm_compute; reflexivity).
  destruct (prepare sample_args (cw_boot sample_world)) as [[o c]|] eqn:Hprep; [|discriminate Hp].
  destruct (controller_watch_ends sample_args sample_world o c Hprep) as [Hall _].
  destruct (Hall He) as (_ & _ & _ & _ & _ & n & _ & _ & _ & _ & _ & _ & Hn & Hr & _). exists n. split; [exact Hn|exact Hr].
Defined.

End ControllerTool.
