(* ===== verification/InspectTool.v ===== *)
(** The inspection tool (src/tools/inspect_main.cpp).

    Four modes: a generated scenario is composed and printed, a store file is read and
    summarised, a running controller is asked for its snapshot, and the versions are printed.
    What the process meets is an [inspect_world]; what it leaves is its output, the frames it
    wrote and how it ended. *)

From stdpp Require Import sorting sets gmap.
From S2P Require Import Prelude Ordering Enums Sha256 Identity Canonical Evidence Capacity Claims Codec Canonicalize Authority Forest Site SiteCodec Snapshot StoreFormat Store Protocol Samples Admit Attribute Domains Maintenance Ledger Verdicts Compose Invalidate Encodable Synthetic Controller Transport Execution Publisher CommandLine Display.

Module InspectTool.

Definition usage : list string :=
  ["usage: site_fabric_inspect scenario [--seed N] [--clusters N]";
   "                                 [--pods N] [--racks N] [--links N]";
   "                                 [--gateways N] [--domains N] [--json]";
   "       site_fabric_inspect store PATH";
   "       site_fabric_inspect controller [--host H] --port N [--site S]";
   "       site_fabric_inspect versions"]%string.

(** * What a process leaves *)

Inductive inspect_end : Type :=
| Exited (code : Z)
| Crashed.

Record inspect_run := InspectRun {
  ir_out : list string;
  ir_err : list string;
  ir_frames : list (message_type * bytes);
  ir_end : inspect_end;
}.

Definition exit (code : Z) (out err : list string) : inspect_run := InspectRun out err [] (Exited code).

(** What [%s] prints of a [std::string] given by [c_str]: the text up to its first zero byte. *)
Fixpoint c_str (text : string) : string :=
  match text with
  | EmptyString => EmptyString
  | String c rest => if (char_code c =? 0)%Z then EmptyString else String c (c_str rest)
  end.

(** * [print_site] *)

Definition json_lines (s : composed_site) : list string :=
  let quoted (text : string) : string := (String (Ascii.ascii_of_nat 34) text +:+ String (Ascii.ascii_of_nat 34) "")%string in
  let field (name value comma : string) : string := ("  " +:+ quoted name +:+ ": " +:+ value +:+ comma)%string in
  ["{"%string;
   field "site" (quoted (c_str (site_id s))) ",";
   field "epoch" (dec (site_epoch s)) ",";
   field "generation" (dec (site_generation s)) ",";
   field "lifecycle" (quoted (to_string (site_lifecycle_state s))) ",";
   field "status" (quoted (to_string (site_status s))) ",";
   field "membership_complete" (word (site_membership_complete s)) ",";
   field "members" (count (site_members s)) ",";
   field "conflicts" (count (site_conflicts s)) ",";
   field "deficits" (count (site_deficits s)) ",";
   field "capacity_closes" (word (cl_closes_exactly (site_capacity s))) ",";
   field "digest" (quoted (digest_to_string (composed_site_digest s))) "";
   "}"%string].

(** A heading and an indented line per item. *)
Definition section {A} (heading : string) (render : A → string) (items : list A) : list string :=
  [""%string; heading] ++ ((λ item, "  " +:+ c_str (render item))%string <$> items).

Definition site_lines (s : composed_site) : list string :=
  [c_str (explain s)]
  ++ section "members:" member_state_to_string (site_members s)
  ++ section "ownership:" attribution_to_string (site_ownership s)
  ++ section "capacity ledger:" ledger_entry_to_string (cl_entries (site_capacity s))
  ++ section "failure domains:" failure_domain_node_to_string (ff_nodes (site_failure_domains s))
  ++ section "maintenance:" effect_to_string (site_maintenance s)
  ++ section "obligations:" verdict_to_string (site_obligations s)
  ++ [""; "decisions: " +:+ count (site_decisions s); "site digest: " +:+ digest_to_string (composed_site_digest s)]%string.

Definition print_site (s : composed_site) (json : bool) : list string := if json then json_lines s else site_lines s.

(** * [scenario] *)

Record scenario_options := ScenarioOptions {
  sc_seed : Z;
  sc_clusters : Z;
  sc_pods : Z;
  sc_racks : Z;
  sc_links : Z;
  sc_gateways : Z;
  sc_domains : Z;
  sc_json : bool;
}.

Definition set_seed (x : Z) (o : scenario_options) : scenario_options :=
  ScenarioOptions x (sc_clusters o) (sc_pods o) (sc_racks o) (sc_links o) (sc_gateways o) (sc_domains o) (sc_json o).
Definition set_clusters (x : Z) (o : scenario_options) : scenario_options :=
  ScenarioOptions (sc_seed o) x (sc_pods o) (sc_racks o) (sc_links o) (sc_gateways o) (sc_domains o) (sc_json o).
Definition set_pods (x : Z) (o : scenario_options) : scenario_options :=
  ScenarioOptions (sc_seed o) (sc_clusters o) x (sc_racks o) (sc_links o) (sc_gateways o) (sc_domains o) (sc_json o).
Definition set_racks (x : Z) (o : scenario_options) : scenario_options :=
  ScenarioOptions (sc_seed o) (sc_clusters o) (sc_pods o) x (sc_links o) (sc_gateways o) (sc_domains o) (sc_json o).
Definition set_links (x : Z) (o : scenario_options) : scenario_options :=
  ScenarioOptions (sc_seed o) (sc_clusters o) (sc_pods o) (sc_racks o) x (sc_gateways o) (sc_domains o) (sc_json o).
Definition set_gateways (x : Z) (o : scenario_options) : scenario_options :=
  ScenarioOptions (sc_seed o) (sc_clusters o) (sc_pods o) (sc_racks o) (sc_links o) x (sc_domains o) (sc_json o).
Definition set_domains (x : Z) (o : scenario_options) : scenario_options :=
  ScenarioOptions (sc_seed o) (sc_clusters o) (sc_pods o) (sc_racks o) (sc_links o) (sc_gateways o) x (sc_json o).
Definition set_json (x : bool) (o : scenario_options) : scenario_options :=
  ScenarioOptions (sc_seed o) (sc_clusters o) (sc_pods o) (sc_racks o) (sc_links o) (sc_gateways o) (sc_domains o) x.

Definition default_scenario : scenario_options := ScenarioOptions 0x5F1E5FAB1234 3 2 3 4 2 3 false.

Definition scenario_effect (argument : string) : option (option_effect scenario_options) :=
  if bool_decide (argument = "--seed"%string) then Some (Takes (λ text, set_seed (strtoull text)))
  else if bool_decide (argument = "--clusters"%string) then Some (Takes (λ text, set_clusters (strtoul text)))
  else if bool_decide (argument = "--pods"%string) then Some (Takes (λ text, set_pods (strtoul text)))
  else if bool_decide (argument = "--racks"%string) then Some (Takes (λ text, set_racks (strtoul text)))
  else if bool_decide (argument = "--links"%string) then Some (Takes (λ text, set_links (strtoul text)))
  else if bool_decide (argument = "--gateways"%string) then Some (Takes (λ text, set_gateways (strtoul text)))
  else if bool_decide (argument = "--domains"%string) then Some (Takes (λ text, set_domains (strtoul text)))
  else if bool_decide (argument = "--json"%string) then Some (Switch (set_json true))
  else None.

(** [SyntheticConfig] with the members the options assign; the others keep their defaults. *)
Definition synthetic_config_of (o : scenario_options) : synthetic_config :=
  SyntheticConfig (sc_seed o) "site-alpha" (sc_clusters o) (sc_pods o) (sc_racks o) (sc_links o) (sc_gateways o) (sc_domains o)
    1 2 (400 * 1000 * 1000 * 1000) (100 * 1000 * 1000 * 1000) Provenance.REPORTED 1700000000000 60000 1 1
    true false false false false false false false false false false false false false false.

Definition inspect_scenario (args : list string) : inspect_run :=
  match parse_options scenario_effect args default_scenario with
  | Err line => exit 2 [] [line]
  | Ok o =>
      let cfg := synthetic_config_of o in
      match generate_synthetic_site cfg with
      | None => InspectRun [] [] [] Crashed
      | Some (status, generated) =>
          if negb (is_ok status) then exit 3 [] ["scenario refused: " +:+ to_string status]%string
          else match Compose.run (syn_input generated) with
          | Compose.Crashed => InspectRun [] [] [] Crashed
          | Refused composed => exit 3 [] ["compose refused: " +:+ to_string composed]%string
          | Composed site =>
              let heading :=
                if sc_json o then []
                else ["scenario seed=" +:+ dec (sc_seed o) +:+ " (SYNTHETIC fixture data, provenance "
                      +:+ to_string (sy_provenance cfg) +:+ ")"]%string in
              exit 0 (heading ++ print_site site (sc_json o)) []
          end
      end
  end.

(** * [store] *)

Definition store_lines (r : recovered) : list string :=
  let c := rc_contents r in
  ["recovery: " +:+ c_str (recovery_to_string (rc_report r))]%string
  ++ ((λ diagnostic, "  diagnostic: " +:+ c_str diagnostic)%string <$> rep_diagnostics (rc_report r))
  ++ ["snapshots=" +:+ count (co_snapshot_history c) +:+ " publications=" +:+ count (co_publications c)
      +:+ " retirements=" +:+ count (co_retirements c) +:+ " tombstones=" +:+ count (co_tombstones c)
      +:+ " leases=" +:+ count (co_leases c)]%string
  ++ match latest_snapshot c with
     | Some s => ("latest: " +:+ c_str (snapshot_to_string s))%string :: print_site (snap_state s) false
     | None => []
     end.

(** [f] is the file at the path, [env] what reading it meets. *)
Definition inspect_store (env : environment) (f : file) : inspect_run :=
  let r := Store.read_file env f in
  let status := rc_status r in
  if negb (is_ok status) && negb (bool_decide (status = Status.TRUNCATED))
  then exit 3 (store_lines r) ["store status: " +:+ to_string status]%string
  else exit 0 (store_lines r) [].

(** * [controller] *)

Record query_options := QueryOptions { qo_host : string; qo_port : Z; qo_site : string }.
Definition default_query : query_options := QueryOptions "127.0.0.1" 0 "site-alpha".
Definition query_effect (argument : string) : option (option_effect query_options) :=
  if bool_decide (argument = "--host"%string) then Some (Takes (λ text o, QueryOptions text (qo_port o) (qo_site o)))
  else if bool_decide (argument = "--port"%string)
  then Some (Takes (λ text o, QueryOptions (qo_host o) (wrap 16 (strtoul text)) (qo_site o)))
  else if bool_decide (argument = "--site"%string) then Some (Takes (λ text o, QueryOptions (qo_host o) (qo_port o) text))
  else None.

Definition inspector : member_domain_key := MemberDomainKey MemberDomainKind.SHARED_RESOURCE "inspector".
Definition query_config (o : query_options) : publisher_config :=
  PublisherConfig (qo_port o) (qo_site o) inspector "inspector" (Incarnation 0 "inspect") supported_schema 10000 5000.

(** What the process meets: the outcome of connecting and the wires of the hello and the fetch,
    and the store file with what reading it meets; and how the library was built. *)
Record inspect_world := InspectWorld {
  iw_opened : status;
  iw_hello : wire;
  iw_fetch : wire;
  iw_environment : environment;
  iw_file : string → file;
  iw_release : bool;
}.

(** [response.has_snapshot] and the snapshot of a reply. *)
Definition fetched_snapshot (o : delivery fetch_site_response) : option site_snapshot :=
  match o with Replied m => if fp_has_snapshot m then fp_snapshot m else None | _ => None end.

Definition inspect_controller (args : list string) (w : inspect_world) : inspect_run :=
  match parse_options query_effect args default_query with
  | Err line => exit 2 [] [line]
  | Ok o =>
      if (qo_port o =? 0)%Z then exit 2 [] usage
      else match Publisher.create (query_config o) with
      | Err created => exit 3 [] ["publisher refused: " +:+ to_string created]%string
      | Ok p =>
          let '(connected, greeting, p) := connect (iw_opened w) (iw_hello w) p in
          if negb (is_ok connected)
          then InspectRun [] ["connect failed: " +:+ to_string connected]%string (omap id [greeting]) (Exited 4)
          else
            let '(response, request, p) := fetch_site (iw_fetch w) 0 p in
            let fetched := returned fp_status response in
            let frames := omap id [greeting; request] in
            match fetched_snapshot response with
            | Some s =>
                if negb (is_ok fetched)
                then InspectRun [] ["snapshot unavailable: " +:+ to_string fetched]%string frames (Exited 5)
                else InspectRun (("snapshot: " +:+ c_str (snapshot_to_string s))%string :: print_site (snap_state s) false) []
                       frames (Exited 0)
            | None => InspectRun [] ["snapshot unavailable: " +:+ to_string fetched]%string frames (Exited 5)
            end
      end
  end.

(** * [main] *)

Definition main (args : list string) (w : inspect_world) : inspect_run :=
  match args with
  | [] => exit 2 [] usage
  | mode :: args =>
      if bool_decide (mode = "scenario"%string) then inspect_scenario args
      else if bool_decide (mode = "store"%string) then
        match args with [] => exit 2 [] usage | path :: _ => inspect_store (iw_environment w) (iw_file w path) end
      else if bool_decide (mode = "controller"%string) then inspect_controller args w
      else if bool_decide (mode = "versions"%string) then exit 0 [build_description (iw_release w); format_versions] []
      else exit 2 [] usage
  end.

(** * What inspection may do *)

(** At most a hello and a request for the site, in this order. *)
Definition only_asks (frames : list (message_type * bytes)) : Prop :=
  ∃ greeting request : reply,
    frames = omap id [greeting; request]
    ∧ from_option (λ m, m.1 = MessageType.HELLO_REQUEST) True greeting
    ∧ from_option (λ m, m.1 = MessageType.FETCH_SITE_REQUEST) True request.

(** A run that ends by itself in [mode], without the network unless it queries a controller. *)
Definition harmless (mode : option string) (r : inspect_run) : Prop :=
  only_asks (ir_frames r)
  ∧ (ir_frames r ≠ [] → mode = Some "controller"%string)
  ∧ (ir_end r = Crashed → mode = Some "scenario"%string)
  ∧ (∀ c, ir_end r = Exited c → c ∈ [0; 2; 3; 4; 5]).

Lemma exit_harmless mode code out err : code ∈ [0; 2; 3; 4; 5] → harmless mode (exit code out err).
Proof. intros Hc. split; [by exists None, None|]. split; [done|]. split; [done|]. by intros c [= <-]. Qed.

Lemma asks_harmless code out err greeting request :
  code ∈ [0; 2; 3; 4; 5] → from_option (λ m, m.1 = MessageType.HELLO_REQUEST) True greeting →
  from_option (λ m, m.1 = MessageType.FETCH_SITE_REQUEST) True request →
  harmless (Some "controller"%string) (InspectRun out err (omap id [greeting; request]) (Exited code)).
Proof. intros Hc Hg Hr. split; [by exists greeting, request|]. split; [done|]. split; [done|]. by intros c [= <-]. Qed.

Ltac listed := repeat first [left; reflexivity | right].

Lemma scenario_harmless args : harmless (Some "scenario"%string) (inspect_scenario args).
Proof.
  assert (harmless (Some "scenario"%string) (InspectRun [] [] [] Crashed)) as Hcrash by (split; [by exists None, None|by split_and!]).
  unfold inspect_scenario. destruct (parse_options _ _ _) as [o|]; [|apply exit_harmless; listed].
  destruct (generate_synthetic_site _) as [[status generated]|]; [|exact Hcrash].
  destruct (negb (is_ok status)); [apply exit_harmless; listed|].
  destruct (Compose.run _); [apply exit_harmless; listed|apply exit_harmless; listed|exact Hcrash].
Qed.

Lemma controller_harmless args w : harmless (Some "controller"%string) (inspect_controller args w).
Proof.
  unfold inspect_controller. destruct (parse_options _ _ _) as [o|]; [|apply exit_harmless; listed].
  destruct (qo_port o =? 0)%Z; [apply exit_harmless; listed|].
  destruct (Publisher.create _) as [p|]; [|apply exit_harmless; listed].
  destruct (connect _ _ p) as [[s greeting] p1] eqn:Hc. apply connect_writes in Hc.
  destruct (negb (is_ok s)).
  { apply (asks_harmless 4 _ _ greeting None); [listed|done|done]. }
  destruct (fetch_site _ 0 p1) as [[response request] p2] eqn:Hf. apply fetch_writes in Hf.
  destruct (fetched_snapshot response); [destruct (negb (is_ok _))|]; apply asks_harmless; first [done|solve [listed]].
Qed.

(** C38: inspecting publishes nothing: whatever the arguments and whatever the process meets, the
    only frames it writes are a hello and a request for the site, in this order, and only when
    it was asked to query a controller; and it ends with one of its exit codes unless it was
    asked for a scenario on which the generator or the composer crashes. *)
Theorem inspect_reads_only (args : list string) (w : inspect_world) : harmless (head args) (main args w).
Proof.
  destruct args as [|mode args]; cbn [main head]; [apply exit_harmless; listed|].
  case_bool_decide as Hs; [rewrite Hs; apply scenario_harmless|].
  case_bool_decide as Ht.
  { destruct args as [|path args]; [apply exit_harmless; listed|]. unfold inspect_store.
    destruct (_ && _); apply exit_harmless; listed. }
  case_bool_decide as Hc; [rewrite Hc; apply controller_harmless|]. case_bool_decide; apply exit_harmless; listed.
Qed.

(** The generator divides by a number of pods that wrapped to zero. *)
Lemma scenario_crashes w :
  ir_end (main ["scenario"; "--clusters"; "4294967296"; "--pods"; "4294967296"]%string w) = Crashed.
Proof. vm_compute. reflexivity. Qed.

End InspectTool.
