(* ===== verification/Sockets.v ===== *)
(** Sockets (src/transport/tcp.cpp): connections, listeners and the descriptors they own.

    What the operating system answers to each call is an argument; the descriptors that are open
    are a set, which [socket] and [accept] extend and [close] shrinks. Sending is given down to
    the single [send], so that a frame is on the wire exactly when the call says so. *)

From stdpp Require Import sorting sets gmap.
From S2P Require Import Prelude Ordering Enums Sha256 Identity Canonical Evidence Capacity Claims Codec Authority Forest Site SiteCodec StoreFormat Protocol Controller Transport.

(** * Descriptors and their owners *)

(** The open descriptors; a handle is one or none ([kInvalidSocket]). *)
Abbreviation descriptors := (gset Z) (only parsing).
Definition native_socket : Type := option Z.

Record tcp_connection := TcpConnection {
  tc_handle : native_socket;
  tc_last_error : Z;
}.
#[export] Instance tcp_connection_eq_dec : EqDecision tcp_connection.
Proof. solve_decision. Defined.
Record tcp_listener := TcpListener {
  tl_handle : native_socket;
  tl_host : string;
  tl_port : Z;
}.

Definition no_connection : tcp_connection := TcpConnection None 0.
Definition no_listener : tcp_listener := TcpListener None "" 0.

Definition close_socket (s : native_socket) (opened : descriptors) : descriptors :=
  match s with Some s => opened ∖ {[s]} | None => opened end.

Definition valid (c : tcp_connection) : bool := bool_decide (is_Some (tc_handle c)).
Definition close (c : tcp_connection) (opened : descriptors) : tcp_connection * descriptors :=
  (TcpConnection None (tc_last_error c), close_socket (tc_handle c) opened).
Definition adopt (s : native_socket) (c : tcp_connection) (opened : descriptors) : tcp_connection * descriptors :=
  let '(c, opened) := close c opened in (TcpConnection s (tc_last_error c), opened).

(** The move constructor: the new connection and what is left of the old one. *)
Definition move_construct (other : tcp_connection) : tcp_connection * tcp_connection :=
  (TcpConnection (tc_handle other) (tc_last_error other), no_connection).
(** The move assignment between two objects; to itself it does nothing. *)
Definition move_assign (c other : tcp_connection) (opened : descriptors) : tcp_connection * tcp_connection * descriptors :=
  let '(_, opened) := close c opened in
  (TcpConnection (tc_handle other) (tc_last_error other), no_connection, opened).

Definition listener_valid (l : tcp_listener) : bool := bool_decide (is_Some (tl_handle l)).
Definition listener_close (l : tcp_listener) (opened : descriptors) : tcp_listener * descriptors :=
  (TcpListener None (tl_host l) (tl_port l), close_socket (tl_handle l) opened).
Definition listener_endpoint (l : tcp_listener) : string := (tl_host l +:+ ":" +:+ dec (tl_port l))%string.

(** ** Start-up, a count *)

(** Both [listen_on] and [connect_with_retry] start with it; outside Windows it always answers
    OK and nothing else reads the count. *)
Definition network_startup (count : Z) : status * Z := (Status.OK, count + 1).
Definition network_shutdown (count : Z) : Z := if count =? 0 then 0 else count - 1.

(** * Timeouts *)

(** [set_timeout]: the [timeval] of a timeout, whose zero would mean to wait for ever. The
    divisions truncate towards zero. *)
Definition timeval_of (timeout_ms : Z) : Z * Z :=
  let sec := Z.quot timeout_ms 1000 in
  let usec := Z.rem timeout_ms 1000 * 1000 in
  if (sec =? 0) && (usec =? 0) then (sec, 1000) else (sec, usec).

(** A timeout of the configuration waits for itself; none waits for ever. *)
Lemma timeval_exact timeout_ms : 0 < timeout_ms →
  let '(sec, usec) := timeval_of timeout_ms in
  0 ≤ sec ∧ 0 ≤ usec < 1000000 ∧ sec * 1000000 + usec = timeout_ms * 1000.
Proof.
  intros Ht. unfold timeval_of. rewrite Z.quot_div_nonneg, Z.rem_mod_nonneg by lia.
  pose proof (Z.div_mod timeout_ms 1000 ltac:(done)). pose proof (Z.mod_pos_bound timeout_ms 1000 ltac:(done)).
  destruct (Z.eqb_spec (timeout_ms / 1000) 0), (Z.eqb_spec (timeout_ms mod 1000 * 1000) 0); cbn [andb]; lia.
Qed.

(** * Sending *)

(** What [send] answers: it put some bytes, a signal came first, or it failed, a timeout
    included. *)
Inductive send_outcome : Type :=
| Put (n : Z)
| Interrupted
| SendFailed.

Definition kMaxChunk : Z := 2 ^ 20.

(** [send] puts at least one byte and at most what it is given. *)
Definition bytes_put (n : Z) (data : bytes) : nat := Z.to_nat (Z.max 1 (Z.min n (Z.min kMaxChunk (zlen data)))).

(** The loop of [write_all]: the status and the bytes the socket took. When the outcomes run
    out the next [send] waits until its timeout. *)
Fixpoint write_from (data : bytes) (outcomes : list send_outcome) : status * bytes :=
  match data with
  | [] => (Status.OK, [])
  | _ =>
      match outcomes with
      | [] => (Status.TRUNCATED, [])
      | Put n :: outcomes =>
          let '(s, more) := write_from (drop (bytes_put n data) data) outcomes in
          (s, take (bytes_put n data) data ++ more)
      | Interrupted :: outcomes => write_from data outcomes
      | SendFailed :: _ => (Status.TRUNCATED, [])
      end
  end.

Definition with_error (e : Z) (c : tcp_connection) : tcp_connection := TcpConnection (tc_handle c) e.

Definition write_all (data : bytes) (outcomes : list send_outcome) (c : tcp_connection) : status * bytes * tcp_connection :=
  if negb (valid c) then (Status.STOPPED, [], c)
  else let '(s, written) := write_from data outcomes in (s, written, if is_ok s then c else with_error 2 c).

(** [send_frame]: nothing is written of a frame that cannot be encoded. *)
Definition send_frame (type : Z) (payload : bytes) (outcomes : list send_outcome) (c : tcp_connection)
    : status * bytes * tcp_connection :=
  if (type =? 0) || (enum_code MessageType.PONG <? type) then (Status.UNSUPPORTED, [], c)
  else match encode_frame (default MessageType.UNKNOWN (enum_of_code type)) payload 0 with
  | Err encoded => (encoded, [], c)
  | Ok frame => write_all frame outcomes c
  end.

(** ** Discarding *)

(** [drain]: what each [recv] brings is a number of bytes, none or an error ends it. *)
Fixpoint drain_from (max_bytes drained : Z) (gots : list Z) : Z :=
  if drained <? max_bytes then
    match gots with
    | [] => drained
    | got :: gots => if got <=? 0 then drained else drain_from max_bytes (drained + Z.min got 1024) gots
    end
  else drained.
Definition drain (max_bytes : Z) (gots : list Z) (c : tcp_connection) : status * Z :=
  if negb (valid c) then (Status.STOPPED, 0) else (Status.OK, drain_from max_bytes 0 gots).

(** [peer]: the address [getpeername] gives and [inet_ntop] prints. *)
Definition peer (address : option (string * Z)) (c : tcp_connection) : string :=
  if negb (valid c) then ""%string
  else match address with Some (text, port) => (text +:+ ":" +:+ dec port)%string | None => ""%string end.

(** * Connecting *)

Section connecting.
(** The descriptor [socket] gives to each attempt, whether [inet_pton] takes the host for an
    address, and whether [connect] succeeds. *)
Context (socket : nat → native_socket) (address_ok : bool) (connects : nat → bool).

Fixpoint attempt_from (remaining i : nat) (last : status) (out : tcp_connection) (opened : descriptors)
    : status * tcp_connection * descriptors :=
  match remaining with
  | O => (last, out, opened)
  | S remaining =>
      match socket i with
      | None => attempt_from remaining (S i) Status.UNSUPPORTED out opened
      | Some s =>
          let opened := {[s]} ∪ opened in
          if negb address_ok then attempt_from remaining (S i) Status.INVALID out (close_socket (Some s) opened)
          else if connects i then
            let '(out, opened) := close out opened in
            let '(out, opened) := adopt (Some s) out opened in (Status.OK, out, opened)
          else attempt_from remaining (S i) Status.NOT_FOUND out (close_socket (Some s) opened)
      end
  end.

(** The timeout of the caller is not used. *)
Definition connect_with_retry (attempts : Z) (out : tcp_connection) (opened : descriptors)
    : status * tcp_connection * descriptors :=
  attempt_from (Z.to_nat (Z.max 1 attempts)) 0 Status.STOPPED out opened.
End connecting.

(** * Listening and accepting *)

(** A candidate of [getaddrinfo]: the descriptor [socket] gives and whether [bind] succeeds. *)
Fixpoint bind_first (candidates : list (native_socket * bool)) (opened : descriptors) : native_socket * descriptors :=
  match candidates with
  | [] => (None, opened)
  | (None, _) :: candidates => bind_first candidates opened
  | (Some s, bound) :: candidates =>
      let opened := {[s]} ∪ opened in
      if bound : bool then (Some s, opened) else bind_first candidates (close_socket (Some s) opened)
  end.

(** [resolved] are the candidates; [listens] says whether [listen] succeeds; [name] is the
    answer of [getsockname], the port of an IPv4 address if it is one. *)
Definition listen_on (host : string) (port : Z) (resolved : option (list (native_socket * bool))) (listens : bool)
    (name : option (option Z)) (out : tcp_listener) (opened : descriptors) : status * tcp_listener * descriptors :=
  match resolved with
  | None => (Status.INVALID, out, opened)
  | Some candidates =>
      let '(s, opened) := bind_first candidates opened in
      match s with
      | None => (Status.INVALID, out, opened)
      | Some _ =>
          if negb listens then (Status.INVALID, out, close_socket s opened)
          else match name with
          | None => (Status.INVALID, out, close_socket s opened)
          | Some bound =>
              let '(_, opened) := listener_close out opened in
              (Status.OK, TcpListener s (if bool_decide (host = ""%string) then "127.0.0.1" else host) (default port bound), opened)
          end
      end
  end.

(** [accept]: a descriptor, or none, after a signal or for another reason. *)
Definition accept (accepted : native_socket) (interrupted : bool) (l : tcp_listener) (out : tcp_connection) (opened : descriptors)
    : status * tcp_connection * descriptors :=
  if negb (listener_valid l) then (Status.STOPPED, out, opened)
  else match accepted with
  | None => (if interrupted then Status.BUSY else Status.STOPPED, out, opened)
  | Some s =>
      let opened := {[s]} ∪ opened in
      let '(out, opened) := close out opened in
      let '(out, opened) := adopt (Some s) out opened in (Status.OK, out, opened)
  end.

(** * What sending promises *)

Lemma bytes_put_range n data : data ≠ [] → (1 ≤ bytes_put n data ≤ length data)%nat.
Proof.
  intros Hd. unfold bytes_put, kMaxChunk, zlen. destruct data as [|b data]; [done|]. cbn [length]. lia.
Qed.

(** The socket took a prefix of the bytes, all of them exactly when the answer is OK. *)
Lemma write_from_spec outcomes : ∀ data,
  (write_from data outcomes).2 `prefix_of` data
  ∧ ((write_from data outcomes).1 = Status.OK ∧ (write_from data outcomes).2 = data
     ∨ (write_from data outcomes).1 = Status.TRUNCATED ∧ (length (write_from data outcomes).2 < length data)%nat).
Proof.
  induction outcomes as [|o outcomes IH]; intros [|b data]; cbn [write_from]; try (split; [done|by left]).
  - split; [apply prefix_nil|]. right. split; [done|]. cbn. lia.
  - destruct o as [n| |].
    + set (all := b :: data) in *. pose proof (bytes_put_range n all ltac:(done)) as Hr.
      specialize (IH (drop (bytes_put n all) all)).
      destruct (write_from (drop (bytes_put n all) all) outcomes) as [s more]. cbn [fst snd] in *.
      destruct IH as [[rest Hrest] IH]. split; [exists rest; by rewrite <- app_assoc, <- Hrest, take_drop|].
      destruct IH as [[-> ->]|[-> Hl]]; [left; by rewrite take_drop|right]. split; [done|].
      rewrite length_app, length_take. rewrite length_drop in Hl. lia.
    + apply IH.
    + split; [apply prefix_nil|]. right. split; [done|]. cbn. lia.
Qed.

(** Signals only delay: with no failure, as many successful calls as there are bytes suffice. *)
Lemma write_from_completes outcomes : ∀ data,
  SendFailed ∉ outcomes →
  (length data ≤ length (List.filter (λ o, match o with Put _ => true | _ => false end) outcomes))%nat →
  (write_from data outcomes).1 = Status.OK.
Proof.
  induction outcomes as [|o outcomes IH]; intros [|b data] Hf Hl; cbn [write_from]; try done; [cbn in Hl; lia|].
  apply not_elem_of_cons in Hf as [Hne Hf]. destruct o as [n| |]; [| |done].
  - set (all := b :: data) in *. pose proof (bytes_put_range n all ltac:(done)) as Hr.
    specialize (IH (drop (bytes_put n all) all) Hf). destruct (write_from _ outcomes) as [s more]. cbn [fst] in *.
    apply IH. rewrite length_drop. cbn in Hl. unfold all in *. cbn [length] in *. lia.
  - by apply IH.
Qed.

(** * Who owns the open descriptors *)

(** What a handle owns. *)
Definition owned (s : native_socket) : descriptors := match s with Some s => {[s]} | None => ∅ end.

(** A call that may replace the handle of its target keeps every other descriptor as it was,
    and the target owns what it opened; refused, it changes nothing. *)
Definition hands_over (s : status) (before after : native_socket) (opened opened' : descriptors) : Prop :=
  (s = Status.OK → is_Some after ∧ owned after ⊆ opened' ∧ owned after ## opened ∧ opened' ∖ owned after = opened ∖ owned before)
  ∧ (s ≠ Status.OK → after = before ∧ opened' = opened).

Lemma close_owned s (opened : descriptors) : close_socket s opened = opened ∖ owned s.
Proof. destruct s; cbn [close_socket owned]; [done|]. set_solver. Qed.
Lemma reopen_same (s : Z) (opened : descriptors) : s ∉ opened → close_socket (Some s) ({[s]} ∪ opened) = opened.
Proof. intros Hs. cbn [close_socket]. set_solver. Qed.
Lemma adopt_after_close s c (opened : descriptors) :
  adopt s (close c opened).1 (close c opened).2 = (TcpConnection s (tc_last_error c), opened ∖ owned (tc_handle c)).
Proof. unfold adopt, close. cbn [fst snd tc_handle tc_last_error close_socket]. by rewrite close_owned. Qed.
Lemma hands_over_new (s : Z) before (opened : descriptors) : s ∉ opened → owned before ⊆ opened →
  hands_over Status.OK before (Some s) opened (({[s]} ∪ opened) ∖ owned before).
Proof.
  intros Hs Hb. split; [intros _|done]. cbn [owned]. split; [done|]. split; [set_solver|]. split; [set_solver|].
  apply set_eq. intros x. destruct (decide (x = s)) as [->|]; set_solver.
Qed.
Lemma hands_over_refused s before (opened : descriptors) : s ≠ Status.OK → hands_over s before before opened opened.
Proof. by split. Qed.

Section owning.
Context (opened : descriptors).

Lemma attempts_own (socket : nat → native_socket) address_ok connects remaining : ∀ i last out,
  (∀ i s, socket i = Some s → s ∉ opened) → owned (tc_handle out) ⊆ opened → last ≠ Status.OK →
  let '(s, out', opened') := attempt_from socket address_ok connects remaining i last out opened in
  hands_over s (tc_handle out) (tc_handle out') opened opened'
  ∧ (s ≠ Status.OK → out' = out)
  ∧ (s = Status.OK ↔ address_ok = true ∧ ∃ j, (i ≤ j < i + remaining)%nat ∧ is_Some (socket j) ∧ connects j = true).
Proof.
  induction remaining as [|remaining IH]; intros i last out Hfresh Hout Hlast; cbn [attempt_from].
  - split; [by apply hands_over_refused|]. split; [done|]. split; [done|]. intros (_ & j & ? & _). lia.
  - assert (∀ P : nat → Prop, ¬ P i → (∃ j, (S i ≤ j < S i + remaining)%nat ∧ P j) ↔ (∃ j, (i ≤ j < i + S remaining)%nat ∧ P j)) as Hskip.
    { intros P Hi. split; intros (j & Hj & HP); exists j; (split; [|done]); [lia|].
      destruct (decide (j = i)) as [->|]; [done|lia]. }
    destruct (socket i) as [s|] eqn:Hs.
    + rewrite reopen_same by eauto. destruct address_ok; cbn [negb].
      2:{ specialize (IH (S i) Status.INVALID out Hfresh Hout ltac:(done)). destruct (attempt_from _ _ _ _ _ _ _ _) as [[st out'] op].
          destruct IH as (H1 & H2 & H3). split; [done|]. split; [done|]. rewrite H3. split; intros [[=] _]. }
      destruct (connects i) eqn:Hc.
      * pose proof (adopt_after_close (Some s) out ({[s]} ∪ opened)) as Ha. destruct (close out _) as [out1 op1]. cbn [fst snd] in Ha.
        rewrite Ha. split; [apply hands_over_new; eauto|]. split; [done|]. split; [|done]. intros _. split; [done|].
        exists i. rewrite Hs. repeat split; [lia|lia|by eexists|done].
      * specialize (IH (S i) Status.NOT_FOUND out Hfresh Hout ltac:(done)). destruct (attempt_from _ _ _ _ _ _ _ _) as [[st out'] op].
        destruct IH as (H1 & H2 & H3). split; [done|]. split; [done|]. rewrite H3, Hskip; [done|]. intros [_ ?]. congruence.
    + specialize (IH (S i) Status.UNSUPPORTED out Hfresh Hout ltac:(done)). destruct (attempt_from _ _ _ _ _ _ _ _) as [[st out'] op].
      destruct IH as (H1 & H2 & H3). split; [done|]. split; [done|]. rewrite H3, Hskip; [done|]. intros [[? ?] _]. congruence.
Qed.

Lemma bind_first_owns candidates : Forall (λ c : native_socket * bool, owned c.1 ## opened) candidates →
  match bind_first candidates opened with
  | (None, opened') => opened' = opened ∧ ∀ s, (Some s, true) ∉ candidates
  | (Some s, opened') => opened' = {[s]} ∪ opened ∧ s ∉ opened ∧ (Some s, true) ∈ candidates
  end.
Proof.
  induction candidates as [|[[s|] b] candidates IH]; intros Hf; cbn [bind_first].
  - split; [done|]. intros s. apply not_elem_of_nil.
  - apply Forall_cons in Hf as [Hs Hf]. cbn [fst owned] in Hs. specialize (IH Hf).
    destruct b; [split; [done|]; split; [set_solver|apply list_elem_of_here]|].
    rewrite reopen_same by set_solver. destruct (bind_first candidates opened) as [[s'|] op].
    + destruct IH as (-> & ? & ?). split; [done|]. split; [done|]. by apply list_elem_of_further.
    + destruct IH as (-> & Hn). split; [done|]. intros s'. apply not_elem_of_cons. split; [congruence|done].
  - apply Forall_cons in Hf as [_ Hf]. specialize (IH Hf). destruct (bind_first candidates opened) as [[s'|] op].
    + destruct IH as (-> & ? & ?). split; [done|]. split; [done|]. by apply list_elem_of_further.
    + destruct IH as (-> & Hn). split; [done|]. intros s'. apply not_elem_of_cons. split; [congruence|done].
Qed.
End owning.

(** C39: no call leaks a descriptor or closes one that is not its own. Connecting, listening and
    accepting, given descriptors that are not open yet, either answer OK, with their target
    owning the one new open descriptor and the one it owned before closed, or leave the target
    and the open descriptors as they were, however many attempts were made and wherever they
    failed. Connecting succeeds exactly when the host is an address and an attempt of the
    attempts asked for - at least one - gets a socket that connects; listening, exactly when a
    candidate binds, it listens and tells its name. *)
Theorem descriptors_owned (opened : descriptors) :
  (∀ socket address_ok connects attempts out s out' opened',
     (∀ i d, socket i = Some d → d ∉ opened) → owned (tc_handle out) ⊆ opened →
     connect_with_retry socket address_ok connects attempts out opened = (s, out', opened') →
     hands_over s (tc_handle out) (tc_handle out') opened opened'
     ∧ (s ≠ Status.OK → out' = out)
     ∧ (s = Status.OK ↔ address_ok = true
          ∧ ∃ i, (i < Z.to_nat (Z.max 1 attempts))%nat ∧ is_Some (socket i) ∧ connects i = true))
  ∧ (∀ host port candidates listens name out s out' opened',
       Forall (λ c : native_socket * bool, owned c.1 ## opened) candidates → owned (tl_handle out) ⊆ opened →
       listen_on host port (Some candidates) listens name out opened = (s, out', opened') →
       hands_over s (tl_handle out) (tl_handle out') opened opened'
       ∧ (s ≠ Status.OK → out' = out)
       ∧ (s = Status.OK ↔ (∃ d, (Some d, true) ∈ candidates) ∧ listens = true ∧ is_Some name))
  ∧ (∀ accepted interrupted l out s out' opened',
       owned accepted ## opened → owned (tc_handle out) ⊆ opened →
       accept accepted interrupted l out opened = (s, out', opened') →
       hands_over s (tc_handle out) (tc_handle out') opened opened'
       ∧ (s ≠ Status.OK → out' = out)
       ∧ (s = Status.OK ↔ listener_valid l = true ∧ is_Some accepted)).
Proof.
  split; [|split].
  - intros socket address_ok connects attempts out s out' opened' Hf Hout H.
    pose proof (attempts_own opened socket address_ok connects (Z.to_nat (Z.max 1 attempts)) 0 Status.STOPPED out Hf Hout ltac:(done)) as Ha.
    unfold connect_with_retry in H. rewrite H in Ha. destruct Ha as (H1 & H2 & H3). split; [done|]. split; [done|]. rewrite H3.
    split; intros (? & j & ? & ?); (split; [done|]); exists j; (split; [lia|done]).
  - intros host port candidates listens name out s out' opened' Hf Hout H. unfold listen_on in H.
    pose proof (bind_first_owns opened candidates Hf) as Hb. destruct (bind_first candidates opened) as [[d|] op].
    2:{ destruct Hb as (-> & Hn). injection H as <- <- <-. split; [by apply hands_over_refused|]. split; [done|].
        split; [done|]. intros ((d & Hd) & _). by apply Hn in Hd. }
    destruct Hb as (-> & Hd & Hin). rewrite reopen_same in H by done. destruct listens; cbn [negb] in H.
    2:{ injection H as <- <- <-. split; [by apply hands_over_refused|]. split; [done|]. split; [done|]. by intros (_ & [=] & _). }
    destruct name as [bound|].
    2:{ injection H as <- <- <-. split; [by apply hands_over_refused|]. split; [done|]. split; [done|]. by intros (_ & _ & [? [=]]). }
    unfold listener_close in H. rewrite close_owned in H. injection H as <- <- <-. split; [by apply hands_over_new|]. split; [done|].
    split; [intros _; repeat split; eauto|done].
  - intros accepted interrupted l out s out' opened' Hf Hout H. unfold accept in H. destruct (listener_valid l); cbn [negb] in H.
    2:{ injection H as <- <- <-. split; [by apply hands_over_refused|]. split; [done|]. split; [done|]. by intros [[=] _]. }
    destruct accepted as [d|].
    + pose proof (adopt_after_close (Some d) out ({[d]} ∪ opened)) as Ha. destruct (close out _) as [out1 op1]. cbn [fst snd] in Ha.
      rewrite Ha in H. injection H as <- <- <-. cbn [owned] in Hf. split; [apply hands_over_new; [set_solver|done]|]. split; [done|].
      split; [intros _; repeat split; eauto|done].
    + injection H as <- <- <-. split; [apply hands_over_refused; by destruct interrupted|]. split; [done|].
      split; [by destruct interrupted|]. by intros (_ & [? [=]]).
Qed.

(** Three attempts, of which the last connects, replace descriptor 3. *)
Lemma descriptors_owned_witness :
  connect_with_retry (λ _, Some 4) true (λ i, Nat.eqb i 2) 3 (TcpConnection (Some 3) 0) {[3; 7]} = (Status.OK, TcpConnection (Some 4) 0, {[4; 7]})
  ∧ hands_over Status.OK (Some 3) (Some 4) {[3; 7]} {[4; 7]}.
Proof.
  assert (connect_with_retry (λ _, Some 4) true (λ i, Nat.eqb i 2) 3 (TcpConnection (Some 3) 0) {[3; 7]}
    = (Status.OK, TcpConnection (Some 4) 0, {[4; 7]})) as Hrun by (vm_compute; reflexivity).
  split; [exact Hrun|]. destruct (descriptors_owned {[3; 7]}) as (Hc & _).
  destruct (Hc (λ _, Some 4) true (λ i, Nat.eqb i 2) 3 (TcpConnection (Some 3) 0) Status.OK (TcpConnection (Some 4) 0) {[4; 7]}) as (H & _).
  - intros _ d [= <-]. set_solver.
  - set_solver.
  - exact Hrun.
  - exact H.
Defined.

(** C26: a frame crosses a socket whole or not at all: whatever [send] does with it - parts of
    it, signals, failures, timeouts - [send_frame] answers OK exactly when the whole frame was
    taken in its order, and then a receiver to whom what was taken arrives, without long
    pauses, gets the message; otherwise what was taken, even if the connection then ends, never
    becomes a message. Signals alone never make it fail. *)
Theorem frame_whole_or_not_at_all (type : message_type) (payload : bytes) (outcomes : list send_outcome) (c : tcp_connection)
    (header_ms body_ms : Z) (arrivals : list arrival) (s : status) (written : bytes) (c' : tcp_connection) :
  send_frame (enum_code type) payload outcomes c = (s, written, c') → bytes_of arrivals = written →
  (s = Status.OK → prompt header_ms arrivals → header_ms ≤ body_ms →
     ∃ rest, receive header_ms body_ms arrivals = (Ok (type, payload), rest) ∧ bytes_of rest = [])
  ∧ (s ≠ Status.OK → ∀ message, (receive header_ms body_ms arrivals).1 ≠ Ok message)
  ∧ (∀ frame, encode_frame type payload 0 = Ok frame → valid c = true →
       (s = Status.OK ↔ written = frame)
       ∧ (SendFailed ∉ outcomes →
          (length frame ≤ length (List.filter (λ o, match o with Put _ => true | _ => false end) outcomes))%nat → s = Status.OK)).
Proof.
  intros Hsend Hb.
  assert (∀ p, receive_frame Status.STOPPED written = Err p → ∀ message, (receive header_ms body_ms arrivals).1 ≠ Ok message) as Hnone.
  { intros p Hp [ty body] Hr. destruct (receive header_ms body_ms arrivals) as [r rest] eqn:E. cbn [fst] in Hr. subst r.
    apply (receive_sound _ _ Status.STOPPED) in E. rewrite Hb in E. congruence. }
  unfold send_frame in Hsend. destruct (_ || _) eqn:Hty.
  { injection Hsend as <- <- <-. split; [done|]. split; [intros _; by eapply Hnone|].
    intros frame Hf. destruct type; try discriminate Hty; discriminate Hf. }
  rewrite enum_of_code_code in Hsend. cbn [default] in Hsend. change (id type) with type in Hsend.
  destruct (encode_frame type payload 0) as [frame|e] eqn:Hf.
  2:{ injection Hsend as <- <- <-. split; [|split; [intros _; by eapply Hnone|done]].
      intros ->. unfold encode_frame in Hf. destruct (negb _); [discriminate Hf|]. destruct (kMaxFrameBytes <? zlen payload); discriminate Hf. }
  unfold write_all in Hsend. destruct (valid c); cbn [negb] in Hsend.
  2:{ injection Hsend as <- <- <-. split; [done|]. split; [intros _; by eapply Hnone|]. intros ? _ [=]. }
  pose proof (write_from_spec outcomes frame) as [[missing Hpre] Hw]. pose proof (write_from_completes outcomes frame) as Hlive.
  destruct (write_from frame outcomes) as [s1 w1]. cbn [fst snd] in *. injection Hsend as <- <- <-.
  split; [|split].
  - intros -> Hp Hle. destruct Hw as [[_ ->]|[[=] _]].
    destruct (receive_prompt header_ms header_ms body_ms Status.STOPPED arrivals type payload [] Hp (Z.le_refl _) Hle) as (rest & Hr & Hrest & _).
    { rewrite Hb, <- (app_nil_r frame). by apply (receive_encoded _ _ _ 0). }
    by exists rest.
  - intros Hne. destruct Hw as [[? _]|[_ Hl]]; [done|]. eapply Hnone. eapply (receive_prefix _ type payload 0 frame w1 missing); try done.
    intros ->. rewrite app_nil_r in Hpre. rewrite Hpre in Hl. lia.
  - intros frame' [= <-] _. split; [|exact Hlive]. destruct Hw as [[-> ->]|[-> Hl]]; [done|]. split; [done|]. intros ->. lia.
Qed.

Lemma frame_whole_or_not_at_all_witness :
  ∃ frame rest, encode_frame MessageType.PING [] 0 = Ok frame
    ∧ receive 200 10000 [Bytes frame] = (Ok (MessageType.PING, []), rest).
Proof.
  assert (match encode_frame MessageType.PING [] 0 with
          | Ok frame => bool_decide (send_frame (enum_code MessageType.PING) [] [Put 20; Interrupted; Put 1000] (TcpConnection (Some 5) 0)
                                     = (Status.OK, frame, TcpConnection (Some 5) 0))
          | Err _ => false end = true) as Hrun by (vm_compute; reflexivity).
  destruct (encode_frame MessageType.PING [] 0) as [frame|]; [|discriminate Hrun]. apply bool_decide_eq_true in Hrun.
  destruct (frame_whole_or_not_at_all MessageType.PING [] [Put 20; Interrupted; Put 1000] (TcpConnection (Some 5) 0)
    200 10000 [Bytes frame] Status.OK frame (TcpConnection (Some 5) 0) Hrun) as (Hok & _).
  - cbn [bytes_of]. by rewrite app_nil_r.
  - destruct Hok as (rest & Hr & _); [reflexivity|by repeat constructor|lia|]. exists frame, rest. split; [reflexivity|exact Hr].
Defined.
