(* ===== verification/Files.v ===== *)
(** Files and the log (src/internal/files.cpp, src/internal/log.cpp).

    A disk is its regular files and its directories. A call is a function from what the C
    library and the system answer - how many bytes each [fwrite] and [fread] took, what
    [fopen], the flush, [rename] and [remove] said - to its status and to every disk it leaves
    behind on the way, which is what a reader meets after a kill. The store's own view of the
    same calls ([Store.read_image], [Store.write_file_atomic], [Store.truncate_file]) is refined
    by them. *)

From stdpp Require Import sorting sets gmap strings.
From S2P Require Import Prelude Ordering Enums Sha256 Identity Canonical Evidence Capacity Claims Codec Authority Forest Site SiteCodec Snapshot StoreFormat Store Display.

(** * The disk *)

Record disk := Disk {
  dk_files : gmap string bytes;
  dk_directories : gset string;
}.

Definition contents (d : disk) (path : string) : option bytes := dk_files d !! path.
Definition with_file (path : string) (data : bytes) (d : disk) : disk := Disk (<[path := data]> (dk_files d)) (dk_directories d).
Definition without_file (path : string) (d : disk) : disk := Disk (delete path (dk_files d)) (dk_directories d).
(** [std::filesystem::rename] of a file over another. *)
Definition moved (from to : string) (d : disk) : disk :=
  match contents d from with Some data => with_file to data (without_file from d) | None => d end.

Definition file_exists (path : string) (d : disk) : bool := bool_decide (is_Some (contents d path)).
Definition directory_exists (path : string) (d : disk) : bool := bool_decide (path ∈ dk_directories d).

(** [from_error_code] of a call that failed, [true], or not. *)
Definition from_error_code (code : bool) : status := if code then Status.INVALID else Status.OK.

(** * Reading *)

(** The loops over [fread] and [fwrite]: how many of [size] bytes they move; [0] ends them. *)
Fixpoint transferred (size so_far : nat) (calls : list nat) : nat :=
  if (so_far <? size)%nat then
    match calls with
    | [] => so_far
    | n :: calls =>
        let got := (n `min` (size - so_far))%nat in
        if (got =? 0)%nat then so_far else transferred size (so_far + got) calls
    end
  else so_far.

Record read_answers := ReadAnswers { ra_sized : bool; ra_opened : bool; ra_gots : list nat }.

(** The status and the buffer. *)
Definition read_file (a : read_answers) (path : string) (max_bytes : Z) (d : disk) : status * bytes :=
  match contents d path with
  | Some data =>
      if negb (ra_sized a) then (from_error_code true, [])
      else if max_bytes <? zlen data then (Status.LIMIT_EXCEEDED, [])
      else if negb (ra_opened a) then (Status.NOT_FOUND, [])
      else
        let read_total := transferred (length data) 0 (ra_gots a) in
        if (read_total =? length data)%nat then (Status.OK, take read_total data) else (Status.TRUNCATED, [])
  | None => (from_error_code true, [])
  end.

Definition file_size (sized : bool) (path : string) (d : disk) : result status Z :=
  match contents d path with
  | Some data => if sized then Ok (zlen data) else Err (from_error_code true)
  | None => Err (from_error_code true)
  end.

(** * Writing *)

(** [wa_reached] are the lengths at which the buffer of the stream reaches the file while it is
    written; [wa_left] is the length it has when the flush failed. *)
Record write_answers := WriteAnswers {
  wa_opened : bool;
  wa_puts : list nat;
  wa_reached : list nat;
  wa_synced : bool;
  wa_left : nat;
  wa_renamed : bool;
  wa_removed : bool;
}.

(** [sync_stream]: [fflush], then [fsync]. *)
Definition sync_stream (flushed synced : bool) : bool := if negb flushed then false else synced.

Definition discarded (a : write_answers) (path : string) (d : disk) : disk := if wa_removed a then without_file path d else d.

(** The status and the disks the call leaves behind, one after the other. *)
Definition write_file_atomic (a : write_answers) (path : string) (data : bytes) (d : disk) : status * list disk :=
  let temporary := (path +:+ ".tmp")%string in
  if negb (wa_opened a) then (Status.INVALID, [])
  else
    let written := transferred (length data) 0 (wa_puts a) in
    let held n := with_file temporary (take (n `min` written) data) d in
    let writing := held 0%nat :: (held <$> wa_reached a) in
    let short_write := negb (written =? length data)%nat in
    if short_write || negb (wa_synced a) then
      (if short_write then Status.TRUNCATED else Status.INVALID,
       writing ++ [held (wa_left a); discarded a temporary (held (wa_left a))])
    else if wa_renamed a then (Status.OK, writing ++ [held written; moved temporary path (held written)])
    else (from_error_code true, writing ++ [held written; discarded a temporary (held written)]).

(** The status, the bytes it says it wrote, and the disk: a failed flush leaves [wa_left]. *)
Definition append_file (a : write_answers) (path : string) (data : bytes) (d : disk) : status * Z * disk :=
  if negb (wa_opened a) then (Status.INVALID, 0, d)
  else
    let total := transferred (length data) 0 (wa_puts a) in
    let reached := if wa_synced a then total else (wa_left a `min` total)%nat in
    (if negb (total =? length data)%nat then Status.TRUNCATED else if wa_synced a then Status.OK else Status.INVALID,
     Z.of_nat total, with_file path (default [] (contents d path) ++ take reached data) d).

Definition sync_path (opened synced : bool) (path : string) (d : disk) : status :=
  if negb (opened && file_exists path d) then Status.NOT_FOUND else if synced then Status.OK else Status.INVALID.

(** * The other calls *)

Definition remove_file (failed : bool) (path : string) (d : disk) : status * disk :=
  if failed then (from_error_code true, d)
  else (if file_exists path d then Status.OK else Status.NOT_FOUND, without_file path d).

Definition rename_file (failed : bool) (from to : string) (d : disk) : status * disk :=
  if failed || negb (file_exists from d) then (from_error_code true, d) else (from_error_code false, moved from to d).

(** [std::filesystem::resize_file] cuts, or fills up with zeros. *)
Definition resized (length_ : Z) (data : bytes) : bytes :=
  take (Z.to_nat length_) data ++ replicate (Z.to_nat length_ - length data) Byte.x00.
Definition truncate_file (failed : bool) (path : string) (length_ : Z) (d : disk) : status * disk :=
  match contents d path with
  | Some data => if failed then (from_error_code true, d) else (from_error_code false, with_file path (resized length_ data) d)
  | None => (from_error_code true, d)
  end.

(** [created]: the directories [create_directories] leaves, and whether it reports an error. *)
Definition ensure_directory (path : string) (created : gset string * bool) (d : disk) : status * disk :=
  if bool_decide (path = ""%string) then (Status.OK, d)
  else if directory_exists path d then (Status.OK, d)
  else
    let d := Disk (dk_files d) (created.1) in
    if created.2 then (from_error_code true, d)
    else (if directory_exists path d then Status.OK else Status.INVALID, d).

(** * The log *)

Inductive log_level : Type := ERROR | WARN | INFO | DEBUG.
Definition log_level_code (l : log_level) : Z := match l with ERROR => 0 | WARN => 1 | INFO => 2 | DEBUG => 3 end.
Definition level_token (l : log_level) : string :=
  match l with ERROR => "ERROR" | WARN => "WARN" | INFO => "INFO" | DEBUG => "DEBUG" end.

(** The global level, and the file the operator named. *)
Record log_state := LogState { lg_level : log_level; lg_path : string }.
Definition log_initial : log_state := LogState WARN "".
Definition log_set_level (l : log_level) (g : log_state) : log_state := LogState l (lg_path g).
Definition log_set_file (path : string) (g : log_state) : log_state := LogState (lg_level g) path.

Inductive log_sink : Type := Stderr | LogFile (path : string).

(** The line and where it goes, if it goes anywhere; [opened]: the file of the log opens. *)
Definition log_message (l : log_level) (component message : string) (now_ms : Z) (opened : bool) (g : log_state)
    : option (log_sink * string) :=
  if log_level_code (lg_level g) <? log_level_code l then None
  else
    let line := (dec_signed now_ms +:+ " [" +:+ level_token l +:+ "] " +:+ component +:+ ": " +:+ message +:+ newline)%string in
    if bool_decide (lg_path g = ""%string) then Some (Stderr, line)
    else if negb opened then Some (Stderr, line)
    else Some (LogFile (lg_path g), line).

Definition log_error := log_message ERROR.
Definition log_warn := log_message WARN.
Definition log_info := log_message INFO.
Definition log_debug := log_message DEBUG.

(** * Lemmas *)

Lemma transferred_le size calls : ∀ so_far, (so_far ≤ size)%nat → (transferred size so_far calls ≤ size)%nat.
Proof.
  induction calls as [|n calls IH]; intros so_far Hd; cbn [transferred]; destruct (Nat.ltb_spec so_far size); try done.
  cbv zeta. destruct (n `min` (size - so_far) =? 0)%nat; [done|]. apply IH. lia.
Qed.

(** Calls that each move a byte or more finish as soon as there is one for each byte. *)
Lemma transferred_all size calls : ∀ so_far,
  (so_far ≤ size)%nat → Forall (λ n, 0 < n)%nat calls → (size - so_far ≤ length calls)%nat → transferred size so_far calls = size.
Proof.
  induction calls as [|n calls IH]; intros so_far Hd Hp Hl; cbn [transferred]; destruct (Nat.ltb_spec so_far size); cbn [length] in Hl; try lia.
  apply Forall_cons in Hp as [Hn Hp]. cbv zeta. destruct (Nat.eqb_spec (n `min` (size - so_far)) 0); [lia|]. apply IH; [lia|done|lia].
Qed.

Lemma temporary_ne (path : string) : (path +:+ ".tmp")%string ≠ path.
Proof.
  intros H. apply (f_equal String.length) in H. revert H. induction path as [|c path IH]; [done|]. cbn. intros H. apply IH. by injection H.
Qed.

Lemma contents_with_file path q data d : contents (with_file path data d) q = if decide (q = path) then Some data else contents d q.
Proof.
  unfold contents, with_file. cbn [dk_files]. destruct (decide (q = path)) as [->|]; [apply lookup_insert_eq|by apply lookup_insert_ne].
Qed.
Lemma contents_without_file path q d : contents (without_file path d) q = if decide (q = path) then None else contents d q.
Proof.
  unfold contents, without_file. cbn [dk_files]. destruct (decide (q = path)) as [->|]; [apply lookup_delete_eq|by apply lookup_delete_ne].
Qed.

(** Disks that differ in one file at most, and that file. *)
Definition only_differs (temporary : string) (d d' : disk) : Prop :=
  dk_directories d' = dk_directories d ∧ ∀ q, q ≠ temporary → contents d' q = contents d q.

Lemma held_differs temporary data d : only_differs temporary d (with_file temporary data d).
Proof. split; [done|]. intros q Hq. rewrite contents_with_file. by rewrite decide_False. Qed.
Lemma discarded_differs a temporary data d : only_differs temporary d (discarded a temporary (with_file temporary data d)).
Proof.
  unfold discarded. destruct (wa_removed a); [|apply held_differs]. split; [done|]. intros q Hq.
  by rewrite contents_without_file, decide_False, (proj2 (held_differs temporary data d)).
Qed.
Lemma writing_differs temporary data n reached d :
  Forall (only_differs temporary d) (with_file temporary (take (0 `min` n) data) d :: ((λ k, with_file temporary (take (k `min` n) data) d) <$> reached)).
Proof.
  constructor; [apply held_differs|]. apply Forall_fmap, Forall_forall. intros k _. apply held_differs.
Qed.

(** What the disk holds on the way, and in the end. *)
Lemma write_trace a path data d :
  let temporary := (path +:+ ".tmp")%string in
  let '(s, seen) := write_file_atomic a path data d in
  (s ≠ Status.OK → Forall (only_differs temporary d) seen)
  ∧ (s = Status.OK → ∃ before after, seen = before ++ [after] ∧ Forall (only_differs temporary d) before
       ∧ contents after path = Some data ∧ contents after temporary = None
       ∧ dk_directories after = dk_directories d
       ∧ ∀ q, q ≠ path → q ≠ temporary → contents after q = contents d q).
Proof.
  cbv zeta. unfold write_file_atomic. destruct (wa_opened a); cbn [negb]; [|by split].
  set (temporary := (path +:+ ".tmp")%string). set (written := transferred _ _ _).
  destruct (Nat.eqb_spec written (length data)) as [Hw|Hw]; cbn [negb orb].
  2:{ split; [intros _|done]. apply Forall_app. split; [apply writing_differs|]. repeat constructor; try apply held_differs; apply discarded_differs. }
  destruct (wa_synced a); cbn [negb].
  2:{ split; [intros _|done]. apply Forall_app. split; [apply writing_differs|]. repeat constructor; try apply held_differs; apply discarded_differs. }
  destruct (wa_renamed a).
  2:{ split; [intros _|done]. apply Forall_app. split; [apply writing_differs|]. repeat constructor; try apply held_differs; apply discarded_differs. }
  split; [done|intros _]. rewrite Hw, Nat.min_id, firstn_all.
  eexists (_ ++ [_]), _. split; [by rewrite <- app_assoc|].
  split; [apply Forall_app; split; [apply writing_differs|by repeat constructor; try apply held_differs]|].
  pose proof (temporary_ne path) as Hne. fold temporary in Hne. unfold moved.
  rewrite contents_with_file, decide_True by done.
  split; [by rewrite contents_with_file, decide_True|]. split; [rewrite contents_with_file, decide_False by done; by rewrite contents_without_file, decide_True|].
  split; [done|]. intros q Hq Hqt. rewrite contents_with_file, decide_False by done. rewrite contents_without_file, decide_False by done.
  by rewrite contents_with_file, decide_False.
Qed.

(** * Properties *)

(** C25: a file written with [write_file_atomic] survives a kill at any moment: on every disk
    the call leaves on its way, whatever the C library and the system answer, the file under
    its real name is either untouched or wholly the new one - the latter only once the call
    answers OK - so that the store loads the old contents or the new, never a part of them. No
    other file but the temporary one changes, in the end it is gone if the call succeeded, and
    a call that fails leaves the file as it was. The call succeeds when the stream opens, every
    write moves a byte and the flush and the rename succeed. *)
Theorem atomic_write_survives_kill (a : write_answers) (path : string) (data : bytes) (d : disk) (s : status) (seen : list disk) :
  write_file_atomic a path data d = (s, seen) →
  let final := default d (last seen) in
  let temporary := (path +:+ ".tmp")%string in
  (∀ killed, killed ∈ d :: seen →
     (contents killed path = contents d path ∨ s = Status.OK ∧ contents killed path = Some data)
     ∧ (∀ env, load env (contents killed path) = load env (contents d path) ∨ load env (contents killed path) = load env (Some data))
     ∧ dk_directories killed = dk_directories d
     ∧ ∀ q, q ≠ path → q ≠ temporary → contents killed q = contents d q)
  ∧ (s = Status.OK → contents final path = Some data ∧ contents final temporary = None)
  ∧ (s ≠ Status.OK → contents final path = contents d path)
  ∧ (wa_opened a = true → Forall (λ n, 0 < n)%nat (wa_puts a) → (length data ≤ length (wa_puts a))%nat →
     wa_synced a = true → wa_renamed a = true → s = Status.OK).
Proof.
  intros Hw final temporary. pose proof (write_trace a path data d) as Ht. cbv zeta in Ht. rewrite Hw in Ht. fold temporary in Ht.
  destruct Ht as [Hbad Hok]. pose proof (temporary_ne path) as Hne. fold temporary in Hne.
  assert (∀ killed, only_differs temporary d killed → contents killed path = contents d path) as Hsame.
  { intros killed [_ Hk]. apply Hk. congruence. }
  split; [|split; [|split]].
  - assert (∀ killed, killed ∈ d :: seen → only_differs temporary d killed
      ∨ s = Status.OK ∧ contents killed path = Some data ∧ dk_directories killed = dk_directories d
        ∧ ∀ q, q ≠ path → q ≠ temporary → contents killed q = contents d q) as Hall.
    { intros killed [->|Hin]%elem_of_cons; [by left|]. destruct (decide (s = Status.OK)) as [->|Hs].
      - destruct (Hok eq_refl) as (before & after & -> & Hb & ? & _ & ? & ?). apply elem_of_app in Hin as [Hin|Hin].
        + left. by eapply Forall_forall in Hb.
        + apply list_elem_of_singleton in Hin as ->. by right.
      - left. specialize (Hbad Hs). by eapply Forall_forall in Hbad. }
    intros killed Hk. destruct (Hall killed Hk) as [Hd|(-> & Hp & ? & ?)].
    + rewrite (Hsame _ Hd). destruct Hd as [? Hd]. split; [by left|]. split; [by left|]. split; [done|]. intros q _. apply Hd.
    + rewrite Hp. split; [by right|]. split; [by right|]. done.
  - intros ->. destruct (Hok eq_refl) as (before & after & -> & _ & ? & ? & _). unfold final. by rewrite last_snoc.
  - intros Hs. specialize (Hbad Hs). unfold final. destruct (last seen) as [x|] eqn:El; [|done]. cbn [default]. apply Hsame.
    apply last_Some_elem_of in El. by eapply Forall_forall in Hbad.
  - intros Ho Hp Hl Hs Hr. unfold write_file_atomic in Hw. rewrite Ho, Hs, Hr in Hw. cbn [negb] in Hw.
    rewrite transferred_all in Hw by (lia || done). rewrite Nat.eqb_refl in Hw. cbn [negb orb] in Hw. by injection Hw as <- _.
Qed.

(** What the store takes for the system's answers: [None] is no fault. *)
Definition fault (s : status) : option status := if is_ok s then None else Some s.
Definition store_answers (read written truncated : status) : environment :=
  Environment Status.OK (if bool_decide (read = Status.LIMIT_EXCEEDED) then None else fault read) (fault written) (fault truncated) Opened.

Definition outcome_of {A} (s : status) (a : A) : result status A := if is_ok s then Ok a else Err s.

Lemma read_answers_image a path max_bytes data d ws ts :
  contents d path = Some data → ra_sized a = true ∨ zlen data ≤ max_bytes →
  let '(rs, out) := read_file a path max_bytes d in
  read_image (store_answers rs ws ts) max_bytes data = outcome_of rs out
  ∧ (out = data ∧ rs = Status.OK ∧ zlen data ≤ max_bytes ∨ out = [] ∧ rs ≠ Status.OK).
Proof.
  intros Hd Hs. unfold read_file. rewrite Hd. unfold read_image, store_answers. cbn [env_read].
  destruct (Z.ltb_spec max_bytes (zlen data)) as [Hm|Hm].
  { destruct Hs as [->|?]; [|lia]. split; [done|by right]. }
  destruct (ra_sized a); cbn [negb]; [|split; [done|by right]].
  destruct (ra_opened a); cbn [negb]; [|split; [done|by right]]. cbv zeta.
  destruct (Nat.eqb_spec (transferred (length data) 0 (ra_gots a)) (length data)) as [->|]; [|split; [done|by right]].
  rewrite firstn_all. split; [done|by left].
Qed.

Lemma outcome_of_fault {A} s (a : A) : match fault s with Some e => Err e | None => Ok a end = outcome_of s a.
Proof. unfold fault, outcome_of. by destruct (is_ok s). Qed.

Lemma write_answered a path data d : (write_file_atomic a path data d).1 = Status.OK ∨ is_ok (write_file_atomic a path data d).1 = false.
Proof.
  unfold write_file_atomic. destruct (wa_opened a); cbn [negb]; [|by right]. cbv zeta.
  destruct (_ =? _)%nat; cbn [negb orb]; [|by right]. destruct (wa_synced a); cbn [negb]; [|by right].
  destruct (wa_renamed a); [by left|by right].
Qed.

(** The calls of this file implement what the store assumes of them. Whatever the C library
    and the system answer, there is an environment of the store's model - the one the statuses
    of the calls give - in which reading a file, writing it atomically and cutting its tail are
    the store's own operations on the bytes of that file, and which is without fault when the
    calls answer OK. And a read is bounded before anything is allocated: its buffer is the
    whole file, within the bound, or empty, the latter exactly when the read fails. *)
Theorem files_refine_store (reads : read_answers) (writes : write_answers) (cut_failed : bool) (path : string)
    (data image : bytes) (max_bytes length_ : Z) (d : disk) :
  contents d path = Some data → ra_sized reads = true ∨ zlen data ≤ max_bytes → 0 ≤ length_ ≤ zlen data →
  let '(rs, out) := read_file reads path max_bytes d in
  let '(ws, seen) := write_file_atomic writes path image d in
  let '(ts, cut) := truncate_file cut_failed path length_ d in
  let env := store_answers rs ws ts in
  read_image env max_bytes data = outcome_of rs out
  ∧ outcome_of ws (contents (default d (last seen)) path) = Store.write_file_atomic env image (Some data)
  ∧ outcome_of ts (contents cut path) = Store.truncate_file env length_ (Some data)
  ∧ (rs = Status.OK → ws = Status.OK → ts = Status.OK → env = sound_environment)
  ∧ (out = data ∧ rs = Status.OK ∧ zlen data ≤ max_bytes ∨ out = [] ∧ rs ≠ Status.OK).
Proof.
  intros Hd Hs Hl. destruct (truncate_file cut_failed path length_ d) as [ts cut] eqn:Ht.
  destruct (write_file_atomic writes path image d) as [ws seen] eqn:Hw.
  pose proof (read_answers_image reads path max_bytes data d ws ts Hd Hs) as Hr.
  destruct (read_file reads path max_bytes d) as [rs out]. destruct Hr as [Hr Hout]. cbv zeta.
  split; [exact Hr|]. split; [|split; [|split; [|exact Hout]]].
  - unfold Store.write_file_atomic, store_answers. cbn [env_write]. rewrite outcome_of_fault. unfold outcome_of.
    destruct (is_ok ws) eqn:Ew; [|done]. pose proof (write_trace writes path image d) as Hx. cbv zeta in Hx. rewrite Hw in Hx.
    destruct Hx as [_ Hx]. pose proof (write_answered writes path image d) as [Hok|Hno]; rewrite Hw in *; cbn [fst] in *; [|congruence]. destruct (Hx Hok) as (before & after & -> & _ & Hc & _).
    rewrite last_snoc. change (default d (Some after)) with after. by rewrite Hc.
  - unfold Store.truncate_file, store_answers. cbn [env_truncate]. rewrite outcome_of_fault. unfold truncate_file in Ht. rewrite Hd in Ht.
    destruct cut_failed; injection Ht as <- <-; [done|]. unfold outcome_of. cbn [is_ok from_error_code]. unfold from_error_code. cbn [is_ok].
    rewrite contents_with_file, decide_True by done. unfold resized. cbn [fmap option_fmap option_map].
    replace (Z.to_nat length_ - length data)%nat with 0%nat by (unfold zlen in Hl; lia). by rewrite app_nil_r.
  - intros -> -> ->. done.
Qed.

(** * Witnesses *)

Definition sample_disk : disk := with_file "store" [Byte.x01; Byte.x02] (Disk ∅ ∅).
Definition slow_writes : write_answers := WriteAnswers true [1; 1; 1]%nat [0; 2]%nat true 0 true true.
Definition full_device : write_answers := WriteAnswers true [2; 0]%nat [1]%nat true 0 true true.

Lemma atomic_write_survives_kill_witness :
  (∃ seen, write_file_atomic slow_writes "store" [Byte.x03; Byte.x04; Byte.x05] sample_disk = (Status.OK, seen)
     ∧ contents (default sample_disk (last seen)) "store" = Some [Byte.x03; Byte.x04; Byte.x05])
  ∧ (∃ seen, write_file_atomic full_device "store" [Byte.x03; Byte.x04; Byte.x05] sample_disk = (Status.TRUNCATED, seen)
     ∧ contents (default sample_disk (last seen)) "store" = Some [Byte.x01; Byte.x02]).
Proof.
  split.
  - destruct (write_file_atomic slow_writes "store" [Byte.x03; Byte.x04; Byte.x05] sample_disk) as [s seen] eqn:E.
    destruct (atomic_write_survives_kill _ _ _ _ s seen E) as (_ & Hok & _ & Hlive).
    assert (s = Status.OK) as -> by (apply Hlive; [reflexivity|repeat constructor; lia|cbn; lia|reflexivity|reflexivity]).
    exists seen. split; [reflexivity|]. by destruct (Hok eq_refl).
  - eexists. split; [vm_compute; reflexivity|].
    vm_compute. reflexivity.
Defined.

Lemma files_refine_store_witness :
  read_image (store_answers Status.OK Status.OK Status.OK) 100 [Byte.x01; Byte.x02] = Ok [Byte.x01; Byte.x02].
Proof.
  assert (contents sample_disk "store" = Some [Byte.x01; Byte.x02]) as Hd by reflexivity.
  pose proof (files_refine_store (ReadAnswers true true [1; 5]%nat) slow_writes false "store" [Byte.x01; Byte.x02] [Byte.x03] 100 1
    sample_disk Hd (or_introl eq_refl) ltac:(unfold zlen; cbn; lia)) as H.
  vm_compute in H. exact (proj1 H).
Defined.
